(* ===== verification/_CoqProject ===== *)
-Q . S2P
Prelude.v
CxxString.v
CxxTime.v
Utility.v
Request.v
RequestParser.v
RequestGrammar.v
RequestContent.v
Response.v
Config.v
Router.v
RequestHandler.v
Session.v
Connection.v
Server.v
Sds.v
SdsRefine.v
SdsText.v
HiredisFormat.v
HiredisReply.v
HiredisReader.v
HiredisReaderInput.v
HiredisReplyTree.v
HiredisReaderSpec.v
HiredisProtocol.v
HiredisReaderRefine.v
HiredisStream.v
Dict.v
DictSpec.v
HiredisContext.v
HiredisPipeline.v
Net.v
NetSpec.v
HiredisTests.v
Logger.v
Tools.v
Pool.v
Database.v
Redis3m.v
RedisClient.v
HiredisProgram.v
HiredisExamples.v
HiredisServerTests.v
HiredisVerdicts.v
Calendar.v
Datetime.v
Mysqlpp.v
MysqlppHandles.v
Routes.v
Site.v
Main.v
Async.v
Adapters.v
AsyncCommand.v
AsyncSpec.v
AsyncWake.v
AsyncConnect.v
AsyncAnswered.v
AsyncExamples.v
