(* ===== verification/Prelude.v ===== *)
(** * waspp: a verification development

    waspp is a web server in C++11: boost.asio connections feed an incremental
    request parser, a request handler answers with files or with route functions,
    the routes keep sessions in a signed cookie and their data in MySQL and Redis
    through pools of connections.  The repository carries hiredis, the C client of
    Redis, under [win/hiredis]; it is code of the repository and is modelled too.

    ** The parts and how they interact

    A connection ([src/src/connection.cpp], [connection_ssl.cpp]) reads bytes,
    hands them to the parser ([request_parser.hpp], [request_parser.cpp]), gives a
    complete request to the handler ([request_handler.cpp]) and writes the buffers
    of the response ([response.cpp]).  The handler decodes the target, asks the
    router ([router.cpp]) for a route function and otherwise reads a file of the
    document root.  The routes ([route_dir_*.cpp]) build a session ([session.cpp])
    over request and response, read pages, and take a connection of a shard
    ([database.cpp], [redis.cpp]) out of a pool ([dbconn_pool.cpp],
    [redis_pool.cpp], [spinlock.hpp]); statements and results are [mysqlpp*],
    commands and replies of Redis [redis3m.hpp] over hiredis contexts.  All of it
    reads the configuration ([config.cpp]) and writes to the log ([logger.cpp]).
    [main.cpp] initialises the four in order and runs the server ([server.cpp],
    [server_ssl.cpp]), which accepts the connections until a signal.  hiredis has
    asynchronous contexts ([async.c]) beside the blocking ones, and adapters that
    put them on the event loops of eight libraries ([adapters/*.h]).

    ** Files and what they model

    - Prelude, CxxString, CxxTime: bytes, machine integers, exceptions and undefined
      behaviour as values; [std::string], [strtol], [strtod] and streams as the
      source uses them.
    - Utility, Request, Response, Config, Router, RequestHandler: the functions of
      the files of the same names; a C++ object passed by reference is passed and
      returned.
    - RequestParser: each [case] of [request_parser::parse] is a definition, the two
      loops are [parse_loop] and [do_while].  RequestGrammar: the messages that the
      parser accepts.  RequestContent: [request_parser.cpp], the bodies, cookies and
      path segments of a complete request.
    - Session: [session.cpp].  Connection: the completion handlers as a state
      machine over [phase] and [event].  Server: the acceptor, the signals and all
      the connections, over one configuration.
    - Pool: the pools and their spin lock as interleaved steps of threads over a
      shared heap; Database: [database.cpp] and [redis.cpp], which are the same code
      over two kinds of pool (the class [PoolKind]).
    - Mysqlpp: parameters bound by address, columns, and who deletes statements;
      MysqlppHandles: the handles of the client library behind them.  Calendar,
      Datetime: [std::tm] and [mysqlpp::datetime].
    - Redis3m: the C++ client over hiredis contexts; RedisClient: from connecting
      over Net to its replies.
    - Routes: the route functions, as a state and exception monad over the models of
      the components they call; Site: the server over these routes.
    - Logger: the log's queue of tasks over a map of files.  Tools:
      [performance_checker.cpp], [url_conn.cpp].
    - Main: [main.cpp] over the configuration, the logger, the pools and the site.
    - Sds, SdsText: [sds.c]; SdsRefine: that it implements byte strings.
    - HiredisFormat, HiredisReply, HiredisReader, HiredisContext: [hiredis.c] and
      [read.c].  HiredisReaderInput, HiredisReplyTree, HiredisReaderSpec: what the
      reader's steps do; HiredisProtocol: the reply protocol as a pure machine;
      HiredisReaderRefine, HiredisStream, HiredisPipeline: that the reader computes
      the machine, for streams and for pipelines over a socket.
    - Net: [net.c] and the connecting functions of [hiredis.c], over a kernel and
      for both compilers ([Build]); NetSpec: the descriptors they own.
    - Dict: [dict.c]; DictSpec: that it implements a finite map.
    - Async, AsyncCommand, AsyncSpec: [async.c], its callbacks and their order.
      Adapters: [adapters/*.h], as instances of a class, over event loops that are
      another one.  AsyncAnswered: that every reply reaches its
      command when nothing fails.  AsyncWake: what a context has asked of its event loop;
      AsyncConnect: the connecting functions of [async.c] over Net, and the way from
      there to the loop.
    - HiredisTests: the tests of [test.c] and [sds.c] that need no server.
      HiredisProgram: programs over the library - a process, its sockets, who
      answers on them, what is printed - and what their calls do.  HiredisServerTests:
      the other tests of [test.c] and its [main]; HiredisVerdicts: their verdicts.
      HiredisExamples: [examples/example.c]; AsyncExamples: the examples of the
      adapters.

    ** How code becomes definitions

    A function returns [res A]: a value, a C++ exception ([Throw]), or behaviour the
    language gives no meaning to ([UB], with its cause).  [let*] is sequencing.
    Signed integers are [Z] with [int_result] where they may overflow, unsigned ones
    are wrapped; the platform is LP64 with signed [char].  State is passed
    explicitly, or by the monads [stres] (a state that an exception leaves as it is
    then; [st*], [leaves]), [net], [io] and [prog]; where threads, sockets or callbacks
    interleave there are steps over a shared state ([pool_step], [log_step],
    [server_step], [handle_event], [async_run]).  Memory of
    C code is a list of cells that are written or not ([Sds]), reply objects a heap
    with freed cells ([HiredisReply]), so that reading uninitialised memory, use
    after free and double free are [UB].

    Loops that are not structural carry fuel, and [no_fuel] is a cause of [UB] that
    the theorems show not to occur: the fuel is the number of bytes left for the
    parser and the text loops, [S rd_len] for the reply reader, the length of the
    queue for the log, one more than the retries allowed for connecting, and the
    events of the world for reads and writes that are interrupted.

    What is not in the repository is a parameter: the allocator ([Allocator]), the
    file system ([FileSystem], [Permissions]), MD5, gzip and boost's archives,
    property trees and JSON ([SessionEnv], [PropertyTree]), CRC32 ([Crc32]), the
    MySQL library ([Mysql], [prepared], [executed]), the kernel ([Kernel], [world]),
    event loops ([EventLoop]), libcurl ([Curl]), [strerror], [gai_strerror] and
    printf's conversions; [Outside] is what the process finds when it starts.  What a
    theorem relies on of them is a hypothesis or a class of laws ([SessionLaws],
    [EventLoopLaws]).

    ** What the theorems show

    - Parser: any segmentation of a request gives the result of the whole
      ([parse_segmentation]), rendered messages parse back ([parse_render]), the
      loops are a byte-at-a-time machine ([parse_is_feed]); bodies and cookies round
      trip; the undefined behaviours are exactly the known ones ([parser_safe]).
    - Server: a connection answers any cut of any sequence of messages as an abstract
      server does ([connection_refines]) and keeps its invariant; nothing outside
      the document root is read; every request gets a response with its length.
      The connections of the site do not see each other, in any interleaving
      ([site_isolates]); the first signal decides whether the server can be stopped
      ([first_signal_decides]).
    - Process: when it serves and with what, how it ends otherwise, and that the
      pools are closed by then ([main_fate]); what [main] says of a failure is in the
      log file ([failure_kept]).
    - Sessions and routes: [load] accepts exactly the signed, complete, fresh
      sessions; without a signed cookie the forum answers nothing
      ([forum_needs_signature]).
    - Log: no line is lost in any interleaving ([logger_keeps_lines]).
    - Pools: connections are neither lost nor shared nor used after deletion, in
      every interleaving ([pool_safe]); keys go to the shard of their residue.
    - MySQL: what a statement sends, what columns read back, that the handles of
      the library are closed once ([handles_returned]), that the routes' smart
      pointers delete twice ([routes_delete_twice]), and that a [datetime] is a date
      and a time whatever text it is made from ([datetime_typed]).
    - hiredis: strings and dictionaries refine lists and maps; the formatters write
      the request their format denotes; the reader refines the protocol machine, for
      any cut of the stream and any allocation failure; a pipeline over a socket
      that interrupts delivers every reply in order, and a client gets its own reply
      to each command ([client_answered]); asynchronous commands get one
      callback each, in order ([callbacks_in_order]), and their replies when the
      server answers and the system does not fail ([async_answered]); connecting owns exactly one
      descriptor, whatever the kernel answers ([connect_owns]); every adapter does
      what the hooks ask ([adapters_follow]), so that a context never waits for an
      event that its loop does not watch ([async_never_stalls]).  Programs over it:
      the example prints what its server says ([example_says]), and the test of a
      connection judges its server as the test means to ([verdicts_deserved]).

    Theorems that record a defect of the code, and examples that reach it, are kept
    beside the component: the manifest lists them as findings.

    ** Not modelled

    Resolving and binding the address of the server, its certificates and the
    cleanup of OpenSSL are outcomes of [Outside]; TLS, whose outcomes are events of a
    connection; the branches of Windows but for those of [net.c], and that
    [recv] and [send] leave [errno] alone there; the names that the tests of hiredis print, and
    the creation of the event loops of its examples.  Log lines are not effects of the components that
    write them, but for those of [main].  Races on the configuration's error table,
    which [err_msg] fills, and on the logger's members are findings, not part of the
    models: each reads them between two steps. *)
From Stdlib Require Export ZArith Lia.
From Corelib Require Export Init.Byte.
From Stdlib Require Strings.Byte Strings.String.
Export Stdlib.Strings.String.StringSyntax.
From stdpp Require Export base tactics countable option gmap list.
From stdpp Require strings.

#[global] Open Scope Z_scope.

(** ** Bytes and characters

    A C++ [char] is a byte; [uchar] is its value as [unsigned char] and
    [schar] its value as the (signed, x86) [char].  A [std::string] is the
    list of its bytes, NULs included. *)

Abbreviation byte := Byte.byte.
Abbreviation bytes := (list Byte.byte).

(** String literals: [str "GET"] is the byte list of the literal. *)
Definition str (s : String.string) : bytes := String.list_byte_of_string s.
Arguments str s%_string_scope.

Declare Scope cxx_scope.
Delimit Scope cxx_scope with cxx.

Notation "c =c d" := (Byte.eqb c d) (at level 70, no associativity) : cxx_scope.
#[global] Open Scope cxx_scope.

#[export] Instance byte_eq_dec : EqDecision byte := Byte.byte_eq_dec.

Definition uchar (c : byte) : Z := Z.of_N (Byte.to_N c).
Definition schar (c : byte) : Z := if uchar c <? 128 then uchar c else uchar c - 256.

(** Conversion of an integer to [char]: the low eight bits. *)
Definition char_of_Z (z : Z) : byte :=
  match Byte.of_N (Z.to_N (z mod 256)) with Some c => c | None => Byte.x00 end.

(** ** Machine integers *)

Definition wrap64 (z : Z) : Z := z mod 2 ^ 64.
Definition wrap32 (z : Z) : Z := (z + 2 ^ 31) mod 2 ^ 32 - 2 ^ 31.
Definition uwrap32 (z : Z) : Z := z mod 2 ^ 32.

Definition INT_MAX : Z := 2 ^ 31 - 1.
Definition LONG_MAX : Z := 2 ^ 63 - 1.
Definition LONG_MIN : Z := - 2 ^ 63.
Definition ULONG_MAX : Z := 2 ^ 64 - 1.

(** [std::size_t] arithmetic on x86-64: modulo 2^64. *)
Definition sz_add (a b : Z) : Z := wrap64 (a + b).
Definition sz_sub (a b : Z) : Z := wrap64 (a - b).

Definition npos : Z := 2 ^ 64 - 1.

Lemma wrap32_id z : - 2 ^ 31 <= z <= INT_MAX -> wrap32 z = z.
Proof. unfold wrap32, INT_MAX. intros H. rewrite Z.mod_small; lia. Qed.

Lemma wrap64_id z : 0 <= z < 2 ^ 64 -> wrap64 z = z.
Proof. apply Z.mod_small. Qed.

(** ** Exceptions and undefined behaviour

    [Throw e] is a C++ exception; [UB u] is an execution the language gives no
    meaning to, with its cause [u]. *)

Inductive exn : Type :=
  | out_of_range
  | runtime_error (what : bytes)
  | bad_lexical_cast
  | length_error
  | archive_exception
  | json_parser_error
  | mysqlpp_exception (what : bytes).

Inductive ub : Type :=
  | back_of_empty       (* back(), front() or pop_back() of an empty container *)
  | signed_overflow
  | index_out_of_bounds
  | division_by_zero
  | erase_of_end        (* erase(end()) *)
  | dangling_pointer
  | double_free
  | data_race
  | null_pointer
  | uninitialised_read
  | assertion_failed    (* a C assert: abort() *)
  | no_fuel.            (* not C++: the bound of a modelled loop was too small *)

Inductive res (A : Type) : Type :=
  | Ok (a : A)
  | Throw (e : exn)
  | UB (u : ub).
Arguments Ok {A} a.
Arguments Throw {A} e.
Arguments UB {A} u.

#[export] Instance res_ret : MRet res := fun A a => Ok a.
#[export] Instance res_bind : MBind res := fun A B f m =>
  match m with Ok a => f a | Throw e => Throw e | UB u => UB u end.

Definition is_ok {A} (r : res A) : bool := match r with Ok _ => true | _ => false end.
Definition no_ub {A} (r : res A) : Prop := match r with UB _ => False | _ => True end.

(** The value of a signed [int] expression whose exact value is [z]. *)
Definition int_result (z : Z) : res Z :=
  if (- 2 ^ 31 <=? z) && (z <=? INT_MAX) then Ok z else UB signed_overflow.

(** [f(v.back())] on a vector. *)
Fixpoint update_back {A} (f : A -> A) (l : list A) : res (list A) :=
  match l with
  | [] => UB back_of_empty
  | [x] => Ok [f x]
  | x :: l' =>
      match update_back f l' with Ok k => Ok (x :: k) | Throw e => Throw e | UB u => UB u end
  end.

Notation "'let*' x ':=' m 'in' k" := (mbind (M := res) (fun x => k) m)
  (at level 10, x pattern, m at level 100, k at level 200) : cxx_scope.

(** Code that changes a state: an exception leaves the state as it is then. *)
Definition stres (St A : Type) : Type := St -> res A * St.

Section StateAndExceptions.
Context {St : Type}.

Definition st_ret {A} (a : A) : stres St A := fun s => (Ok a, s).
Definition st_bind {A B} (m : stres St A) (f : A -> stres St B) : stres St B := fun s =>
  let (r, s) := m s in match r with Ok a => f a s | Throw e => (Throw e, s) | UB u => (UB u, s) end.
Definition st_lift {A} (m : res A) : stres St A := fun s => (m, s).
Definition st_get : stres St St := fun s => (Ok s, s).
Definition st_put (s : St) : stres St unit := fun _ => (Ok tt, s).

(** What holds of the outcome and the state that code leaves. *)
Definition leaves {A} (m : stres St A) (s : St) (Q : res A -> St -> Prop) : Prop := Q (m s).1 (m s).2.

Lemma leaves_bind {A B} (m : stres St A) (f : A -> stres St B) s R Q :
  leaves m s R -> (forall a s', R (Ok a) s' -> leaves (f a) s' Q) ->
  (forall e s', R (Throw e) s' -> Q (Throw e) s') -> (forall u s', R (UB u) s' -> Q (UB u) s') -> leaves (st_bind m f) s Q.
Proof. unfold leaves, st_bind. intros Hm Hf He Hu. destruct (m s) as [[a|e|u] s']; [by apply Hf|by apply He|by apply Hu]. Qed.

Lemma leaves_weaken {A} (m : stres St A) s (R Q : res A -> St -> Prop) : leaves m s R -> (forall r s', R r s' -> Q r s') -> leaves m s Q.
Proof. unfold leaves. auto. Qed.
End StateAndExceptions.

Notation "'st*' x ':=' m 'in' k" := (st_bind m (fun x => k))
  (at level 10, x pattern, m at level 100, k at level 200) : cxx_scope.

Section ResLemmas.
Context {A B : Type}.
Implicit Types (m : res A) (f : A -> res B).

Lemma bind_Ok_inv m f b : mbind f m = Ok b -> exists a, m = Ok a /\ f a = Ok b.
Proof. destruct m; simpl; intros; try discriminate; eauto. Qed.

Lemma bind_no_ub m f :
  no_ub m -> (forall a, m = Ok a -> no_ub (f a)) -> no_ub (mbind f m).
Proof. destruct m; simpl; intros; auto. Qed.
End ResLemmas.

Lemma update_back_snoc {A} (f : A -> A) l x : update_back f (l ++ [x]) = Ok (l ++ [f x]).
Proof.
  induction l as [|y l IH]; [done|]. cbn [app update_back].
  rewrite IH. destruct l; done.
Qed.

Lemma snoc_inv {A} (l : list A) : l <> [] -> exists l' x, l = l' ++ [x].
Proof. destruct l using rev_ind; [done|]. eauto. Qed.

Lemma int_result_cases z : int_result z = Ok z \/ int_result z = UB signed_overflow.
Proof. unfold int_result. destruct (_ && _); auto. Qed.

Lemma int_result_ok z : - 2 ^ 31 <= z <= INT_MAX -> int_result z = Ok z.
Proof.
  intros [H1 H2]. unfold int_result.
  apply Z.leb_le in H1, H2. by rewrite H1, H2.
Qed.

(** ** Lemmas on bytes *)

Lemma uchar_range c : 0 <= uchar c < 256.
Proof. unfold uchar. pose proof (Byte.to_N_bounded c). lia. Qed.

Lemma schar_range c : -128 <= schar c < 128.
Proof. unfold schar. pose proof (uchar_range c). destruct (Z.ltb_spec (uchar c) 128); lia. Qed.

Lemma char_of_Z_uchar c : char_of_Z (uchar c) = c.
Proof.
  unfold char_of_Z. pose proof (uchar_range c).
  rewrite Z.mod_small by lia. unfold uchar. rewrite N2Z.id.
  by rewrite Byte.of_to_N.
Qed.

Lemma uchar_char_of_Z z : uchar (char_of_Z z) = z mod 256.
Proof.
  unfold char_of_Z, uchar. pose proof (Z.mod_pos_bound z 256 ltac:(lia)).
  destruct (Byte.of_N (Z.to_N (z mod 256))) as [c|] eqn:E.
  - apply Byte.to_of_N in E. rewrite E. lia.
  - apply Byte.of_N_None_iff in E. lia.
Qed.

Lemma uchar_inj c d : uchar c = uchar d -> c = d.
Proof. intros E. rewrite <- (char_of_Z_uchar c), <- (char_of_Z_uchar d). by rewrite E. Qed.

#[export] Instance byte_countable : Countable byte :=
  inj_countable' Byte.to_N (fun n => default Byte.x00 (Byte.of_N n)) ltac:(intros c; cbn; by rewrite Byte.of_to_N).

Lemma eqc_true c d : (c =c d) = true <-> c = d.
Proof. split; [apply Byte.byte_dec_bl | apply Byte.byte_dec_lb]. Qed.

Lemma eqc_refl c : (c =c c) = true.
Proof. by apply eqc_true. Qed.

Lemma eqc_false c d : (c =c d) = false <-> c <> d.
Proof. rewrite <- eqc_true. destruct (c =c d); split; congruence. Qed.

Lemma eqc_spec c d : reflect (c = d) (c =c d).
Proof. destruct (c =c d) eqn:E; constructor; [by apply eqc_true | by apply eqc_false]. Qed.

(** Every byte, so that a decidable fact about all bytes (or all pairs) is
    settled by evaluation. *)
Definition all_bytes : bytes := map (fun n => char_of_Z (Z.of_nat n)) (seq 0 256).

Lemma all_bytes_complete c : In c all_bytes.
Proof.
  unfold all_bytes. rewrite in_map_iff. pose proof (uchar_range c).
  exists (Z.to_nat (uchar c)). split.
  - rewrite Z2Nat.id by lia. apply char_of_Z_uchar.
  - apply in_seq. lia.
Qed.

Lemma byte_forall (P : byte -> bool) : forallb P all_bytes = true -> forall c, P c = true.
Proof. rewrite forallb_forall. intros H c. apply H, all_bytes_complete. Qed.

Lemma byte_forall2 (P : byte -> byte -> bool) :
  forallb (fun c => forallb (P c) all_bytes) all_bytes = true -> forall c d, P c d = true.
Proof.
  intros H c. apply byte_forall. revert c. apply (byte_forall (fun c => forallb (P c) all_bytes)), H.
Qed.

(** Induction on a list three elements at a time. *)
Lemma list_ind3 {A} (P : list A -> Prop) :
  P [] -> (forall a, P [a]) -> (forall a b, P [a; b]) ->
  (forall a b c l, P l -> P (a :: b :: c :: l)) -> forall l, P l.
Proof.
  intros H0 H1 H2 H3. fix IH 1. intros [|a [|b [|c l]]]; [apply H0 | apply H1 | apply H2 | apply H3, IH].
Qed.

(** Inversion of successful monadic computations and of [Ok] equations. *)
Ltac res_inv :=
  repeat match goal with
  | H : Ok _ = Ok _ |- _ => injection H as H; try subst
  | H : mbind _ _ = Ok _ |- _ => apply bind_Ok_inv in H as (? & ? & H)
  | H : Throw _ = _ |- _ => discriminate H
  | H : UB _ = _ |- _ => discriminate H
  | H : _ = Throw _ |- _ => discriminate H
  | H : _ = UB _ |- _ => discriminate H
  | x : _ * _ |- _ => destruct x
  end; simplify_eq/=.
