(* ===== verification/CxxString.v ===== *)
(** * The C++ standard library as the source uses it: [std::string]
    searching and slicing, the character classes of [<cctype>] in the "C"
    locale, [strtol] and its unsigned variants with base 0, [std::to_string],
    and extraction of a hexadecimal [int] from a stream (libstdc++).

    Positions are [size_t] values, i.e. [Z] below 2^64, with [npos] = 2^64-1;
    an operation that throws [std::out_of_range] returns [Throw]. *)
From S2P Require Import Prelude.

(** ** Slicing and searching *)

Definition size {A} (l : list A) : Z := Z.of_nat (length l).

Definition eqs (s t : bytes) : bool := bool_decide (s = t).
Notation "s =s t" := (eqs s t) (at level 70, no associativity) : cxx_scope.

Fixpoint is_prefix (pat s : bytes) : bool :=
  match pat, s with
  | [], _ => true
  | p :: pat', c :: s' => (p =c c) && is_prefix pat' s'
  | _ :: _, [] => false
  end.

(** Index of the first occurrence of [pat] in [s]. *)
Fixpoint find_from (pat s : bytes) : option nat :=
  if is_prefix pat s then Some 0%nat
  else match s with [] => None | _ :: s' => S <$> find_from pat s' end.

(** Index of the first byte of [s] satisfying [P]. *)
Fixpoint find_if (P : byte -> bool) (s : bytes) : option nat :=
  match s with
  | [] => None
  | c :: s' => if P c then Some 0%nat else S <$> find_if P s'
  end.

Definition mem (c : byte) (set : bytes) : bool := existsb (fun d => c =c d) set.

(** The bytes of [s] from position [pos]; empty past the end. *)
Definition suffix_at (s : bytes) (pos : Z) : bytes :=
  if size s <? pos then [] else drop (Z.to_nat pos) s.

Definition pos_of (pos : Z) (o : option nat) : Z :=
  match o with Some i => pos + Z.of_nat i | None => npos end.

(** [s.find(pat, pos)] *)
Definition find (s pat : bytes) (pos : Z) : Z :=
  if size s <? pos then npos else pos_of pos (find_from pat (suffix_at s pos)).

(** [s.find_first_of(set, pos)] *)
Definition find_first_of (s set : bytes) (pos : Z) : Z :=
  if size s <? pos then npos else pos_of pos (find_if (fun c => mem c set) (suffix_at s pos)).

(** [s.find_last_of(c)] for a one-character set. *)
Definition find_last_of (s : bytes) (c : byte) : Z :=
  match find_if (fun d => d =c c) (reverse s) with
  | Some i => size s - 1 - Z.of_nat i
  | None => npos
  end.

(** [s.substr(pos, n)] *)
Definition substr (s : bytes) (pos n : Z) : res bytes :=
  if size s <? pos then Throw out_of_range
  else Ok (take (Z.to_nat (Z.min n (size s - pos))) (suffix_at s pos)).

(** [s.at(pos)] *)
Definition str_at (s : bytes) (pos : Z) : res byte :=
  if (0 <=? pos) && (pos <? size s) then
    match s !! Z.to_nat pos with Some c => Ok c | None => Throw out_of_range end
  else Throw out_of_range.

(** [s[pos]]: the terminating NUL at [size()], undefined beyond. *)
Definition str_index (s : bytes) (pos : Z) : res byte :=
  if (0 <=? pos) && (pos <? size s) then
    match s !! Z.to_nat pos with Some c => Ok c | None => UB index_out_of_bounds end
  else if pos =? size s then Ok Byte.x00 else UB index_out_of_bounds.

(** [s.c_str()] read up to its first NUL. *)
Fixpoint c_str (s : bytes) : bytes :=
  match s with
  | [] => []
  | c :: s' => if c =c Byte.x00 then [] else c :: c_str s'
  end.

(** ** Character classes *)

Definition isspace (c : byte) : bool :=
  let z := uchar c in (z =? 32) || ((9 <=? z) && (z <=? 13)).

Definition isdigit (c : byte) : bool :=
  let z := uchar c in (48 <=? z) && (z <=? 57).

Definition isupper (c : byte) : bool :=
  let z := uchar c in (65 <=? z) && (z <=? 90).

Definition islower (c : byte) : bool :=
  let z := uchar c in (97 <=? z) && (z <=? 122).

Definition isalnum (c : byte) : bool := isdigit c || isupper c || islower c.

Definition isxdigit (c : byte) : bool :=
  let z := uchar c in
  isdigit c || ((65 <=? z) && (z <=? 70)) || ((97 <=? z) && (z <=? 102)).

Definition toupper (c : byte) : byte :=
  if islower c then char_of_Z (uchar c - 32) else c.

(** ** Numbers *)

(** Value of a digit or letter as [strtol] reads it. *)
Definition digit_val (c : byte) : Z :=
  if isdigit c then uchar c - 48
  else if isupper c then uchar c - 55
  else if islower c then uchar c - 87
  else 36.

Definition is_digit_of (base : Z) (c : byte) : bool := digit_val c <? base.

(** The value of the longest prefix of digits, added to [acc]. *)
Fixpoint read_digits (base : Z) (s : bytes) (acc : Z) : Z :=
  match s with
  | [] => acc
  | c :: s' => if is_digit_of base c then read_digits base s' (acc * base + digit_val c) else acc
  end.

Fixpoint skip_space (s : bytes) : bytes :=
  match s with
  | [] => []
  | c :: s' => if isspace c then skip_space s' else s
  end.

(** An optional sign; [true] when it is a minus. *)
Definition read_sign (s : bytes) : bool * bytes :=
  match s with
  | c :: s' => if c =c "-"%byte then (true, s') else if c =c "+"%byte then (false, s') else (false, s)
  | [] => (false, [])
  end.

(** The base chosen by [strtol] when it is called with base 0. *)
Definition read_base (s : bytes) : Z * bytes :=
  match s with
  | c0 :: c1 :: c2 :: s' =>
      if (c0 =c "0"%byte) then
        if ((c1 =c "x"%byte) || (c1 =c "X"%byte)) && isxdigit c2 then (16, c2 :: s') else (8, s)
      else (10, s)
  | c0 :: _ => if c0 =c "0"%byte then (8, s) else (10, s)
  | [] => (10, [])
  end.

(** Sign and magnitude read by the [strtol] family with base 0. *)
Definition read_number (s : bytes) : bool * Z :=
  let '(neg, s1) := read_sign (skip_space s) in
  let '(base, s2) := read_base s1 in
  (neg, read_digits base s2 0).

(** [strtol(s.c_str(), nullptr, 0)]; [strtoll] is the same on LP64.  A NUL is
    neither a space, a sign nor a digit, so reading stops at the first one. *)
Definition strtol (s : bytes) : Z :=
  let '(neg, m) := read_number s in
  if neg then Z.max LONG_MIN (- m) else Z.min LONG_MAX m.

(** [strtoul(s.c_str(), nullptr, 0)]; [strtoull] is the same on LP64. *)
Definition strtoul (s : bytes) : Z :=
  let '(neg, m) := read_number s in
  if ULONG_MAX <? m then ULONG_MAX else if neg then wrap64 (- m) else m.

Definition digit_char (d : Z) : byte := char_of_Z (48 + d).

Fixpoint dec_digits (fuel : nat) (n : Z) (acc : bytes) : bytes :=
  match fuel with
  | O => acc
  | S fuel' =>
      let acc' := digit_char (n mod 10) :: acc in
      if n / 10 =? 0 then acc' else dec_digits fuel' (n / 10) acc'
  end.

(** [std::to_string] of an integer: there are at most [log2 n + 1] digits. *)
Definition to_string (n : Z) : bytes :=
  let digits m := dec_digits (S (Z.to_nat (Z.log2 m))) m [] in
  if n <? 0 then "-"%byte :: digits (- n) else digits n.

(** [is >> std::hex >> value] for an [int] on a stream holding [s]; [None]
    when the extraction sets [failbit].  White space is skipped, a sign and a
    [0x] prefix are accepted and reading stops at the first other character. *)
Definition read_hex (s : bytes) : option Z :=
  let '(neg, s1) := read_sign (skip_space s) in
  let sgn v := if neg : bool then - v else v in
  let digits t :=
    match t with
    | c :: _ => if isxdigit c then Some (sgn (read_digits 16 t 0)) else None
    | [] => None
    end in
  match s1 with
  | c0 :: c1 :: t =>
      if (c0 =c "0"%byte) && ((c1 =c "x"%byte) || (c1 =c "X"%byte)) then digits t else digits s1
  | _ => digits s1
  end.

(** ** Lemmas *)

Create Rewrite HintDb cxx.
Create HintDb cxx.

Section Size.
Context {A : Type}.
Implicit Types l k : list A.

Lemma size_nonneg l : 0 <= size l.
Proof. unfold size. lia. Qed.

Lemma size_nil : size (@nil A) = 0.
Proof. done. Qed.

Lemma size_cons x l : size (x :: l) = 1 + size l.
Proof. unfold size. simpl. lia. Qed.

Lemma size_app l k : size (l ++ k) = size l + size k.
Proof. unfold size. rewrite length_app. lia. Qed.

Lemma size_zero l : size l = 0 <-> l = [].
Proof. unfold size. destruct l; simpl; split; intros; try done; lia. Qed.

Lemma size_to_nat l : Z.to_nat (size l) = length l.
Proof. unfold size. lia. Qed.
End Size.
#[export] Hint Rewrite @size_nil @size_cons @size_app @size_to_nat : cxx.
#[export] Hint Resolve size_nonneg : cxx.

(** Arithmetic on sizes and positions, with [size_t] wrap-around unfolded. *)
Ltac size_nonneg_all :=
  repeat match goal with
  | |- context [size ?l] =>
      lazymatch goal with H : 0 <= size l |- _ => fail | |- _ => pose proof (size_nonneg l) end
  | H' : context [size ?l] |- _ =>
      lazymatch goal with H : 0 <= size l |- _ => fail | |- _ => pose proof (size_nonneg l) end
  end.
Ltac size_lia := autorewrite with cxx in *; size_nonneg_all; lia.

Lemma eqs_true s t : (s =s t) = true <-> s = t.
Proof. apply bool_decide_eq_true. Qed.

Lemma eqs_false s t : (s =s t) = false <-> s <> t.
Proof. apply bool_decide_eq_false. Qed.

Lemma eqs_refl s : (s =s s) = true.
Proof. by apply eqs_true. Qed.

Lemma is_prefix_true p s : is_prefix p s = true <-> exists t, s = p ++ t.
Proof.
  revert s; induction p as [|c p IH]; intros [|d s]; simpl.
  - split; eauto.
  - split; eauto.
  - split; [done | by intros [? ?]].
  - rewrite andb_true_iff, IH, eqc_true. split.
    + intros [-> [t ->]]. eauto.
    + intros [t [= -> ->]]. eauto.
Qed.

Lemma is_prefix_app p s : is_prefix p (p ++ s) = true.
Proof. apply is_prefix_true. eauto. Qed.

Lemma mem_true c set : mem c set = true <-> c ∈ set.
Proof.
  unfold mem. rewrite existsb_exists. setoid_rewrite eqc_true.
  rewrite list_elem_of_In. split; [intros [? [? ->]]; done | eauto].
Qed.

Lemma mem_false c set : mem c set = false <-> c ∉ set.
Proof. rewrite <- mem_true. destruct (mem c set); split; congruence. Qed.

Lemma find_from_Some pat s i :
  find_from pat s = Some i ->
  exists a b, s = a ++ pat ++ b /\ length a = i.
Proof.
  revert i; induction s as [|c s IH]; intros i.
  - simpl. destruct (is_prefix pat []) eqn:E; [|done].
    intros [= <-]. apply is_prefix_true in E as [t E]. exists [], t. done.
  - cbn [find_from]. destruct (is_prefix pat (c :: s)) eqn:E.
    + intros [= <-]. apply is_prefix_true in E as [t ->]. exists [], t. done.
    + destruct (find_from pat s) as [j|] eqn:F; [|done]. simpl. intros [= <-].
      destruct (IH j eq_refl) as (a & b & -> & <-).
      exists (c :: a), b. done.
Qed.

Lemma find_from_None pat s : find_from pat s = None <-> forall a b, s <> a ++ pat ++ b.
Proof.
  induction s as [|c s IH]; cbn [find_from].
  - destruct (is_prefix pat []) eqn:E.
    + apply is_prefix_true in E as [t E]. split; [done|]. intros H. by destruct (H [] t).
    + split; [|done]. intros _ a b H.
      destruct a, pat; try done.
  - destruct (is_prefix pat (c :: s)) eqn:E.
    + apply is_prefix_true in E as [t E]. split; [done|]. intros H. by destruct (H [] t).
    + rewrite fmap_None, IH. split.
      * intros H [|d a] b Hs; simpl in Hs.
        -- assert (is_prefix pat (c :: s) = true) by (apply is_prefix_true; eauto). congruence.
        -- injection Hs as _ Hs. by apply (H a b).
      * intros H a b ->. by apply (H (c :: a) b).
Qed.

(** An occurrence after a stretch in which the pattern does not start. *)
Lemma find_from_app pat a b :
  (forall a1 c a2, a = a1 ++ c :: a2 -> is_prefix pat (c :: a2 ++ pat ++ b) = false) ->
  find_from pat (a ++ pat ++ b) = Some (length a).
Proof.
  induction a as [|c a IH]; intros H.
  - simpl. assert (is_prefix pat (pat ++ b) = true) as E by apply is_prefix_app.
    destruct (pat ++ b); simpl in *; by rewrite E.
  - cbn [app find_from length]. rewrite (H [] c a eq_refl).
    rewrite IH; [done|]. intros a1 d a2 ->. by apply (H (c :: a1) d a2).
Qed.

Lemma find_from_char c a b : c ∉ a -> find_from [c] (a ++ c :: b) = Some (length a).
Proof.
  intros Hc. apply (find_from_app [c]). intros a1 d a2 ->. simpl.
  rewrite andb_true_r. apply eqc_false. intros ->. apply Hc. set_solver.
Qed.

Lemma find_from_char_None c s : c ∉ s -> find_from [c] s = None.
Proof. intros Hc. apply find_from_None. intros a b ->. apply Hc. set_solver. Qed.

Lemma find_if_app (P : byte -> bool) a c b :
  Forall (fun d => P d = false) a -> P c = true -> find_if P (a ++ c :: b) = Some (length a).
Proof.
  intros Ha Hc. induction Ha as [|d a Hd Ha IH]; simpl.
  - by rewrite Hc.
  - by rewrite Hd, IH.
Qed.

Lemma find_if_None (P : byte -> bool) s : find_if P s = None <-> Forall (fun d => P d = false) s.
Proof.
  induction s as [|c s IH]; simpl; [split; eauto|].
  rewrite Forall_cons_iff. destruct (P c); [split; [done | by intros []]|].
  rewrite fmap_None, IH. split; [by intros H | by intros []].
Qed.

Lemma find_if_Some (P : byte -> bool) s i :
  find_if P s = Some i ->
  exists a c b, s = a ++ c :: b /\ length a = i /\ P c = true /\ Forall (fun d => P d = false) a.
Proof.
  revert i; induction s as [|c s IH]; intros i; simpl; [done|].
  destruct (P c) eqn:Hc.
  - intros [= <-]. exists [], c, s. eauto.
  - destruct (find_if P s) as [j|]; [|done]. simpl. intros [= <-].
    destruct (IH j eq_refl) as (a & d & b & -> & <- & ? & ?).
    exists (c :: a), d, b. eauto.
Qed.

(** *** Operations at the end of a known prefix *)

Section AtPrefix.
Context (p s : bytes).

Lemma suffix_at_app : suffix_at (p ++ s) (size p) = s.
Proof.
  unfold suffix_at. destruct (Z.ltb_spec (size (p ++ s)) (size p)); [size_lia|].
  rewrite size_to_nat. apply drop_app_length.
Qed.

Lemma find_app pat : find (p ++ s) pat (size p) = pos_of (size p) (find_from pat s).
Proof.
  unfold find. rewrite suffix_at_app.
  destruct (Z.ltb_spec (size (p ++ s)) (size p)); [size_lia | done].
Qed.

Lemma find_first_of_app set :
  find_first_of (p ++ s) set (size p) = pos_of (size p) (find_if (fun c => mem c set) s).
Proof.
  unfold find_first_of. rewrite suffix_at_app.
  destruct (Z.ltb_spec (size (p ++ s)) (size p)); [size_lia | done].
Qed.

Lemma substr_app n : substr (p ++ s) (size p) n = Ok (take (Z.to_nat (Z.min n (size s))) s).
Proof.
  unfold substr. rewrite suffix_at_app.
  destruct (Z.ltb_spec (size (p ++ s)) (size p)); [size_lia|].
  do 3 f_equal. size_lia.
Qed.

Lemma substr_app_all n : size s <= n -> substr (p ++ s) (size p) n = Ok s.
Proof.
  intros Hn. rewrite substr_app, Z.min_r by done. by rewrite size_to_nat, firstn_all.
Qed.
End AtPrefix.

Lemma substr_middle p m s : substr (p ++ m ++ s) (size p) (size m) = Ok m.
Proof.
  rewrite substr_app, Z.min_l by size_lia. by rewrite size_to_nat, take_app_length.
Qed.

Lemma substr_0 s n : size s <= n -> substr s 0 n = Ok s.
Proof. apply (substr_app_all [] s). Qed.

Lemma sz_sub_small a b : 0 <= b <= a -> a <= npos -> sz_sub a b = a - b.
Proof. unfold sz_sub, wrap64, npos. intros. apply Z.mod_small. lia. Qed.

Lemma sz_add_small a b : 0 <= a -> 0 <= b -> a + b <= npos -> sz_add a b = a + b.
Proof. unfold sz_add, wrap64, npos. intros. apply Z.mod_small. lia. Qed.

(** Where a search may answer: [npos], or a position at which the pattern
    fits in the string. *)
Lemma find_bounds s pat pos :
  0 <= pos -> find s pat pos = npos \/ (pos <= find s pat pos /\ find s pat pos + size pat <= size s).
Proof.
  intros Hp. unfold find, suffix_at. destruct (Z.ltb_spec (size s) pos); [by left|].
  destruct (find_from pat (drop (Z.to_nat pos) s)) as [i|] eqn:E; [right | by left].
  apply find_from_Some in E as (a & b & E & <-). simpl.
  apply (f_equal (@length _)) in E. rewrite length_drop, !length_app in E.
  unfold size in *. lia.
Qed.

Lemma find_first_of_bounds s set pos :
  0 <= pos ->
  find_first_of s set pos = npos \/ (pos <= find_first_of s set pos < size s).
Proof.
  intros Hp. unfold find_first_of, suffix_at. destruct (Z.ltb_spec (size s) pos); [by left|].
  destruct (find_if _ (drop (Z.to_nat pos) s)) as [i|] eqn:E; [right | by left].
  apply find_if_Some in E as (a & c & b & E & <- & _). simpl.
  apply (f_equal (@length _)) in E. rewrite length_drop, !length_app in E. simpl in E.
  unfold size in *. lia.
Qed.

Lemma find_0 s pat : find s pat 0 = pos_of 0 (find_from pat s).
Proof. apply (find_app [] s). Qed.

Lemma substr_ok s pos n : pos <= size s -> exists t, substr s pos n = Ok t.
Proof. intros H. unfold substr. destruct (Z.ltb_spec (size s) pos); [lia | eauto]. Qed.

Lemma str_at_ok s pos : 0 <= pos < size s -> exists c, str_at s pos = Ok c.
Proof.
  intros [H1 H2]. unfold str_at. destruct (Z.leb_spec 0 pos), (Z.ltb_spec pos (size s)); try lia. simpl.
  destruct (s !! Z.to_nat pos) eqn:E; [eauto|].
  apply lookup_ge_None in E. unfold size in *. lia.
Qed.

Lemma str_at_app p c s : str_at (p ++ c :: s) (size p) = Ok c.
Proof.
  unfold str_at. destruct (Z.leb_spec 0 (size p)), (Z.ltb_spec (size p) (size (p ++ c :: s))); try size_lia.
  simpl. rewrite size_to_nat. by rewrite list_lookup_middle.
Qed.

(** *** Text in which a pattern does not start

    [mismatch p u]: [p] and [u] differ at a position both have.  When every
    suffix of [l] mismatches [pat], a search for [pat] passes over [l], whatever
    follows; on literals the test is evaluated. *)
Fixpoint mismatch (p u : bytes) : bool :=
  match p, u with
  | x :: p', y :: u' => negb (x =c y) || mismatch p' u'
  | _, _ => false
  end.

Fixpoint skips (pat l : bytes) : bool :=
  match l with
  | [] => true
  | _ :: l' => mismatch pat l && skips pat l'
  end.

Lemma mismatch_app p u t : mismatch p u = true -> mismatch p (u ++ t) = true.
Proof.
  revert u; induction p as [|x p IH]; intros [|y u]; simpl; try done.
  rewrite !orb_true_iff. intros [?|?]; auto.
Qed.

Lemma mismatch_not_prefix p u : mismatch p u = true -> is_prefix p u = false.
Proof.
  revert u; induction p as [|x p IH]; intros [|y u]; simpl; try done.
  destruct (x =c y); simpl; auto.
Qed.

Lemma skips_app pat l k : skips pat l = true -> skips pat k = true -> skips pat (l ++ k) = true.
Proof.
  intros Hl Hk. induction l as [|c l IH]; [done|]. cbn [skips app] in *.
  apply andb_true_iff in Hl as [Hm Hl]. apply (mismatch_app _ _ k) in Hm. cbn [app] in Hm.
  rewrite Hm. auto.
Qed.

Lemma skips_avoid c p l : c ∉ l -> skips (c :: p) l = true.
Proof.
  induction l as [|d l IH]; [done|]. rewrite not_elem_of_cons. intros [Hd Hl].
  cbn [skips mismatch]. apply eqc_false in Hd. rewrite Hd. by apply IH.
Qed.

(** Text without a given character [c] of the pattern, closed by a character
    [x] that the pattern does not have up to [c]. *)
Lemma skips_closed q c q' l x :
  c ∉ l -> x ∉ q -> x <> c -> skips (q ++ c :: q') (l ++ [x]) = true.
Proof.
  intros Hc Hx Hxc.
  assert (forall u, c ∉ u -> mismatch (q ++ c :: q') (u ++ [x]) = true) as Hm.
  { clear Hc. induction q as [|y q IH]; intros u Hu.
    - destruct u as [|z u]; cbn [app mismatch]; apply orb_true_iff; left; apply negb_true_iff, eqc_false; set_solver.
    - destruct u as [|z u]; cbn [app mismatch]; apply orb_true_iff.
      + left. apply negb_true_iff, eqc_false. set_solver.
      + right. apply IH; set_solver. }
  induction l as [|d l IH]; cbn [app skips].
  - pose proof (Hm [] ltac:(set_solver)) as E. cbn [app] in E. by rewrite E.
  - pose proof (Hm (d :: l) Hc) as E. cbn [app] in E. rewrite E. apply IH. set_solver.
Qed.

Lemma find_from_skips pat l t :
  skips pat l = true -> find_from pat (l ++ t) = Nat.add (length l) <$> find_from pat t.
Proof.
  intros Hl. induction l as [|c l IH]; [cbn [app]; by destruct (find_from pat t)|].
  cbn [skips app find_from] in *. apply andb_true_iff in Hl as [Hm Hl].
  apply (mismatch_app _ _ t), mismatch_not_prefix in Hm. cbn [app] in Hm.
  rewrite Hm, IH by done. by destruct (find_from pat t).
Qed.

Lemma find_from_here pat t : find_from pat (pat ++ t) = Some 0%nat.
Proof.
  assert (is_prefix pat (pat ++ t) = true) as E by apply is_prefix_app.
  destruct (pat ++ t); simpl in *; by rewrite E.
Qed.

Lemma find_from_after pat l t :
  skips pat l = true -> find_from pat (l ++ pat ++ t) = Some (length l).
Proof. intros H. rewrite find_from_skips, find_from_here by done. simpl. f_equal. lia. Qed.

Lemma find_from_after_end pat l : skips pat l = true -> find_from pat (l ++ pat) = Some (length l).
Proof. intros H. rewrite <- (app_nil_r pat) at 2. by apply find_from_after. Qed.

Lemma find_from_skipped pat l : pat <> [] -> skips pat l = true -> find_from pat l = None.
Proof.
  intros Hp Hl. rewrite <- (app_nil_r l), find_from_skips by done. by destruct pat.
Qed.

(** *** Decimal printing and reading *)

Lemma digit_char_val d : 0 <= d < 10 -> isdigit (digit_char d) = true /\ digit_val (digit_char d) = d.
Proof.
  intros H. unfold digit_val, isdigit, digit_char. rewrite uchar_char_of_Z, Z.mod_small by lia.
  destruct (Z.leb_spec 48 (48 + d)), (Z.leb_spec (48 + d) 57); simpl; split; lia.
Qed.

Lemma isdigit_digit_of c : isdigit c = true -> is_digit_of 10 c = true.
Proof.
  intros H. unfold is_digit_of, digit_val. rewrite H. unfold isdigit in H.
  apply andb_true_iff in H as [H1%Z.leb_le H2%Z.leb_le]. apply Z.ltb_lt. lia.
Qed.

(** What [dec_digits] puts in front of its accumulator. *)
Record decimal_of (n : Z) (ds : bytes) : Prop := {
  decimal_digits : Forall (fun c => isdigit c = true) ds;
  decimal_head : exists c ds', ds = c :: ds' /\ (0 < n -> digit_val c <> 0);
  decimal_value : forall t a,
    read_digits 10 (ds ++ t) a = read_digits 10 t (a * 10 ^ size ds + n);
}.

Lemma decimal_of_digit d : 0 <= d < 10 -> decimal_of d [digit_char d].
Proof.
  intros H. destruct (digit_char_val d H) as [Hd Hv]. constructor.
  - by repeat constructor.
  - exists (digit_char d), []. split; [done|]. lia.
  - intros t a. simpl. rewrite isdigit_digit_of, Hv by done. done.
Qed.

Lemma decimal_of_snoc n d ds :
  0 <= d < 10 -> 0 < n -> decimal_of n ds -> decimal_of (n * 10 + d) (ds ++ [digit_char d]).
Proof.
  intros H Hn [Hf (c & ds' & -> & Hc) Hv]. destruct (digit_char_val d H) as [Hd Hdv]. constructor.
  - apply Forall_app. split; [done | by repeat constructor].
  - exists c, (ds' ++ [digit_char d]). split; [done|]. auto.
  - intros t a. rewrite <- app_assoc, Hv. simpl. rewrite isdigit_digit_of, Hdv by done. f_equal.
    autorewrite with cxx. rewrite !Z.pow_add_r by (pose proof (size_nonneg ds'); lia). lia.
Qed.

Lemma dec_digits_spec fuel n acc :
  0 <= n < 10 ^ Z.of_nat fuel -> (0 < fuel)%nat ->
  exists ds, dec_digits fuel n acc = ds ++ acc /\ decimal_of n ds.
Proof.
  revert n acc; induction fuel as [|fuel IH]; intros n acc Hn Hf; [lia|].
  cbn [dec_digits]. pose proof (Z.mod_pos_bound n 10 ltac:(lia)) as Hm.
  pose proof (Z.div_mod n 10 ltac:(lia)) as Hdm.
  destruct (Z.eqb_spec (n / 10) 0) as [E|E].
  - exists [digit_char (n mod 10)]. split; [done|].
    replace n with (n mod 10) at 1 by lia. by apply decimal_of_digit.
  - assert (0 < n / 10) by (pose proof (Z.div_pos n 10); lia).
    rewrite Nat2Z.inj_succ, Z.pow_succ_r in Hn by lia.
    destruct (IH (n / 10) (digit_char (n mod 10) :: acc)) as (ds & -> & Hds).
    + split; [lia|]. apply Z.div_lt_upper_bound; lia.
    + destruct fuel; [simpl in Hn; lia | lia].
    + exists (ds ++ [digit_char (n mod 10)]). split; [by rewrite <- app_assoc|].
      replace n with (n / 10 * 10 + n mod 10) at 1 by lia. by apply decimal_of_snoc.
Qed.

Lemma to_string_decimal n : 0 <= n -> decimal_of n (to_string n).
Proof.
  intros Hn. unfold to_string. destruct (Z.ltb_spec n 0); [lia|].
  destruct (dec_digits_spec (S (Z.to_nat (Z.log2 n))) n []) as (ds & -> & H'); [|lia|by rewrite app_nil_r].
  split; [done|]. rewrite Nat2Z.inj_succ, Z2Nat.id by apply Z.log2_nonneg.
  destruct (Z.eq_dec n 0) as [->|]; [done|].
  pose proof (Z.log2_spec n ltac:(lia)). pose proof (Z.log2_nonneg n).
  pose proof (Z.pow_le_mono_l 2 10 (Z.succ (Z.log2 n)) ltac:(lia)). lia.
Qed.

Lemma read_number_decimal n ds t :
  decimal_of n ds -> 0 <= n -> (n = 0 -> ds = [digit_char 0]) ->
  (forall c t', t = c :: t' -> is_digit_of 10 c = false /\ is_digit_of 8 c = false /\ c <> "x"%byte /\ c <> "X"%byte) ->
  read_number (ds ++ t) = (false, n).
Proof.
  intros [Hf (c & ds' & -> & Hc) Hv] Hn H0 Ht.
  apply Forall_cons_iff in Hf as [Hcd Hf].
  assert (isspace c = false /\ (c =c "-"%byte) = false /\ (c =c "+"%byte) = false) as (E1 & E2 & E3).
  { clear -Hcd. revert Hcd. destruct c; vm_compute; try done; by repeat split. }
  unfold read_number. cbn [app skip_space]. rewrite E1. cbn [read_sign]. rewrite E2, E3.
  destruct (Z.eq_dec n 0) as [->|Hnz].
  - injection (H0 eq_refl) as -> ->. cbn [app].
    destruct t as [|d [|d' t']]; [done| |].
    + destruct (Ht d [] eq_refl) as (? & Hd & ? & ?). simpl. by rewrite Hd.
    + destruct (Ht d _ eq_refl) as (? & Hd & Hx & HX). apply eqc_false in Hx, HX.
      unfold read_base. change (digit_char 0 =c "0"%byte) with true. rewrite Hx, HX. simpl.
      by rewrite Hd.
  - assert ((c =c "0"%byte) = false) as E4.
    { apply eqc_false. intros ->. by apply Hc; [lia|]. }
    assert (read_base (c :: ds' ++ t) = (10, c :: ds' ++ t)) as ->.
    { destruct (ds' ++ t) as [|? [|? ?]]; cbn [read_base]; by rewrite E4. }
    f_equal. change (c :: ds' ++ t) with ((c :: ds') ++ t). rewrite Hv.
    destruct t as [|d t']; simpl; [lia|]. destruct (Ht d t' eq_refl) as (-> & _). lia.
Qed.

Lemma c_str_app_no_nul a s : Byte.x00 ∉ a -> c_str (a ++ s) = a ++ c_str s.
Proof.
  induction a as [|c a IH]; [done|]. rewrite not_elem_of_cons. intros [Hc Ha].
  cbn [app c_str]. destruct (c =c Byte.x00) eqn:E; [by apply eqc_true in E as ->|]. by rewrite IH.
Qed.

Lemma c_str_prefix s : exists t, s = c_str s ++ t.
Proof.
  induction s as [|c s [t IH]]; [by exists []|]. cbn [c_str].
  destruct (c =c Byte.x00); [by eexists|]. exists t. by rewrite <- app_comm_cons, <- IH.
Qed.

Lemma c_str_no_nul s : Byte.x00 ∉ s -> c_str s = s.
Proof. intros H. pose proof (c_str_app_no_nul s [] H) as E. cbn [c_str] in E. by rewrite app_nil_r in E. Qed.

Lemma to_string_avoids n c : 0 <= n -> isdigit c = false -> c ∉ to_string n.
Proof.
  intros Hn Hc Hin. destruct (to_string_decimal n Hn) as [Hd _ _].
  rewrite Forall_forall in Hd. specialize (Hd _ Hin). simpl in Hd. congruence.
Qed.

Lemma digit_val_schar c : isdigit c = true -> digit_val c = schar c - 48 /\ 48 <= schar c <= 57.
Proof. destruct c; vm_compute; try done; intros _; repeat split; done. Qed.

Lemma read_digits_ge ds v :
  Forall (fun c => isdigit c = true) ds -> 0 <= v -> v <= read_digits 10 ds v.
Proof.
  intros Hds. revert v. induction Hds as [|c ds Hc Hds IH]; intros v Hv; simpl; [lia|].
  rewrite isdigit_digit_of by done. destruct (digit_val_schar c Hc).
  specialize (IH (v * 10 + digit_val c) ltac:(lia)). lia.
Qed.

Lemma strtol_to_string n : 0 <= n <= LONG_MAX -> strtol (to_string n) = n.
Proof.
  intros Hn. pose proof (to_string_decimal n ltac:(lia)) as D.
  unfold strtol. rewrite <- (app_nil_r (to_string n)), (read_number_decimal n).
  - lia.
  - done.
  - lia.
  - by intros ->.
  - done.
Qed.

Lemma strtoul_to_string n : 0 <= n <= ULONG_MAX -> strtoul (to_string n) = n.
Proof.
  intros Hn. pose proof (to_string_decimal n ltac:(lia)) as D.
  unfold strtoul. rewrite <- (app_nil_r (to_string n)), (read_number_decimal n).
  - destruct (Z.ltb_spec ULONG_MAX n); lia.
  - done.
  - lia.
  - by intros ->.
  - done.
Qed.
