(* ===== verification/CxxTime.v ===== *)
(** * The [double]s of the configuration: [strtod] and [std::difftime].

    A [double] is a binary64 number of the Standard Library's [SpecFloat]; both
    functions give the nearest one to the exact value, ties to even. *)
From Stdlib Require Export Floats.SpecFloat.
From S2P Require Import Prelude CxxString.

Definition double : Type := spec_float.

(** The double nearest to [num / den], [den > 0]. *)
Definition double_of_ratio (num den : Z) : double :=
  match num, den with
  | Zpos n, Zpos d =>
      let '(q, e, l) := SFdiv_core_binary 53 1024 (Zpos n) 0 (Zpos d) 0 in
      binary_round_aux 53 1024 false q e l
  | Zneg n, Zpos d =>
      let '(q, e, l) := SFdiv_core_binary 53 1024 (Zpos n) 0 (Zpos d) 0 in
      binary_round_aux 53 1024 true q e l
  | _, _ => S754_zero false
  end.

Definition double_of_Z (z : Z) : double := binary_normalize 53 1024 z 0 false.

Definition double_opp (d : double) : double := SFopp d.

(** [base ^ e] times [m]. *)
Definition double_scaled (m base e : Z) : double :=
  if e <? 0 then double_of_ratio m (base ^ (- e)) else double_of_Z (m * base ^ e).

(** Digits with at most one point among them: the mantissa, the number of
    digits after the point, whether there was a digit, and the rest. *)
Fixpoint read_mantissa (base : Z) (s : bytes) (point : bool) (m frac : Z) (any : bool) : Z * Z * bool * bytes :=
  match s with
  | c :: s' =>
      if is_digit_of base c then
        read_mantissa base s' point (m * base + digit_val c) (if point then frac + 1 else frac) true
      else if (c =c "."%byte) && negb point then read_mantissa base s' true m frac any
      else (m, frac, any, s)
  | [] => (m, frac, any, s)
  end.

(** The exponent part, [0] when there is none. *)
Definition read_exponent (mark : byte) (s : bytes) : Z :=
  match s with
  | c :: s' =>
      if toupper c =c mark then
        let '(neg, ds) := read_sign s' in
        let e := read_digits 10 ds 0 in if neg : bool then - e else e
      else 0
  | [] => 0
  end.

Definition has_prefix_nocase (pat s : bytes) : bool := is_prefix pat (map toupper s).

(** [strtod(s, nullptr)] in the "C" locale. *)
Definition strtod (s : bytes) : double :=
  let '(neg, s) := read_sign (skip_space s) in
  let sgn (d : double) := if neg : bool then double_opp d else d in
  if has_prefix_nocase (str "INF") s then sgn (S754_infinity false)
  else if has_prefix_nocase (str "NAN") s then S754_nan
  else
    let '(hm, hfrac, hany, hrest) := read_mantissa 16 (drop 2 s) false 0 0 false in
    if has_prefix_nocase (str "0X") s && hany then
      sgn (double_scaled hm 2 (read_exponent "P"%byte hrest - 4 * hfrac))
    else
      let '(m, frac, any, rest) := read_mantissa 10 s false 0 0 false in
      if any then sgn (double_scaled m 10 (read_exponent "E"%byte rest - frac)) else S754_zero false.

(** [std::difftime(a, b)] for [time_t], a count of seconds. *)
Definition difftime (a b : Z) : double := double_of_Z (a - b).

Definition double_lt (a b : double) : bool := SFltb a b.
Definition double_le (a b : double) : bool := SFleb a b.

Example strtod_seconds : strtod (str "7200") = double_of_Z 7200.
Proof. reflexivity. Qed.

Example strtod_half : strtod (str " -2.5e-1") = double_opp (double_of_ratio 1 4).
Proof. reflexivity. Qed.
