(* ===== verification/Utility.v ===== *)
(** * [src/src/utility.cpp]: string helpers, percent and base64 codecs.

    OpenSSL's MD5 and boost's gzip compressor are not in the repository: they
    are the parameters [MD5] and [gzip] of the definitions that use them. *)
From S2P Require Import Prelude CxxString.

(** ** Paths and comparisons *)

Definition get_extension (path : bytes) : res bytes :=
  let last_slash_pos := find_last_of path "/"%byte in
  let last_dot_pos := find_last_of path "."%byte in
  if negb (last_dot_pos =? npos) && (last_slash_pos <? last_dot_pos) then
    substr path (last_dot_pos + 1) npos
  else Ok [].

(** The loop shared by both overloads of [strings_are_equal]: compare the
    upper-cased characters until one of the ranges ends. *)
Fixpoint toupper_ranges_agree (s1 s2 : bytes) : bool :=
  match s1, s2 with
  | c1 :: s1', c2 :: s2' =>
      if negb (toupper c1 =c toupper c2) then false else toupper_ranges_agree s1' s2'
  | _, _ => true
  end.

Definition strings_are_equal (s1 s2 : bytes) : bool :=
  if toupper_ranges_agree s1 s2 then size s2 =? size s1 else false.

Definition strings_are_equal_n (s1 s2 : bytes) (n : Z) : bool :=
  let good := (n <=? size s1) && (n <=? size s2) in
  let r1 := if good then take (Z.to_nat n) s1 else s1 in
  let r2 := if good then take (Z.to_nat n) s2 else s2 in
  if toupper_ranges_agree r1 r2 then good else false.

Definition extract_between (data separator1 separator2 : bytes) : res bytes :=
  let start := find data separator1 0 in
  if negb (npos =? start) then
    let start := sz_add start (size separator1) in
    let limit := find data separator2 start in
    if negb (npos =? limit) then substr data start (sz_sub limit start) else Ok []
  else Ok [].

Definition extract_between_same (datas separators : bytes) : res bytes :=
  extract_between datas separators separators.

(** ** MD5 digest in hexadecimal, gzip *)

Definition hex_lower (d : Z) : byte := char_of_Z (if d <? 10 then 48 + d else 87 + d).

(** [sprintf("%02x", b)] *)
Definition sprintf_02x (b : byte) : bytes := [hex_lower (uchar b / 16); hex_lower (uchar b mod 16)].

Section Digests.
(** [MD5 s] is the 16-byte MD5 digest of [s]; [gzip s] is [s] compressed. *)
Context (MD5 gzip : bytes -> bytes).

(** [strlen] bounds the hashed data: only the bytes before a NUL count. *)
Definition md5_digest (s : bytes) : bytes :=
  let digest := MD5 (c_str s) in
  flat_map sprintf_02x (take 16 digest).

Definition gzip_str (s : bytes) : bytes := gzip s.
End Digests.

(** ** Percent encoding *)

Definition char2hex (c : byte) : bytes :=
  let first := Z.land (schar c) 0xF0 / 16 in
  let first := first + (if 9 <? first then 65 - 10 else 48) in
  let second := Z.land (schar c) 0x0F in
  let second := second + (if 9 <? second then 65 - 10 else 48) in
  [char_of_Z first; char_of_Z second].

Definition hex2char (first second : byte) : byte :=
  let nibble c :=
    if 65 <=? schar c then (Z.land (schar c) 0xDF - 65) + 10 else schar c - 48 in
  char_of_Z (nibble first * 16 + nibble second).

(** The characters [percent_encode] copies: letters, digits and marks. *)
Definition unreserved (c : byte) : bool := isalnum c || mem c (str "-_.!~*'()").

Definition percent_encode_char (c : byte) : bytes :=
  if c =c " "%byte then str "%20"
  else if unreserved c then [c]
  else "%"%byte :: char2hex c.

Fixpoint percent_encode (src : bytes) : bytes :=
  match src with
  | [] => []
  | c :: src' => percent_encode_char c ++ percent_encode src'
  end.

(** At a [%], the two following characters are inspected when at least one of
    them is inside the string; the other is then the terminating NUL. *)
Fixpoint percent_decode (src : bytes) : bytes :=
  match src with
  | [] => []
  | c :: src' =>
      if c =c "+"%byte then " "%byte :: percent_decode src'
      else if c =c "%"%byte then
        match src' with
        | c1 :: c2 :: rest =>
            if isxdigit c1 && isxdigit c2 then hex2char c1 c2 :: percent_decode rest
            else "%"%byte :: percent_decode src'
        | [c1] =>
            if isxdigit c1 && isxdigit Byte.x00 then [hex2char c1 Byte.x00]
            else "%"%byte :: percent_decode src'
        | [] => "%"%byte :: percent_decode src'
        end
      else c :: percent_decode src'
  end.

(** ** Base64 *)

Definition base64_chars : bytes :=
  str "ABCDEFGHIJKLMNOPQRSTUVWXYZabcdefghijklmnopqrstuvwxyz0123456789+/".

Definition is_base64 (c : byte) : bool := isalnum c || (c =c "+"%byte) || (c =c "/"%byte).

(** [base64_chars[i]] *)
Definition base64_char (i : Z) : byte := nth (Z.to_nat i) base64_chars Byte.x00.

(** [(unsigned char) base64_chars.find(c)] *)
Definition base64_find (c : Z) : Z := find base64_chars [char_of_Z c] 0 mod 256.

(** [char_array_4] from [char_array_3], on [unsigned char] values. *)
Definition to_char_array_4 (a0 a1 a2 : Z) : list Z :=
  [Z.shiftr (Z.land a0 0xfc) 2;
   (Z.shiftl (Z.land a0 0x03) 4 + Z.shiftr (Z.land a1 0xf0) 4) mod 256;
   (Z.shiftl (Z.land a1 0x0f) 2 + Z.shiftr (Z.land a2 0xc0) 6) mod 256;
   Z.land a2 0x3f].

(** [char_array_3] from [char_array_4]. *)
Definition to_char_array_3 (b0 b1 b2 b3 : Z) : list Z :=
  [(Z.shiftl b0 2 + Z.shiftr (Z.land b1 0x30) 4) mod 256;
   (Z.shiftl (Z.land b1 0xf) 4 + Z.shiftr (Z.land b2 0x3c) 2) mod 256;
   (Z.shiftl (Z.land b2 0x3) 6 + b3) mod 256].

(** The block after the loop: [arr] holds the [i] pending bytes. *)
Definition base64_encode_tail (arr : list Z) : bytes :=
  match arr with
  | [a0] => map base64_char (take 2 (to_char_array_4 a0 0 0)) ++ str "=="
  | [a0; a1] => map base64_char (take 3 (to_char_array_4 a0 a1 0)) ++ str "="
  | _ => []
  end.

Fixpoint base64_encode_loop (s : bytes) (arr : list Z) (ret : bytes) : bytes :=
  match s with
  | [] => ret ++ base64_encode_tail arr
  | c :: s' =>
      match arr ++ [uchar c] with
      | [a0; a1; a2] => base64_encode_loop s' [] (ret ++ map base64_char (to_char_array_4 a0 a1 a2))
      | arr' => base64_encode_loop s' arr' ret
      end
  end.

(** [unsigned int in_len = string_to_encode.size()] *)
Definition base64_encode (s : bytes) : bytes :=
  base64_encode_loop (take (Z.to_nat (uwrap32 (size s))) s) [] [].

(** The block after the loop: the missing entries of [char_array_4] are 0,
    which [find] does not find; only [i - 1] bytes are produced. *)
Definition base64_decode_tail (arr : list Z) : bytes :=
  match map base64_find (take 4 (arr ++ [0; 0; 0; 0])) with
  | [b0; b1; b2; b3] => map char_of_Z (take (length arr - 1) (to_char_array_3 b0 b1 b2 b3))
  | _ => []
  end.

Fixpoint base64_decode_loop (s : bytes) (in_len : Z) (arr : list Z) (ret : bytes) : bytes :=
  match s with
  | [] => if bool_decide (arr = []) then ret else ret ++ base64_decode_tail arr
  | c :: s' =>
      if negb (in_len =? 0) && negb (c =c "="%byte) && is_base64 c then
        match arr ++ [uchar c] with
        | [a0; a1; a2; a3] =>
            base64_decode_loop s' (in_len - 1) []
              (ret ++ map char_of_Z
                 (to_char_array_3 (base64_find a0) (base64_find a1) (base64_find a2) (base64_find a3)))
        | arr' => base64_decode_loop s' (in_len - 1) arr' ret
        end
      else if bool_decide (arr = []) then ret else ret ++ base64_decode_tail arr
  end.

(** [int in_len = encoded_string.size()] *)
Definition base64_decode (s : bytes) : bytes := base64_decode_loop s (wrap32 (size s)) [] [].

(** ** Lemmas *)

Section PercentEncoding.
Lemma percent_decode_encode_char c t :
  percent_decode (percent_encode_char c ++ t) = c :: percent_decode t.
Proof. destruct c; reflexivity. Qed.

(** C-free statement used by the clients of the codec. *)
Lemma percent_decode_encode_app s t :
  percent_decode (percent_encode s ++ t) = s ++ percent_decode t.
Proof.
  induction s as [|c s IH]; [done|]. cbn [percent_encode app].
  rewrite <- app_assoc, percent_decode_encode_char. by rewrite IH.
Qed.

Lemma percent_decode_encode_id s : percent_decode (percent_encode s) = s.
Proof. rewrite <- (app_nil_r (percent_encode s)), percent_decode_encode_app. apply app_nil_r. Qed.

Definition percent_safe (c : byte) : bool := unreserved c || (c =c "%"%byte).

Lemma percent_encode_char_safe c : forallb percent_safe (percent_encode_char c) = true.
Proof. revert c. apply byte_forall. vm_compute. reflexivity. Qed.

Lemma percent_encode_safe s : Forall (fun c => percent_safe c = true) (percent_encode s).
Proof.
  induction s as [|c s IH]; [apply Forall_nil_2|]. cbn [percent_encode].
  apply Forall_app. split; [|done].
  apply Forall_forall. intros d Hd. pose proof (percent_encode_char_safe c) as H.
  rewrite forallb_forall in H. by apply H, list_elem_of_In.
Qed.

(** A byte that is not safe does not occur in encoded text. *)
Lemma percent_encode_avoids c s : percent_safe c = false -> c ∉ percent_encode s.
Proof.
  intros Hc Hin. pose proof (percent_encode_safe s) as H. rewrite Forall_forall in H.
  specialize (H c Hin). simpl in H. congruence.
Qed.

Lemma percent_encode_app s t : percent_encode (s ++ t) = percent_encode s ++ percent_encode t.
Proof.
  induction s as [|c s IH]; [done|]. cbn [app percent_encode]. by rewrite IH, app_assoc.
Qed.

Lemma percent_encode_char_size c : (1 <= length (percent_encode_char c) <= 3)%nat.
Proof.
  assert (((1 <=? length (percent_encode_char c))%nat && (length (percent_encode_char c) <=? 3)%nat) = true) as H.
  { revert c. apply byte_forall. vm_compute. reflexivity. }
  apply andb_true_iff in H as [?%Nat.leb_le ?%Nat.leb_le]. done.
Qed.
End PercentEncoding.

Section Base64.
Let two_bytes (f : Z -> Z -> bool) : bool :=
  forallb (fun c => forallb (fun d => f (uchar c) (uchar d)) all_bytes) all_bytes.

Lemma uchar_two_bytes (f : Z -> Z -> bool) :
  two_bytes f = true -> forall c d, f (uchar c) (uchar d) = true.
Proof. intros H. apply (byte_forall2 (fun c d => f (uchar c) (uchar d))), H. Qed.

Definition sextet (i : Z) : bool := (0 <=? i) && (i <? 64).

Lemma to_char_array_4_sextets c0 c1 c2 :
  Forall (fun i => sextet i = true) (to_char_array_4 (uchar c0) (uchar c1) (uchar c2)).
Proof.
  unfold to_char_array_4. rewrite !Forall_cons, Forall_nil. repeat split.
  - apply (uchar_two_bytes (fun a0 _ => sextet (Z.shiftr (Z.land a0 0xfc) 2))); [vm_compute; reflexivity | exact c0].
  - apply (uchar_two_bytes (fun a0 a1 => sextet ((Z.shiftl (Z.land a0 0x03) 4 + Z.shiftr (Z.land a1 0xf0) 4) mod 256))).
    vm_compute; reflexivity.
  - apply (uchar_two_bytes (fun a1 a2 => sextet ((Z.shiftl (Z.land a1 0x0f) 2 + Z.shiftr (Z.land a2 0xc0) 6) mod 256))).
    vm_compute; reflexivity.
  - apply (uchar_two_bytes (fun a2 _ => sextet (Z.land a2 0x3f))); [vm_compute; reflexivity | exact c0].
Qed.

(** Each output byte of a decoded group only depends on two input bytes. *)
Lemma to_char_array_3_4 c0 c1 c2 :
  match to_char_array_4 (uchar c0) (uchar c1) (uchar c2) with
  | [b0; b1; b2; b3] => to_char_array_3 b0 b1 b2 b3 = [uchar c0; uchar c1; uchar c2]
  | _ => False
  end.
Proof.
  unfold to_char_array_4, to_char_array_3. f_equal; [|f_equal; [|f_equal]].
  - apply Z.eqb_eq.
    apply (uchar_two_bytes (fun a0 a1 =>
      (Z.shiftl (Z.shiftr (Z.land a0 0xfc) 2) 2 +
       Z.shiftr (Z.land ((Z.shiftl (Z.land a0 0x03) 4 + Z.shiftr (Z.land a1 0xf0) 4) mod 256) 0x30) 4) mod 256 =? a0)).
    vm_compute; reflexivity.
  - assert (Z.land ((Z.shiftl (Z.land (uchar c0) 0x03) 4 + Z.shiftr (Z.land (uchar c1) 0xf0) 4) mod 256) 0xf
            = Z.shiftr (Z.land (uchar c1) 0xf0) 4) as ->.
    { apply Z.eqb_eq.
      apply (uchar_two_bytes (fun a0 a1 =>
        Z.land ((Z.shiftl (Z.land a0 0x03) 4 + Z.shiftr (Z.land a1 0xf0) 4) mod 256) 0xf
          =? Z.shiftr (Z.land a1 0xf0) 4)). vm_compute; reflexivity. }
    apply Z.eqb_eq.
    apply (uchar_two_bytes (fun a1 a2 =>
      (Z.shiftl (Z.shiftr (Z.land a1 0xf0) 4) 4 +
       Z.shiftr (Z.land ((Z.shiftl (Z.land a1 0x0f) 2 + Z.shiftr (Z.land a2 0xc0) 6) mod 256) 0x3c) 2) mod 256 =? a1)).
    vm_compute; reflexivity.
  - assert (Z.land ((Z.shiftl (Z.land (uchar c1) 0x0f) 2 + Z.shiftr (Z.land (uchar c2) 0xc0) 6) mod 256) 0x3
            = Z.shiftr (Z.land (uchar c2) 0xc0) 6) as ->.
    { apply Z.eqb_eq.
      apply (uchar_two_bytes (fun a1 a2 =>
        Z.land ((Z.shiftl (Z.land a1 0x0f) 2 + Z.shiftr (Z.land a2 0xc0) 6) mod 256) 0x3
          =? Z.shiftr (Z.land a2 0xc0) 6)). vm_compute; reflexivity. }
    apply Z.eqb_eq.
    apply (uchar_two_bytes (fun a2 _ =>
      (Z.shiftl (Z.shiftr (Z.land a2 0xc0) 6) 6 + Z.land a2 0x3f) mod 256 =? a2)); [vm_compute; reflexivity | exact c0].
Qed.

Lemma sextet_char i : sextet i = true ->
  is_base64 (base64_char i) = true /\ (base64_char i =c "="%byte) = false /\
  base64_find (uchar (base64_char i)) = i.
Proof.
  intros H. assert (i ∈ map Z.of_nat (seq 0 64)) as Hi.
  { unfold sextet in H. apply list_elem_of_In, in_map_iff. exists (Z.to_nat i).
    apply andb_true_iff in H as [?%Z.leb_le ?%Z.ltb_lt]. split; [lia|]. apply in_seq. lia. }
  clear H. revert i Hi. apply Forall_forall.
  repeat (apply Forall_cons; split; [vm_compute; auto|]). apply Forall_nil_2.
Qed.
End Base64.

Section Base64Loops.
Lemma base64_decode_step i s n arr ret :
  sextet i = true -> n <> 0 -> (length arr < 3)%nat ->
  base64_decode_loop (base64_char i :: s) n arr ret =
  base64_decode_loop s (n - 1) (arr ++ [uchar (base64_char i)]) ret.
Proof.
  intros Hi Hn Ha. destruct (sextet_char i Hi) as (H1 & H2 & _).
  cbn [base64_decode_loop]. rewrite H1, H2.
  destruct (Z.eqb_spec n 0); [done|]. cbn [negb andb].
  destruct arr as [|? [|? [|? ?]]]; simpl in *; try done; lia.
Qed.

Lemma base64_decode_group i0 i1 i2 i3 s n ret :
  Forall (fun i => sextet i = true) [i0; i1; i2; i3] -> 3 < n ->
  base64_decode_loop (map base64_char [i0; i1; i2; i3] ++ s) n [] ret =
  base64_decode_loop s (n - 4) [] (ret ++ map char_of_Z (to_char_array_3 i0 i1 i2 i3)).
Proof.
  rewrite !Forall_cons. intros (H0 & H1 & H2 & H3 & _) Hn. cbn [map app].
  rewrite !base64_decode_step by (done || simpl; lia). cbn [app].
  destruct (sextet_char i3 H3) as (E1 & E2 & E3).
  cbn [base64_decode_loop]. rewrite E1, E2.
  destruct (Z.eqb_spec (n - 1 - 1 - 1) 0); [lia|]. cbn [negb andb app].
  repeat match goal with H : sextet ?i = true |- _ => destruct (sextet_char i H) as (_ & _ & ->); clear H end.
  f_equal. lia.
Qed.

(** The encoder's output is a decodable image of its input. *)
Definition base64_image (e s : bytes) : Prop :=
  (4 * ((length s + 2) / 3) = length e)%nat /\
  forall ret, base64_decode_loop e (size e) [] ret = ret ++ s.

Lemma base64_image_tail1 a :
  base64_image (base64_encode_tail [uchar a]) [a].
Proof. split; [done|]. intros ret. destruct a; vm_compute; reflexivity. Qed.

Lemma base64_image_tail2 a b :
  base64_image (base64_encode_tail [uchar a; uchar b]) [a; b].
Proof.
  split; [done|]. intros ret.
  pose proof (to_char_array_3_4 a b Byte.x00) as Hd.
  pose proof (to_char_array_4_sextets a b Byte.x00) as Hs.
  change (uchar Byte.x00) with 0 in *. unfold base64_encode_tail.
  destruct (to_char_array_4 (uchar a) (uchar b) 0) as [|i0 [|i1 [|i2 [|i3 [|? ?]]]]]; try done.
  rewrite !Forall_cons in Hs. destruct Hs as (H0 & H1 & H2 & H3 & _).
  change (map base64_char (take 3 [i0; i1; i2; i3]) ++ str "=")
    with [base64_char i0; base64_char i1; base64_char i2; "="%byte].
  rewrite !base64_decode_step by (done || (simpl; lia)).
  cbn [base64_decode_loop app Byte.eqb negb andb]. rewrite andb_false_r. cbn [andb].
  rewrite bool_decide_eq_false_2 by done. f_equal.
  unfold base64_decode_tail. cbn [app take map length Nat.sub].
  repeat match goal with H : sextet ?i = true |- context [base64_find (uchar (base64_char ?i))] =>
    destruct (sextet_char i H) as (_ & _ & ->) end.
  unfold to_char_array_3 in *. injection Hd as E0 E1 _. cbn [take map].
  by rewrite E0, E1, !char_of_Z_uchar.
Qed.

Lemma base64_encode_loop_image s : forall ret,
  exists e, base64_encode_loop s [] ret = ret ++ e /\ base64_image e s.
Proof.
  induction s as [|a|a b|a b c l IH] using list_ind3; intros ret.
  - exists []. split; [done|]. split; [done|]. intros ret'. by rewrite app_nil_r.
  - exists (base64_encode_tail [uchar a]). split; [done | apply base64_image_tail1].
  - exists (base64_encode_tail [uchar a; uchar b]). split; [done | apply base64_image_tail2].
  - pose proof (to_char_array_3_4 a b c) as Hd.
    pose proof (to_char_array_4_sextets a b c) as Hs.
    cbn [base64_encode_loop app].
    destruct (to_char_array_4 (uchar a) (uchar b) (uchar c)) as [|i0 [|i1 [|i2 [|i3 [|? ?]]]]]; try done.
    destruct (IH (ret ++ map base64_char [i0; i1; i2; i3])) as (e & -> & Hlen & He).
    exists (map base64_char [i0; i1; i2; i3] ++ e). split; [by rewrite app_assoc|]. split.
    + rewrite length_app, <- Hlen. cbn [length map].
      replace (S (S (S (length l))) + 2)%nat with (1 * 3 + (length l + 2))%nat by lia.
      rewrite Nat.div_add_l by lia. lia.
    + intros ret'. rewrite base64_decode_group by (done || (cbn [map app]; size_lia)).
      replace (size (map base64_char [i0; i1; i2; i3] ++ e) - 4) with (size e) by (cbn [map app]; size_lia).
      rewrite Hd. cbn [map]. rewrite !char_of_Z_uchar.
      rewrite He. by rewrite <- app_assoc.
Qed.
End Base64Loops.

(** ** Properties *)

(** [percent_decode] inverts [percent_encode] in front of any text, for every
    string; the encoding is made of unreserved characters and percent signs,
    so it has none of the separators of a target, a form or a header. *)
Theorem percent_codec s t :
  percent_decode (percent_encode s ++ t) = s ++ percent_decode t /\
  Forall (fun c => unreserved c || (c =c "%"%byte) = true) (percent_encode s).
Proof. split; [apply percent_decode_encode_app | apply percent_encode_safe]. Qed.

(** base64 encoding is inverted by [base64_decode], and the encoding has
    four characters for every three bytes, rounded up. *)
Theorem base64_decode_encode s :
  size s <= 2 ^ 30 ->
  base64_decode (base64_encode s) = s /\
  length (base64_encode s) = (4 * ((length s + 2) / 3))%nat.
Proof.
  intros Hs. unfold base64_encode, uwrap32. rewrite Z.mod_small by size_lia.
  rewrite size_to_nat, firstn_all.
  destruct (base64_encode_loop_image s []) as (e & -> & Hlen & He). cbn [app].
  split; [|done]. unfold base64_decode, wrap32. rewrite Z.mod_small.
  - rewrite Z.add_simpl_r. apply (He []).
  - assert (4 * ((length s + 2) / 3) <= 4 * (length s + 2))%nat.
    { pose proof (Nat.Div0.div_le_upper_bound (length s + 2) 3 (length s + 2)). lia. }
    unfold size in *. pose proof (Nat.div_mod_eq (length s + 2) 3). lia.
Qed.

Lemma base64_decode_encode_witness :
  base64_decode (base64_encode (str "waspp")) = str "waspp" /\
  length (base64_encode (str "waspp")) = 8%nat.
Proof. apply (base64_decode_encode (str "waspp")). vm_compute. discriminate. Defined.
