(* ===== verification/Request.v ===== *)
(** * [src/src/request.{hpp,cpp}], [name_value.hpp], [multipart.hpp]: the request
    object, its header, cookie and parameter lookups.

    [header(n)], [cookie(n)] and [param(n)] return a reference into the vector
    and push an empty entry when [n] is missing; every use in the source reads
    the referenced string at once, so the model returns the updated request
    and the string. *)
From S2P Require Import Prelude CxxString.

(** ** Data *)

Record name_value : Type := mk_name_value { name : bytes; value : bytes }.

Record multipart_header : Type := mk_multipart_header {
  disposition : bytes; mh_name : bytes; mh_filename : bytes; mh_filetype : bytes }.

Record multipart_content : Type := mk_multipart_content {
  mc_name : bytes; mc_filename : bytes; mc_filetype : bytes; mc_data : bytes }.

Record request : Type := mk_request {
  remote_addr : bytes;
  remote_port : Z;
  connection_option : byte;
  method : bytes;
  uri : bytes;
  http_version_major_ : Z;
  http_version_minor_ : Z;
  headers : list name_value;
  content : bytes;
  content_length : Z;
  cookies : list name_value;
  params : list name_value;
  rest_params : list bytes;
  uploads : list multipart_content;
}.

(** [request()]: every string and vector empty, every number zero. *)
Definition request_init : request :=
  mk_request [] 0 Byte.x00 [] [] 0 0 [] [] 0 [] [] [] [].

(** Assignments to one field. *)
Definition set_remote_addr (r : request) (x : bytes) : request :=
  mk_request x (r.(remote_port)) (r.(connection_option)) (r.(method)) (r.(uri)) (r.(http_version_major_)) (r.(http_version_minor_)) (r.(headers)) (r.(content)) (r.(content_length)) (r.(cookies)) (r.(params)) (r.(rest_params)) (r.(uploads)).
Definition set_remote_port (r : request) (x : Z) : request :=
  mk_request (r.(remote_addr)) x (r.(connection_option)) (r.(method)) (r.(uri)) (r.(http_version_major_)) (r.(http_version_minor_)) (r.(headers)) (r.(content)) (r.(content_length)) (r.(cookies)) (r.(params)) (r.(rest_params)) (r.(uploads)).
Definition set_connection_option (r : request) (x : byte) : request :=
  mk_request (r.(remote_addr)) (r.(remote_port)) x (r.(method)) (r.(uri)) (r.(http_version_major_)) (r.(http_version_minor_)) (r.(headers)) (r.(content)) (r.(content_length)) (r.(cookies)) (r.(params)) (r.(rest_params)) (r.(uploads)).
Definition set_method (r : request) (x : bytes) : request :=
  mk_request (r.(remote_addr)) (r.(remote_port)) (r.(connection_option)) x (r.(uri)) (r.(http_version_major_)) (r.(http_version_minor_)) (r.(headers)) (r.(content)) (r.(content_length)) (r.(cookies)) (r.(params)) (r.(rest_params)) (r.(uploads)).
Definition set_uri (r : request) (x : bytes) : request :=
  mk_request (r.(remote_addr)) (r.(remote_port)) (r.(connection_option)) (r.(method)) x (r.(http_version_major_)) (r.(http_version_minor_)) (r.(headers)) (r.(content)) (r.(content_length)) (r.(cookies)) (r.(params)) (r.(rest_params)) (r.(uploads)).
Definition set_http_version_major_ (r : request) (x : Z) : request :=
  mk_request (r.(remote_addr)) (r.(remote_port)) (r.(connection_option)) (r.(method)) (r.(uri)) x (r.(http_version_minor_)) (r.(headers)) (r.(content)) (r.(content_length)) (r.(cookies)) (r.(params)) (r.(rest_params)) (r.(uploads)).
Definition set_http_version_minor_ (r : request) (x : Z) : request :=
  mk_request (r.(remote_addr)) (r.(remote_port)) (r.(connection_option)) (r.(method)) (r.(uri)) (r.(http_version_major_)) x (r.(headers)) (r.(content)) (r.(content_length)) (r.(cookies)) (r.(params)) (r.(rest_params)) (r.(uploads)).
Definition set_headers (r : request) (x : list name_value) : request :=
  mk_request (r.(remote_addr)) (r.(remote_port)) (r.(connection_option)) (r.(method)) (r.(uri)) (r.(http_version_major_)) (r.(http_version_minor_)) x (r.(content)) (r.(content_length)) (r.(cookies)) (r.(params)) (r.(rest_params)) (r.(uploads)).
Definition set_content (r : request) (x : bytes) : request :=
  mk_request (r.(remote_addr)) (r.(remote_port)) (r.(connection_option)) (r.(method)) (r.(uri)) (r.(http_version_major_)) (r.(http_version_minor_)) (r.(headers)) x (r.(content_length)) (r.(cookies)) (r.(params)) (r.(rest_params)) (r.(uploads)).
Definition set_content_length (r : request) (x : Z) : request :=
  mk_request (r.(remote_addr)) (r.(remote_port)) (r.(connection_option)) (r.(method)) (r.(uri)) (r.(http_version_major_)) (r.(http_version_minor_)) (r.(headers)) (r.(content)) x (r.(cookies)) (r.(params)) (r.(rest_params)) (r.(uploads)).
Definition set_cookies (r : request) (x : list name_value) : request :=
  mk_request (r.(remote_addr)) (r.(remote_port)) (r.(connection_option)) (r.(method)) (r.(uri)) (r.(http_version_major_)) (r.(http_version_minor_)) (r.(headers)) (r.(content)) (r.(content_length)) x (r.(params)) (r.(rest_params)) (r.(uploads)).
Definition set_params (r : request) (x : list name_value) : request :=
  mk_request (r.(remote_addr)) (r.(remote_port)) (r.(connection_option)) (r.(method)) (r.(uri)) (r.(http_version_major_)) (r.(http_version_minor_)) (r.(headers)) (r.(content)) (r.(content_length)) (r.(cookies)) x (r.(rest_params)) (r.(uploads)).
Definition set_rest_params (r : request) (x : list bytes) : request :=
  mk_request (r.(remote_addr)) (r.(remote_port)) (r.(connection_option)) (r.(method)) (r.(uri)) (r.(http_version_major_)) (r.(http_version_minor_)) (r.(headers)) (r.(content)) (r.(content_length)) (r.(cookies)) (r.(params)) x (r.(uploads)).
Definition set_uploads (r : request) (x : list multipart_content) : request :=
  mk_request (r.(remote_addr)) (r.(remote_port)) (r.(connection_option)) (r.(method)) (r.(uri)) (r.(http_version_major_)) (r.(http_version_minor_)) (r.(headers)) (r.(content)) (r.(content_length)) (r.(cookies)) (r.(params)) (r.(rest_params)) x.

(** ** Lookups in a vector of [name_value]

    [std::find_if] with the lambda [nv.name == name]: the first match. *)

Fixpoint nv_lookup (n : bytes) (l : list name_value) : option bytes :=
  match l with
  | [] => None
  | nv :: l' => if nv.(name) =s n then Some nv.(value) else nv_lookup n l'
  end.

(** The lookup that appends an empty entry when there is none. *)
Definition nv_get (n : bytes) (l : list name_value) : list name_value * bytes :=
  match nv_lookup n l with
  | Some v => (l, v)
  | None => (l ++ [mk_name_value n []], [])
  end.

(** Assignment to the value of the first match. *)
Fixpoint nv_assign (n v : bytes) (l : list name_value) : list name_value :=
  match l with
  | [] => []
  | nv :: l' => if nv.(name) =s n then mk_name_value nv.(name) v :: l' else nv :: nv_assign n v l'
  end.

Definition header (r : request) (n : bytes) : request * bytes :=
  let '(l, v) := nv_get n r.(headers) in (set_headers r l, v).

Definition cookie (r : request) (n : bytes) : request * bytes :=
  let '(l, v) := nv_get n r.(cookies) in (set_cookies r l, v).

Definition param (r : request) (n : bytes) : request * bytes :=
  let '(l, v) := nv_get n r.(params) in (set_params r l, v).

Definition is_empty (s : bytes) : bool := match s with [] => true | _ => false end.

Definition parse_connection_header (r : request) : res request :=
  let r := set_connection_option r "K"%byte in
  let r :=
    if (r.(http_version_major_) =? 1) && (r.(http_version_minor_) =? 0)
    then set_connection_option r "c"%byte else r in
  let '(r, v) := header r (str "Connection") in
  if negb (is_empty v) then
    let '(r, v) := header r (str "Connection") in
    let* c := str_index v 0 in
    Ok (set_connection_option r c)
  else Ok r.

(** ** Lemmas *)

#[export] Instance name_value_eq_dec : EqDecision name_value.
Proof. solve_decision. Defined.

#[export] Instance multipart_content_eq_dec : EqDecision multipart_content.
Proof. solve_decision. Defined.

#[export] Instance request_eq_dec : EqDecision request.
Proof. solve_decision. Defined.

Lemma nv_lookup_app n l k :
  nv_lookup n (l ++ k) = match nv_lookup n l with Some v => Some v | None => nv_lookup n k end.
Proof. induction l as [|nv l IH]; simpl; [done|]. by destruct (name nv =s n). Qed.

Lemma nv_lookup_None n l : nv_lookup n l = None <-> n ∉ map name l.
Proof.
  induction l as [|nv l IH]; simpl; [split; [intros _; apply not_elem_of_nil | done]|].
  rewrite not_elem_of_cons, <- IH. destruct (name nv =s n) eqn:E.
  - apply eqs_true in E as ->. split; [done | by intros []].
  - apply eqs_false in E. split; [by intros H; split; [congruence|] | by intros []].
Qed.

Lemma nv_get_value n l : (nv_get n l).2 = default [] (nv_lookup n l).
Proof. unfold nv_get. by destruct (nv_lookup n l). Qed.

(** Looking a name up twice gives the same entry and no further change. *)
Lemma nv_get_idem n l : nv_get n (nv_get n l).1 = nv_get n l.
Proof.
  unfold nv_get. destruct (nv_lookup n l) as [v|] eqn:E; simpl.
  - by rewrite E.
  - rewrite nv_lookup_app, E. simpl. by rewrite eqs_refl.
Qed.

Lemma nv_lookup_get m n l :
  nv_lookup m (nv_get n l).1 =
  match nv_lookup m l with Some v => Some v | None => if m =s n then Some [] else None end.
Proof.
  unfold nv_get. destruct (nv_lookup n l) as [v|] eqn:E; simpl.
  - destruct (nv_lookup m l) eqn:F; [done|]. destruct (m =s n) eqn:G; [|done].
    apply eqs_true in G as ->. congruence.
  - rewrite nv_lookup_app. destruct (nv_lookup m l); [done|]. simpl.
    destruct (eqs n m) eqn:G.
    + apply eqs_true in G as ->. by rewrite eqs_refl.
    + apply eqs_false in G. by rewrite (proj2 (eqs_false m n)).
Qed.

Lemma nv_lookup_assign m n v l :
  nv_lookup m (nv_assign n v l) =
  if m =s n then (fun _ => v) <$> nv_lookup n l else nv_lookup m l.
Proof.
  induction l as [|nv l IH]; simpl; [by destruct (m =s n)|].
  destruct (name nv =s n) eqn:E; simpl.
  - apply eqs_true in E as ->. destruct (eqs n m) eqn:F.
    + apply eqs_true in F as ->. by rewrite eqs_refl.
    + apply eqs_false in F. by rewrite (proj2 (eqs_false m n)).
  - destruct (name nv =s m) eqn:F.
    + apply eqs_true in F as <-. by rewrite E.
    + by rewrite IH.
Qed.

(** The option that [parse_connection_header] decides on: the first character
    of the header, or the default of the version. *)
Definition connection_choice (r : request) : byte :=
  match (header r (str "Connection")).2 with
  | c :: _ => c
  | [] => if (r.(http_version_major_) =? 1) && (r.(http_version_minor_) =? 0) then "c"%byte else "K"%byte
  end.

Lemma parse_connection_header_spec r :
  parse_connection_header r =
    Ok (set_connection_option (header r (str "Connection")).1 (connection_choice r)).
Proof.
  unfold parse_connection_header, connection_choice, header.
  cbn [http_version_major_ http_version_minor_ set_connection_option].
  set (o := (_ =? 1) && _).
  assert ((if o then set_connection_option (set_connection_option r "K"%byte) "c"%byte
    else set_connection_option r "K"%byte) = set_connection_option r (if o then "c"%byte else "K"%byte)) as ->
    by by destruct o.
  cbn [headers set_connection_option]. unfold nv_get.
  destruct (nv_lookup (str "Connection") (headers r)) as [[|c v]|] eqn:E; cbn [is_empty negb fst snd]; [done| |done].
  cbn [headers set_headers]. rewrite E. done.
Qed.
