(* ===== verification/RequestParser.v ===== *)
(** * [src/src/request_parser.hpp]: the incremental HTTP request parser.

    [request_parser::parse] is a [while] over a [switch] on [state_].  Each
    [case] is one definition below; the cases that read several bytes run a
    [do ... while (begin != end)] loop, which [do_while] renders.  [parse] runs
    them as the source does, and [feed] is the byte-at-a-time reading of it. *)
From S2P Require Import Prelude CxxString Request.

(** ** Character classes of the request line *)

(** [input] is a [char]; it is passed as an [int], so bytes above 127 are
    negative. *)
Definition is_char (c : byte) : bool := (0 <=? schar c) && (schar c <=? 127).

Definition is_ctl (c : byte) : bool :=
  ((0 <=? schar c) && (schar c <=? 31)) || (schar c =? 127).

(** The characters of the [switch]: brackets, separators, the double quote
    (22), the backslash, space and tab (09). *)
Definition is_tspecial (c : byte) : bool :=
  mem c (str "()<>@,;:\/[]?={} " ++ [Byte.x22; Byte.x09]).

Definition is_digit (c : byte) : bool := (48 <=? schar c) && (schar c <=? 57).

(** The test [!is_char(c) || is_ctl(c) || is_tspecial(c)] used by most cases. *)
Definition not_token (c : byte) : bool := negb (is_char c) || is_ctl c || is_tspecial c.

(** ** Parser state *)

(** [boost::tribool] *)
Inductive tribool : Type := true_ | false_ | indeterminate.

Module state.
Inductive state_t : Type :=
  | method_start | method | uri
  | param_name_start | param_name | param_value_start | param_value
  | http_version_h | http_version_t_1 | http_version_t_2 | http_version_p | http_version_slash
  | http_version_major_start | http_version_major
  | http_version_minor_start | http_version_minor
  | expecting_newline_1 | header_line_start | header_lws | header_name
  | space_before_header_value | header_value | expecting_newline_2 | expecting_newline_3
  | content_start | content.

#[global] Instance eq_dec : EqDecision state_t.
Proof. solve_decision. Defined.
End state.

(** [request_parser()] and [reset()] *)
Definition reset : state.state_t := state.method_start.

(** What a [case] leaves behind: [result], [state_] and the request. *)
Abbreviation outcome := (tribool * state.state_t * request)%type.

(** ** Assignments of the cases *)

Definition push_method (r : request) (c : byte) : request := set_method r (r.(method) ++ [c]).
Definition push_uri (r : request) (c : byte) : request := set_uri r (r.(uri) ++ [c]).
Definition push_content (r : request) (c : byte) : request := set_content r (r.(content) ++ [c]).

Definition push_name (c : byte) (nv : name_value) : name_value :=
  mk_name_value (nv.(name) ++ [c]) nv.(value).
Definition push_value (c : byte) (nv : name_value) : name_value :=
  mk_name_value nv.(name) (nv.(value) ++ [c]).

(** [req.params.back().name.push_back(c)] and its three siblings. *)
Definition params_back (f : name_value -> name_value) (r : request) : res request :=
  let* l := update_back f r.(params) in Ok (set_params r l).
Definition headers_back (f : name_value -> name_value) (r : request) : res request :=
  let* l := update_back f r.(headers) in Ok (set_headers r l).

(** [version * 10 + input - '0'] *)
Definition next_version (version : Z) (c : byte) : res Z :=
  let* v := int_result (version * 10) in
  let* v := int_result (v + schar c) in
  int_result (v - 48).

(** ** The cases *)

Section Cases.
Context (input : byte) (req : request).

Let reject (s : state.state_t) : res outcome := Ok (false_, s, req).
Let goto (s : state.state_t) : res outcome := Ok (indeterminate, s, req).

Definition on_method_start : res outcome :=
  if not_token input then reject state.method_start
  else Ok (indeterminate, state.method, push_method req input).

Definition on_param_name_start : res outcome :=
  if input =c " "%byte then goto state.http_version_h
  else if not_token input then reject state.param_name_start
  else
    let r := push_uri req input in
    let r := set_params r (r.(params) ++ [mk_name_value [] []]) in
    let* r := params_back (push_name input) r in
    Ok (indeterminate, state.param_name, r).

Definition on_http_version_t_1 : res outcome :=
  if input =c "T"%byte then goto state.http_version_t_2 else reject state.http_version_t_1.

Definition on_http_version_t_2 : res outcome :=
  if input =c "T"%byte then goto state.http_version_p else reject state.http_version_t_2.

Definition on_http_version_p : res outcome :=
  if input =c "P"%byte then goto state.http_version_slash else reject state.http_version_p.

Definition on_http_version_slash : res outcome :=
  if input =c "/"%byte then
    let r := set_http_version_major_ req 0 in
    let r := set_http_version_minor_ r 0 in
    Ok (indeterminate, state.http_version_major_start, r)
  else reject state.http_version_slash.

Definition on_http_version_major_start : res outcome :=
  if is_digit input then
    let* v := next_version req.(http_version_major_) input in
    Ok (indeterminate, state.http_version_major, set_http_version_major_ req v)
  else reject state.http_version_major_start.

Definition on_http_version_major : res outcome :=
  if input =c "."%byte then goto state.http_version_minor_start
  else if is_digit input then
    let* v := next_version req.(http_version_major_) input in
    Ok (indeterminate, state.http_version_major, set_http_version_major_ req v)
  else reject state.http_version_major.

Definition on_http_version_minor_start : res outcome :=
  if is_digit input then
    let* v := next_version req.(http_version_minor_) input in
    Ok (indeterminate, state.http_version_minor, set_http_version_minor_ req v)
  else reject state.http_version_minor_start.

Definition on_http_version_minor : res outcome :=
  if input =c Byte.x0d then goto state.expecting_newline_1
  else if is_digit input then
    let* v := next_version req.(http_version_minor_) input in
    Ok (indeterminate, state.http_version_minor, set_http_version_minor_ req v)
  else reject state.http_version_minor.

Definition on_expecting_newline_1 : res outcome :=
  if input =c Byte.x0a then goto state.header_line_start else reject state.expecting_newline_1.

Definition on_header_line_start : res outcome :=
  if input =c Byte.x0d then goto state.expecting_newline_3
  else if negb (bool_decide (req.(headers) = [])) && ((input =c " "%byte) || (input =c Byte.x09))
  then goto state.header_lws
  else if not_token input then reject state.header_line_start
  else
    let r := set_headers req (req.(headers) ++ [mk_name_value [] []]) in
    let* r := headers_back (push_name input) r in
    Ok (indeterminate, state.header_name, r).

Definition on_header_lws : res outcome :=
  if input =c Byte.x0d then goto state.expecting_newline_2
  else if (input =c " "%byte) || (input =c Byte.x09) then goto state.header_lws
  else if is_ctl input then reject state.header_lws
  else
    let* r := headers_back (push_value input) req in
    Ok (indeterminate, state.header_value, r).

Definition on_space_before_header_value : res outcome :=
  if input =c " "%byte then goto state.header_value else reject state.space_before_header_value.

Definition on_expecting_newline_2 : res outcome :=
  if input =c Byte.x0a then goto state.header_line_start else reject state.expecting_newline_2.

(** [req.content_length = strtol(req.header("Content-Length").c_str(), ...)] *)
Definition declared_length (r : request) : request :=
  let '(r, v) := header r (str "Content-Length") in
  set_content_length r (wrap32 (strtol v)).

Definition on_expecting_newline_3 : res outcome :=
  if (req.(method) =s str "GET") && (input =c Byte.x0a) then
    Ok (true_, state.expecting_newline_3, req)
  else if (req.(method) =s str "POST") && (input =c Byte.x0a) then
    let '(r, v) := header req (str "Content-Length") in
    if is_empty v then Ok (false_, state.expecting_newline_3, r)
    else Ok (indeterminate, state.content_start, declared_length r)
  else reject state.expecting_newline_3.

(** The four statements shared by [content_start] and [content]. *)
Definition take_content (current : state.state_t) : res outcome :=
  let* n := int_result (req.(content_length) - 1) in
  let r := push_content (set_content_length req n) input in
  if r.(content_length) =? 0 then Ok (true_, current, declared_length r)
  else Ok (indeterminate, state.content, r).

Definition on_content_start : res outcome :=
  if negb (bool_decide (req.(content) = [])) then reject state.content_start
  else if not_token input then reject state.content_start
  else take_content state.content_start.

(** [while (1) { ...; break; }]: one byte per pass. *)
Definition on_content : res outcome := take_content state.content.
End Cases.

(** Bodies of the [do ... while] loops: [Some result] leaves the loop. *)
Section LoopBodies.
Context (input : byte) (req : request).

Definition iteration : Type := res (option tribool * state.state_t * request).
Let stop (s : state.state_t) (r : request) : iteration := Ok (Some indeterminate, s, r).
Let reject (s : state.state_t) : iteration := Ok (Some false_, s, req).
Let continue (s : state.state_t) (r : request) : iteration := Ok (None, s, r).

Definition method_body : iteration :=
  if input =c " "%byte then stop state.uri req
  else if not_token input then reject state.method
  else continue state.method (push_method req input).

Definition uri_body : iteration :=
  if input =c "?"%byte then stop state.param_name_start (push_uri req input)
  else if input =c " "%byte then stop state.http_version_h req
  else if is_ctl input then reject state.uri
  else continue state.uri (push_uri req input).

Definition param_name_body : iteration :=
  if input =c " "%byte then stop state.http_version_h req
  else if input =c "="%byte then stop state.param_value (push_uri req input)
  else if not_token input then reject state.param_name
  else
    let* r := params_back (push_name input) (push_uri req input) in
    continue state.param_name r.

Definition param_value_body : iteration :=
  if input =c " "%byte then stop state.http_version_h req
  else if input =c "&"%byte then stop state.param_name_start (push_uri req input)
  else if not_token input then reject state.param_value
  else
    let* r := params_back (push_value input) (push_uri req input) in
    continue state.param_value r.

Definition http_version_h_body : iteration :=
  if input =c "H"%byte then stop state.http_version_t_1 req
  else reject state.http_version_h.

Definition header_name_body : iteration :=
  if input =c ":"%byte then stop state.space_before_header_value req
  else if not_token input then reject state.header_name
  else
    let* r := headers_back (push_name input) req in
    continue state.header_name r.

Definition header_value_body : iteration :=
  if input =c Byte.x0d then stop state.expecting_newline_2 req
  else if is_ctl input then reject state.header_value
  else
    let* r := headers_back (push_value input) req in
    continue state.header_value r.
End LoopBodies.

(** ** The loops *)

(** [do { input = *begin++; body } while (begin != end); break;] entered with
    the byte [c] and the rest [rest] of the input; [result] keeps its value
    when the input ends. *)
Fixpoint do_while (body : byte -> request -> iteration) (result : tribool)
    (c : byte) (rest : bytes) (req : request) : res (outcome * bytes) :=
  let* (brk, s, r) := body c req in
  match brk with
  | Some result' => Ok ((result', s, r), rest)
  | None =>
      match rest with
      | [] => Ok ((result, s, r), [])
      | c' :: rest' => do_while body result c' rest' r
      end
  end.

(** A [case] that reads one byte. *)
Definition once (f : byte -> request -> res outcome) (c : byte) (rest : bytes) (req : request)
    : res (outcome * bytes) :=
  let* o := f c req in Ok (o, rest).

(** The [switch]. *)
Definition switch (s : state.state_t) (result : tribool) (c : byte) (rest : bytes) (req : request)
    : res (outcome * bytes) :=
  match s with
  | state.method_start => once on_method_start c rest req
  | state.method => do_while method_body result c rest req
  | state.uri => do_while uri_body result c rest req
  | state.param_name_start => once on_param_name_start c rest req
  | state.param_name => do_while param_name_body result c rest req
  | state.param_value => do_while param_value_body result c rest req
  | state.http_version_h => do_while http_version_h_body result c rest req
  | state.http_version_t_1 => once on_http_version_t_1 c rest req
  | state.http_version_t_2 => once on_http_version_t_2 c rest req
  | state.http_version_p => once on_http_version_p c rest req
  | state.http_version_slash => once on_http_version_slash c rest req
  | state.http_version_major_start => once on_http_version_major_start c rest req
  | state.http_version_major => once on_http_version_major c rest req
  | state.http_version_minor_start => once on_http_version_minor_start c rest req
  | state.http_version_minor => once on_http_version_minor c rest req
  | state.expecting_newline_1 => once on_expecting_newline_1 c rest req
  | state.header_line_start => once on_header_line_start c rest req
  | state.header_lws => once on_header_lws c rest req
  | state.header_name => do_while header_name_body result c rest req
  | state.space_before_header_value => once on_space_before_header_value c rest req
  | state.header_value => do_while header_value_body result c rest req
  | state.expecting_newline_2 => once on_expecting_newline_2 c rest req
  | state.expecting_newline_3 => once on_expecting_newline_3 c rest req
  | state.content_start => once on_content_start c rest req
  | state.content => once on_content c rest req
  | state.param_value_start => Ok ((false_, s, req), c :: rest)
  end.

(** [while (begin != end) { switch ...; if (result || !result) return; }].
    Every pass but the [default] one reads a byte and the [default] one
    returns, so as much fuel as there is input is enough. *)
Fixpoint parse_loop (fuel : nat) (s : state.state_t) (result : tribool) (req : request) (input : bytes)
    : res (outcome * bytes) :=
  match input, fuel with
  | [], _ | _, O => Ok ((result, s, req), input)
  | c :: rest, S fuel' =>
      let* (result', s', req', rest') := switch s result c rest req in
      match result' with
      | true_ | false_ => Ok ((result', s', req'), rest')
      | indeterminate => parse_loop fuel' s' result' req' rest'
      end
  end.

(** [parse(req, begin, end)] on a parser in state [s]: the tribool, the new
    state and request, and the input from the returned iterator on. *)
Definition parse (s : state.state_t) (req : request) (input : bytes) : res (outcome * bytes) :=
  parse_loop (length input) s indeterminate req input.

(** ** Byte-at-a-time reference *)

Definition of_iteration (i : iteration) : res outcome :=
  let* (brk, s, r) := i in Ok (default indeterminate brk, s, r).

Definition consume (s : state.state_t) (c : byte) (req : request) : res outcome :=
  match s with
  | state.method => of_iteration (method_body c req)
  | state.uri => of_iteration (uri_body c req)
  | state.param_name => of_iteration (param_name_body c req)
  | state.param_value => of_iteration (param_value_body c req)
  | state.http_version_h => of_iteration (http_version_h_body c req)
  | state.header_name => of_iteration (header_name_body c req)
  | state.header_value => of_iteration (header_value_body c req)
  | _ => let* (o, _) := switch s indeterminate c [] req in Ok o
  end.

Fixpoint feed (s : state.state_t) (req : request) (input : bytes) : res (outcome * bytes) :=
  match input with
  | [] => Ok ((indeterminate, s, req), [])
  | c :: rest =>
      let* (result, s', req') := consume s c req in
      match result with
      | indeterminate => feed s' req' rest
      | _ => Ok ((result, s', req'), rest)
      end
  end.

(** ** Lemmas *)

#[export] Instance tribool_eq_dec : EqDecision tribool.
Proof. solve_decision. Defined.

(** Case analysis of one parser step: every test of the case is destructed. *)
Ltac unfold_cases :=
  unfold on_method_start, on_param_name_start, on_http_version_t_1, on_http_version_t_2,
    on_http_version_p, on_http_version_slash, on_http_version_major_start, on_http_version_major,
    on_http_version_minor_start, on_http_version_minor, on_expecting_newline_1,
    on_header_line_start, on_header_lws, on_space_before_header_value, on_expecting_newline_2,
    on_expecting_newline_3, on_content_start, on_content, take_content,
    method_body, uri_body, param_name_body, param_value_body, http_version_h_body,
    header_name_body, header_value_body, params_back, headers_back, once, of_iteration, next_version in *.

Ltac step_cases H :=
  unfold_cases; cbn [consume switch mbind res_bind] in H; unfold_cases; cbn [mbind res_bind] in H; res_inv;
  repeat (match goal with
          | H' : context [if ?b then _ else _] |- _ =>
              lazymatch type of H' with _ = Ok _ => destruct b eqn:? end
          | H' : context [let '(_, _) := ?p in _] |- _ =>
              lazymatch type of H' with _ = Ok _ => destruct p eqn:? end
          end; cbn [mbind res_bind] in *; res_inv);
  res_inv.

Section DoWhile.
Context (s : state.state_t) (body : byte -> request -> iteration).
Context (consume_body : forall c r, consume s c r = of_iteration (body c r)).
Context (body_state : forall c r s' r', body c r = Ok (None, s', r') -> s' = s).

(** What the outer loop does with the outcome of a [case]. *)
Definition resume (o : outcome * bytes) : res (outcome * bytes) :=
  let '(r, s', req', rest') := o in
  match r with
  | indeterminate => feed s' req' rest'
  | _ => Ok ((r, s', req'), rest')
  end.

Lemma do_while_feed rest c req :
  mbind resume (do_while body indeterminate c rest req) = feed s req (c :: rest).
Proof using consume_body body_state.
  revert c req; induction rest as [|c' rest IH]; intros c req; cbn [do_while feed];
    rewrite consume_body; unfold of_iteration;
    destruct (body c req) as [[[[b|] s'] r']| |] eqn:E; cbn [mbind res_bind]; try done;
    apply body_state in E as ->.
  by rewrite IH.
Qed.

Lemma do_while_rest rest c req o rest' :
  do_while body indeterminate c rest req = Ok (o, rest') -> (length rest' <= length rest)%nat.
Proof using.
  revert c req; induction rest as [|c' rest IH]; intros c req; cbn [do_while];
    destruct (body c req) as [[[[b|] s'] r']| |]; cbn [mbind res_bind]; intros H; res_inv; try done.
  apply IH in H. simpl. lia.
Qed.
End DoWhile.

Lemma once_feed s f c rest req :
  (forall c' r, consume s c' r = f c' r) -> mbind resume (once f c rest req) = feed s req (c :: rest).
Proof.
  intros Hf. cbn [feed]. rewrite Hf. unfold once.
  by destruct (f c req) as [[[[] ?] ?]| |].
Qed.

Lemma once_rest f c rest req o rest' : once f c rest req = Ok (o, rest') -> rest' = rest.
Proof. unfold once. intros H. by res_inv. Qed.

Lemma consume_once s f :
  (forall c rest req, switch s indeterminate c rest req = once f c rest req) ->
  (forall c r, consume s c r = let* (o, _) := switch s indeterminate c [] r in Ok o) ->
  forall c r, consume s c r = f c r.
Proof. intros H1 H2 c r. rewrite H2, H1. unfold once. by destruct (f c r). Qed.

Lemma switch_feed s c rest req :
  s <> state.param_value_start ->
  mbind resume (switch s indeterminate c rest req) = feed s req (c :: rest).
Proof.
  intros Hs. destruct s; try done; cbn [switch];
    first [ apply once_feed, consume_once; done
          | apply do_while_feed; [done|];
            intros ? ? ? ? H; unfold_cases; repeat case_match; res_inv; done ].
Qed.

Lemma switch_rest s c rest req o rest' :
  s <> state.param_value_start ->
  switch s indeterminate c rest req = Ok (o, rest') -> (length rest' <= length rest)%nat.
Proof.
  intros Hs. destruct s; try done; cbn [switch]; intros H;
    first [ by apply once_rest in H as -> | by apply do_while_rest in H ].
Qed.

(** *** Reachable states: [param_value_start] is never entered *)

Lemma body_state_ok c r brk s' r' body :
  In body [method_body; uri_body; param_name_body; param_value_body; http_version_h_body;
           header_name_body; header_value_body] ->
  body c r = Ok (brk, s', r') -> s' <> state.param_value_start.
Proof.
  intros Hin H. repeat destruct Hin as [<-|Hin]; try done;
    unfold_cases; repeat case_match; res_inv; done.
Qed.

Lemma consume_state s c r o s' r' :
  s <> state.param_value_start -> consume s c r = Ok (o, s', r') -> s' <> state.param_value_start.
Proof.
  intros Hs H. destruct s; try done; step_cases H; done.
Qed.

Lemma parse_loop_feed fuel s req input :
  s <> state.param_value_start -> (length input <= fuel)%nat ->
  parse_loop fuel s indeterminate req input = feed s req input.
Proof.
  revert s req input; induction fuel as [|fuel IH]; intros s req input Hs Hf.
  - destruct input; [done | simpl in Hf; lia].
  - destruct input as [|c rest]; [done|]. cbn [parse_loop].
    rewrite <- switch_feed by done. unfold resume.
    destruct (switch s indeterminate c rest req) as [[[[[] s'] r'] rest']| |] eqn:E;
      cbn [mbind res_bind]; try done.
    apply IH.
    + destruct s; try done; cbn [switch] in E; try by step_cases E.
      all: clear -E; revert c req E; induction rest as [|c' rest IH]; intros c req E;
        cbn [do_while] in E; apply bind_Ok_inv in E as ([[[b|] s1] r1] & Eb & E); res_inv;
        try (eapply body_state_ok; [|exact Eb]; simpl; tauto).
      all: eapply IH, E.
    + apply switch_rest in E; [|done]. simpl in Hf. lia.
Qed.

Lemma feed_app s req a b :
  feed s req (a ++ b) =
  let* (result, s', req', rest) := feed s req a in
  match result with
  | indeterminate => feed s' req' b
  | _ => Ok ((result, s', req'), rest ++ b)
  end.
Proof.
  revert s req; induction a as [|c a IH]; intros s req; [done|].
  cbn [app feed]. destruct (consume s c req) as [[[[] s'] r']| |]; cbn [mbind res_bind]; done.
Qed.

Lemma feed_indeterminate_rest s req input s' req' rest :
  feed s req input = Ok ((indeterminate, s', req'), rest) -> rest = [].
Proof.
  revert s req; induction input as [|c input IH]; intros s req; simpl; [intros; by res_inv|].
  intros H. apply bind_Ok_inv in H as ([[r s1] r1] & _ & H).
  destruct r; res_inv; eauto.
Qed.

(** *** Well-formedness: which vectors the states rely on *)

Definition declared (r : request) : Z :=
  wrap32 (strtol (default [] (nv_lookup (str "Content-Length") r.(headers)))).

(** The states entered after a parameter, or a header line, was started. *)
Definition in_param (s : state.state_t) : bool :=
  match s with state.param_name | state.param_value => true | _ => false end.
Definition in_header (s : state.state_t) : bool :=
  match s with
  | state.header_lws | state.header_name | state.space_before_header_value
  | state.header_value | state.expecting_newline_2 => true
  | _ => false
  end.

Record parser_inv (s : state.state_t) (r : request) : Prop := {
  inv_params : in_param s = true -> r.(params) <> [];
  inv_headers : in_header s = true -> r.(headers) <> [];
  inv_content_empty : s <> state.content -> r.(content) = [];
  inv_content_post : s = state.content_start \/ s = state.content ->
    r.(method) = str "POST" /\ nv_lookup (str "Content-Length") r.(headers) <> None;
  inv_content_start : s = state.content_start -> r.(content_length) = declared r;
  inv_content : s = state.content ->
    r.(content) <> [] /\ r.(content_length) <> 0 /\
    r.(content_length) + size r.(content) = declared r;
}.

(** What a [true] result means. *)
Definition complete (r : request) : Prop :=
  (r.(method) = str "GET" /\ r.(content) = []) \/
  (r.(method) = str "POST" /\ r.(content) <> [] /\
   size r.(content) = declared r /\ r.(content_length) = declared r).

Lemma header_present r n v :
  nv_lookup n r.(headers) = Some v -> header r n = (set_headers r r.(headers), v).
Proof. intros H. unfold header, nv_get. by rewrite H. Qed.

Lemma declared_length_present r :
  nv_lookup (str "Content-Length") r.(headers) <> None ->
  declared_length r = set_content_length r (declared r).
Proof.
  intros H. unfold declared_length, declared.
  destruct (nv_lookup (str "Content-Length") r.(headers)) as [v|] eqn:E; [|done].
  by rewrite (header_present r _ v E).
Qed.

Lemma update_back_inv {A} (f : A -> A) l :
  l <> [] -> exists k, update_back f l = Ok k /\ k <> [].
Proof.
  intros (l' & x & ->)%snoc_inv. rewrite update_back_snoc. eexists; split; [done|]. by destruct l'.
Qed.

Lemma params_back_ok f r : r.(params) <> [] ->
  exists k, params_back f r = Ok (set_params r k) /\ k <> [].
Proof.
  intros (k & Hk & ?)%(update_back_inv f). unfold params_back. rewrite Hk. eauto.
Qed.

Lemma headers_back_ok f r : r.(headers) <> [] ->
  exists k, headers_back f r = Ok (set_headers r k) /\ k <> [].
Proof.
  intros (k & Hk & ?)%(update_back_inv f). unfold headers_back. rewrite Hk. eauto.
Qed.

Lemma next_version_cases v c :
  (exists w, next_version v c = Ok w) \/ next_version v c = UB signed_overflow.
Proof.
  unfold next_version.
  destruct (int_result_cases (v * 10)) as [-> | ->]; simpl; [|auto].
  destruct (int_result_cases (v * 10 + schar c)) as [-> | ->]; simpl; [|auto].
  destruct (int_result_cases (v * 10 + schar c - 48)) as [-> | ->]; eauto.
Qed.

(** What one step owes: the invariant when parsing goes on, a complete
    request on [true], and no undefined behaviour but a version number or
    a content length beyond [int]. *)
Definition step_ok (o : res outcome) : Prop :=
  match o with
  | Ok (indeterminate, s, r) => s <> state.param_value_start /\ parser_inv s r
  | Ok (true_, _, r) => complete r
  | Ok (false_, _, _) => True
  | UB u => u = signed_overflow
  | Throw _ => False
  end.

Lemma take_content_ok s c r :
  r.(method) = str "POST" -> nv_lookup (str "Content-Length") r.(headers) <> None ->
  r.(content_length) + size r.(content) = declared r ->
  step_ok (take_content c r s).
Proof.
  intros Hm Hh Hl. unfold take_content.
  destruct (int_result_cases (r.(content_length) - 1)) as [-> | ->]; [|done]. simpl.
  pose proof (declared_length_present (push_content (set_content_length r (content_length r - 1)) c)) as Hd.
  change (declared (push_content (set_content_length r (content_length r - 1)) c)) with (declared r) in Hd.
  simpl in Hd.
  destruct (Z.eqb_spec (content_length r - 1) 0).
  - rewrite Hd by done. right. simpl. split; [done|]. split; [by destruct (content r)|].
    change (declared (set_content_length _ _)) with (declared r). split; [size_lia | done].
  - split; [done|]. constructor; simpl; try done.
    intros _. split; [by destruct (content r)|]. split; [done|].
    change (declared (push_content _ _)) with (declared r). size_lia.
Qed.

(** Closes the goals [parser_inv s' r'] in which only the state changed, or a
    field the invariant does not read. *)
Ltac inv_leaf :=
  split; [done|]; constructor; simpl; intros; try done; eauto;
  try match goal with H : _ \/ _ |- _ => destruct H; done end.

Ltac nonempty :=
  simpl; lazymatch goal with |- ?l ++ _ <> [] => by destruct l | |- _ => done end.

Ltac inv_back :=
  match goal with
  | |- context [params_back ?f ?r] => destruct (params_back_ok f r) as (? & -> & ?); [nonempty | simpl]
  | |- context [headers_back ?f ?r] => destruct (headers_back_ok f r) as (? & -> & ?); [nonempty | simpl]
  end.

Lemma newline_3_ok c r :
  parser_inv state.expecting_newline_3 r -> step_ok (on_expecting_newline_3 c r).
Proof.
  intros [_ _ He _ _ _]. specialize (He ltac:(done)). unfold on_expecting_newline_3.
  destruct ((method r =s str "GET") && _) eqn:Eg.
  { apply andb_true_iff in Eg as [Eg%eqs_true _]. by left. }
  destruct ((method r =s str "POST") && _) eqn:Ep; [|done].
  apply andb_true_iff in Ep as [Ep%eqs_true _].
  destruct (nv_lookup (str "Content-Length") (headers r)) as [v|] eqn:El.
  - rewrite (header_present _ _ v El).
    assert (set_headers r (headers r) = r) as -> by by destruct r.
    destruct (is_empty v); [done|].
    rewrite declared_length_present by congruence.
    split; [done|]. constructor; simpl; intros; try done.
    split; [done | congruence].
  - unfold header, nv_get. by rewrite El.
Qed.

Lemma consume_ok s c r :
  s <> state.param_value_start -> parser_inv s r -> step_ok (consume s c r).
Proof.
  intros Hs Hi.
  destruct (decide (s = state.expecting_newline_3)) as [->|Hn].
  { pose proof (newline_3_ok c r Hi) as H. cbn [consume switch once].
    unfold once. by destruct (on_expecting_newline_3 c r) as [[[]]| |]. }
  pose proof Hi as [Hp Hh He Hpost Hst Hc].
  destruct s; try done; cbn [in_param in_header] in *;
    try specialize (He ltac:(done)); try specialize (Hp ltac:(done)); try specialize (Hh ltac:(done));
    cbn [consume switch]; unfold once.
  all: unfold on_method_start, on_param_name_start, on_http_version_t_1, on_http_version_t_2,
    on_http_version_p, on_http_version_slash, on_http_version_major_start, on_http_version_major,
    on_http_version_minor_start, on_http_version_minor, on_expecting_newline_1,
    on_header_line_start, on_header_lws, on_space_before_header_value, on_expecting_newline_2,
    on_content_start, on_content,
    method_body, uri_body, param_name_body, param_value_body, http_version_h_body,
    header_name_body, header_value_body, of_iteration.
  all: repeat match goal with |- context [if ?b then _ else _] => destruct b eqn:? end; cbn [mbind res_bind]; try done.
  all: try match goal with |- context [next_version ?v ?c] =>
         destruct (next_version_cases v c) as [[? ->] | ->]; cbn [mbind res_bind]; [|done] end.
  all: try solve [inv_leaf].
  all: try solve [inv_back; inv_leaf].
  - match goal with H : negb _ && _ = true |- _ =>
      apply andb_true_iff in H as [?%negb_true_iff%bool_decide_eq_false _] end. inv_leaf.
  - destruct (Hpost ltac:(auto)) as [Hm Hl].
    pose proof (take_content_ok state.content_start c r Hm Hl) as H.
    rewrite He, Hst in H by done. specialize (H ltac:(size_lia)).
    by destruct (take_content c r state.content_start) as [[[]]| |].
  - destruct (Hpost ltac:(auto)) as [Hm Hl]. destruct (Hc ltac:(done)) as (_ & _ & Hd).
    pose proof (take_content_ok state.content c r Hm Hl Hd) as H.
    by destruct (take_content c r state.content) as [[[]]| |].
Qed.

Lemma feed_ok input s r :
  s <> state.param_value_start -> parser_inv s r ->
  match feed s r input with
  | Ok ((indeterminate, s', r'), rest) => s' <> state.param_value_start /\ parser_inv s' r' /\ rest = []
  | Ok ((true_, _, r'), _) => complete r'
  | Ok ((false_, _, _), _) => True
  | UB u => u = signed_overflow
  | Throw _ => False
  end.
Proof.
  revert s r; induction input as [|c input IH]; intros s r Hs Hi; [done|].
  cbn [feed]. pose proof (consume_ok s c r Hs Hi) as H.
  destruct (consume s c r) as [[[[] s'] r']|e|u]; cbn [mbind res_bind]; try done.
  destruct H. by apply IH.
Qed.

(** ** Reading a stream of segments *)

(** [connection::do_read] seen from the parser: each segment the socket
    delivers is parsed, and reading goes on while the result is
    indeterminate.  The returned iterator is ignored. *)
Fixpoint parse_chunks (s : state.state_t) (req : request) (chunks : list bytes) : res outcome :=
  match chunks with
  | [] => Ok (indeterminate, s, req)
  | chunk :: chunks' =>
      let* (result, s', req', _) := parse s req chunk in
      match result with
      | indeterminate => parse_chunks s' req' chunks'
      | _ => Ok (result, s', req')
      end
  end.

Lemma parse_chunks_feed chunks s req :
  s <> state.param_value_start -> parser_inv s req ->
  parse_chunks s req chunks = let* (o, _) := feed s req (concat chunks) in Ok o.
Proof.
  revert s req; induction chunks as [|a chunks IH]; intros s req Hs Hi; [done|].
  cbn [parse_chunks concat]. unfold parse. rewrite parse_loop_feed, feed_app by done.
  pose proof (feed_ok a s req Hs Hi) as H.
  destruct (feed s req a) as [[[[[] s'] r'] rest]| |]; cbn [mbind res_bind]; try done.
  destruct H as (? & ? & _). by apply IH.
Qed.

(** A request on which no byte has been parsed. *)
Record blank (r : request) : Prop := {
  blank_method : r.(method) = [];
  blank_uri : r.(uri) = [];
  blank_headers : r.(headers) = [];
  blank_params : r.(params) = [];
  blank_content : r.(content) = [];
}.

Lemma blank_init : blank request_init.
Proof. done. Qed.

Lemma blank_inv r : blank r -> parser_inv reset r.
Proof. intros []. constructor; try done. intros []; done. Qed.
#[export] Hint Resolve blank_init blank_inv : cxx.


(** ** Properties *)

(** The loops of [parse] read the input byte by byte: on every reachable
    parser state, [parse] is the fold of [consume] up to the first verdict. *)
Theorem parse_is_feed s req input :
  s <> state.param_value_start -> parse s req input = feed s req input.
Proof. intros Hs. by apply parse_loop_feed. Qed.

(** C21: parsing a stream segment by segment gives the verdict, state and request
    of parsing it at once, wherever the segments are cut. *)
Theorem parse_segmentation req chunks :
  blank req ->
  parse_chunks reset req chunks = let* (o, _) := parse reset req (concat chunks) in Ok o.
Proof.
  intros Hb. rewrite parse_chunks_feed by (done || by apply blank_inv).
  unfold parse. by rewrite parse_loop_feed.
Qed.


(** C34: a POST whose Content-Length is zero or negative is never completed:
    whatever follows the head, the parser does not answer [true]. *)
Theorem nonpositive_length_never_completes s req input :
  s = state.content_start \/ s = state.content ->
  req.(content_length) <= 0 ->
  match parse s req input with Ok ((true_, _, _), _) => False | _ => True end.
Proof.
  intros Hs Hl. unfold parse. rewrite parse_loop_feed by (done || destruct Hs; by subst).
  revert s req Hs Hl; induction input as [|c input IH]; intros s req Hs Hl; [done|].
  assert (forall s0, match take_content c req s0 with
    | Ok (true_, _, _) => False
    | Ok (_, s', r') => s' = state.content /\ r'.(content_length) <= 0 | _ => True end) as H.
  { intros s0. unfold take_content.
    destruct (int_result_cases (req.(content_length) - 1)) as [-> | ->]; [|done]. simpl.
    destruct (Z.eqb_spec (content_length req - 1) 0); [lia|]. split; [done | simpl; lia]. }
  cbn [feed]. destruct Hs as [-> | ->]; cbn [consume switch]; unfold once, on_content_start, on_content.
  - destruct (negb _); [done|]. destruct (not_token c); [done|]. specialize (H state.content_start).
    destruct (take_content c req state.content_start) as [[[[] s'] r']| |]; cbn [mbind res_bind]; try done.
    destruct H as [-> ?]. apply IH; auto.
  - specialize (H state.content).
    destruct (take_content c req state.content) as [[[[] s'] r']| |]; cbn [mbind res_bind]; try done.
    destruct H as [-> ?]. apply IH; auto.
Qed.

(** ** Witnesses *)

Definition sample_head : bytes :=
  str "POST / HTTP/1.1" ++ [Byte.x0d; Byte.x0a] ++ str "Content-Length: 0" ++
  [Byte.x0d; Byte.x0a; Byte.x0d; Byte.x0a].

Definition sample_chunks : list bytes :=
  [str "GE"; str "T /a?x=1 HTT"; str "P/1.1" ++ [Byte.x0d]; [Byte.x0a; Byte.x0d]; [Byte.x0a]].

Lemma parse_is_feed_witness :
  state.method <> state.param_value_start /\
  parse state.method request_init (str "GET /") = feed state.method request_init (str "GET /").
Proof. split; [discriminate|]. apply parse_is_feed. discriminate. Defined.

Lemma parse_segmentation_witness :
  parse_chunks reset request_init sample_chunks =
  let* (o, _) := parse reset request_init (concat sample_chunks) in Ok o.
Proof. apply parse_segmentation, blank_init. Defined.


(** A head with [Content-Length: 0] leads to such a state. *)
Lemma nonpositive_length_never_completes_witness :
  exists r, parse reset request_init sample_head = Ok ((indeterminate, state.content_start, r), []) /\
    r.(content_length) <= 0 /\
    match parse state.content_start r (str "a=1") with Ok ((true_, _, _), _) => False | _ => True end.
Proof.
  eexists. split; [vm_compute; reflexivity|]. split; [vm_compute; discriminate|].
  apply nonpositive_length_never_completes; [by left | vm_compute; discriminate].
Defined.
