(* ===== verification/RequestGrammar.v ===== *)
(** * The language of the request parser

    The well-formed HTTP messages the parser of [RequestParser] accepts, their
    rendering as bytes, and the proof that parsing the rendering, however the
    network cuts it into segments, gives back the message. *)
From S2P Require Import Prelude CxxString Request RequestParser.

(** ** Messages and their rendering *)

Definition crlf : bytes := [Byte.x0d; Byte.x0a].

Definition is_token (c : byte) : bool := negb (not_token c).

Record message : Type := mk_message {
  m_path : bytes; m_params : list name_value; m_major : Z; m_minor : Z;
  m_headers : list name_value; m_body : bytes }.

Definition m_method (m : message) : bytes := if bool_decide (m.(m_body) = []) then str "GET" else str "POST".

Definition render_param (nv : name_value) : bytes := nv.(name) ++ "="%byte :: nv.(value).

Fixpoint render_params (sep : byte) (l : list name_value) : bytes :=
  match l with
  | [] => []
  | nv :: l' => sep :: render_param nv ++ render_params "&"%byte l'
  end.

Definition m_target (m : message) : bytes := m.(m_path) ++ render_params "?"%byte m.(m_params).

Definition render_header (nv : name_value) : bytes := nv.(name) ++ str ": " ++ nv.(value) ++ crlf.

Definition render_version (m : message) : bytes :=
  str "HTTP/" ++ to_string m.(m_major) ++ str "." ++ to_string m.(m_minor) ++ crlf.

Definition render (m : message) : bytes :=
  (m_method m ++ str " ") ++ (m_target m ++ str " ") ++ render_version m ++
  flat_map render_header m.(m_headers) ++ crlf ++ m.(m_body).

(** The request a message denotes, on top of [r0]. *)
Definition denotes_head (r0 : request) (m : message) : request :=
  let r := set_method r0 (m_method m) in
  let r := set_uri r (m_target m) in
  let r := set_params r m.(m_params) in
  let r := set_http_version_minor_ (set_http_version_major_ r m.(m_major)) m.(m_minor) in
  set_headers r m.(m_headers).

Definition denotes (r0 : request) (m : message) : request :=
  let r := denotes_head r0 m in
  if bool_decide (m.(m_body) = []) then r
  else set_content (set_content_length r (size m.(m_body))) m.(m_body).

Definition version_max : Z := INT_MAX - 48.

Definition path_char (c : byte) : Prop := is_ctl c = false /\ c <> " "%byte /\ c <> "?"%byte.
Definition value_char (c : byte) : Prop := is_token c = true /\ c <> "&"%byte.

Record wf_param (nv : name_value) : Prop := {
  wf_param_name : nv.(name) <> [] /\ Forall (fun c => is_token c = true) nv.(name);
  wf_param_value : Forall value_char nv.(value);
}.

Record wf_header (nv : name_value) : Prop := {
  wf_header_name : nv.(name) <> [] /\ Forall (fun c => is_token c = true) nv.(name);
  wf_header_value : Forall (fun c => is_ctl c = false) nv.(value);
}.

(** What the parser accepts: token names, a path without blanks and control
    characters, a body that starts with a token character and whose length
    the Content-Length header states. *)
Record wf_message (m : message) : Prop := {
  wf_path : Forall path_char m.(m_path);
  wf_params : Forall wf_param m.(m_params);
  wf_version : 0 <= m.(m_major) <= version_max /\ 0 <= m.(m_minor) <= version_max;
  wf_headers : Forall wf_header m.(m_headers);
  wf_body : m.(m_body) <> [] ->
    nv_lookup (str "Content-Length") m.(m_headers) = Some (to_string (size m.(m_body))) /\
    size m.(m_body) <= INT_MAX /\
    exists c b, m.(m_body) = c :: b /\ is_token c = true;
}.

(** ** Runs of the parser over a segment *)

(** Reading [w] takes the parser from [(s, r)] to [(s', r')] without a verdict. *)
Definition runs (s : state.state_t) (r : request) (w : bytes) (s' : state.state_t) (r' : request) : Prop :=
  feed s r w = Ok ((indeterminate, s', r'), []).

Section Runs.
Implicit Types (s : state.state_t) (r : request) (w : bytes).

Lemma runs_feed s r w s' r' t : runs s r w s' r' -> feed s r (w ++ t) = feed s' r' t.
Proof. unfold runs. intros H. by rewrite feed_app, H. Qed.

Lemma runs_app s r w s1 r1 w' s2 r2 :
  runs s r w s1 r1 -> runs s1 r1 w' s2 r2 -> runs s r (w ++ w') s2 r2.
Proof. intros H1 H2. unfold runs. by rewrite (runs_feed _ _ _ _ _ _ H1). Qed.

Lemma runs_one s r c s' r' : consume s c r = Ok (indeterminate, s', r') -> runs s r [c] s' r'.
Proof. unfold runs. cbn [feed]. by intros ->. Qed.

Lemma runs_cons s r c s1 r1 w s2 r2 :
  consume s c r = Ok (indeterminate, s1, r1) -> runs s1 r1 w s2 r2 -> runs s r (c :: w) s2 r2.
Proof. intros H. apply (runs_app _ _ [c]). by apply runs_one. Qed.

(** A loop that stays in [s] and appends each byte to what [upd] stores. *)
Lemma runs_many s (upd : bytes -> request) (P : byte -> Prop) w a :
  (forall a c, P c -> consume s c (upd a) = Ok (indeterminate, s, upd (a ++ [c]))) ->
  Forall P w -> runs s (upd a) w s (upd (a ++ w)).
Proof.
  intros Hc Hw. revert a. induction Hw as [|c w Hp Hw IH]; intros a.
  - unfold runs. by rewrite app_nil_r.
  - eapply runs_cons; [by apply Hc|]. specialize (IH (a ++ [c])). by rewrite <- app_assoc in IH.
Qed.

Lemma token_not c d : is_token c = true -> not_token d = true -> (c =c d) = false.
Proof. intros H1 H2. apply eqc_false. intros ->. unfold is_token in H1. by rewrite H2 in H1. Qed.

Lemma token_false c : is_token c = true -> not_token c = false.
Proof. unfold is_token. by destruct (not_token c). Qed.

Lemma runs_method r m :
  m <> [] -> Forall (fun c => is_token c = true) m -> r.(method) = [] ->
  runs state.method_start r (m ++ str " ") state.uri (set_method r m).
Proof.
  intros Hm Ht Hr. destruct m as [|c m]; [done|]. apply Forall_cons in Ht as [Hc Ht].
  eapply runs_cons.
  { cbn [consume switch once]. unfold once, on_method_start. rewrite token_false by done.
    unfold push_method. rewrite Hr. done. }
  eapply runs_app.
  - apply (runs_many state.method (set_method r) (fun c => is_token c = true) m [c]); [|done].
    intros a d Hd. cbn [consume]. unfold method_body.
    by rewrite (token_not d " "%byte), token_false.
  - by apply runs_one.
Qed.

Lemma runs_path r w :
  Forall path_char w -> r.(uri) = [] ->
  runs state.uri r w state.uri (set_uri r w).
Proof.
  intros Hw Hr. replace r with (set_uri r []) at 1 by (destruct r; simpl in *; by subst).
  apply (runs_many state.uri (set_uri r) path_char w []); [|exact Hw].
  intros a d (H1 & H2%eqc_false & H3%eqc_false). cbn [consume]. unfold uri_body.
  by rewrite H2, H3, H1.
Qed.

Lemma runs_eq s r w s' r' r0 r1 : runs s r0 w s' r1 -> r0 = r -> r1 = r' -> runs s r w s' r'.
Proof. by intros ? <- <-. Qed.

Lemma runs_param_name r u ps c n :
  is_token c = true -> Forall (fun c => is_token c = true) n ->
  runs state.param_name_start (set_params (set_uri r u) ps) (c :: n) state.param_name
    (set_params (set_uri r (u ++ c :: n)) (ps ++ [mk_name_value (c :: n) []])).
Proof.
  intros Hc Htok. eapply runs_cons.
  { cbn [consume switch]. unfold once, on_param_name_start, params_back.
    rewrite (token_not c " "%byte), token_false by done. cbn [params set_params].
    by rewrite update_back_snoc. }
  apply (runs_many state.param_name
    (fun a => set_params (set_uri r (u ++ a)) (ps ++ [mk_name_value a []]))
    (fun c => is_token c = true) n [c]); [|exact Htok].
  intros a d Hd. cbn [consume]. unfold param_name_body, params_back.
  rewrite (token_not d " "%byte), (token_not d "="%byte), token_false by done.
  cbn [params push_uri set_params set_uri uri]. rewrite update_back_snoc.
  unfold push_uri. cbn [mbind res_bind uri set_params set_uri]. by rewrite <- app_assoc.
Qed.

Lemma runs_param_value r u ps n v :
  Forall value_char v ->
  runs state.param_value (set_params (set_uri r u) (ps ++ [mk_name_value n []])) v state.param_value
    (set_params (set_uri r (u ++ v)) (ps ++ [mk_name_value n v])).
Proof.
  intros Hval. rewrite <- (app_nil_r u) at 1.
  apply (runs_many state.param_value
    (fun a => set_params (set_uri r (u ++ a)) (ps ++ [mk_name_value n a])) value_char v []); [|exact Hval].
  intros a d [Hd Ha%eqc_false]. cbn [consume]. unfold param_value_body, params_back.
  rewrite (token_not d " "%byte), Ha, token_false by done.
  cbn [params push_uri set_params set_uri uri]. rewrite update_back_snoc.
  unfold push_uri. cbn [mbind res_bind uri set_params set_uri]. by rewrite <- app_assoc.
Qed.

(** One [name=value] pair, from the state its separator leads to. *)
Lemma runs_param r u ps nv :
  wf_param nv ->
  runs state.param_name_start (set_params (set_uri r u) ps) (render_param nv) state.param_value
    (set_params (set_uri r (u ++ render_param nv)) (ps ++ [nv])).
Proof.
  intros [[Hn Htok] Hval]. destruct nv as [[|c n] v]; [done|].
  apply Forall_cons in Htok as [Hc Htok]. unfold render_param. cbn [name value].
  eapply runs_app; [by apply runs_param_name|].
  eapply runs_cons; [done|].
  eapply runs_eq; [apply (runs_param_value r ((u ++ c :: n) ++ ["="%byte]) ps (c :: n) v), Hval | done |].
  by rewrite <- !app_assoc.
Qed.

Lemma runs_params_tail r u ps l :
  Forall wf_param l ->
  runs state.param_value (set_params (set_uri r u) ps) (render_params "&"%byte l) state.param_value
    (set_params (set_uri r (u ++ render_params "&"%byte l)) (ps ++ l)).
Proof.
  intros Hl. revert u ps. induction Hl as [|nv l Hnv Hl IH]; intros u ps.
  - cbn [render_params]. by rewrite !app_nil_r.
  - cbn [render_params]. eapply runs_cons; [done|].
    eapply runs_app; [by apply (runs_param r (u ++ ["&"%byte]) ps)|].
    eapply runs_eq; [apply IH | done |]. by rewrite <- !app_assoc.
Qed.

(** The request target and the blank after it. *)
Lemma runs_target r path l :
  r.(uri) = [] -> r.(params) = [] -> Forall path_char path -> Forall wf_param l ->
  runs state.uri r ((path ++ render_params "?"%byte l) ++ str " ") state.http_version_h
    (set_params (set_uri r (path ++ render_params "?"%byte l)) l).
Proof.
  intros Hu Hp Hpath Hl. rewrite <- app_assoc.
  eapply runs_app; [by apply runs_path|].
  destruct Hl as [|nv l Hnv Hl].
  - cbn [render_params]. rewrite app_nil_r. apply runs_one.
    destruct r; simpl in *; by subst.
  - cbn [render_params app]. eapply runs_cons; [done|]. rewrite <- app_assoc.
    eapply runs_app.
    { eapply runs_eq; [apply (runs_param r (path ++ ["?"%byte]) []), Hnv | | done].
      destruct r; simpl in *; by subst. }
    eapply runs_app; [by apply runs_params_tail|].
    eapply runs_eq; [by apply runs_one | done |]. by rewrite <- !app_assoc.
Qed.

(** *** The version *)

Lemma is_digit_isdigit c : is_digit c = isdigit c.
Proof. by destruct c. Qed.

Lemma next_version_digit v c :
  isdigit c = true -> 0 <= v -> v * 10 + digit_val c <= version_max ->
  next_version v c = Ok (v * 10 + digit_val c).
Proof.
  intros Hc Hv Hm. destruct (digit_val_schar c Hc) as [E Hr]. rewrite E in *.
  unfold next_version, version_max, INT_MAX in *.
  do 3 (rewrite int_result_ok by (unfold INT_MAX; lia); cbn [mbind res_bind]). f_equal. lia.
Qed.

(** Digits read in a state [s] whose loop stores the number with [upd]. *)
Lemma runs_digits s (upd : Z -> request) ds v :
  (forall v c, isdigit c = true -> consume s c (upd v) =
     let* n := next_version v c in Ok (indeterminate, s, upd n)) ->
  Forall (fun c => isdigit c = true) ds -> 0 <= v -> read_digits 10 ds v <= version_max ->
  runs s (upd v) ds s (upd (read_digits 10 ds v)).
Proof.
  intros Hs Hds. revert v. induction Hds as [|c ds Hc Hds IH]; intros v Hv Hm; [done|].
  simpl in *. rewrite isdigit_digit_of in * by done. destruct (digit_val_schar c Hc).
  pose proof (read_digits_ge ds (v * 10 + digit_val c) Hds ltac:(lia)).
  apply (runs_cons _ _ _ s (upd (v * 10 + digit_val c))); [|apply IH; [lia|done]].
  by rewrite Hs, next_version_digit by (done || lia).
Qed.

Lemma consume_major r v c : isdigit c = true ->
  consume state.http_version_major c (set_http_version_major_ r v) =
  let* n := next_version v c in Ok (indeterminate, state.http_version_major, set_http_version_major_ r n).
Proof.
  intros Hc. cbn [consume switch]. unfold once, on_http_version_major. rewrite is_digit_isdigit, Hc.
  assert ((c =c "."%byte) = false) as -> by by destruct c.
  cbn [http_version_major_ set_http_version_major_]. by destruct (next_version v c).
Qed.

Lemma consume_minor r v c : isdigit c = true ->
  consume state.http_version_minor c (set_http_version_minor_ r v) =
  let* n := next_version v c in Ok (indeterminate, state.http_version_minor, set_http_version_minor_ r n).
Proof.
  intros Hc. cbn [consume switch]. unfold once, on_http_version_minor. rewrite is_digit_isdigit, Hc.
  assert ((c =c Byte.x0d) = false) as -> by by destruct c.
  cbn [http_version_minor_ set_http_version_minor_]. by destruct (next_version v c).
Qed.

Lemma to_string_digits n : 0 <= n ->
  exists c ds, to_string n = c :: ds /\ isdigit c = true /\ Forall (fun c => isdigit c = true) ds /\
    read_digits 10 ds (digit_val c) = n.
Proof.
  intros Hn. destruct (to_string_decimal n Hn) as [Hf (c & ds & E & _) Hv].
  rewrite E in Hf, Hv. apply Forall_cons in Hf as [Hc Hf]. exists c, ds. repeat split; try done.
  specialize (Hv [] 0). rewrite app_nil_r in Hv. simpl in Hv.
  by rewrite isdigit_digit_of in Hv by done.
Qed.

Lemma runs_version r major minor :
  0 <= major <= version_max -> 0 <= minor <= version_max ->
  runs state.http_version_h r (str "HTTP/" ++ to_string major ++ str "." ++ to_string minor ++ crlf)
    state.header_line_start (set_http_version_minor_ (set_http_version_major_ r major) minor).
Proof.
  intros Hj Hm.
  destruct (to_string_digits major) as (cj & dj & -> & Hcj & Hdj & Ej); [lia|].
  destruct (to_string_digits minor) as (cm & dm & -> & Hcm & Hdm & Em); [lia|].
  destruct (digit_val_schar cj Hcj), (digit_val_schar cm Hcm).
  pose proof (read_digits_ge dj (digit_val cj) Hdj). pose proof (read_digits_ge dm (digit_val cm) Hdm).
  set (r0 := set_http_version_minor_ (set_http_version_major_ r 0) 0).
  eapply (runs_app _ _ (str "HTTP/") _ r0); [done|]. cbn [app].
  eapply (runs_cons _ _ _ state.http_version_major (set_http_version_major_ r0 (digit_val cj))).
  { cbn [consume switch]. unfold once, on_http_version_major_start. rewrite is_digit_isdigit, Hcj.
    cbn [http_version_major_ set_http_version_major_ set_http_version_minor_ r0].
    by rewrite next_version_digit by (done || lia). }
  eapply runs_app.
  { apply (runs_digits _ (set_http_version_major_ r0)); [apply consume_major | done | lia | lia]. }
  rewrite Ej. eapply runs_app; [by apply runs_one|].
  eapply (runs_cons _ _ _ state.http_version_minor
            (set_http_version_minor_ (set_http_version_major_ r0 major) (digit_val cm))).
  { cbn [consume switch]. unfold once, on_http_version_minor_start. rewrite is_digit_isdigit, Hcm.
    cbn [http_version_minor_ set_http_version_major_ set_http_version_minor_ r0].
    by rewrite next_version_digit by (done || lia). }
  eapply runs_app.
  { apply (runs_digits _ (set_http_version_minor_ (set_http_version_major_ r0 major)));
      [apply consume_minor | done | lia | lia]. }
  by rewrite Em.
Qed.
End Runs.

Section RunsHeaders.
Implicit Types (s : state.state_t) (r : request) (w : bytes).

Lemma runs_header_value r hs n v :
  Forall (fun c => is_ctl c = false) v ->
  runs state.header_value (set_headers r (hs ++ [mk_name_value n []])) v state.header_value
    (set_headers r (hs ++ [mk_name_value n v])).
Proof.
  intros Hv. apply (runs_many state.header_value
    (fun a => set_headers r (hs ++ [mk_name_value n a])) (fun c => is_ctl c = false) v []); [|exact Hv].
  intros a c Hc. cbn [consume]. unfold header_value_body, headers_back. rewrite Hc.
  assert ((c =c Byte.x0d) = false) as -> by by destruct c.
  cbn [headers set_headers]. by rewrite update_back_snoc.
Qed.

Lemma runs_header_name r hs c n :
  is_token c = true -> Forall (fun c => is_token c = true) n ->
  runs state.header_line_start (set_headers r hs) (c :: n) state.header_name
    (set_headers r (hs ++ [mk_name_value (c :: n) []])).
Proof.
  intros Hc Hn. eapply runs_cons.
  { cbn [consume switch]. unfold once, on_header_line_start, headers_back.
    rewrite (token_not c Byte.x0d), (token_not c " "%byte), (token_not c Byte.x09), token_false by done.
    rewrite andb_false_r. cbn [headers set_headers]. by rewrite update_back_snoc. }
  apply (runs_many state.header_name
    (fun a => set_headers r (hs ++ [mk_name_value a []])) (fun c => is_token c = true) n [c]); [|exact Hn].
  intros a d Hd. cbn [consume]. unfold header_name_body, headers_back.
  rewrite (token_not d ":"%byte), token_false by done.
  cbn [headers set_headers]. by rewrite update_back_snoc.
Qed.

Lemma runs_header r hs nv :
  wf_header nv ->
  runs state.header_line_start (set_headers r hs) (render_header nv) state.header_line_start
    (set_headers r (hs ++ [nv])).
Proof.
  intros [[Hn Htok] Hval]. destruct nv as [[|c n] v]; [done|].
  apply Forall_cons in Htok as [Hc Htok]. unfold render_header. cbn [name value].
  eapply runs_app; [by apply runs_header_name|].
  eapply (runs_app _ _ (str ": ")); [done|].
  eapply runs_app; [by apply runs_header_value | done].
Qed.

Lemma runs_headers r l :
  r.(headers) = [] -> Forall wf_header l ->
  runs state.header_line_start r (flat_map render_header l) state.header_line_start (set_headers r l).
Proof.
  intros Hr Hl. replace r with (set_headers r []) at 1 by (destruct r; simpl in *; by subst).
  assert (forall hs, runs state.header_line_start (set_headers r hs) (flat_map render_header l)
    state.header_line_start (set_headers r (hs ++ l))) as H; [|apply (H [])].
  induction Hl as [|nv l Hnv Hl IH]; intros hs; cbn [flat_map].
  - by rewrite app_nil_r.
  - eapply runs_app; [by apply runs_header|].
    eapply runs_eq; [apply IH | done | by rewrite <- app_assoc].
Qed.

(** *** The body *)

Lemma take_content_more s c r n :
  r.(content_length) = n + 1 -> 0 < n <= INT_MAX ->
  take_content c r s = Ok (indeterminate, state.content, set_content (set_content_length r n) (r.(content) ++ [c])).
Proof.
  intros Hl Hn. unfold take_content. rewrite Hl, Z.add_simpl_r, int_result_ok by lia. simpl.
  by destruct (Z.eqb_spec n 0); [lia|].
Qed.

Lemma take_content_last s c r :
  r.(content_length) = 1 -> nv_lookup (str "Content-Length") r.(headers) <> None ->
  take_content c r s = Ok (true_, s, set_content (set_content_length r (declared r)) (r.(content) ++ [c])).
Proof.
  intros Hl Hh. unfold take_content. rewrite Hl. simpl. by rewrite declared_length_present.
Qed.

Lemma feed_content w r :
  w <> [] -> r.(content_length) = size w -> size w <= INT_MAX ->
  nv_lookup (str "Content-Length") r.(headers) <> None ->
  feed state.content r w =
  Ok ((true_, state.content, set_content (set_content_length r (declared r)) (r.(content) ++ w)), []).
Proof.
  revert r; induction w as [|c w IH]; intros r Hw Hl Hmax Hh; [done|].
  cbn [feed consume switch]. unfold once, on_content.
  destruct w as [|d w'].
  - rewrite take_content_last by (done || size_lia). done.
  - rewrite (take_content_more _ _ _ (size (d :: w'))) by size_lia. cbn [mbind res_bind].
    rewrite IH; [|done|done|size_lia|done]. simpl. by rewrite <- app_assoc.
Qed.

Lemma feed_body c w r :
  is_token c = true -> r.(content) = [] -> r.(content_length) = size (c :: w) ->
  size (c :: w) <= INT_MAX ->
  nv_lookup (str "Content-Length") r.(headers) <> None ->
  exists s', feed state.content_start r (c :: w) =
  Ok ((true_, s', set_content (set_content_length r (declared r)) (c :: w)), []).
Proof.
  intros Hc He Hl Hmax Hh. cbn [feed consume switch]. unfold once, on_content_start.
  rewrite He, bool_decide_eq_true_2, token_false by done. cbn [negb].
  destruct w as [|d w].
  - rewrite take_content_last by (done || size_lia). rewrite He. by eexists.
  - rewrite (take_content_more _ _ _ (size (d :: w))) by size_lia. cbn [mbind res_bind].
    rewrite feed_content; [|done|done|size_lia|done]. simpl. rewrite He. by eexists.
Qed.

Lemma wrap32_small n : 0 <= n <= INT_MAX -> wrap32 n = n.
Proof. unfold wrap32, INT_MAX. intros. rewrite Z.mod_small; lia. Qed.

(** The whole message up to the last line feed of its head. *)
Lemma runs_head r m :
  blank r -> wf_message m ->
  runs state.method_start r
    ((m_method m ++ str " ") ++ (m_target m ++ str " ") ++ render_version m ++
     flat_map render_header m.(m_headers) ++ [Byte.x0d])
    state.expecting_newline_3 (denotes_head r m).
Proof.
  intros [Hm Hu Hh Hp Hc] [Wpath Wparams [Wj Wm] Wheaders _].
  eapply runs_app.
  { apply runs_method; [by unfold m_method; case_bool_decide | | done].
    unfold m_method; case_bool_decide; by repeat constructor. }
  eapply runs_app; [by apply runs_target|].
  eapply runs_app; [by apply runs_version|].
  eapply runs_app; [by apply runs_headers|].
  by apply runs_one.
Qed.

Lemma newline_3_post r v :
  r.(method) = str "POST" -> nv_lookup (str "Content-Length") r.(headers) = Some v -> v <> [] ->
  on_expecting_newline_3 Byte.x0a r =
  Ok (indeterminate, state.content_start, set_content_length r (declared r)).
Proof.
  intros Hm Hv Hne. unfold on_expecting_newline_3. rewrite Hm, (header_present _ _ _ Hv).
  assert (set_headers r (headers r) = r) as -> by by destruct r.
  change (str "POST" =s str "GET") with false. change (str "POST" =s str "POST") with true.
  rewrite eqc_refl. cbn [andb]. destruct v; [done|]. cbn [is_empty].
  by rewrite declared_length_present by congruence.
Qed.

Lemma declared_decimal r n :
  nv_lookup (str "Content-Length") r.(headers) = Some (to_string n) -> 0 <= n <= INT_MAX -> declared r = n.
Proof.
  intros H Hn. assert (declared r = wrap32 (strtol (to_string n))) as -> by (unfold declared; by rewrite H).
  rewrite strtol_to_string by (unfold INT_MAX, LONG_MAX in *; lia). by apply wrap32_small.
Qed.

Lemma feed_render r m :
  blank r -> wf_message m ->
  exists s', feed state.method_start r (render m) = Ok ((true_, s', denotes r m), []).
Proof.
  intros Hb Hw. unfold render, crlf.
  pose proof (runs_head r m Hb Hw) as Hhead. destruct Hw as [_ _ _ _ Hbody].
  assert (forall a b c d x (y : bytes), a ++ b ++ c ++ d ++ [x; Byte.x0a] ++ y =
    (a ++ b ++ c ++ d ++ [x]) ++ Byte.x0a :: y) as -> by (intros; by rewrite <- !app_assoc).
  rewrite (runs_feed _ _ _ _ _ _ Hhead). cbn [feed consume switch]. unfold once.
  unfold denotes. case_bool_decide as E.
  - exists state.expecting_newline_3. rewrite E. unfold on_expecting_newline_3, denotes_head, m_method.
    by rewrite bool_decide_eq_true_2.
  - destruct (Hbody E) as (Hcl & Hmax & c & w & Ew & Hc).
    set (r1 := denotes_head r m). change (m_headers m) with (headers r1) in Hcl.
    destruct (to_string_digits (size (m_body m)) (size_nonneg _)) as (? & ? & Et & _).
    rewrite (newline_3_post r1 _) by
      (done || (simpl; unfold m_method; by rewrite bool_decide_eq_false_2) || by rewrite Et).
    pose proof (declared_decimal r1 _ Hcl ltac:(size_lia)) as Hd.
    cbn [mbind res_bind]. rewrite Ew in Hd, Hmax |- *.
    destruct (feed_body c w (set_content_length r1 (declared r1))) as (s' & Hs'); try done.
    + by destruct Hb.
    + change (headers (set_content_length _ _)) with (headers r1). by rewrite Hcl.
    + exists s'. rewrite Hs'. change (declared (set_content_length _ _)) with (declared r1). by rewrite Hd.
Qed.
End RunsHeaders.

(** ** Properties *)

(** C22: the parser accepts the rendering of every well-formed message: it
    answers [true] on the last byte, not before, and the request it has built
    is the message (method, target, parameters, version, headers, body); and
    so it does however the network cuts the bytes into segments. *)
Theorem parse_render r0 m :
  blank r0 -> wf_message m ->
  exists s',
    parse reset r0 (render m) = Ok ((true_, s', denotes r0 m), []) /\
    forall chunks, concat chunks = render m ->
      parse_chunks reset r0 chunks = Ok (true_, s', denotes r0 m).
Proof.
  intros Hb Hw. destruct (feed_render r0 m Hb Hw) as (s' & H). change state.method_start with reset in H.
  exists s'. split.
  - unfold parse. by rewrite parse_loop_feed.
  - intros chunks Hc. rewrite parse_chunks_feed by (done || by apply blank_inv). by rewrite Hc, H.
Qed.

(** ** Witness *)

Definition sample_message : message :=
  mk_message (str "/dir/user/auth") [mk_name_value (str "a") (str "1"); mk_name_value (str "b") []] 1 1
    [mk_name_value (str "Host") (str "localhost"); mk_name_value (str "Content-Length") (str "8")]
    (str "user=foo").

Lemma sample_message_wf : wf_message sample_message.
Proof.
  constructor.
  - repeat constructor; done.
  - repeat constructor; done.
  - vm_compute. repeat split; discriminate.
  - repeat constructor; done.
  - intros _. split; [vm_compute; reflexivity|]. split; [vm_compute; discriminate|]. by do 2 eexists.
Qed.

Lemma parse_render_witness :
  blank request_init /\ wf_message sample_message /\
  exists s',
    parse reset request_init (render sample_message) =
      Ok ((true_, s', denotes request_init sample_message), []) /\
    forall chunks, concat chunks = render sample_message ->
      parse_chunks reset request_init chunks = Ok (true_, s', denotes request_init sample_message).
Proof.
  split; [exact blank_init|]. split; [exact sample_message_wf|].
  apply parse_render; [exact blank_init | exact sample_message_wf].
Defined.
