(* ===== verification/RequestContent.v ===== *)
(** * [src/src/request_parser.cpp]: what is parsed after the request is complete:
    path segments, cookies, urlencoded and multipart bodies.

    Loops over positions carry fuel; [no_fuel] is shown unreachable. *)
From S2P Require Import Prelude CxxString Utility Request.

(** ** [split] and [parse_params] *)

(** [while (std::getline(ss, item, c)) v.push_back(item);]: [item] holds what
    was extracted since the last delimiter; at the end of the stream an
    extraction that reads nothing fails. *)
Fixpoint split_loop (s : bytes) (c : byte) (item : bytes) : list bytes :=
  match s with
  | [] => match item with [] => [] | _ => [item] end
  | x :: s' => if x =c c then item :: split_loop s' c [] else split_loop s' c (item ++ [x])
  end.

Definition split (s : bytes) (c : byte) (v : list bytes) : list bytes := v ++ split_loop s c [].

Definition parse_params (req : request) : res request :=
  let request_uri := percent_decode req.(uri) in
  let req := set_rest_params req (split request_uri "/"%byte req.(rest_params)) in
  match req.(rest_params) with
  | [] => UB erase_of_end
  | _ :: rest =>
      let req := set_rest_params req rest in
      if size req.(params) =? 0 then Ok req
      else Ok (set_params req
        (map (fun nv => mk_name_value (percent_decode nv.(name)) (percent_decode nv.(value))) req.(params)))
  end.

(** ** Cookies *)

Fixpoint space_count (data : bytes) : Z :=
  match data with
  | [] => 0
  | c :: data' => if isspace c then 1 + space_count data' else 0
  end.

Definition parse_cookie (req : request) (data : bytes) : res request :=
  let pos := find data (str "=") 0 in
  if pos =? npos then Ok req
  else
    let spaces := space_count data in
    let* name := substr data spaces (sz_sub pos spaces) in
    let* value := substr data (pos + 1) npos in
    Ok (set_cookies req (req.(cookies) ++ [mk_name_value name value])).

Fixpoint parse_cookies_loop (fuel : nat) (data : bytes) (old_pos : Z) (req : request) : res request :=
  match fuel with
  | O => UB no_fuel
  | S fuel' =>
      let pos := find data (str ";") old_pos in
      if pos =? npos then
        let* d := substr data old_pos npos in parse_cookie req d
      else
        let* d := substr data old_pos (sz_sub pos old_pos) in
        let* req := parse_cookie req d in
        parse_cookies_loop fuel' data (pos + 1) req
  end.

Definition parse_cookies (req : request) : res request :=
  let '(req, data) := header req (str "Cookie") in
  if is_empty data then Ok req
  else parse_cookies_loop (S (length data)) data 0 req.

(** ** [application/x-www-form-urlencoded] bodies *)

(** [while ( *c_str_ == '&' ) ++old_pos] from [content.c_str() + old_pos] *)
Fixpoint leading_amps (s : bytes) : Z :=
  match s with
  | [] => 0
  | c :: s' => if c =c "&"%byte then 1 + leading_amps s' else 0
  end.

Definition push_param (l : list name_value) (n v : bytes) : list name_value := l ++ [mk_name_value n v].

Fixpoint urlencoded_loop (fuel : nat) (content : bytes) (old_pos : Z) (params : list name_value)
    : res (list name_value) :=
  match fuel with
  | O => UB no_fuel
  | S fuel' =>
      let pos := find_first_of content (str "&=") old_pos in
      if pos =? npos then Ok params
      else
        let* c := str_at content pos in
        if c =c "&"%byte then
          let old_pos := old_pos + leading_amps (suffix_at content old_pos) in
          if pos <=? old_pos then urlencoded_loop fuel' content (pos + 1) params
          else
            let* n := substr content old_pos (sz_sub pos old_pos) in
            urlencoded_loop fuel' content (pos + 1) (push_param params (percent_decode n) [])
        else
          let* n := substr content old_pos (sz_sub pos old_pos) in
          let old_pos := pos + 1 in
          let pos := find_first_of content (str ";&") old_pos in
          let* v := substr content old_pos (sz_sub pos old_pos) in
          let params := push_param params (percent_decode n) (percent_decode v) in
          if pos =? npos then Ok params
          else urlencoded_loop fuel' content (pos + 1) params
  end.

(** ** [multipart/form-data] bodies *)

(** The double quote; [quoted s] is [s] followed by one. *)
Definition quote : bytes := [Byte.x22].
Definition quoted (s : bytes) : bytes := s ++ quote.
Definition cr_lf : bytes := [Byte.x0d; Byte.x0a].

Definition parse_multipart_header (data : bytes) : res multipart_header :=
  let* disposition := extract_between data (str "Content-Disposition: ") (str ";") in
  let* name := extract_between data (quoted (str "name=")) quote in
  let* filename := extract_between data (quoted (str "filename=")) quote in
  let* c_type := extract_between data (str "Content-Type: ") (cr_lf ++ cr_lf) in
  let filename := percent_decode filename in
  Ok (mk_multipart_header disposition name filename c_type).

Definition parse_multipart_content (req : request) (data : bytes) : res request :=
  let end_ := cr_lf ++ cr_lf in
  let head_limit := find data end_ 0 in
  if head_limit =? npos then Throw (runtime_error (str "invalid part header"))
  else
    let value_start := sz_add head_limit (size end_) in
    let* value := substr data value_start (sz_sub (sz_sub (size data) value_start) 2) in
    let* h := substr data 0 value_start in
    let* head := parse_multipart_header h in
    if is_empty head.(mh_filename) then
      Ok (set_params req (push_param req.(params) head.(mh_name) value))
    else
      Ok (set_uploads req (req.(uploads) ++
        [mk_multipart_content head.(mh_name) head.(mh_filename) head.(mh_filetype) value])).

(** The text between [boundary=] and the next semicolon. *)
Definition boundary (content_type : bytes) : res bytes :=
  let b_type := str "boundary=" in
  let pos := find content_type b_type 0 in
  let* sep := substr content_type (sz_add pos (size b_type)) npos in
  if negb (find sep (str ";") 0 =? npos) then substr sep 0 (find sep (str ";") 0) else Ok sep.

Fixpoint multipart_loop (fuel : nat) (sep1 sep2 : bytes) (old_pos : Z) (req : request) : res request :=
  match fuel with
  | O => UB no_fuel
  | S fuel' =>
      let pos := find req.(content) sep1 old_pos in
      if pos =? npos then
        let pos := find req.(content) sep2 old_pos in
        if negb (pos =? npos) then
          let* d := substr req.(content) old_pos (sz_sub pos old_pos) in
          parse_multipart_content req d
        else Ok req
      else
        let* d := substr req.(content) old_pos (sz_sub pos old_pos) in
        let* req := parse_multipart_content req d in
        multipart_loop fuel' sep1 sep2 (sz_add pos (size sep1)) req
  end.

Definition parse_multipart (req : request) (content_type : bytes) : res request :=
  let* b := boundary content_type in
  let sep1 := str "--" ++ (b ++ cr_lf) in
  let* b := boundary content_type in
  let sep2 := str "--" ++ (b ++ (str "--" ++ cr_lf)) in
  let start := find req.(content) sep1 0 in
  multipart_loop (S (length req.(content))) sep1 sep2 (sz_add start (size sep1)) req.

(** ** [parse_content] *)

Definition standard_type : bytes := str "application/x-www-form-urlencoded".
Definition multipart_type : bytes := str "multipart/form-data".

Definition parse_content (req : request) : res request :=
  if is_empty req.(content) then Ok req
  else
    let '(req, content_type) := header req (str "Content-Type") in
    if is_empty content_type || strings_are_equal_n content_type standard_type (size standard_type) then
      let* l := urlencoded_loop (S (length req.(content))) req.(content) 0 req.(params) in
      Ok (set_params req l)
    else if strings_are_equal_n multipart_type content_type (size multipart_type) then
      parse_multipart req content_type
    else Ok req.

(** ** Lemmas: cookies *)

Lemma space_count_app sp s :
  Forall (fun c => isspace c = true) sp -> (forall c s', s = c :: s' -> isspace c = false) ->
  space_count (sp ++ s) = size sp.
Proof.
  intros Hsp Hs. induction Hsp as [|c sp Hc Hsp IH]; simpl.
  - destruct s as [|c s]; [done|]. simpl. by rewrite (Hs c s eq_refl).
  - rewrite Hc, IH. size_lia.
Qed.

Lemma space_count_bound a c b : isspace c = false -> 0 <= space_count (a ++ c :: b) <= size a.
Proof.
  intros Hc. induction a as [|d a IH]; simpl.
  - rewrite Hc. size_lia.
  - destruct (isspace d); size_lia.
Qed.

Record wf_cookie (nv : name_value) : Prop := {
  wf_cookie_name : ("="%byte ∉ nv.(name)) /\ (";"%byte ∉ nv.(name)) /\
    (forall c n, nv.(name) = c :: n -> isspace c = false);
  wf_cookie_value : ";"%byte ∉ nv.(value);
}.

Definition render_cookie (nv : name_value) : bytes := nv.(name) ++ ("="%byte :: nv.(value)).

Lemma parse_cookie_render req sp nv :
  Forall (fun c => isspace c = true) sp -> wf_cookie nv -> size (sp ++ render_cookie nv) < npos ->
  parse_cookie req (sp ++ render_cookie nv) = Ok (set_cookies req (req.(cookies) ++ [nv])).
Proof.
  intros Hsp [(Heq & _ & Hn) _] Hsz. destruct nv as [n v]; unfold render_cookie in *; simpl in *.
  assert (space_count (sp ++ n ++ ("="%byte :: v)) = size sp) as Hspc.
  { apply space_count_app; [done|]. intros c s' E. destruct n as [|d n]; simplify_eq/=; eauto. }
  unfold parse_cookie. change (str "=") with ["="%byte]. rewrite find_0, app_assoc, find_from_char.
  2:{ rewrite elem_of_app. intros [Hin|]; [|done].
      rewrite Forall_forall in Hsp. by specialize (Hsp _ Hin). }
  cbn [pos_of]. rewrite <- app_assoc, Hspc.
  destruct (Z.eqb_spec (0 + Z.of_nat (length (sp ++ n))) npos) as [E|_].
  { change (Z.of_nat (length (sp ++ n))) with (size (sp ++ n)) in E. size_lia. }
  change (Z.of_nat (length (sp ++ n))) with (size (sp ++ n)).
  assert (sz_sub (0 + size (sp ++ n)) (size sp) = size n) as ->.
  { rewrite sz_sub_small; size_lia. }
  rewrite substr_middle. cbn [mbind res_bind].
  replace (0 + size (sp ++ n) + 1) with (size (sp ++ n ++ ["="%byte])) by size_lia.
  replace (sp ++ n ++ ("="%byte :: v)) with ((sp ++ n ++ ["="%byte]) ++ v) by (by rewrite <- !app_assoc).
  rewrite substr_app_all by size_lia. done.
Qed.

Fixpoint render_cookies (l : list name_value) : bytes :=
  match l with
  | [] => []
  | [nv] => render_cookie nv
  | nv :: l' => render_cookie nv ++ str "; " ++ render_cookies l'
  end.

Lemma parse_cookies_loop_render fuel l : forall pre sp req,
  l <> [] -> (length l <= fuel)%nat -> Forall wf_cookie l ->
  Forall (fun c => isspace c = true) sp -> size (pre ++ sp ++ render_cookies l) < npos ->
  parse_cookies_loop fuel (pre ++ sp ++ render_cookies l) (size pre) req =
  Ok (set_cookies req (req.(cookies) ++ l)).
Proof.
  revert l; induction fuel as [|fuel IH]; intros l pre sp req Hl Hf Hw Hsp Hsz;
    [destruct l; simpl in *; try done; lia|].
  destruct l as [|nv l]; [done|]. apply Forall_cons in Hw as [Hnv Hw].
  assert (";"%byte ∉ sp ++ render_cookie nv) as Hsemi.
  { destruct Hnv as [(_ & ? & _) ?]. unfold render_cookie.
    rewrite !elem_of_app, elem_of_cons. intros [Hin|[|[|]]]; try done.
    rewrite Forall_forall in Hsp. by specialize (Hsp _ Hin). }
  cbn [parse_cookies_loop]. rewrite find_app. change (str ";") with [";"%byte].
  destruct l as [|nv' l].
  - cbn [render_cookies] in *. rewrite find_from_char_None by done. cbn [pos_of]. rewrite Z.eqb_refl.
    rewrite substr_app_all by size_lia. cbn [mbind res_bind].
    rewrite parse_cookie_render; [done|done|done|size_lia].
  - change (render_cookies (nv :: nv' :: l))
      with (render_cookie nv ++ (";"%byte :: " "%byte :: render_cookies (nv' :: l))) in *.
    set (rest := render_cookies (nv' :: l)) in *.
    rewrite (app_assoc sp), find_from_char by done. cbn [pos_of].
    change (Z.of_nat (length (sp ++ render_cookie nv))) with (size (sp ++ render_cookie nv)).
    destruct (Z.eqb_spec (size pre + size (sp ++ render_cookie nv)) npos); [size_lia|].
    rewrite sz_sub_small by size_lia. rewrite Z.add_simpl_l, substr_middle. cbn [mbind res_bind].
    rewrite parse_cookie_render; [|done|done|size_lia]. cbn [mbind res_bind].
    replace (size pre + size (sp ++ render_cookie nv) + 1)
      with (size (pre ++ (sp ++ render_cookie nv) ++ [";"%byte])) by size_lia.
    replace (pre ++ (sp ++ render_cookie nv) ++ (";"%byte :: " "%byte :: rest))
      with ((pre ++ (sp ++ render_cookie nv) ++ [";"%byte]) ++ [" "%byte] ++ rest)
      by (by rewrite <- !app_assoc).
    unfold rest in *. rewrite (IH (nv' :: l)); [|done|simpl in *; lia|done|by repeat constructor|size_lia].
    simpl. by rewrite <- app_assoc.
Qed.

(** ** Lemmas: urlencoded bodies *)

Definition render_field (nv : name_value) : bytes :=
  percent_encode nv.(name) ++ ("="%byte :: percent_encode nv.(value)).

Fixpoint render_form (l : list name_value) : bytes :=
  match l with
  | [] => []
  | [nv] => render_field nv
  | nv :: l' => render_field nv ++ ("&"%byte :: render_form l')
  end.

Lemma render_form_length l : (length l <= length (render_form l))%nat.
Proof.
  induction l as [|nv [|nv' l] IH]; [done| |].
  - simpl. unfold render_field. rewrite length_app. simpl. lia.
  - change (render_form (nv :: nv' :: l)) with (render_field nv ++ ("&"%byte :: render_form (nv' :: l))).
    rewrite length_app. simpl length in *. lia.
Qed.

Lemma encoded_avoids (set : bytes) s :
  forallb (fun c => negb (percent_safe c)) set = true ->
  Forall (fun d => mem d set = false) (percent_encode s).
Proof.
  intros Hset. eapply Forall_impl; [apply percent_encode_safe|]. intros d Hd. simpl in Hd.
  destruct (mem d set) eqn:E; [|done]. apply mem_true in E.
  rewrite forallb_forall in Hset. apply list_elem_of_In, Hset in E. by rewrite Hd in E.
Qed.

Lemma urlencoded_loop_render fuel l : forall pre ps,
  l <> [] -> (length l <= fuel)%nat -> size (pre ++ render_form l) < npos ->
  urlencoded_loop fuel (pre ++ render_form l) (size pre) ps = Ok (ps ++ l).
Proof.
  revert l; induction fuel as [|fuel IH]; intros l pre ps Hl Hf Hsz;
    [destruct l; simpl in *; try done; lia|].
  destruct l as [|nv l]; [done|].
  set (n := percent_encode (name nv)). set (v := percent_encode (value nv)).
  set (rest := match l with [] => [] | _ => "&"%byte :: render_form l end).
  assert (render_form (nv :: l) = n ++ ("="%byte :: v ++ rest)) as E.
  { unfold rest. destruct l; cbn [render_form]; unfold render_field; fold n; fold v;
      rewrite ?app_nil_r, <- ?app_assoc; done. }
  rewrite E in *. clear E. cbn [urlencoded_loop]. rewrite find_first_of_app.
  rewrite (find_if_app _ n "="%byte) by (done || by apply encoded_avoids). cbn [pos_of].
  change (Z.of_nat (length n)) with (size n).
  destruct (Z.eqb_spec (size pre + size n) npos); [size_lia|].
  assert (str_at (pre ++ n ++ ("="%byte :: v ++ rest)) (size pre + size n) = Ok "="%byte) as ->
    by (rewrite app_assoc, <- size_app; apply str_at_app).
  cbn [mbind res_bind]. change ("="%byte =c "&"%byte) with false. cbn [negb].
  rewrite (sz_sub_small (size pre + size n)) by size_lia. rewrite Z.add_simpl_l, substr_middle.
  cbn [mbind res_bind].
  replace (pre ++ n ++ ("="%byte :: v ++ rest)) with (((pre ++ n) ++ ["="%byte]) ++ v ++ rest)
    by (by rewrite <- !app_assoc).
  replace (size pre + size n + 1) with (size ((pre ++ n) ++ ["="%byte])) by size_lia.
  set (pre' := (pre ++ n) ++ ["="%byte]). rewrite find_first_of_app.
  assert (size (pre' ++ v ++ rest) < npos) as Hsz' by (unfold pre'; size_lia).
  assert (percent_decode n = name nv /\ percent_decode v = value nv) as [En Ev]
    by (split; apply percent_decode_encode_id).
  destruct l as [|nv' l]; unfold rest in *.
  - rewrite app_nil_r in *. rewrite (proj2 (find_if_None _ _)) by by apply encoded_avoids.
    cbn [pos_of]. rewrite Z.eqb_refl, substr_app_all.
    + cbn [mbind res_bind]. rewrite En, Ev. by destruct nv.
    + unfold sz_sub, wrap64, npos in *. rewrite Z.mod_small; size_lia.
  - rewrite (find_if_app _ v "&"%byte) by (done || by apply encoded_avoids). cbn [pos_of].
    change (Z.of_nat (length v)) with (size v).
    destruct (Z.eqb_spec (size pre' + size v) npos); [size_lia|].
    rewrite sz_sub_small, Z.add_simpl_l by size_lia. rewrite substr_middle. cbn [mbind res_bind].
    rewrite En, Ev.
    replace (pre' ++ v ++ ("&"%byte :: render_form (nv' :: l)))
      with (((pre' ++ v) ++ ["&"%byte]) ++ render_form (nv' :: l)) by (by rewrite <- !app_assoc).
    replace (size pre' + size v + 1) with (size ((pre' ++ v) ++ ["&"%byte])) by size_lia.
    rewrite IH; [|done|simpl in *; lia|size_lia].
    unfold push_param. rewrite <- app_assoc. by destruct nv.
Qed.

(** The loop ends, and none of its slices starts past the end. *)
Lemma urlencoded_loop_total fuel content : forall old_pos ps,
  0 <= old_pos <= size content -> size content < npos ->
  size content - old_pos < Z.of_nat fuel ->
  exists l, urlencoded_loop fuel content old_pos ps = Ok (ps ++ l).
Proof.
  induction fuel as [|fuel IH]; intros old_pos ps Hp Hsz Hf; [lia|]. cbn [urlencoded_loop].
  destruct (find_first_of_bounds content (str "&=") old_pos) as [-> | Hb]; [lia| |].
  { rewrite Z.eqb_refl. exists []. by rewrite app_nil_r. }
  set (pos := find_first_of content (str "&=") old_pos) in *.
  destruct (Z.eqb_spec pos npos); [lia|].
  destruct (str_at_ok content pos) as (c & ->); [lia|]. cbn [mbind res_bind].
  assert (forall q ps', exists l, urlencoded_loop fuel content (pos + 1) (push_param ps q ps') = Ok (ps ++ l)) as Hpush.
  { intros q ps'. destruct (IH (pos + 1) (push_param ps q ps')) as (l & ->); [lia|lia|lia|].
    exists (mk_name_value q ps' :: l). unfold push_param. by rewrite <- app_assoc. }
  assert (0 <= leading_amps (suffix_at content old_pos)) as Ha.
  { generalize (suffix_at content old_pos). intros s. induction s as [|d s IHs]; simpl; [done|].
    destruct (d =c "&"%byte); lia. }
  destruct (c =c "&"%byte).
  - destruct (Z.leb_spec pos (old_pos + leading_amps (suffix_at content old_pos))).
    + apply IH; lia.
    + destruct (substr_ok content (old_pos + leading_amps (suffix_at content old_pos))
        (sz_sub pos (old_pos + leading_amps (suffix_at content old_pos)))) as (t & ->); [lia|].
      cbn [mbind res_bind]. apply Hpush.
  - destruct (substr_ok content old_pos (sz_sub pos old_pos)) as (t & ->); [lia|]. cbn [mbind res_bind].
    set (pos2 := find_first_of content (str ";&") (pos + 1)).
    destruct (substr_ok content (pos + 1) (sz_sub pos2 (pos + 1))) as (u & ->); [lia|]. cbn [mbind res_bind].
    destruct (find_first_of_bounds content (str ";&") (pos + 1)) as [E | Hb2]; [lia| |].
    + unfold pos2. rewrite E, Z.eqb_refl. by eexists.
    + change (pos + 1 <= pos2 < size content) in Hb2. destruct (Z.eqb_spec pos2 npos); [lia|].
      destruct (IH (pos2 + 1) (push_param ps (percent_decode t) (percent_decode u))) as (l & ->); [lia|lia|lia|].
      eexists. unfold push_param. by rewrite <- app_assoc.
Qed.

(** ** Lemmas: multipart bodies *)

Section ExtractBetween.
Context (pre sep1 m sep2 post : bytes).

(** The text between the first [sep1] and the first [sep2] after it. *)
Lemma extract_between_spec :
  skips sep1 pre = true -> skips sep2 m = true ->
  size (pre ++ sep1 ++ m ++ sep2 ++ post) < npos ->
  extract_between (pre ++ sep1 ++ m ++ sep2 ++ post) sep1 sep2 = Ok m.
Proof.
  intros H1 H2 Hsz. unfold extract_between. rewrite find_0, find_from_after by done. cbn [pos_of].
  change (0 + Z.of_nat (length pre)) with (size pre).
  destruct (Z.eqb_spec npos (size pre)); [size_lia|]. cbn [negb].
  rewrite sz_add_small by size_lia. rewrite <- size_app.
  replace (pre ++ sep1 ++ m ++ sep2 ++ post) with ((pre ++ sep1) ++ m ++ sep2 ++ post)
    by (by rewrite <- app_assoc).
  rewrite find_app, find_from_after by done. cbn [pos_of].
  change (Z.of_nat (length m)) with (size m).
  destruct (Z.eqb_spec npos (size (pre ++ sep1) + size m)); [size_lia|]. cbn [negb].
  rewrite sz_sub_small, Z.add_simpl_l by size_lia. apply substr_middle.
Qed.
End ExtractBetween.

Lemma extract_between_absent data sep1 sep2 :
  find_from sep1 data = None -> extract_between data sep1 sep2 = Ok [].
Proof. intros H. unfold extract_between. rewrite find_0, H. done. Qed.

Lemma extract_between_total data sep1 sep2 :
  size data < npos -> exists t, extract_between data sep1 sep2 = Ok t.
Proof.
  intros Hsz. unfold extract_between.
  destruct (find_bounds data sep1 0) as [-> | Hb]; [done| |].
  { rewrite Z.eqb_refl. by eexists. }
  destruct (Z.eqb_spec npos (find data sep1 0)); [size_lia|]. cbn [negb].
  rewrite sz_add_small by size_lia. destruct (negb _); [|eauto].
  apply substr_ok. lia.
Qed.

Record part : Type := mk_part { p_name : bytes; p_filename : bytes; p_type : bytes; p_data : bytes }.

Definition render_part_head (p : part) : bytes :=
  if is_empty p.(p_filename) then
    str "Content-Disposition: form-data; " ++ quoted (str "name=") ++ p.(p_name) ++ quote ++ cr_lf ++ cr_lf
  else
    str "Content-Disposition: form-data; " ++ quoted (str "name=") ++ p.(p_name) ++ quote ++ str "; " ++
    quoted (str "filename=") ++ p.(p_filename) ++ quote ++ cr_lf ++
    str "Content-Type: " ++ p.(p_type) ++ cr_lf ++ cr_lf.

Definition render_part (p : part) : bytes := render_part_head p ++ p.(p_data) ++ cr_lf.

(** Attribute text: no quote, equal sign, colon, nor carriage return. *)
Definition plain (s : bytes) : Prop :=
  ("="%byte ∉ s) /\ (":"%byte ∉ s) /\ (Byte.x22 ∉ s) /\ (Byte.x0d ∉ s).

Record wf_part (p : part) : Prop := {
  wf_p_name : plain p.(p_name);
  wf_p_filename : plain p.(p_filename);
  wf_p_type : plain p.(p_type);
}.

Lemma quoted_skips pat l :
  (exists q c q', pat = q ++ c :: q' /\ (c = "="%byte \/ c = ":"%byte) /\ Byte.x22 ∉ q) ->
  plain l -> skips pat (l ++ quote) = true.
Proof.
  intros (q & c & q' & -> & Hc & Hq) (H1 & H2 & _ & _). apply skips_closed; [|done|].
  - by destruct Hc as [-> | ->].
  - destruct Hc as [-> | ->]; discriminate.
Qed.

Lemma parse_multipart_header_param n t :
  plain n -> size t < npos ->
  t = str "Content-Disposition: form-data; " ++ quoted (str "name=") ++ n ++ quote ++ cr_lf ++ cr_lf ->
  exists ty, parse_multipart_header t = Ok (mk_multipart_header (str "form-data") n [] ty).
Proof.
  intros Hn Hsz Ht. pose proof Hn as (H1 & H2 & H3 & H4). unfold parse_multipart_header.
  assert (extract_between t (str "Content-Disposition: ") (str ";") = Ok (str "form-data")) as ->.
  { subst t. apply (extract_between_spec [] (str "Content-Disposition: ") (str "form-data") (str ";")
      (str " " ++ quoted (str "name=") ++ n ++ quote ++ cr_lf ++ cr_lf)); [done|done|exact Hsz]. }
  assert (extract_between t (quoted (str "name=")) quote = Ok n) as ->.
  { subst t. apply extract_between_spec; [done|by apply skips_avoid|exact Hsz]. }
  assert (extract_between t (quoted (str "filename=")) quote = Ok []) as ->.
  { apply extract_between_absent, find_from_skipped; [done|]. subst t.
    apply skips_app; [done|]. apply skips_app; [done|]. rewrite app_assoc.
    apply skips_app; [|done]. apply quoted_skips; [|done].
    exists (str "filename"), "="%byte, quote. split; [done|]. split; [by left | by apply mem_false]. }
  destruct (extract_between_total t (str "Content-Type: ") (cr_lf ++ cr_lf) Hsz) as (ty & ->).
  by exists ty.
Qed.

Lemma parse_multipart_header_upload n f ty t :
  plain n -> plain f -> plain ty -> size t < npos ->
  t = str "Content-Disposition: form-data; " ++ quoted (str "name=") ++ n ++ quote ++ str "; " ++
      quoted (str "filename=") ++ f ++ quote ++ cr_lf ++ str "Content-Type: " ++ ty ++ cr_lf ++ cr_lf ->
  parse_multipart_header t = Ok (mk_multipart_header (str "form-data") n (percent_decode f) ty).
Proof.
  intros Hn Hf Hty Hsz Ht. pose proof Hn as (H1 & H2 & H3 & H4).
  pose proof Hf as (F1 & F2 & F3 & F4). pose proof Hty as (T1 & T2 & T3 & T4).
  unfold parse_multipart_header.
  assert (extract_between t (str "Content-Disposition: ") (str ";") = Ok (str "form-data")) as ->.
  { subst t. apply (extract_between_spec [] (str "Content-Disposition: ") (str "form-data") (str ";")
      (str " " ++ quoted (str "name=") ++ n ++ quote ++ str "; " ++ quoted (str "filename=") ++ f ++ quote ++
       cr_lf ++ str "Content-Type: " ++ ty ++ cr_lf ++ cr_lf)); [done|done|exact Hsz]. }
  assert (extract_between t (quoted (str "name=")) quote = Ok n) as ->.
  { subst t. apply extract_between_spec; [done|by apply skips_avoid|exact Hsz]. }
  assert (extract_between t (quoted (str "filename=")) quote = Ok f) as ->.
  { set (pre := str "Content-Disposition: form-data; " ++ quoted (str "name=") ++ (n ++ quote) ++ str "; ").
    assert (t = pre ++ quoted (str "filename=") ++ f ++ quote ++
      (cr_lf ++ str "Content-Type: " ++ ty ++ cr_lf ++ cr_lf)) as E.
    { subst t pre. by rewrite <- !app_assoc. }
    rewrite E in *. apply extract_between_spec; [|by apply skips_avoid|done].
    do 2 (apply skips_app; [done|]). apply skips_app; [|done]. apply quoted_skips; [|done].
    exists (str "filename"), "="%byte, quote. split; [done|]. split; [by left | by apply mem_false]. }
  assert (extract_between t (str "Content-Type: ") (cr_lf ++ cr_lf) = Ok ty) as ->.
  { set (pre := str "Content-Disposition: form-data; " ++ quoted (str "name=") ++ (n ++ quote) ++
      (str "; " ++ quoted (str "filename=")) ++ (f ++ quote) ++ cr_lf).
    assert (t = pre ++ str "Content-Type: " ++ ty ++ (cr_lf ++ cr_lf) ++ []) as E.
    { subst t pre. by rewrite <- !app_assoc. }
    assert (exists q c q', str "Content-Type: " = q ++ c :: q' /\
      (c = "="%byte \/ c = ":"%byte) /\ Byte.x22 ∉ q) as Hq.
    { exists (str "Content-Type"), ":"%byte, (str " "). split; [done|]. split; [by right | by apply mem_false]. }
    rewrite E in *. apply extract_between_spec; [|by apply skips_avoid|done].
    do 2 (apply skips_app; [done|]). apply skips_app; [by apply quoted_skips|].
    apply skips_app; [done|]. apply skips_app; [by apply quoted_skips | done]. }
  done.
Qed.

(** What a part adds to the request. *)
Definition add_part (req : request) (p : part) : request :=
  if is_empty p.(p_filename) then set_params req (push_param req.(params) p.(p_name) p.(p_data))
  else set_uploads req (req.(uploads) ++
    [mk_multipart_content p.(p_name) (percent_decode p.(p_filename)) p.(p_type) p.(p_data)]).

Lemma percent_decode_nonempty s : s <> [] -> percent_decode s <> [].
Proof.
  destruct s as [|c s]; [done|]. intros _. cbn [percent_decode].
  repeat case_match; done.
Qed.

Lemma render_part_head_end p :
  wf_part p -> exists h, render_part_head p = h ++ (cr_lf ++ cr_lf) /\ skips (cr_lf ++ cr_lf) h = true.
Proof.
  intros [(_ & _ & _ & Hn) (_ & _ & _ & Hf) (_ & _ & _ & Ht)]. unfold render_part_head.
  destruct (is_empty (p_filename p)).
  - exists (str "Content-Disposition: form-data; " ++ quoted (str "name=") ++ p_name p ++ quote).
    split; [by rewrite <- !app_assoc|].
    do 2 (apply skips_app; [done|]). apply skips_app; [by apply skips_avoid | done].
  - exists (str "Content-Disposition: form-data; " ++ quoted (str "name=") ++ p_name p ++
      (quote ++ str "; " ++ quoted (str "filename=")) ++ p_filename p ++
      (quote ++ cr_lf ++ str "Content-Type: ") ++ p_type p).
    split; [by rewrite <- !app_assoc|].
    do 2 (apply skips_app; [done|]). apply skips_app; [by apply skips_avoid|].
    apply skips_app; [done|]. apply skips_app; [by apply skips_avoid|].
    apply skips_app; [done | by apply skips_avoid].
Qed.

Lemma parse_multipart_header_render p :
  wf_part p -> size (render_part_head p) < npos ->
  exists ty, parse_multipart_header (render_part_head p) =
    Ok (mk_multipart_header (str "form-data") p.(p_name) (percent_decode p.(p_filename)) ty) /\
    (p.(p_filename) <> [] -> ty = p.(p_type)).
Proof.
  intros [Hn Hf Ht] Hsz. unfold render_part_head in *.
  destruct (p_filename p) as [|c f] eqn:E; cbn [is_empty] in *.
  - destruct (parse_multipart_header_param (p_name p) _ Hn Hsz eq_refl) as (ty & ->). by exists ty.
  - rewrite (parse_multipart_header_upload (p_name p) (c :: f) (p_type p) _ Hn Hf Ht Hsz eq_refl).
    by eexists.
Qed.

Lemma parse_multipart_content_render req p :
  wf_part p -> size (render_part p) < npos ->
  parse_multipart_content req (render_part p) = Ok (add_part req p).
Proof.
  intros Hp Hsz. destruct (render_part_head_end p Hp) as (h & Eh & Hh).
  unfold parse_multipart_content, render_part in *. set (e := cr_lf ++ cr_lf) in *.
  assert (find (render_part_head p ++ p_data p ++ cr_lf) e 0 = size h) as ->.
  { rewrite Eh, <- app_assoc, find_0, find_from_after by done. done. }
  assert (size h + size e = size (render_part_head p)) as Es by (rewrite Eh; size_lia).
  assert (size cr_lf = 2) as E2 by done.
  destruct (Z.eqb_spec (size h) npos); [size_lia|].
  rewrite sz_add_small, Es by size_lia.
  rewrite (sz_sub_small (size _)) by size_lia.
  rewrite (sz_sub_small (size _ - size _)) by size_lia.
  replace (size (render_part_head p ++ p_data p ++ cr_lf) - size (render_part_head p) - 2)
    with (size (p_data p)) by size_lia.
  rewrite substr_middle. cbn [mbind res_bind].
  pose proof (substr_middle [] (render_part_head p) (p_data p ++ cr_lf)) as Hsub.
  cbn [app] in Hsub. change (size (@nil byte)) with 0 in Hsub. rewrite Hsub. cbn [mbind res_bind].
  destruct (parse_multipart_header_render p Hp) as (ty & -> & Hty); [size_lia|]. cbn [mbind res_bind mh_filename].
  unfold add_part. destruct (p_filename p) as [|c f] eqn:E; [done|].
  assert (is_empty (percent_decode (c :: f)) = false) as ->.
  { pose proof (percent_decode_nonempty (c :: f)). destruct (percent_decode (c :: f)); naive_solver. }
  cbn [is_empty mh_name mh_filetype]. by rewrite Hty.
Qed.

Definition sep1_of (b : bytes) : bytes := str "--" ++ (b ++ cr_lf).
Definition sep2_of (b : bytes) : bytes := str "--" ++ (b ++ (str "--" ++ cr_lf)).

(** The parts after the first separator line. *)
Fixpoint render_parts (b : bytes) (l : list part) : bytes :=
  match l with
  | [] => []
  | [p] => render_part p ++ sep2_of b
  | p :: l' => render_part p ++ (sep1_of b ++ render_parts b l')
  end.

Definition render_multipart (b : bytes) (l : list part) : bytes := sep1_of b ++ render_parts b l.

(** A boundary that separates the parts: the opening line occurs in none of
    them, nor in the closing line. *)
Record separates (b : bytes) (l : list part) : Prop := {
  sep_no_semicolon : ";"%byte ∉ b;
  sep_parts : Forall (fun p => skips (sep1_of b) (render_part p) = true) l;
  sep_last : Forall (fun p => skips (sep2_of b) (render_part p) = true) l;
  sep_closing : skips (sep1_of b) (sep2_of b) = true;
}.

Lemma add_part_content req p : (add_part req p).(content) = req.(content).
Proof. unfold add_part. by destruct (is_empty _). Qed.

Lemma multipart_loop_render b fuel l : forall pre req,
  l <> [] -> (length l <= fuel)%nat -> Forall wf_part l -> separates b l ->
  req.(content) = pre ++ render_parts b l -> size req.(content) < npos ->
  multipart_loop fuel (sep1_of b) (sep2_of b) (size pre) req = Ok (fold_left add_part l req).
Proof.
  revert l; induction fuel as [|fuel IH]; intros l pre req Hl Hf Hw [Hb Hs Hs2 Hc] Ec Hsz;
    [destruct l; simpl in *; try done; lia|].
  destruct l as [|p l]; [done|].
  apply Forall_cons in Hw as [Hp Hw]. apply Forall_cons in Hs as [Hsp Hs].
  apply Forall_cons in Hs2 as [Hsp2 Hs2].
  cbn [multipart_loop]. destruct l as [|p' l].
  - cbn [render_parts] in Ec. rewrite Ec in *. rewrite !find_app.
    rewrite find_from_skipped, find_from_after_end by (done || by apply skips_app).
    cbn [pos_of]. rewrite Z.eqb_refl.
    change (Z.of_nat (length (render_part p))) with (size (render_part p)).
    destruct (Z.eqb_spec (size pre + size (render_part p)) npos); [size_lia|]. cbn [negb].
    rewrite sz_sub_small, Z.add_simpl_l, substr_middle by size_lia. cbn [mbind res_bind].
    rewrite parse_multipart_content_render; [done|done|size_lia].
  - change (render_parts b (p :: p' :: l))
      with (render_part p ++ (sep1_of b ++ render_parts b (p' :: l))) in Ec.
    rewrite Ec in *. rewrite !find_app, find_from_after by done. cbn [pos_of].
    change (Z.of_nat (length (render_part p))) with (size (render_part p)).
    destruct (Z.eqb_spec (size pre + size (render_part p)) npos); [size_lia|].
    rewrite sz_sub_small, Z.add_simpl_l, substr_middle by size_lia. cbn [mbind res_bind].
    rewrite parse_multipart_content_render; [|done|size_lia]. cbn [mbind res_bind].
    rewrite sz_add_small by size_lia.
    replace (size pre + size (render_part p) + size (sep1_of b))
      with (size (pre ++ render_part p ++ sep1_of b)) by size_lia.
    rewrite (IH (p' :: l) (pre ++ render_part p ++ sep1_of b) (add_part req p)); try done.
    + simpl in *. lia.
    + rewrite add_part_content, Ec. by rewrite <- !app_assoc.
    + by rewrite add_part_content, Ec.
Qed.

Lemma boundary_of b : (";"%byte ∉ b) -> size b < npos - 100 ->
  boundary (str "multipart/form-data; boundary=" ++ b) = Ok b.
Proof.
  intros Hb Hsz. unfold boundary.
  set (t := str "multipart/form-data; ").
  assert (str "multipart/form-data; boundary=" ++ b = t ++ str "boundary=" ++ b) as -> by done.
  rewrite find_0, find_from_after by done. cbn [pos_of].
  change (0 + Z.of_nat (length t)) with (size t).
  assert (size t = 21 /\ size (str "boundary=") = 9) as [E1 E2] by done.
  rewrite sz_add_small by (rewrite ?E1, ?E2; unfold npos; lia).
  rewrite app_assoc, <- size_app, substr_app_all by size_lia. cbn [mbind res_bind].
  rewrite find_0. change (str ";") with [";"%byte]. rewrite find_from_char_None by done.
  done.
Qed.

Lemma render_parts_length b l : (length l <= length (render_parts b l))%nat.
Proof.
  induction l as [|p [|p' l] IH]; [done| |].
  - cbn [render_parts]. rewrite length_app. unfold sep2_of. rewrite length_app. simpl. lia.
  - change (render_parts b (p :: p' :: l)) with (render_part p ++ (sep1_of b ++ render_parts b (p' :: l))).
    rewrite !length_app. unfold sep1_of at 1. rewrite length_app. simpl length in *. lia.
Qed.

Lemma parse_multipart_render b l req :
  l <> [] -> Forall wf_part l -> separates b l ->
  req.(content) = render_multipart b l -> size req.(content) < npos - 200 ->
  parse_multipart req (str "multipart/form-data; boundary=" ++ b) = Ok (fold_left add_part l req).
Proof.
  intros Hl Hw Hs Ec Hsz. unfold parse_multipart.
  assert (size b <= size (content req)) as Hb.
  { rewrite Ec. unfold render_multipart, sep1_of. size_lia. }
  rewrite !boundary_of by (first [by destruct Hs | lia]). cbn [mbind res_bind].
  fold (sep1_of b) (sep2_of b). rewrite Ec at 2. unfold render_multipart.
  rewrite find_0, find_from_here. cbn [pos_of].
  rewrite sz_add_small by (rewrite Ec in Hsz; unfold render_multipart in Hsz; size_lia).
  change (0 + Z.of_nat 0 + size (sep1_of b)) with (size (sep1_of b)).
  apply multipart_loop_render; try done.
  - rewrite Ec. unfold render_multipart. rewrite length_app.
    pose proof (render_parts_length b l). lia.
  - lia.
Qed.

(** ** Lemmas: totality *)

Lemma parse_cookie_total req data :
  size data < npos -> exists l, parse_cookie req data = Ok (set_cookies req (req.(cookies) ++ l)).
Proof.
  intros Hsz. unfold parse_cookie. change (str "=") with ["="%byte]. rewrite find_0.
  destruct (find_from ["="%byte] data) as [i|] eqn:E; cbn [pos_of].
  2:{ exists []. rewrite app_nil_r. by destruct req. }
  apply find_from_Some in E as (a & b & -> & <-).
  destruct (Z.eqb_spec (0 + Z.of_nat (length a)) npos) as [E|E].
  { change (Z.of_nat (length a)) with (size a) in E. size_lia. }
  change (Z.of_nat (length a)) with (size a).
  pose proof (space_count_bound a "="%byte b eq_refl). cbn [app] in *.
  destruct (substr_ok (a ++ "="%byte :: b) (space_count (a ++ "="%byte :: b))
    (sz_sub (0 + size a) (space_count (a ++ "="%byte :: b)))) as (n & ->); [size_lia|]. cbn [mbind res_bind].
  destruct (substr_ok (a ++ "="%byte :: b) (0 + size a + 1) npos) as (v & ->); [size_lia|]. cbn [mbind res_bind].
  by eexists.
Qed.

Lemma parse_cookies_loop_total fuel data : forall old_pos req,
  0 <= old_pos <= size data -> size data < npos -> size data - old_pos < Z.of_nat fuel ->
  exists l, parse_cookies_loop fuel data old_pos req = Ok (set_cookies req (req.(cookies) ++ l)).
Proof.
  induction fuel as [|fuel IH]; intros old_pos req Hp Hsz Hf; [lia|]. cbn [parse_cookies_loop].
  assert (forall n t, substr data old_pos n = Ok t -> size t <= size data) as Hle.
  { unfold substr, suffix_at. intros n t. destruct (Z.ltb_spec (size data) old_pos); [done|].
    intros [= <-]. unfold size. rewrite length_take, length_drop. lia. }
  destruct (find_bounds data (str ";") old_pos) as [-> | Hb]; [lia| |].
  - rewrite Z.eqb_refl. destruct (substr_ok data old_pos npos) as (t & E); [lia|]. rewrite E.
    apply parse_cookie_total. specialize (Hle _ _ E). lia.
  - set (pos := find data (str ";") old_pos) in *. change (size (str ";")) with 1 in Hb.
    destruct (Z.eqb_spec pos npos); [lia|].
    destruct (substr_ok data old_pos (sz_sub pos old_pos)) as (t & E); [lia|]. rewrite E.
    cbn [mbind res_bind]. specialize (Hle _ _ E).
    destruct (parse_cookie_total req t) as (l1 & ->); [lia|]. cbn [mbind res_bind].
    destruct (IH (pos + 1) (set_cookies req (cookies req ++ l1))) as (l2 & ->); [lia|lia|lia|].
    exists (l1 ++ l2). simpl. by rewrite app_assoc.
Qed.

Definition invalid_part : exn := runtime_error (str "invalid part header").

Lemma substr_size s pos n t : 0 <= pos -> substr s pos n = Ok t -> size t <= size s.
Proof.
  unfold substr, suffix_at. intros Hp. destruct (Z.ltb_spec (size s) pos); [done|].
  intros [= <-]. unfold size. rewrite length_take, length_drop. lia.
Qed.

Lemma parse_multipart_content_total req data :
  size data < npos - 4 ->
  match parse_multipart_content req data with
  | Ok r => r.(content) = req.(content)
  | Throw e => e = invalid_part
  | UB _ => False
  end.
Proof.
  intros Hsz. unfold parse_multipart_content. set (e := cr_lf ++ cr_lf).
  assert (size e = 4) as Ee by done.
  destruct (find_bounds data e 0) as [-> | Hb]; [done| |].
  { by rewrite Z.eqb_refl. }
  destruct (Z.eqb_spec (find data e 0) npos); [lia|].
  rewrite sz_add_small by (rewrite ?Ee; lia). rewrite Ee in *.
  set (vs := find data e 0 + 4) in *.
  destruct (substr_ok data vs (sz_sub (sz_sub (size data) vs) 2)) as (v & ->); [lia|]. cbn [mbind res_bind].
  destruct (substr_ok data 0 vs) as (h & Eh); [lia|]. rewrite Eh. cbn [mbind res_bind].
  apply substr_size in Eh; [|lia]. unfold parse_multipart_header.
  destruct (extract_between_total h (str "Content-Disposition: ") (str ";")) as (? & ->); [lia|].
  destruct (extract_between_total h (quoted (str "name=")) quote) as (? & ->); [lia|].
  destruct (extract_between_total h (quoted (str "filename=")) quote) as (? & ->); [lia|].
  destruct (extract_between_total h (str "Content-Type: ") (cr_lf ++ cr_lf)) as (? & ->); [lia|].
  cbn [mbind res_bind mh_filename]. by destruct (is_empty _).
Qed.

Lemma multipart_loop_total fuel sep1 sep2 : forall old_pos req,
  4 <= size sep1 < 2 ^ 62 -> 4 <= size sep2 -> 0 <= old_pos -> size req.(content) < 2 ^ 62 ->
  size req.(content) - old_pos < Z.of_nat fuel -> (0 < fuel)%nat ->
  match multipart_loop fuel sep1 sep2 old_pos req with
  | Ok r => r.(content) = req.(content)
  | Throw e => e = invalid_part
  | UB _ => False
  end.
Proof.
  induction fuel as [|fuel IH]; intros old_pos req Hs1 Hs2 Hp Hsz Hf Hf0; [lia|]. cbn [multipart_loop].
  assert (forall n t, substr req.(content) old_pos n = Ok t -> size t < npos - 4) as Hle.
  { intros n t E%substr_size; [unfold npos; lia | done]. }
  destruct (find_bounds req.(content) sep1 old_pos) as [-> | Hb]; [done| |].
  - rewrite Z.eqb_refl.
    destruct (find_bounds req.(content) sep2 old_pos) as [-> | Hb]; [done| |].
    { by rewrite Z.eqb_refl. }
    destruct (Z.eqb_spec (find req.(content) sep2 old_pos) npos); [done|]. cbn [negb].
    destruct (substr_ok req.(content) old_pos (sz_sub (find req.(content) sep2 old_pos) old_pos))
      as (t & E); [lia|]. rewrite E. cbn [mbind res_bind].
    apply parse_multipart_content_total, (Hle _ _ E).
  - set (pos := find req.(content) sep1 old_pos) in *.
    destruct (Z.eqb_spec pos npos); [unfold npos in *; lia|].
    destruct (substr_ok req.(content) old_pos (sz_sub pos old_pos)) as (t & E); [lia|]. rewrite E.
    cbn [mbind res_bind]. pose proof (parse_multipart_content_total req t (Hle _ _ E)) as H.
    destruct (parse_multipart_content req t) as [r|e|u]; cbn [mbind res_bind]; try done.
    rewrite sz_add_small by (unfold npos; lia). rewrite <- H in *.
    specialize (IH (pos + size sep1) r Hs1 Hs2 ltac:(lia) Hsz ltac:(lia) ltac:(lia)).
    destruct (multipart_loop fuel sep1 sep2 (pos + size sep1) r); try done.
Qed.

Lemma boundary_total ct : 19 <= size ct < 2 ^ 60 ->
  exists b, boundary ct = Ok b /\ size b <= size ct.
Proof.
  intros Hsz. unfold boundary. assert (size (str "boundary=") = 9) as E9 by done.
  assert (0 <= sz_add (find ct (str "boundary=") 0) (size (str "boundary=")) <= size ct) as Hpos.
  { destruct (find_bounds ct (str "boundary=") 0) as [-> | Hb]; [done| |].
    - rewrite E9. unfold sz_add, wrap64, npos. rewrite Z.mod_eq by lia. change ((2 ^ 64 - 1 + 9) / 2 ^ 64) with 1. lia.
    - rewrite sz_add_small by (unfold npos; lia). lia. }
  destruct (substr_ok ct _ npos (proj2 Hpos)) as (s & E). rewrite E. cbn [mbind res_bind].
  apply substr_size in E; [|lia]. destruct (negb _); [|by eexists].
  destruct (substr_ok s 0 (find s (str ";") 0)) as (t & Et); [size_lia|]. rewrite Et.
  apply substr_size in Et; [|lia]. exists t. split; [done | lia].
Qed.

Lemma strings_are_equal_n_size s1 s2 n : strings_are_equal_n s1 s2 n = true -> n <= size s1 /\ n <= size s2.
Proof.
  unfold strings_are_equal_n. destruct (toupper_ranges_agree _ _); [|done].
  intros [?%Z.leb_le ?%Z.leb_le]%andb_true_iff. done.
Qed.

(** ** Lemmas: path segments *)

Lemma split_loop_avoids s c item :
  c ∉ s -> item ++ s <> [] -> split_loop s c item = [item ++ s].
Proof.
  revert item; induction s as [|x s IH]; intros item Hc Hne; cbn [split_loop].
  - rewrite app_nil_r in *. by destruct item.
  - apply not_elem_of_cons in Hc as [Hx Hc].
    destruct (x =c c) eqn:E; [by apply eqc_true in E as ->|].
    rewrite IH; rewrite <- ?app_assoc; done.
Qed.

Lemma split_loop_delimiter a c s item :
  c ∉ a -> split_loop (a ++ c :: s) c item = (item ++ a) :: split_loop s c [].
Proof.
  revert item; induction a as [|x a IH]; intros item Hc; cbn [split_loop app].
  - by rewrite eqc_refl, app_nil_r.
  - apply not_elem_of_cons in Hc as [Hx Hc].
    destruct (x =c c) eqn:E; [by apply eqc_true in E as ->|].
    rewrite IH by done. by rewrite <- app_assoc.
Qed.

Lemma split_loop_nonempty s c item : item ++ s <> [] -> split_loop s c item <> [].
Proof.
  revert item; induction s as [|x s IH]; intros item H; cbn [split_loop].
  - rewrite app_nil_r in H. by destruct item.
  - destruct (x =c c); [done|]. apply IH. by destruct item.
Qed.

(** The target with the given percent-encoded segments. *)
Definition render_path (l : list bytes) : bytes :=
  concat (map (fun s => "/"%byte :: percent_encode s) l).

Lemma render_path_decode l :
  percent_decode (render_path l) = concat (map (fun s => "/"%byte :: s) l).
Proof.
  induction l as [|s l IH]; [done|]. unfold render_path in *. cbn [map concat app].
  change (percent_decode ("/"%byte :: ?x)) with ("/"%byte :: percent_decode x).
  rewrite percent_decode_encode_app. by rewrite IH.
Qed.

Lemma split_path l a :
  ("/"%byte ∉ a) -> Forall (fun s => "/"%byte ∉ s) l ->
  last (a :: l) <> Some [] ->
  split_loop (a ++ concat (map (fun s => "/"%byte :: s) l)) "/"%byte [] = a :: l.
Proof.
  revert a; induction l as [|s l IH]; intros a Ha Hl Hlast; cbn [map concat].
  - rewrite app_nil_r, split_loop_avoids; [done|done|]. intros E. apply Hlast. cbn [app] in E. by rewrite E.
  - apply Forall_cons in Hl as [Hs Hl]. rewrite <- app_comm_cons, split_loop_delimiter by done.
    by rewrite IH.
Qed.

Lemma parse_cookies_of_render req l :
  l <> [] -> Forall wf_cookie l -> size (render_cookies l) < npos ->
  nv_lookup (str "Cookie") req.(headers) = Some (render_cookies l) ->
  parse_cookies req = Ok (set_cookies req (req.(cookies) ++ l)).
Proof.
  intros Hl Hw Hsz Hh. unfold parse_cookies, header, nv_get. rewrite Hh.
  assert (set_headers req (headers req) = req) as -> by by destruct req.
  assert (length l <= length (render_cookies l))%nat as Hlen.
  { clear. induction l as [|nv [|nv' l] IH]; [done| |].
    - simpl. unfold render_cookie. rewrite length_app. simpl. lia.
    - change (render_cookies (nv :: nv' :: l)) with (render_cookie nv ++ str "; " ++ render_cookies (nv' :: l)).
      rewrite !length_app. simpl length in *. lia. }
  destruct (is_empty (render_cookies l)) eqn:E.
  { destruct (render_cookies l); [|done]. destruct l; simpl in *; [done|lia]. }
  apply (parse_cookies_loop_render _ l [] [] req); try done. lia.
Qed.

(** ** Properties *)

Lemma header_content req n : (header req n).1.(content) = req.(content).
Proof. unfold header. by destruct (nv_get n _). Qed.

(** [r] with parameters and uploads added. *)
Definition extended (r0 r : request) : Prop :=
  exists ps us, r = set_uploads (set_params r0 (r0.(params) ++ ps)) (r0.(uploads) ++ us).

Lemma extended_refl r : extended r r.
Proof. exists [], []. rewrite !app_nil_r. by destruct r. Qed.

Lemma extended_trans r1 r2 r3 : extended r1 r2 -> extended r2 r3 -> extended r1 r3.
Proof.
  intros (p1 & u1 & ->) (p2 & u2 & ->). exists (p1 ++ p2), (u1 ++ u2). simpl. by rewrite !app_assoc.
Qed.

Lemma extended_params r l : extended r (set_params r (r.(params) ++ l)).
Proof. exists l, []. rewrite app_nil_r. by destruct r. Qed.

Lemma parse_multipart_content_extended req d r : parse_multipart_content req d = Ok r -> extended req r.
Proof.
  unfold parse_multipart_content. destruct (_ =? npos); [done|]. intros E.
  do 3 (apply bind_Ok_inv in E as (? & _ & E)).
  destruct (is_empty _); injection E as <-; [apply extended_params|].
  eexists [], _. rewrite app_nil_r. by destruct req.
Qed.

Lemma multipart_loop_extended fuel s1 s2 pos req r : multipart_loop fuel s1 s2 pos req = Ok r -> extended req r.
Proof.
  revert pos req; induction fuel as [|fuel IH]; intros pos req; cbn [multipart_loop]; [done|].
  destruct (_ =? npos).
  - destruct (negb _); [|intros [= <-]; apply extended_refl].
    intros E. apply bind_Ok_inv in E as (? & _ & E). by eapply parse_multipart_content_extended.
  - intros E. apply bind_Ok_inv in E as (d & _ & E). apply bind_Ok_inv in E as (r1 & E1 & E).
    apply parse_multipart_content_extended in E1. eapply extended_trans; eauto.
Qed.

Lemma urlencoded_loop_extended fuel content : forall old_pos ps l,
  urlencoded_loop fuel content old_pos ps = Ok l -> exists l', l = ps ++ l'.
Proof.
  induction fuel as [|fuel IH]; intros old_pos ps l; cbn [urlencoded_loop]; [done|].
  assert (forall p n v, urlencoded_loop fuel content p (push_param ps n v) = Ok l -> exists l', l = ps ++ l') as Hpush.
  { intros p n v (l' & ->)%IH. unfold push_param. eexists. by rewrite <- app_assoc. }
  destruct (_ =? npos); [intros [= <-]; exists []; by rewrite app_nil_r|].
  intros E. apply bind_Ok_inv in E as (c & _ & E). destruct (c =c "&"%byte).
  - destruct (_ <=? _); [by eapply IH|]. apply bind_Ok_inv in E as (? & _ & E). by eapply Hpush.
  - apply bind_Ok_inv in E as (? & _ & E). apply bind_Ok_inv in E as (? & _ & E).
    destruct (_ =? npos); [|by eapply Hpush]. injection E as <-. by eexists.
Qed.

Lemma parse_content_extended req r :
  parse_content req = Ok r ->
  extended (if is_empty req.(content) then req else (header req (str "Content-Type")).1) r.
Proof.
  unfold parse_content. destruct (is_empty _); [intros [= <-]; apply extended_refl|].
  destruct (header req (str "Content-Type")) as [r1 ct]. cbn [fst]. destruct (_ || _).
  - intros E. apply bind_Ok_inv in E as (l & E1 & E). injection E as <-.
    apply urlencoded_loop_extended in E1 as (l' & ->). apply extended_params.
  - destruct (strings_are_equal_n _ _ _); [|intros [= <-]; apply extended_refl].
    unfold parse_multipart. intros E. do 2 (apply bind_Ok_inv in E as (? & _ & E)).
    by eapply multipart_loop_extended.
Qed.

Lemma parse_content_total req :
  size req.(content) < 2 ^ 62 -> size (header req (str "Content-Type")).2 < 2 ^ 60 ->
  match parse_content req with
  | Ok r => r.(content) = req.(content)
  | Throw e => e = runtime_error (str "invalid part header")
  | UB _ => False
  end.
Proof.
  intros Hsz Hct. unfold parse_content. destruct (is_empty (content req)); [done|].
  pose proof (header_content req (str "Content-Type")) as Hc.
  destruct (header req (str "Content-Type")) as [r ct] eqn:E. cbn [fst snd] in *.
  destruct (is_empty ct || _).
  - destruct (urlencoded_loop_total (S (length (content r))) (content r) 0 (params r)) as (l & ->);
      [size_lia | rewrite Hc; unfold npos; lia | unfold size; lia | done].
  - destruct (strings_are_equal_n multipart_type ct (size multipart_type)) eqn:F; [|done].
    apply strings_are_equal_n_size in F as [_ F]. change (size multipart_type) with 19 in F.
    destruct (boundary_total ct) as (b & Hb & Hbs); [lia|].
    unfold parse_multipart. rewrite Hb. cbn [mbind res_bind].
    assert (0 <= size b) as Hb0 by size_lia.
    assert (size (str "--") = 2 /\ size cr_lf = 2) as [Ed Ec] by done.
    assert (size (str "--" ++ b ++ cr_lf) = 4 + size b) as E1 by (rewrite !size_app, Ed, Ec; lia).
    assert (size (str "--" ++ b ++ str "--" ++ cr_lf) = 6 + size b) as E2
      by (rewrite !size_app, Ed, Ec; lia).
    set (pos := sz_add _ _). assert (0 <= pos) as Hp by (apply Z.mod_pos_bound; done).
    pose proof (multipart_loop_total (S (length (content r))) (str "--" ++ b ++ cr_lf)
      (str "--" ++ b ++ str "--" ++ cr_lf) pos r ltac:(lia) ltac:(lia) Hp ltac:(by rewrite Hc)
      ltac:(unfold size in *; lia) ltac:(lia)) as H.
    destruct (multipart_loop _ _ _ _ r); try done. by rewrite H.
Qed.

(** C26: decoding a complete request's body has two outcomes: the request with
    parameters and uploads added after those it had and nothing else changed
    (the lookup of Content-Type apart), or the exception for a part without a
    blank line; no position leaves the body, and every loop ends. *)
Theorem parse_content_outcome req :
  size req.(content) < 2 ^ 62 -> size (header req (str "Content-Type")).2 < 2 ^ 60 ->
  match parse_content req with
  | Ok r => extended (if is_empty req.(content) then req else (header req (str "Content-Type")).1) r
  | Throw e => e = runtime_error (str "invalid part header")
  | UB _ => False
  end.
Proof.
  intros Hsz Hct. pose proof (parse_content_total req Hsz Hct) as H.
  destruct (parse_content req) as [r|e|u] eqn:E; [by apply parse_content_extended | done..].
Qed.

Definition bad_part : request :=
  set_headers (set_content request_init
    (str "--b" ++ cr_lf ++ str "no blank line" ++ cr_lf ++ str "--b--" ++ cr_lf))
    [mk_name_value (str "Content-Type") (str "multipart/form-data; boundary=b")].

Lemma parse_content_outcome_witness :
  parse_content bad_part = Throw (runtime_error (str "invalid part header")).
Proof.
  pose proof (parse_content_outcome bad_part eq_refl eq_refl) as H.
  destruct (parse_content bad_part) eqn:E; vm_compute in E; congruence.
Defined.

(** A Cookie header never stops a request: whatever it holds, the loop ends
    and only adds cookies; and one that lists named cookies separated by
    semicolons and a space gives exactly those cookies, in order. *)
Theorem parse_cookies_render req :
  size (header req (str "Cookie")).2 < npos ->
  (exists l, parse_cookies req =
    Ok (set_cookies (header req (str "Cookie")).1 ((header req (str "Cookie")).1.(cookies) ++ l))) /\
  (forall l, l <> [] -> Forall wf_cookie l ->
    nv_lookup (str "Cookie") req.(headers) = Some (render_cookies l) ->
    parse_cookies req = Ok (set_cookies req (req.(cookies) ++ l))).
Proof.
  intros Hsz. split.
  - unfold parse_cookies. destruct (header req (str "Cookie")) as [r data]. cbn [fst snd] in *.
    destruct (is_empty data); [exists []; rewrite app_nil_r; by destruct r|].
    apply parse_cookies_loop_total; [size_lia | done | unfold size; lia].
  - intros l Hl Hw Hh. apply parse_cookies_of_render; try done.
    unfold header, nv_get in Hsz. by rewrite Hh in Hsz.
Qed.

Definition two_cookies : list name_value :=
  [mk_name_value (str "sessionid") (str "a=b"); mk_name_value (str "lang") (str "en")].

Lemma two_cookies_wf : Forall wf_cookie two_cookies.
Proof.
  apply Forall_cons; split; [|apply Forall_cons; split; [|apply Forall_nil_2]];
    (split; [split_and!|]; [by apply mem_false..| |by apply mem_false]);
    intros c n [= <- _]; reflexivity.
Qed.

Definition cookie_request : request :=
  set_headers request_init [mk_name_value (str "Cookie") (str "sessionid=a=b; lang=en")].

Lemma parse_cookies_render_witness :
  parse_cookies cookie_request = Ok (set_cookies cookie_request two_cookies).
Proof.
  apply (parse_cookies_render cookie_request); [done | done | exact two_cookies_wf | done].
Defined.

(** C30: a urlencoded body gives back its fields: any names and values, percent
    encoded and joined by [=] and [&], come out of [parse_content] in order,
    byte for byte. *)
Theorem parse_content_form req l :
  l <> [] -> size (render_form l) < npos -> req.(content) = render_form l ->
  nv_lookup (str "Content-Type") req.(headers) = Some standard_type ->
  parse_content req = Ok (set_params req (req.(params) ++ l)).
Proof.
  intros Hl Hsz Hc Hh. unfold parse_content, header, nv_get. rewrite Hh, Hc.
  assert (set_headers req (headers req) = req) as -> by by destruct req.
  pose proof (render_form_length l) as Hlen.
  destruct (is_empty (render_form l)) eqn:E.
  { destruct (render_form l); [|done]. destruct l; simpl in *; [done|lia]. }
  change (is_empty standard_type || _) with true. cbn iota. rewrite Hc.
  pose proof (urlencoded_loop_render (S (length (render_form l))) l [] (params req) Hl ltac:(lia) Hsz) as H.
  cbn [app] in H. change (size (@nil byte)) with 0 in H. by rewrite H.
Qed.

Definition two_fields : list name_value :=
  [mk_name_value (str "a b") (str "1&2=3"); mk_name_value (str "c%") []].

Definition form_request : request :=
  set_headers (set_content request_init (render_form two_fields))
    [mk_name_value (str "Content-Type") standard_type].

Lemma parse_content_form_witness :
  parse_content form_request = Ok (set_params form_request two_fields).
Proof. apply (parse_content_form form_request two_fields); done. Defined.

(** C29: a multipart body gives back its parts: each field becomes a parameter
    and each file an upload with its name, type and exact bytes, in order. *)
Theorem parse_content_multipart req b l :
  l <> [] -> Forall wf_part l -> separates b l -> b <> [] ->
  req.(content) = render_multipart b l -> size req.(content) < npos - 200 ->
  nv_lookup (str "Content-Type") req.(headers) = Some (str "multipart/form-data; boundary=" ++ b) ->
  parse_content req = Ok (fold_left add_part l req).
Proof.
  intros Hl Hw Hs Hb Hc Hsz Hh. unfold parse_content, header, nv_get. rewrite Hh.
  assert (set_headers req (headers req) = req) as -> by by destruct req.
  assert (is_empty (content req) = false) as -> by by rewrite Hc.
  assert (strings_are_equal_n (str "multipart/form-data; boundary=" ++ b) standard_type (size standard_type) = false) as ->.
  { unfold strings_are_equal_n. by destruct (_ && _). }
  assert (strings_are_equal_n multipart_type (str "multipart/form-data; boundary=" ++ b) (size multipart_type) = true) as ->.
  { unfold strings_are_equal_n.
    assert ((size multipart_type <=? size multipart_type) &&
      (size multipart_type <=? size (str "multipart/form-data; boundary=" ++ b)) = true) as ->.
    { apply andb_true_intro. split; [done|]. apply Z.leb_le. rewrite size_app.
      change (size (str "multipart/form-data; boundary=")) with 30. change (size multipart_type) with 19. size_lia. }
    done. }
  by apply parse_multipart_render.
Qed.

Definition two_parts : list part :=
  [mk_part (str "title") [] [] (str "hello");
   mk_part (str "file") (str "a.png") (str "image/png") (str "--x" ++ cr_lf ++ [Byte.x00; Byte.xff])].

Definition multipart_request : request :=
  set_headers (set_content request_init (render_multipart (str "bnd") two_parts))
    [mk_name_value (str "Content-Type") (str "multipart/form-data; boundary=bnd")].

Lemma two_parts_wf : Forall wf_part two_parts /\ separates (str "bnd") two_parts.
Proof.
  split.
  - apply Forall_cons; split; [|apply Forall_cons; split; [|apply Forall_nil_2]];
      (split; split_and!; by apply mem_false).
  - constructor; [by apply mem_false | by repeat constructor | by repeat constructor | done].
Qed.

Lemma parse_content_multipart_witness :
  parse_content multipart_request = Ok (fold_left add_part two_parts multipart_request).
Proof.
  apply (parse_content_multipart multipart_request (str "bnd") two_parts); try done; apply two_parts_wf.
Defined.

(** [parse_params] gives the percent-decoded segments of the target: a
    target made of encoded segments comes back as those segments, and the only
    target it has no defined result for is the empty one, where it erases the
    first element of an empty vector. *)
Theorem parse_params_segments req :
  req.(rest_params) = [] ->
  (req.(uri) = [] <-> parse_params req = UB erase_of_end) /\
  (forall l, req.(uri) = render_path l -> l <> [] -> last l <> Some [] ->
    Forall (fun s => "/"%byte ∉ s) l ->
    exists ps, parse_params req = Ok (set_params (set_rest_params req l) ps) /\
      map name ps = map (fun nv => percent_decode nv.(name)) req.(params)).
Proof.
  intros Hr. unfold parse_params, split. rewrite Hr. cbn [app rest_params set_rest_params]. split.
  - split; [by intros ->|]. intros H.
    destruct (uri req) as [|c s] eqn:E; [done|].
    pose proof (split_loop_nonempty (percent_decode (c :: s)) "/"%byte []
      ltac:(by apply percent_decode_nonempty)) as Hne.
    destruct (split_loop (percent_decode (c :: s)) "/"%byte []); [done|].
    cbn in H. by destruct (size _ =? 0).
  - intros l Hu Hl Hlast Hs. rewrite Hu, render_path_decode.
    pose proof (split_path l [] ltac:(apply not_elem_of_nil) Hs) as H. cbn [app] in H.
    rewrite H by by destruct l.
    cbn [rest_params set_rest_params params].
    destruct (params req) as [|nv ps] eqn:E; cbn.
    + exists []. split; [|done]. f_equal. destruct req; cbn in *. by subst.
    + eexists. split; [reflexivity|]. cbn. f_equal. by rewrite map_map.
Qed.

Lemma parse_params_segments_witness :
  parse_params request_init = UB erase_of_end /\
  exists ps, parse_params (set_uri request_init (render_path [str "user"; str "sign in"])) =
    Ok (set_params (set_rest_params (set_uri request_init (render_path [str "user"; str "sign in"]))
      [str "user"; str "sign in"]) ps) /\ map name ps = [].
Proof.
  split.
  - by apply (parse_params_segments request_init eq_refl).
  - apply (parse_params_segments (set_uri request_init (render_path [str "user"; str "sign in"])) eq_refl);
      [done|done|done|].
    apply Forall_cons; split; [|apply Forall_cons; split; [|apply Forall_nil_2]]; by apply mem_false.
Defined.
