(* ===== verification/Response.v ===== *)
(** * [src/src/response.hpp], [src/src/response.cpp], [src/src/mime_types.cpp]:
    the response, its bytes on the wire, and the MIME tables.

    [to_buffers] gives the sequence of buffers that [async_write] sends; the
    bytes on the wire are their concatenation. A [status_type] is held as its
    numeric value, since a default-initialised response holds any value and the
    two [switch] statements have a [default] case for it. *)
From S2P Require Import Prelude CxxString Utility Request.

Module status_type.
Definition ok : Z := 200.
Definition created : Z := 201.
Definition accepted : Z := 202.
Definition no_content : Z := 204.
Definition multiple_choices : Z := 300.
Definition moved_permanently : Z := 301.
Definition moved_temporarily : Z := 302.
Definition not_modified : Z := 304.
Definition bad_request : Z := 400.
Definition unauthorized : Z := 401.
Definition forbidden : Z := 403.
Definition not_found : Z := 404.
Definition internal_server_error : Z := 500.
Definition not_implemented : Z := 501.
Definition bad_gateway : Z := 502.
Definition service_unavailable : Z := 503.
End status_type.

Record response : Type := mk_response {
  status : Z;
  res_headers : list name_value;
  res_cookies : list name_value;
  res_content : bytes;
  content_extension : bytes;
}.

(** A value-initialised response; [status] is whatever the memory held. *)
Definition response_init (status0 : Z) : response := mk_response status0 [] [] [] [].

Definition set_status (r : response) (x : Z) : response :=
  mk_response x r.(res_headers) r.(res_cookies) r.(res_content) r.(content_extension).
Definition set_res_headers (r : response) (x : list name_value) : response :=
  mk_response r.(status) x r.(res_cookies) r.(res_content) r.(content_extension).
Definition set_res_cookies (r : response) (x : list name_value) : response :=
  mk_response r.(status) r.(res_headers) x r.(res_content) r.(content_extension).
Definition set_res_content (r : response) (x : bytes) : response :=
  mk_response r.(status) r.(res_headers) r.(res_cookies) x r.(content_extension).
Definition set_content_extension (r : response) (x : bytes) : response :=
  mk_response r.(status) r.(res_headers) r.(res_cookies) r.(res_content) x.

(** [res.content.append(s)], [res.headers.push_back(name_value(n, v))] *)
Definition append_content (r : response) (s : bytes) : response :=
  set_res_content r (r.(res_content) ++ s).
Definition push_header (r : response) (n v : bytes) : response :=
  set_res_headers r (r.(res_headers) ++ [mk_name_value n v]).

(** ** Cookies and redirection *)

Definition set_cookie (r : response) (n v : bytes) : response :=
  match nv_lookup n r.(res_cookies) with
  | None => set_res_cookies r (r.(res_cookies) ++ [mk_name_value n v])
  | Some _ => set_res_cookies r (nv_assign n v r.(res_cookies))
  end.

Definition delete_cookie (r : response) (n : bytes) : response := set_cookie r n [].

Definition redirect_to (r : response) (url : bytes) : response :=
  let r := push_header r (str "Refresh") (str "0; url=" ++ url) in
  set_content_extension (set_res_content r (str " ")) (str "html").

(** ** Status lines *)

Definition line_end : bytes := [Byte.x0d; Byte.x0a].

Definition status_line (s : Z) : bytes :=
  match s with
  | 200 => str "HTTP/1.1 200 OK" ++ line_end
  | 201 => str "HTTP/1.1 201 Created" ++ line_end
  | 202 => str "HTTP/1.1 202 Accepted" ++ line_end
  | 204 => str "HTTP/1.1 204 No Content" ++ line_end
  | 300 => str "HTTP/1.1 300 Multiple Choices" ++ line_end
  | 301 => str "HTTP/1.1 301 Moved Permanently" ++ line_end
  | 302 => str "HTTP/1.1 302 Moved Temporarily" ++ line_end
  | 304 => str "HTTP/1.1 304 Not Modified" ++ line_end
  | 400 => str "HTTP/1.1 400 Bad Request" ++ line_end
  | 401 => str "HTTP/1.1 401 Unauthorized" ++ line_end
  | 403 => str "HTTP/1.1 403 Forbidden" ++ line_end
  | 404 => str "HTTP/1.1 404 Not Found" ++ line_end
  | 500 => str "HTTP/1.1 500 Internal Server Error" ++ line_end
  | 501 => str "HTTP/1.1 501 Not Implemented" ++ line_end
  | 502 => str "HTTP/1.1 502 Bad Gateway" ++ line_end
  | 503 => str "HTTP/1.1 503 Service Unavailable" ++ line_end
  | _ => str "HTTP/1.1 500 Internal Server Error" ++ line_end
  end.

Definition name_value_separator : bytes := str ": ".

(** [to_buffers] *)
Definition header_buffers (h : name_value) : list bytes :=
  [h.(name); name_value_separator; h.(value); line_end].

Definition to_buffers (r : response) : list bytes :=
  [status_line r.(status)] ++ concat (map header_buffers r.(res_headers)) ++ [line_end; r.(res_content)].

(** ** Stock responses *)

Definition page (title body : bytes) : bytes :=
  str "<html>" ++ str "<head><title>" ++ title ++ str "</title></head>" ++
  str "<body><h1>" ++ body ++ str "</h1></body>" ++ str "</html>".

Definition static_content (s : Z) : bytes :=
  match s with
  | 200 => []
  | 201 => page (str "Created") (str "201 Created")
  | 202 => page (str "Accepted") (str "202 Accepted")
  | 204 => page (str "No Content") (str "204 Content")
  | 300 => page (str "Multiple Choices") (str "300 Multiple Choices")
  | 301 => page (str "Moved Permanently") (str "301 Moved Permanently")
  | 302 => page (str "Moved Temporarily") (str "302 Moved Temporarily")
  | 304 => page (str "Not Modified") (str "304 Not Modified")
  | 400 => page (str "Bad Request") (str "400 Bad Request")
  | 401 => page (str "Unauthorized") (str "401 Unauthorized")
  | 403 => page (str "Forbidden") (str "403 Forbidden")
  | 404 => page (str "Not Found") (str "404 Not Found")
  | 500 => page (str "Internal Server Error") (str "500 Internal Server Error")
  | 501 => page (str "Not Implemented") (str "501 Not Implemented")
  | 502 => page (str "Bad Gateway") (str "502 Bad Gateway")
  | 503 => page (str "Service Unavailable") (str "503 Service Unavailable")
  | _ => page (str "Internal Server Error") (str "500 Internal Server Error")
  end.

(** [response::static_response]: [headers.resize(3)] then the three fields. *)
Definition static_response (s : Z) : response :=
  let content := static_content s in
  mk_response s
    [mk_name_value (str "Content-Length") (to_string (size content));
     mk_name_value (str "Content-Type") (str "text/html");
     mk_name_value (str "Keep-Alive") (str "timeout=0, max=0")]
    [] content [].

(** ** MIME types *)

Definition mappings : list (bytes * bytes) :=
  [(str "css", str "text/css"); (str "gif", str "image/gif"); (str "htm", str "text/html");
   (str "html", str "text/html"); (str "ico", str "image/x-icon"); (str "jpg", str "image/jpeg");
   (str "js", str "application/javascript"); (str "json", str "application/json");
   (str "png", str "image/png"); (str "txt", str "text/plain"); (str "xhtml", str "text/html");
   (str "xml", str "application/xml")].

Fixpoint find_mapping (l : list (bytes * bytes)) (extension : bytes) : bytes :=
  match l with
  | [] => str "application/octet-stream"
  | (e, t) :: l' => if e =s extension then t else find_mapping l' extension
  end.

Definition extension_to_type (extension : bytes) : bytes :=
  if is_empty extension then str "application/octet-stream"
  else find_mapping mappings extension.

Definition compressible : list bytes :=
  [str "css"; str "htm"; str "html"; str "js"; str "json"; str "txt"; str "xhtml"; str "xml"].

Definition is_compressible (extension : bytes) : bool :=
  existsb (fun e => e =s extension) compressible.

(** ** A reader of responses

    What a client sees: the status line, the fields up to the empty line, and
    the rest. *)

Definition read_line (s : bytes) : option (bytes * bytes) :=
  i ← find_from line_end s; Some (take i s, drop (i + 2) s).

Definition read_field (line : bytes) : option name_value :=
  i ← find_from name_value_separator line; Some (mk_name_value (take i line) (drop (i + 2) line)).

Fixpoint read_fields (fuel : nat) (s : bytes) : option (list name_value * bytes) :=
  match fuel with
  | O => None
  | S fuel' =>
      '(line, rest) ← read_line s;
      if is_empty line then Some ([], rest)
      else
        h ← read_field line;
        '(l, body) ← read_fields fuel' rest;
        Some (h :: l, body)
  end.

Definition read_response (s : bytes) : option (bytes * list name_value * bytes) :=
  '(line, rest) ← read_line s;
  '(l, body) ← read_fields (length s) rest;
  Some (line, l, body).

(** ** Lemmas *)

(** A field that cannot be taken for another one: no separator in its name
    and no line end in either part. *)
Record wf_field (h : name_value) : Prop := {
  wf_field_name : (":"%byte ∉ h.(name)) /\ (Byte.x0d ∉ h.(name));
  wf_field_value : Byte.x0d ∉ h.(value);
}.

Lemma take_drop_after (l p t : bytes) n :
  length p = n -> take (length l) (l ++ p ++ t) = l /\ drop (length l + n) (l ++ p ++ t) = t.
Proof.
  intros <-. split; [apply take_app_length|].
  by rewrite app_assoc, <- length_app, drop_app_length.
Qed.

Lemma read_line_render l t : Byte.x0d ∉ l -> read_line (l ++ line_end ++ t) = Some (l, t).
Proof.
  intros Hl. unfold read_line. rewrite find_from_after by by apply skips_avoid. cbn [mbind option_bind].
  by destruct (take_drop_after l line_end t 2 eq_refl) as [-> ->].
Qed.

Lemma read_field_render h : wf_field h -> read_field (h.(name) ++ name_value_separator ++ h.(value)) = Some h.
Proof.
  intros [[Hn _] _]. unfold read_field. rewrite find_from_after by by apply skips_avoid.
  cbn [mbind option_bind].
  destruct (take_drop_after h.(name) name_value_separator h.(value) 2 eq_refl) as [-> ->]. by destruct h.
Qed.

Lemma header_bytes_no_cr h : wf_field h -> Byte.x0d ∉ h.(name) ++ name_value_separator ++ h.(value).
Proof.
  intros [[_ Hn] Hv]. rewrite !elem_of_app. intros [|[Hin|]]; try done.
  by apply mem_true in Hin.
Qed.

Lemma read_fields_render l body fuel :
  Forall wf_field l -> (length l < fuel)%nat ->
  read_fields fuel (concat (concat (map header_buffers l)) ++ line_end ++ body) = Some (l, body).
Proof.
  intros Hl. revert fuel; induction Hl as [|h l Hh Hl IH]; intros [|fuel] Hf; simpl in Hf; try lia.
  - cbn [read_fields map concat app].
    pose proof (read_line_render [] body (not_elem_of_nil _)) as E. cbn [app] in E. by rewrite E.
  - cbn [read_fields map concat header_buffers app].
    replace ((h.(name) ++ name_value_separator ++ h.(value) ++ line_end ++
        concat (concat (map header_buffers l))) ++ line_end ++ body)
      with ((h.(name) ++ name_value_separator ++ h.(value)) ++ line_end ++
        concat (concat (map header_buffers l)) ++ line_end ++ body) by (by rewrite <- !app_assoc).
    rewrite read_line_render by by apply header_bytes_no_cr. cbn [mbind option_bind].
    assert (is_empty (h.(name) ++ name_value_separator ++ h.(value)) = false) as ->
      by by destruct (h.(name)).
    rewrite read_field_render by done. cbn [mbind option_bind]. rewrite IH by lia. done.
Qed.

Lemma status_line_shape s : exists l, status_line s = l ++ line_end /\ Byte.x0d ∉ l.
Proof.
  unfold status_line.
  repeat case_match; eexists; (split; [reflexivity|]); apply mem_false; vm_compute; reflexivity.
Qed.

Lemma concat_header_buffers_length l : (length l <= length (concat (concat (map header_buffers l))))%nat.
Proof.
  induction l as [|h l IH]; [done|]. cbn [map concat header_buffers app]. rewrite !length_app. simpl. lia.
Qed.

Lemma static_content_size s : size (static_content s) <= 1000.
Proof. apply Z.leb_le. unfold static_content. repeat case_match; reflexivity. Qed.

(** [set_cookie] on the list of cookies. *)
Lemma set_cookie_lookup r n v m :
  nv_lookup m (set_cookie r n v).(res_cookies) = if m =s n then Some v else nv_lookup m r.(res_cookies).
Proof.
  unfold set_cookie. destruct (nv_lookup n r.(res_cookies)) eqn:E; cbn [res_cookies set_res_cookies].
  - rewrite nv_lookup_assign, E. by destruct (m =s n).
  - rewrite nv_lookup_app. cbn [nv_lookup name value]. destruct (m =s n) eqn:F.
    + apply eqs_true in F as ->. by rewrite E, eqs_refl.
    + apply eqs_false in F. rewrite (proj2 (eqs_false n m)) by done. by destruct (nv_lookup m _).
Qed.

Lemma set_cookie_names r n v :
  map name (set_cookie r n v).(res_cookies) =
  map name r.(res_cookies) ++ (if bool_decide (n ∈ map name r.(res_cookies)) then [] else [n]).
Proof.
  unfold set_cookie. destruct (nv_lookup n r.(res_cookies)) eqn:E; cbn [res_cookies set_res_cookies].
  - rewrite bool_decide_true.
    + rewrite app_nil_r. clear E. induction (res_cookies r) as [|c k IH]; [done|].
      cbn [nv_assign]. destruct (name c =s n); cbn [map name]; [done | by rewrite IH].
    + destruct (decide (n ∈ map name (res_cookies r))) as [|Hn]; [done|].
      apply nv_lookup_None in Hn. congruence.
  - apply nv_lookup_None in E. rewrite bool_decide_false by done. by rewrite map_app.
Qed.

(** ** Properties *)

(** What [to_buffers] puts on the wire is read back as the response: the
    status line, the same fields in order and the same content, whatever bytes
    the content has, provided no field has a line end in it. *)
Theorem to_buffers_read r :
  Forall wf_field r.(res_headers) ->
  exists line, status_line r.(status) = line ++ line_end /\
    read_response (concat (to_buffers r)) = Some (line, r.(res_headers), r.(res_content)).
Proof.
  intros Hw. destruct (status_line_shape r.(status)) as (line & E & Hl). exists line. split; [done|].
  unfold to_buffers. rewrite !concat_app, E. cbn [concat]. rewrite !app_nil_r.
  unfold read_response.
  rewrite <- app_assoc, read_line_render by done. cbn [mbind option_bind].
  rewrite read_fields_render; [done | done |].
  pose proof (concat_header_buffers_length (res_headers r)).
  rewrite !length_app. simpl. lia.
Qed.

Lemma to_buffers_read_witness :
  exists line, status_line 404 = line ++ line_end /\
    read_response (concat (to_buffers (static_response 404))) =
    Some (line, (static_response 404).(res_headers), static_content 404).
Proof.
  apply (to_buffers_read (static_response 404)).
  repeat (apply Forall_cons; split; [split; [split|]; by apply mem_false|]). apply Forall_nil_2.
Defined.

(** A stock response declares the length of its page, and its fields are
    safe to send, for every status value. *)
Theorem static_response_length s :
  let r := static_response s in
  nv_lookup (str "Content-Length") r.(res_headers) = Some (to_string (size r.(res_content))) /\
  strtol (to_string (size r.(res_content))) = size r.(res_content) /\
  Forall wf_field r.(res_headers).
Proof.
  cbn zeta. split; [done|]. pose proof (static_content_size s) as Hs.
  change (static_response s).(res_content) with (static_content s).
  split; [apply strtol_to_string; unfold LONG_MAX; size_lia|].
  repeat (apply Forall_cons; split); try apply Forall_nil_2;
    (split; [split|]); try (by apply mem_false).
  apply to_string_avoids; [size_lia | done].
Qed.

(** [set_cookie] sets one cookie and leaves the others: a later lookup sees
    the new value, and no name is ever listed twice. *)
Theorem set_cookie_spec r n v :
  (forall m, nv_lookup m (set_cookie r n v).(res_cookies) =
    if m =s n then Some v else nv_lookup m r.(res_cookies)) /\
  (NoDup (map name r.(res_cookies)) -> NoDup (map name (set_cookie r n v).(res_cookies))).
Proof.
  split; [intros m; apply set_cookie_lookup|]. intros Hd. rewrite set_cookie_names.
  destruct (bool_decide _) eqn:E; [by rewrite app_nil_r|].
  apply bool_decide_eq_false in E. apply NoDup_app. split; [done|]. split; [|apply NoDup_singleton].
  intros x Hx Hin. apply list_elem_of_singleton in Hin. by subst.
Qed.

Lemma set_cookie_spec_witness :
  NoDup (map name (set_cookie (set_cookie (response_init 0) (str "a") (str "1")) (str "a") (str "2")).(res_cookies)).
Proof. apply (set_cookie_spec (set_cookie (response_init 0) (str "a") (str "1"))). apply NoDup_singleton. Defined.
