(* ===== verification/Config.v ===== *)
(** * [src/src/config.hpp], [src/src/config.cpp], [src/src/error.hpp]: the
    configuration file and the error messages.

    The file system and boost's JSON reader and [lexical_cast<bool>] are
    parameters. [init] returns the C++ [bool] with the object's new state; an
    exception is rethrown by its [catch (...)] block. *)
From S2P Require Import Prelude CxxString CxxTime Request.

(** [boost::property_tree::ptree]: the data of a node and its children. *)
Inductive ptree : Type := PTree (data : bytes) (children : list (bytes * ptree)).

Definition pt_data (t : ptree) : bytes := let '(PTree d _) := t in d.
Definition pt_children (t : ptree) : list (bytes * ptree) := let '(PTree _ l) := t in l.

(** [enum error_type] *)
Inductive error_type : Type :=
  | err_none | err_unknown | err_unauthorized
  | err_username_required | err_passwd_required | err_username_not_found | err_auth_failed
  | err_platformtype_required | err_platformid_required | err_passwds_not_identical
  | err_username_not_available | err_users_insert_failed
  | err_title_required | err_content_required | err_forum_insert_failed | err_end.

Definition error_code (e : error_type) : Z :=
  match e with
  | err_none => 0 | err_unknown => 1 | err_unauthorized => 1001
  | err_username_required => 1101 | err_passwd_required => 1102
  | err_username_not_found => 1103 | err_auth_failed => 1104
  | err_platformtype_required => 1105 | err_platformid_required => 1106
  | err_passwds_not_identical => 1107 | err_username_not_available => 1108
  | err_users_insert_failed => 1109 | err_title_required => 1201
  | err_content_required => 1202 | err_forum_insert_failed => 1203 | err_end => 1204
  end.

Abbreviation section := (gmap bytes bytes).

Record config : Type := mk_config {
  log_level_ : bytes; log_rotation_ : bytes;
  access_granted_ : list bytes; access_denied_ : list bytes;
  encrypt_key_ : bytes; sess_cookie_ : bytes;
  expiry_sec_ : double; update_sec_ : double;
  validate_ip_ : bool; validate_ua_ : bool;
  address_ : bytes; port_ : bytes; doc_root_ : bytes;
  num_threads_ : Z; compress_ : bool;
  ssl_ : bool; ssl_crt_ : bytes; ssl_key_ : bytes;
  cfg_ : gmap bytes section;
  locale_ : bytes;
  err_ : gmap Z bytes;
}.

(** [config::config()] *)
Definition config_init : config :=
  mk_config [] [] [] [] [] [] (S754_zero false) (S754_zero false) false false [] [] [] 0 false false [] [] ∅ [] ∅.

Definition set_log_level_ (c : config) (x : bytes) : config :=
  mk_config x c.(log_rotation_) c.(access_granted_) c.(access_denied_) c.(encrypt_key_) c.(sess_cookie_) c.(expiry_sec_) c.(update_sec_) c.(validate_ip_) c.(validate_ua_) c.(address_) c.(port_) c.(doc_root_) c.(num_threads_) c.(compress_) c.(ssl_) c.(ssl_crt_) c.(ssl_key_) c.(cfg_) c.(locale_) c.(err_).
Definition set_log_rotation_ (c : config) (x : bytes) : config :=
  mk_config c.(log_level_) x c.(access_granted_) c.(access_denied_) c.(encrypt_key_) c.(sess_cookie_) c.(expiry_sec_) c.(update_sec_) c.(validate_ip_) c.(validate_ua_) c.(address_) c.(port_) c.(doc_root_) c.(num_threads_) c.(compress_) c.(ssl_) c.(ssl_crt_) c.(ssl_key_) c.(cfg_) c.(locale_) c.(err_).
Definition set_access_granted_ (c : config) (x : list bytes) : config :=
  mk_config c.(log_level_) c.(log_rotation_) x c.(access_denied_) c.(encrypt_key_) c.(sess_cookie_) c.(expiry_sec_) c.(update_sec_) c.(validate_ip_) c.(validate_ua_) c.(address_) c.(port_) c.(doc_root_) c.(num_threads_) c.(compress_) c.(ssl_) c.(ssl_crt_) c.(ssl_key_) c.(cfg_) c.(locale_) c.(err_).
Definition set_access_denied_ (c : config) (x : list bytes) : config :=
  mk_config c.(log_level_) c.(log_rotation_) c.(access_granted_) x c.(encrypt_key_) c.(sess_cookie_) c.(expiry_sec_) c.(update_sec_) c.(validate_ip_) c.(validate_ua_) c.(address_) c.(port_) c.(doc_root_) c.(num_threads_) c.(compress_) c.(ssl_) c.(ssl_crt_) c.(ssl_key_) c.(cfg_) c.(locale_) c.(err_).
Definition set_encrypt_key_ (c : config) (x : bytes) : config :=
  mk_config c.(log_level_) c.(log_rotation_) c.(access_granted_) c.(access_denied_) x c.(sess_cookie_) c.(expiry_sec_) c.(update_sec_) c.(validate_ip_) c.(validate_ua_) c.(address_) c.(port_) c.(doc_root_) c.(num_threads_) c.(compress_) c.(ssl_) c.(ssl_crt_) c.(ssl_key_) c.(cfg_) c.(locale_) c.(err_).
Definition set_sess_cookie_ (c : config) (x : bytes) : config :=
  mk_config c.(log_level_) c.(log_rotation_) c.(access_granted_) c.(access_denied_) c.(encrypt_key_) x c.(expiry_sec_) c.(update_sec_) c.(validate_ip_) c.(validate_ua_) c.(address_) c.(port_) c.(doc_root_) c.(num_threads_) c.(compress_) c.(ssl_) c.(ssl_crt_) c.(ssl_key_) c.(cfg_) c.(locale_) c.(err_).
Definition set_expiry_sec_ (c : config) (x : double) : config :=
  mk_config c.(log_level_) c.(log_rotation_) c.(access_granted_) c.(access_denied_) c.(encrypt_key_) c.(sess_cookie_) x c.(update_sec_) c.(validate_ip_) c.(validate_ua_) c.(address_) c.(port_) c.(doc_root_) c.(num_threads_) c.(compress_) c.(ssl_) c.(ssl_crt_) c.(ssl_key_) c.(cfg_) c.(locale_) c.(err_).
Definition set_update_sec_ (c : config) (x : double) : config :=
  mk_config c.(log_level_) c.(log_rotation_) c.(access_granted_) c.(access_denied_) c.(encrypt_key_) c.(sess_cookie_) c.(expiry_sec_) x c.(validate_ip_) c.(validate_ua_) c.(address_) c.(port_) c.(doc_root_) c.(num_threads_) c.(compress_) c.(ssl_) c.(ssl_crt_) c.(ssl_key_) c.(cfg_) c.(locale_) c.(err_).
Definition set_validate_ip_ (c : config) (x : bool) : config :=
  mk_config c.(log_level_) c.(log_rotation_) c.(access_granted_) c.(access_denied_) c.(encrypt_key_) c.(sess_cookie_) c.(expiry_sec_) c.(update_sec_) x c.(validate_ua_) c.(address_) c.(port_) c.(doc_root_) c.(num_threads_) c.(compress_) c.(ssl_) c.(ssl_crt_) c.(ssl_key_) c.(cfg_) c.(locale_) c.(err_).
Definition set_validate_ua_ (c : config) (x : bool) : config :=
  mk_config c.(log_level_) c.(log_rotation_) c.(access_granted_) c.(access_denied_) c.(encrypt_key_) c.(sess_cookie_) c.(expiry_sec_) c.(update_sec_) c.(validate_ip_) x c.(address_) c.(port_) c.(doc_root_) c.(num_threads_) c.(compress_) c.(ssl_) c.(ssl_crt_) c.(ssl_key_) c.(cfg_) c.(locale_) c.(err_).
Definition set_address_ (c : config) (x : bytes) : config :=
  mk_config c.(log_level_) c.(log_rotation_) c.(access_granted_) c.(access_denied_) c.(encrypt_key_) c.(sess_cookie_) c.(expiry_sec_) c.(update_sec_) c.(validate_ip_) c.(validate_ua_) x c.(port_) c.(doc_root_) c.(num_threads_) c.(compress_) c.(ssl_) c.(ssl_crt_) c.(ssl_key_) c.(cfg_) c.(locale_) c.(err_).
Definition set_port_ (c : config) (x : bytes) : config :=
  mk_config c.(log_level_) c.(log_rotation_) c.(access_granted_) c.(access_denied_) c.(encrypt_key_) c.(sess_cookie_) c.(expiry_sec_) c.(update_sec_) c.(validate_ip_) c.(validate_ua_) c.(address_) x c.(doc_root_) c.(num_threads_) c.(compress_) c.(ssl_) c.(ssl_crt_) c.(ssl_key_) c.(cfg_) c.(locale_) c.(err_).
Definition set_doc_root_ (c : config) (x : bytes) : config :=
  mk_config c.(log_level_) c.(log_rotation_) c.(access_granted_) c.(access_denied_) c.(encrypt_key_) c.(sess_cookie_) c.(expiry_sec_) c.(update_sec_) c.(validate_ip_) c.(validate_ua_) c.(address_) c.(port_) x c.(num_threads_) c.(compress_) c.(ssl_) c.(ssl_crt_) c.(ssl_key_) c.(cfg_) c.(locale_) c.(err_).
Definition set_num_threads_ (c : config) (x : Z) : config :=
  mk_config c.(log_level_) c.(log_rotation_) c.(access_granted_) c.(access_denied_) c.(encrypt_key_) c.(sess_cookie_) c.(expiry_sec_) c.(update_sec_) c.(validate_ip_) c.(validate_ua_) c.(address_) c.(port_) c.(doc_root_) x c.(compress_) c.(ssl_) c.(ssl_crt_) c.(ssl_key_) c.(cfg_) c.(locale_) c.(err_).
Definition set_compress_ (c : config) (x : bool) : config :=
  mk_config c.(log_level_) c.(log_rotation_) c.(access_granted_) c.(access_denied_) c.(encrypt_key_) c.(sess_cookie_) c.(expiry_sec_) c.(update_sec_) c.(validate_ip_) c.(validate_ua_) c.(address_) c.(port_) c.(doc_root_) c.(num_threads_) x c.(ssl_) c.(ssl_crt_) c.(ssl_key_) c.(cfg_) c.(locale_) c.(err_).
Definition set_ssl_ (c : config) (x : bool) : config :=
  mk_config c.(log_level_) c.(log_rotation_) c.(access_granted_) c.(access_denied_) c.(encrypt_key_) c.(sess_cookie_) c.(expiry_sec_) c.(update_sec_) c.(validate_ip_) c.(validate_ua_) c.(address_) c.(port_) c.(doc_root_) c.(num_threads_) c.(compress_) x c.(ssl_crt_) c.(ssl_key_) c.(cfg_) c.(locale_) c.(err_).
Definition set_ssl_crt_ (c : config) (x : bytes) : config :=
  mk_config c.(log_level_) c.(log_rotation_) c.(access_granted_) c.(access_denied_) c.(encrypt_key_) c.(sess_cookie_) c.(expiry_sec_) c.(update_sec_) c.(validate_ip_) c.(validate_ua_) c.(address_) c.(port_) c.(doc_root_) c.(num_threads_) c.(compress_) c.(ssl_) x c.(ssl_key_) c.(cfg_) c.(locale_) c.(err_).
Definition set_ssl_key_ (c : config) (x : bytes) : config :=
  mk_config c.(log_level_) c.(log_rotation_) c.(access_granted_) c.(access_denied_) c.(encrypt_key_) c.(sess_cookie_) c.(expiry_sec_) c.(update_sec_) c.(validate_ip_) c.(validate_ua_) c.(address_) c.(port_) c.(doc_root_) c.(num_threads_) c.(compress_) c.(ssl_) c.(ssl_crt_) x c.(cfg_) c.(locale_) c.(err_).
Definition set_cfg_ (c : config) (x : gmap bytes section) : config :=
  mk_config c.(log_level_) c.(log_rotation_) c.(access_granted_) c.(access_denied_) c.(encrypt_key_) c.(sess_cookie_) c.(expiry_sec_) c.(update_sec_) c.(validate_ip_) c.(validate_ua_) c.(address_) c.(port_) c.(doc_root_) c.(num_threads_) c.(compress_) c.(ssl_) c.(ssl_crt_) c.(ssl_key_) x c.(locale_) c.(err_).
Definition set_locale_ (c : config) (x : bytes) : config :=
  mk_config c.(log_level_) c.(log_rotation_) c.(access_granted_) c.(access_denied_) c.(encrypt_key_) c.(sess_cookie_) c.(expiry_sec_) c.(update_sec_) c.(validate_ip_) c.(validate_ua_) c.(address_) c.(port_) c.(doc_root_) c.(num_threads_) c.(compress_) c.(ssl_) c.(ssl_crt_) c.(ssl_key_) c.(cfg_) x c.(err_).
Definition set_err_ (c : config) (x : gmap Z bytes) : config :=
  mk_config c.(log_level_) c.(log_rotation_) c.(access_granted_) c.(access_denied_) c.(encrypt_key_) c.(sess_cookie_) c.(expiry_sec_) c.(update_sec_) c.(validate_ip_) c.(validate_ua_) c.(address_) c.(port_) c.(doc_root_) c.(num_threads_) c.(compress_) c.(ssl_) c.(ssl_crt_) c.(ssl_key_) c.(cfg_) c.(locale_) x.

(** ** [init] *)

(** [for (auto& item : section.second) c.insert(...)]: the first of two equal
    keys stays. *)
Fixpoint read_section (l : list (bytes * ptree)) (c : section) : section :=
  match l with
  | [] => c
  | (k, t) :: l' => read_section l' (match c !! k with Some _ => c | None => <[k := pt_data t]> c end)
  end.

Fixpoint read_sections (l : list (bytes * ptree)) (c : gmap bytes section) : gmap bytes section :=
  match l with
  | [] => c
  | (k, t) :: l' =>
      read_sections l' (match c !! k with Some _ => c | None => <[k := read_section (pt_children t) ∅]> c end)
  end.

(** [for (auto& key : keys)]: a missing element returns [false]. *)
Fixpoint for_keys (keys : list bytes) (s : section) (assign : bytes -> bytes -> config -> res config)
    (c : config) : res (bool * config) :=
  match keys with
  | [] => Ok (true, c)
  | key :: keys' =>
      match s !! key with
      | None => Ok (false, c)
      | Some v => let* c := assign key v c in for_keys keys' s assign c
      end
  end.

Definition assign_log (key v : bytes) (c : config) : res config :=
  if key =s str "level" then Ok (set_log_level_ c v)
  else if key =s str "rotation" then Ok (set_log_rotation_ c v)
  else Ok c.

Definition assign_error (key v : bytes) (c : config) : res config :=
  if key =s str "locale" then Ok (set_locale_ c v) else Ok c.

(** [doc_root_ = v; if (doc_root_[doc_root_.size() - 1] != '/') doc_root_ += '/';] *)
Definition assign_doc_root (v : bytes) (c : config) : res config :=
  let* last := str_index v (sz_sub (size v) 1) in
  Ok (set_doc_root_ c (if negb (last =c "/"%byte) then v ++ str "/" else v)).

Definition log_keys : list bytes := [str "level"; str "rotation"].
Definition error_keys : list bytes := [str "locale"].
Definition session_keys : list bytes :=
  [str "encrypt_key"; str "sess_cookie"; str "expiry_sec"; str "update_sec"; str "validate_ip"; str "validate_ua"].
Definition server_keys : list bytes :=
  [str "port"; str "doc_root"; str "num_threads"; str "compress"; str "ssl"; str "ssl_crt"; str "ssl_key"].

(** The values of a section, in the order of the map's iteration. *)
Definition section_values (s : section) : list bytes := map snd (map_to_list s).

(** The codes of the error file; [false] for a code listed twice. *)
Fixpoint read_errors (l : list (bytes * ptree)) (c : config) : res (bool * config) :=
  match l with
  | [] => Ok (true, c)
  | (k, t) :: l' =>
      let err_code := wrap32 (strtol (c_str k)) in
      match c.(err_) !! err_code with
      | Some _ => Ok (false, c)
      | None => read_errors l' (set_err_ c (<[err_code := pt_data t]> c.(err_)))
      end
  end.

Section Init.
(** [exists file], the tree [read_json] gives for a file or [None] when it
    throws, and [lexical_cast<bool>] or [None] when it throws. *)
Context (file_exists : bytes -> bool) (read_json : bytes -> option ptree).
Context (lexical_cast_bool : bytes -> option bool).

Definition read_json_or_throw (file : bytes) : res ptree :=
  match read_json file with Some t => Ok t | None => Throw json_parser_error end.

Definition cast_bool (v : bytes) : res bool :=
  match lexical_cast_bool v with Some b => Ok b | None => Throw bad_lexical_cast end.

Definition assign_session (key v : bytes) (c : config) : res config :=
  if key =s str "encrypt_key" then Ok (set_encrypt_key_ c v)
  else if key =s str "sess_cookie" then Ok (set_sess_cookie_ c v)
  else if key =s str "expiry_sec" then Ok (set_expiry_sec_ c (strtod (c_str v)))
  else if key =s str "update_sec" then Ok (set_update_sec_ c (strtod (c_str v)))
  else if key =s str "validate_ip" then let* b := cast_bool v in Ok (set_validate_ip_ c b)
  else if key =s str "validate_ua" then let* b := cast_bool v in Ok (set_validate_ua_ c b)
  else Ok c.

Definition assign_server (key v : bytes) (c : config) : res config :=
  if key =s str "port" then Ok (set_port_ c v)
  else if key =s str "doc_root" then assign_doc_root v c
  else if key =s str "num_threads" then Ok (set_num_threads_ c (strtoul (c_str v)))
  else if key =s str "compress" then let* b := cast_bool v in Ok (set_compress_ c b)
  else if key =s str "ssl" then let* b := cast_bool v in Ok (set_ssl_ c b)
  else if key =s str "ssl_crt" then Ok (set_ssl_crt_ c v)
  else if key =s str "ssl_key" then Ok (set_ssl_key_ c v)
  else Ok c.

(** A block of [init] between [//] comments: find the section, run [k] on it,
    go on with [next] when [k] did not return. *)
Definition in_section (s : bytes) (k : section -> config -> res (bool * config))
    (next : config -> res (bool * config)) (c : config) : res (bool * config) :=
  match c.(cfg_) !! s with
  | None => Ok (false, c)
  | Some sec =>
      let* (b, c) := k sec c in
      if b : bool then next c else Ok (false, c)
  end.

Definition push_granted (s : section) (c : config) : res (bool * config) :=
  Ok (true, set_access_granted_ c (c.(access_granted_) ++ section_values s)).
Definition push_denied (s : section) (c : config) : res (bool * config) :=
  Ok (true, set_access_denied_ c (c.(access_denied_) ++ section_values s)).

Definition init_errors (c : config) : res (bool * config) :=
  let err_file := str "../err/" ++ c.(locale_) ++ str ".json" in
  if negb (file_exists err_file) then Ok (false, c)
  else
    let* t := read_json_or_throw err_file in
    read_errors (pt_children t) c.

Definition init (c : config) (addr file : bytes) : res (bool * config) :=
  let c := set_address_ c addr in
  if negb (file_exists file) then Ok (false, c)
  else
    let* t := read_json_or_throw file in
    let c := set_cfg_ c (read_sections (pt_children t) c.(cfg_)) in
    in_section (str "log") (fun s => for_keys log_keys s assign_log)
    (in_section (str "error") (fun s => for_keys error_keys s assign_error)
    (in_section (str "access_granted") push_granted
    (in_section (str "access_denied") push_denied
    (in_section (str "session") (fun s => for_keys session_keys s assign_session)
    (in_section (str "server") (fun s => for_keys server_keys s assign_server)
      init_errors))))) c.
End Init.

(** ** [get] and [err_msg] *)

Definition config_get (c : config) (item : bytes) : res section :=
  match c.(cfg_) !! item with
  | None => Throw (runtime_error (str "config::get failed"))
  | Some s => Ok s
  end.

(** [return err_[err_code];]: a missing code is inserted with no text. *)
Definition err_msg (c : config) (err_code : error_type) : config * bytes :=
  match c.(err_) !! error_code err_code with
  | Some m => (c, m)
  | None => (set_err_ c (<[error_code err_code := []]> c.(err_)), [])
  end.

(** ** Lemmas *)

(** Evaluate the comparisons of literals. *)
Ltac eval_keys :=
  repeat match goal with
  | |- context [str ?a =s str ?b] =>
      let v := eval vm_compute in (str a =s str b) in
      let E := fresh in
      assert ((str a =s str b) = v) as E by (vm_compute; reflexivity); rewrite E; clear E
  end; cbn iota.

Definition with_slash (d : bytes) : bytes :=
  if bool_decide (last d = Some "/"%byte) then d else d ++ str "/".

Lemma with_slash_last d : last (with_slash d) = Some "/"%byte.
Proof. unfold with_slash. case_bool_decide; [done|]. change (str "/") with ["/"%byte]. by rewrite last_snoc. Qed.

Lemma str_index_last s x : str_index (s ++ [x]) (sz_sub (size (s ++ [x])) 1) = Ok x \/ npos <= size s.
Proof.
  destruct (decide (npos <= size s)); [by right|left].
  rewrite sz_sub_small by size_lia. unfold str_index.
  replace (size (s ++ [x]) - 1) with (size s) by size_lia.
  destruct (Z.leb_spec 0 (size s)); [|size_lia]. destruct (Z.ltb_spec (size s) (size (s ++ [x]))); [|size_lia].
  cbn [andb]. unfold size. rewrite Nat2Z.id. by rewrite list_lookup_middle.
Qed.

Lemma assign_doc_root_spec v c :
  size v < npos ->
  assign_doc_root v c =
    match v with [] => UB index_out_of_bounds | _ => Ok (set_doc_root_ c (with_slash v)) end.
Proof.
  intros Hsz. destruct v as [|x v]; [done|]. set (w := x :: v) in *.
  destruct (snoc_inv w) as (l & y & E); [done|]. unfold assign_doc_root, with_slash. rewrite E in *.
  destruct (str_index_last l y) as [->|]; [|size_lia]. cbn [mbind res_bind].
  rewrite last_snoc. destruct (y =c "/"%byte) eqn:F.
  - apply eqc_true in F as ->. rewrite bool_decide_true by done. done.
  - apply eqc_false in F. rewrite bool_decide_false by congruence. done.
Qed.

(** What [read_errors] adds to the table. *)
Definition code_of (k : bytes) : Z := wrap32 (strtol (c_str k)).

Lemma read_errors_true l c c' :
  read_errors l c = Ok (true, c') ->
  exists m, c' = set_err_ c m /\ NoDup (map (fun e => code_of e.1) l) /\
    (forall k t, (k, t) ∈ l -> c.(err_) !! code_of k = None /\ m !! code_of k = Some (pt_data t)) /\
    c.(err_) ⊆ m.
Proof.
  revert c; induction l as [|[k t] l IH]; intros c H; cbn [read_errors] in H.
  - res_inv. exists (err_ c'). split; [by destruct c'|]. split; [apply NoDup_nil_2|].
    split; [|done]. intros k t Hin. by apply elem_of_nil in Hin.
  - fold (code_of k) in H. destruct (err_ c !! code_of k) eqn:E; [res_inv|].
    apply IH in H as (m & -> & Hd & Hm & Hsub). cbn [err_ set_err_] in *. exists m.
    split; [done|]. split; [|split].
    + cbn [map fst]. apply NoDup_cons. split; [|done]. intros Hin.
      apply list_elem_of_fmap in Hin as ([k' t'] & Ek & Hin). apply Hm in Hin as [Hn _].
      cbn [fst] in Ek. rewrite Ek in Hn. by rewrite lookup_insert_eq in Hn.
    + intros k' t' Hin. apply elem_of_cons in Hin as [[= -> ->]|Hin].
      * split; [done|]. eapply lookup_weaken; [apply lookup_insert_eq | exact Hsub].
      * apply Hm in Hin as [Hn Hs]. split; [|done]. by apply lookup_insert_None in Hn as [? _].
    + etransitivity; [by apply insert_subseteq | done].
Qed.

Lemma read_errors_false l c c' :
  read_errors l c = Ok (false, c') ->
  NoDup (map (fun e => code_of e.1) l) -> exists k t, (k, t) ∈ l /\ is_Some (c.(err_) !! code_of k).
Proof.
  revert c; induction l as [|[k t] l IH]; intros c H Hd; cbn [read_errors] in H; [res_inv|].
  fold (code_of k) in H. cbn [map fst] in Hd. apply NoDup_cons in Hd as [Hk Hd].
  destruct (err_ c !! code_of k) eqn:E.
  - exists k, t. split; [apply list_elem_of_here | by eexists].
  - destruct (IH _ H Hd) as (k' & t' & Hin & Hs). cbn [err_ set_err_] in Hs.
    exists k', t'. split; [by apply list_elem_of_further|].
    rewrite lookup_insert_ne in Hs; [done|]. intros Ek. apply Hk. rewrite Ek.
    apply list_elem_of_fmap. by exists (k', t').
Qed.

(** [element c s k]: the text of the item [k] of the section [s]. *)
Definition element (secs : gmap bytes section) (s k : bytes) : option bytes := secs !! s ≫= (.!! k).

Section Outcome.
Context (file_exists : bytes -> bool) (read_json : bytes -> option ptree).
Context (lexical_cast_bool : bytes -> option bool).

(** What the object holds when [init] has returned [true]. *)
Record reads (c : config) : Prop := {
  rd_level : element c.(cfg_) (str "log") (str "level") = Some c.(log_level_);
  rd_rotation : element c.(cfg_) (str "log") (str "rotation") = Some c.(log_rotation_);
  rd_locale : element c.(cfg_) (str "error") (str "locale") = Some c.(locale_);
  rd_granted : exists s, c.(cfg_) !! str "access_granted" = Some s /\ c.(access_granted_) = section_values s;
  rd_denied : exists s, c.(cfg_) !! str "access_denied" = Some s /\ c.(access_denied_) = section_values s;
  rd_encrypt_key : element c.(cfg_) (str "session") (str "encrypt_key") = Some c.(encrypt_key_);
  rd_sess_cookie : element c.(cfg_) (str "session") (str "sess_cookie") = Some c.(sess_cookie_);
  rd_expiry : (fun v => strtod (c_str v)) <$> element c.(cfg_) (str "session") (str "expiry_sec") = Some c.(expiry_sec_);
  rd_update : (fun v => strtod (c_str v)) <$> element c.(cfg_) (str "session") (str "update_sec") = Some c.(update_sec_);
  rd_ip : element c.(cfg_) (str "session") (str "validate_ip") ≫= lexical_cast_bool = Some c.(validate_ip_);
  rd_ua : element c.(cfg_) (str "session") (str "validate_ua") ≫= lexical_cast_bool = Some c.(validate_ua_);
  rd_port : element c.(cfg_) (str "server") (str "port") = Some c.(port_);
  rd_doc_root : with_slash <$> element c.(cfg_) (str "server") (str "doc_root") = Some c.(doc_root_);
  rd_threads : (fun v => strtoul (c_str v)) <$> element c.(cfg_) (str "server") (str "num_threads") = Some c.(num_threads_);
  rd_compress : element c.(cfg_) (str "server") (str "compress") ≫= lexical_cast_bool = Some c.(compress_);
  rd_ssl : element c.(cfg_) (str "server") (str "ssl") ≫= lexical_cast_bool = Some c.(ssl_);
  rd_crt : element c.(cfg_) (str "server") (str "ssl_crt") = Some c.(ssl_crt_);
  rd_key : element c.(cfg_) (str "server") (str "ssl_key") = Some c.(ssl_key_);
  rd_errors : exists t, read_json (str "../err/" ++ c.(locale_) ++ str ".json") = Some t /\
    NoDup (map (fun e => code_of e.1) (pt_children t)) /\
    forall k d, (k, d) ∈ pt_children t -> c.(err_) !! code_of k = Some (pt_data d);
}.

Context (secs : gmap bytes section).
Context (doc_root_size : forall d, element secs (str "server") (str "doc_root") = Some d -> size d < npos).

Definition section_names : list bytes :=
  [str "log"; str "error"; str "access_granted"; str "access_denied"; str "session"; str "server"].

Definition required : list (bytes * bytes) :=
  map (pair (str "log")) log_keys ++ map (pair (str "error")) error_keys ++
  map (pair (str "session")) session_keys ++ map (pair (str "server")) server_keys.

Definition err_file (locale : bytes) : bytes := str "../err/" ++ locale ++ str ".json".

(** Why [init] returns [false] once the file is read. *)
Inductive missing : Prop :=
  | missing_section s : s ∈ section_names -> secs !! s = None -> missing
  | missing_element s k : (s, k) ∈ required -> element secs s k = None -> missing
  | missing_errors locale : element secs (str "error") (str "locale") = Some locale ->
      file_exists (err_file locale) = false -> missing
  | duplicate_code locale t : element secs (str "error") (str "locale") = Some locale ->
      read_json (err_file locale) = Some t -> ~ NoDup (map (fun e => code_of e.1) (pt_children t)) -> missing.

(** The outcomes of [init] on a file with the sections [secs]: [true] with
    [P], [false], an exception, or the one undefined access. *)
Definition outcome (P : config -> Prop) (m : res (bool * config)) : Prop :=
  match m with
  | Ok (true, c) => P c
  | Ok (false, _) => missing
  | Throw e => e = json_parser_error \/ e = bad_lexical_cast
  | UB u => u = index_out_of_bounds /\ element secs (str "server") (str "doc_root") = Some []
  end.

Lemma outcome_mono (P Q : config -> Prop) m : (forall c, P c -> Q c) -> outcome P m -> outcome Q m.
Proof using. destruct m as [[[] c]| |]; simpl; auto. Qed.

Lemma outcome_section P s k next c :
  c.(cfg_) = secs -> s ∈ section_names ->
  (forall sec, secs !! s = Some sec -> outcome (fun c' => outcome P (next c')) (k sec c)) ->
  outcome P (in_section s k next c).
Proof using.
  intros Hc Hs H. unfold in_section. rewrite Hc.
  destruct (secs !! s) as [sec|] eqn:E; [|by eapply missing_section].
  specialize (H sec eq_refl). by destruct (k sec c) as [[[] c']| |].
Qed.

Lemma outcome_key P name key keys s assign c :
  secs !! name = Some s -> (name, key) ∈ required ->
  (forall v, s !! key = Some v -> match assign key v c with
     | Ok c' => outcome P (for_keys keys s assign c')
     | Throw e => e = json_parser_error \/ e = bad_lexical_cast
  | UB u => u = index_out_of_bounds /\ element secs (str "server") (str "doc_root") = Some []
     end) ->
  outcome P (for_keys (key :: keys) s assign c).
Proof using.
  intros Hs Hr H. cbn [for_keys]. destruct (s !! key) as [v|] eqn:E.
  2:{ eapply missing_element; [exact Hr|]. unfold element. by rewrite Hs. }
  specialize (H v eq_refl).
  by destruct (assign key v c).
Qed.

Lemma outcome_cast P keys s assign v (c : config) (set : config -> bool -> config) :
  (forall b, lexical_cast_bool v = Some b -> outcome P (for_keys keys s assign (set c b))) ->
  match (let* b := cast_bool lexical_cast_bool v in Ok (set c b)) with
  | Ok c' => outcome P (for_keys keys s assign c')
  | Throw e => e = json_parser_error \/ e = bad_lexical_cast
  | UB u => u = index_out_of_bounds /\ element secs (str "server") (str "doc_root") = Some []
  end.
Proof using.
  intros H. unfold cast_bool. destruct (lexical_cast_bool v); cbn; [by apply H | by right].
Qed.

Lemma outcome_nil P s assign c : P c -> outcome P (for_keys [] s assign c).
Proof using. done. Qed.

Lemma outcome_true P c : P c -> outcome P (Ok (true, c)).
Proof using. done. Qed.

Ltac cfg_simpl :=
  cbn [log_level_ log_rotation_ access_granted_ access_denied_ encrypt_key_ sess_cookie_
    expiry_sec_ update_sec_ validate_ip_ validate_ua_ address_ port_ doc_root_ num_threads_
    compress_ ssl_ ssl_crt_ ssl_key_ cfg_ locale_ err_ set_log_level_ set_log_rotation_
    set_access_granted_ set_access_denied_ set_encrypt_key_ set_sess_cookie_ set_expiry_sec_
    set_update_sec_ set_validate_ip_ set_validate_ua_ set_address_ set_port_ set_doc_root_
    set_num_threads_ set_compress_ set_ssl_ set_ssl_crt_ set_ssl_key_ set_cfg_ set_locale_
    set_err_].

Ltac next_key :=
  eapply outcome_key; [eassumption | by apply (bool_decide_unpack _); vm_compute|]; intros ? ?;
  unfold assign_log, assign_error, assign_session, assign_server; eval_keys;
  try (apply outcome_cast; intros ? ?); cfg_simpl.

Lemma outcome_errors (P : config -> Prop) (c : config) :
  c.(err_) = ∅ -> element secs (str "error") (str "locale") = Some c.(locale_) ->
  (forall m t, read_json (str "../err/" ++ c.(locale_) ++ str ".json") = Some t ->
    NoDup (map (fun e => code_of e.1) (pt_children t)) ->
    (forall k d, (k, d) ∈ pt_children t -> m !! code_of k = Some (pt_data d)) -> P (set_err_ c m)) ->
  outcome P (init_errors file_exists read_json c).
Proof using.
  intros He Hloc H. unfold init_errors, read_json_or_throw. fold (err_file (locale_ c)) in *.
  destruct (file_exists _) eqn:Ef; [|by eapply missing_errors]. cbn [negb].
  destruct (read_json _) as [t|] eqn:Et; cbn [mbind res_bind]; [|by left].
  destruct (read_errors (pt_children t) c) as [[[] c']| |] eqn:E.
  - apply read_errors_true in E as (m & -> & Hd & Hm & _). eapply H; [done|done|].
    intros k d Hin. by apply Hm in Hin as [_ ?].
  - eapply duplicate_code; [exact Hloc | exact Et|]. intros Hd.
    destruct (read_errors_false _ _ _ E Hd) as (k & d & _ & [x Hx]). by rewrite He in Hx.
  - exfalso. clear -E. revert c E. induction (pt_children t) as [|[k d] l IH]; intros c E; [done|].
    cbn [read_errors] in E. case_match; [done|]. by apply IH in E.
  - exfalso. clear -E. revert c E. induction (pt_children t) as [|[k d] l IH]; intros c E; [done|].
    cbn [read_errors] in E. case_match; [done|]. by apply IH in E.
Qed.

Lemma element_key s sec k v : secs !! s = Some sec -> sec !! k = Some v -> element secs s k = Some v.
Proof using. intros E H. unfold element. by rewrite E. Qed.

Lemma init_sections_outcome (c : config) :
  c.(cfg_) = secs -> c.(access_granted_) = [] -> c.(access_denied_) = [] -> c.(err_) = ∅ ->
  outcome reads
    (in_section (str "log") (fun s => for_keys log_keys s assign_log)
    (in_section (str "error") (fun s => for_keys error_keys s assign_error)
    (in_section (str "access_granted") push_granted
    (in_section (str "access_denied") push_denied
    (in_section (str "session") (fun s => for_keys session_keys s (assign_session lexical_cast_bool))
    (in_section (str "server") (fun s => for_keys server_keys s (assign_server lexical_cast_bool))
      (init_errors file_exists read_json)))))) c).
Proof using doc_root_size.
  destruct c; cfg_simpl. intros -> -> -> ->.
  apply outcome_section; [done | by apply (bool_decide_unpack _); vm_compute|]; intros s1 E1. do 2 next_key. apply outcome_nil.
  apply outcome_section; [done | by apply (bool_decide_unpack _); vm_compute|]; intros s2 E2. next_key. apply outcome_nil.
  apply outcome_section; [done | by apply (bool_decide_unpack _); vm_compute|]; intros s3 E3. apply outcome_true; cfg_simpl.
  apply outcome_section; [done | by apply (bool_decide_unpack _); vm_compute|]; intros s4 E4. apply outcome_true; cfg_simpl.
  apply outcome_section; [done | by apply (bool_decide_unpack _); vm_compute|]; intros s5 E5. do 6 next_key. apply outcome_nil.
  apply outcome_section; [done | by apply (bool_decide_unpack _); vm_compute|]; intros s6 E6. next_key.
  eapply outcome_key; [eassumption | by apply (bool_decide_unpack _); vm_compute|]; intros root Hroot; unfold assign_server; eval_keys.
  pose proof (element_key _ _ _ _ E6 Hroot) as Hr.
  rewrite assign_doc_root_spec by by apply doc_root_size.
  destruct root as [|x root]; [done|]. do 5 next_key. apply outcome_nil.
  apply outcome_errors; [done | by eapply element_key|]. intros m t Ht Hdup Hm.
  constructor; cfg_simpl; try (by eapply element_key);
    try (by eexists);
    try (by erewrite element_key by done).
Qed.
End Outcome.

(** ** Properties *)

(** [init] on a fresh object has four outcomes: [true], and then every field
    holds what the file says (the document root with its final slash, the
    numbers and booleans converted, every error code mapped to its text);
    [false], and then a file, a section or an element is missing or an error
    code is listed twice; an exception, from the JSON reader or a boolean that
    does not parse; or, only for an empty document root, an access past the
    end of the string. *)
Theorem init_outcome file_exists read_json lexical_cast_bool addr file :
  (forall t d, read_json file = Some t ->
    element (read_sections (pt_children t) ∅) (str "server") (str "doc_root") = Some d -> size d < npos) ->
  match init file_exists read_json lexical_cast_bool config_init addr file with
  | Ok (true, c) => reads read_json lexical_cast_bool c /\ last c.(doc_root_) = Some "/"%byte
  | Ok (false, _) => file_exists file = false \/
      exists t, read_json file = Some t /\ missing file_exists read_json (read_sections (pt_children t) ∅)
  | Throw e => e = json_parser_error \/ e = bad_lexical_cast
  | UB u => u = index_out_of_bounds /\ exists t, read_json file = Some t /\
      element (read_sections (pt_children t) ∅) (str "server") (str "doc_root") = Some []
  end.
Proof.
  intros Hsz. unfold init. destruct (file_exists file) eqn:Ef; [|by left]. cbn [negb].
  unfold read_json_or_throw. destruct (read_json file) as [t|] eqn:Et; [|by left]. cbn [mbind res_bind].
  pose proof (init_sections_outcome file_exists read_json lexical_cast_bool
    (read_sections (pt_children t) ∅) (fun d => Hsz t d eq_refl)
    (set_cfg_ (set_address_ config_init addr) (read_sections (pt_children t) ∅))
    eq_refl eq_refl eq_refl eq_refl) as H.
  cbn [cfg_ set_address_ config_init]. destruct (in_section _ _ _ _) as [[[] c]|e|u]; cbn [outcome] in H.
  - split; [done|]. pose proof (rd_doc_root _ _ _ H) as Hd.
    destruct (element _ _ _) as [d|]; [|done]. injection Hd as <-. apply with_slash_last.
  - right. eauto.
  - done.
  - destruct H. eauto.
Qed.

Definition leaf (s : bytes) : ptree := PTree s [].

(** The first sections of [cfg/develop.json] and a few lines of [err/en_us.json]. *)
Definition develop_json : ptree :=
  PTree []
    [(str "log", PTree [] [(str "level", leaf (str "debug")); (str "rotation", leaf (str "hourly"))]);
     (str "error", PTree [] [(str "locale", leaf (str "en_us"))]);
     (str "access_granted", PTree [] []);
     (str "access_denied", PTree [] []);
     (str "session", PTree []
       [(str "encrypt_key", leaf (str "MY_ENC_KEY")); (str "sess_cookie", leaf (str "waspp_sess"));
        (str "expiry_sec", leaf (str "3600")); (str "update_sec", leaf (str "300"));
        (str "validate_ip", leaf (str "0")); (str "validate_ua", leaf (str "1"))]);
     (str "server", PTree []
       [(str "port", leaf (str "20000")); (str "doc_root", leaf (str "../doc"));
        (str "num_threads", leaf (str "4")); (str "compress", leaf (str "1"));
        (str "ssl", leaf (str "0")); (str "ssl_crt", leaf (str "../ssl/develop.crt")); (str "ssl_key", leaf (str "../ssl/develop.key"))])].

Definition en_us_json : ptree :=
  PTree [] [(str "1001", leaf (str "unauthorized")); (str "1101", leaf (str "username required"))].

Definition sample_json (file : bytes) : option ptree :=
  if file =s str "cfg.json" then Some develop_json
  else if file =s str "../err/en_us.json" then Some en_us_json else None.

Definition sample_exists (file : bytes) : bool := bool_decide (is_Some (sample_json file)).

Definition sample_cast (v : bytes) : option bool :=
  if v =s str "1" then Some true else if v =s str "0" then Some false else None.

Definition sample_config : config :=
  match init sample_exists sample_json sample_cast config_init (str "0.0.0.0") (str "cfg.json") with
  | Ok (_, c) => c | _ => config_init end.

Lemma init_outcome_witness :
  sample_config.(doc_root_) = str "../doc/" /\ reads sample_json sample_cast sample_config.
Proof.
  split; [vm_compute; reflexivity|].
  pose proof (init_outcome sample_exists sample_json sample_cast (str "0.0.0.0") (str "cfg.json")) as H.
  assert (forall t d, sample_json (str "cfg.json") = Some t ->
    element (read_sections (pt_children t) ∅) (str "server") (str "doc_root") = Some d -> size d < npos) as Hsz.
  { intros t d [= <-] [= <-]. reflexivity. }
  specialize (H Hsz).
  assert (match init sample_exists sample_json sample_cast config_init (str "0.0.0.0") (str "cfg.json") with
    Ok (true, _) => true | _ => false end = true) as E by (vm_compute; reflexivity).
  unfold sample_config. destruct (init _ _ _ _ _ _) as [[[] c]| |]; [apply H | discriminate E..].
Defined.
