(* ===== verification/Router.v ===== *)
(** * [src/src/router.hpp], [src/src/router.cpp]: routes, files of the document
    root, JSONP, error pages.

    The file system is a parameter: [open_file p] is the contents of the file
    that [std::ifstream] opens for the C string [p], [None] when it does not
    open.  The route functions themselves are values of [route_func]. *)
From S2P Require Import Prelude CxxString Utility Request Response Config.

Inductive route_func : Type :=
  | forum_index_html | forum_index_jsonp
  | forum_show_html | forum_show_jsonp
  | forum_form_html | forum_form_jsonp
  | forum_del | forum_post
  | user_signin_html | user_auth
  | user_signup_html | user_post
  | user_signout
  | performance_test.

#[export] Instance route_func_eq_dec : EqDecision route_func.
Proof. solve_decision. Defined.

Definition routes : list (bytes * route_func) :=
  [(str "/dir/forum/index/", forum_index_html);
   (str "/_/dir/forum/index/", forum_index_jsonp);
   (str "/dir/forum/show/", forum_show_html);
   (str "/_/dir/forum/show/", forum_show_jsonp);
   (str "/dir/forum/form/", forum_form_html);
   (str "/_/dir/forum/form/", forum_form_jsonp);
   (str "/dir/forum/del/", forum_del);
   (str "/dir/forum/post/", forum_post);
   (str "/dir/user/signin/", user_signin_html);
   (str "/dir/user/auth/", user_auth);
   (str "/dir/user/signup/", user_signup_html);
   (str "/dir/user/post/", user_post);
   (str "/dir/user/signout/", user_signout);
   (str "/dir/performance/test/", performance_test)].

Definition jsonp_start : bytes := str "_(".
Definition jsonp_end : bytes := str ");".

(** [for (route* r = routes; r->uri; ++r) if (!request_uri.find(r->uri)) return r->func;] *)
Fixpoint find_route (l : list (bytes * route_func)) (request_uri : bytes) : option route_func :=
  match l with
  | [] => None
  | (uri, func) :: l' =>
      if find request_uri uri 0 =? 0 then Some func else find_route l' request_uri
  end.

(** [request_uri] is an in-out parameter. *)
Definition get_func (request_uri : bytes) : res (bytes * option route_func) :=
  let* c := str_index request_uri (sz_sub (size request_uri) 1) in
  let request_uri := if negb (c =c "/"%byte) then request_uri ++ str "/" else request_uri in
  Ok (request_uri, find_route routes request_uri).

(** [while (is.read(buf, sizeof(buf)).gcount() > 0) content.append(buf, is.gcount());]
    [rest] is what the stream has left; a pass takes up to 512 of it. *)
Fixpoint read_all (fuel : nat) (rest content : bytes) : res bytes :=
  match fuel with
  | O => UB no_fuel
  | S fuel' =>
      let chunk := take 512 rest in
      if 0 <? size chunk then read_all fuel' (drop 512 rest) (content ++ chunk) else Ok content
  end.

Class FileSystem : Type := open_file : bytes -> option bytes.

Section Files.
Context `{FileSystem}.

Definition get_file (cfg : config) (r : response) (request_path : bytes) : res (bool * response) :=
  let full_path := cfg.(doc_root_) ++ request_path in
  let* c := str_index full_path (sz_sub (size full_path) 1) in
  let full_path := if c =c "/"%byte then full_path ++ str "/index.html" else full_path in
  match open_file (c_str full_path) with
  | None => Ok (false, r)
  | Some data =>
      let* content := read_all (S (length data)) data r.(res_content) in
      let r := set_res_content r content in
      let* e := get_extension full_path in
      Ok (true, set_content_extension r e)
  end.

Definition set_jsonp (req : request) (r : response) : response :=
  let nl := [Byte.x0a] in
  let r := append_content r (nl ++ str "<script src='/_.js'></script>" ++ nl ++ str "<script src='/_") in
  let r := append_content r req.(uri) in
  append_content r (str "'></script>" ++ nl).

Definition router_err_msg (cfg : config) (r : response) (err_code : error_type) : res (config * response) :=
  let r := set_res_content r [] in
  let* (_, r) := get_file cfg r (str "dir_include_header.html") in
  let r := append_content r (str "<h2>Error : ") in
  let '(cfg, m) := err_msg cfg err_code in
  let r := append_content r m in
  let r := append_content r (str "</h2>") in
  let* (_, r) := get_file cfg r (str "dir_include_footer.html") in
  Ok (cfg, set_content_extension r (str "html")).
End Files.

(** ** Lemmas *)

(** [find] gives 0 exactly for a prefix. *)
Lemma find_zero_prefix s pat : (find s pat 0 =? 0) = is_prefix pat s.
Proof.
  rewrite find_0. destruct s as [|c s]; cbn [find_from]; destruct (is_prefix pat _); try done.
  destruct (find_from pat s) as [j|]; [|done]. apply Z.eqb_neq. cbn. lia.
Qed.

Lemma find_route_Some l s f :
  find_route l s = Some f -> exists u, (u, f) ∈ l /\ is_prefix u s = true.
Proof.
  induction l as [|[u g] l IH]; [done|]. cbn [find_route]. rewrite find_zero_prefix.
  destruct (is_prefix u s) eqn:E.
  - intros [= <-]. exists u. split; [apply list_elem_of_here | done].
  - intros H. apply IH in H as (v & Hin & Hp). exists v. split; [by apply list_elem_of_further | done].
Qed.

Lemma find_route_None l s u f : find_route l s = None -> (u, f) ∈ l -> is_prefix u s = false.
Proof.
  induction l as [|[v g] l IH]; [by intros _ ?%elem_of_nil|]. cbn [find_route]. rewrite find_zero_prefix.
  destruct (is_prefix v s) eqn:E; [done|]. intros H [[= -> ->]|Hin]%elem_of_cons; [done|]. by apply IH.
Qed.

(** Two prefixes of one string: one is a prefix of the other. *)
Lemma prefixes_comparable u v s :
  is_prefix u s = true -> is_prefix v s = true -> is_prefix u v = true \/ is_prefix v u = true.
Proof.
  revert v s; induction u as [|c u IH]; intros v s Hu Hv; [by left|].
  destruct v as [|d v]; [by right|]. destruct s as [|e s]; [done|]. cbn [is_prefix] in *.
  destruct (c =c e) eqn:Ec; [|done]. destruct (d =c e) eqn:Ed; [|done]. cbn [andb] in *.
  apply eqc_true in Ec as ->. apply eqc_true in Ed as ->. rewrite eqc_refl. cbn [andb]. eauto.
Qed.

Lemma routes_prefix_free :
  forallb (fun a => forallb (fun b => bool_decide (a.2 = b.2) || negb (is_prefix a.1 b.1)) routes) routes = true.
Proof. vm_compute. reflexivity. Qed.

Lemma routes_unique u v f g s :
  (u, f) ∈ routes -> (v, g) ∈ routes -> is_prefix u s = true -> is_prefix v s = true -> f = g.
Proof.
  intros Hu Hv Pu Pv. pose proof routes_prefix_free as H. rewrite forallb_forall in H.
  pose proof (H _ (proj1 (list_elem_of_In _ _) Hu)) as Hu'.
  pose proof (H _ (proj1 (list_elem_of_In _ _) Hv)) as Hv'.
  rewrite forallb_forall in Hu', Hv'.
  specialize (Hu' _ (proj1 (list_elem_of_In _ _) Hv)). specialize (Hv' _ (proj1 (list_elem_of_In _ _) Hu)).
  cbn [fst snd] in *. destruct (decide (f = g)) as [|Hn]; [done|].
  rewrite !bool_decide_false in * by congruence. cbn [orb] in *. apply negb_true_iff in Hu', Hv'.
  destruct (prefixes_comparable u v s Pu Pv); congruence.
Qed.

Lemma read_all_spec fuel rest content :
  (length rest < fuel)%nat -> read_all fuel rest content = Ok (content ++ rest).
Proof.
  revert rest content; induction fuel as [|fuel IH]; intros rest content Hf; [lia|]. cbn [read_all].
  destruct rest as [|c rest]; [by rewrite take_nil, app_nil_r|].
  set (s := c :: rest) in *. assert (0 < length (take 512 s))%nat as Hpos.
  { rewrite length_take. unfold s. simpl length. lia. }
  destruct (Z.ltb_spec 0 (size (take 512 s))); [|unfold size in *; lia].
  rewrite IH by (rewrite length_drop; unfold s in *; simpl length in *; lia).
  by rewrite <- app_assoc, take_drop.
Qed.

Lemma find_last_of_bounds s c : find_last_of s c = npos \/ 0 <= find_last_of s c < size s.
Proof.
  unfold find_last_of. destruct (find_if _ (reverse s)) as [i|] eqn:E; [right | by left].
  apply find_if_Some in E as (a & d & b & E & <- & _). apply (f_equal (@length _)) in E.
  rewrite length_reverse, length_app in E. unfold size. simpl in E. lia.
Qed.

Lemma get_extension_ok p : exists e, get_extension p = Ok e.
Proof.
  unfold get_extension. destruct (_ && _) eqn:E; [|by eexists].
  apply andb_true_iff in E as [E _]. apply negb_true_iff, Z.eqb_neq in E.
  apply substr_ok. destruct (find_last_of_bounds p "."%byte); lia.
Qed.

Lemma str_index_back s : s <> [] -> size s < npos -> exists l c, s = l ++ [c] /\ str_index s (sz_sub (size s) 1) = Ok c.
Proof.
  intros Hs Hsz. destruct (snoc_inv s Hs) as (l & c & ->). exists l, c. split; [done|].
  destruct (str_index_last l c); [done | size_lia].
Qed.

(** The path that [get_file] opens. *)
Definition file_path (cfg : config) (request_path : bytes) : bytes :=
  let p := cfg.(doc_root_) ++ request_path in
  if bool_decide (last p = Some "/"%byte) then p ++ str "/index.html" else p.

Section FileLemmas.
Context `{FileSystem}.

Lemma get_file_spec cfg r path :
  cfg.(doc_root_) <> [] -> size (cfg.(doc_root_) ++ path) < npos ->
  get_file cfg r path =
    match open_file (c_str (file_path cfg path)) with
    | None => Ok (false, r)
    | Some data =>
        let* e := get_extension (file_path cfg path) in
        Ok (true, set_content_extension (append_content r data) e)
    end.
Proof.
  intros Hd Hsz. unfold get_file.
  assert (cfg.(doc_root_) ++ path <> []) as Hne by (by destruct (doc_root_ cfg)).
  destruct (str_index_back _ Hne Hsz) as (l & c & E & ->). cbn [mbind res_bind].
  assert ((if c =c "/"%byte then (doc_root_ cfg ++ path) ++ str "/index.html" else doc_root_ cfg ++ path)
    = file_path cfg path) as ->.
  { unfold file_path. rewrite E, last_snoc. destruct (c =c "/"%byte) eqn:F.
    - apply eqc_true in F as ->. by rewrite bool_decide_true.
    - apply eqc_false in F. rewrite bool_decide_false by congruence. done. }
  destruct (open_file _) as [data|]; [|done]. by rewrite read_all_spec by lia.
Qed.

Lemma get_file_total cfg r path :
  cfg.(doc_root_) <> [] -> size (cfg.(doc_root_) ++ path) < npos -> exists b r', get_file cfg r path = Ok (b, r').
Proof.
  intros Hd Hsz. rewrite get_file_spec by done. destruct (open_file _); [|eauto].
  destruct (get_extension_ok (file_path cfg path)) as (e & ->). cbn. eauto.
Qed.
End FileLemmas.

(** ** Properties *)

(** routing is by prefix of the target closed with a slash, and does not
    depend on the order of the table: [get_func] returns the function of the
    one route that is a prefix, or nothing when no route is. *)
Theorem get_func_spec request_uri :
  request_uri <> [] -> size request_uri < npos ->
  exists o, get_func request_uri = Ok (with_slash request_uri, o) /\
    forall f, o = Some f <-> exists u, (u, f) ∈ routes /\ is_prefix u (with_slash request_uri) = true.
Proof.
  intros Hne Hsz. unfold get_func. destruct (str_index_back _ Hne Hsz) as (l & c & E & ->). cbn [mbind res_bind].
  assert ((if negb (c =c "/"%byte) then request_uri ++ str "/" else request_uri) = with_slash request_uri) as ->.
  { unfold with_slash. rewrite E, last_snoc. destruct (c =c "/"%byte) eqn:F; cbn [negb].
    - apply eqc_true in F as ->. by rewrite bool_decide_true.
    - apply eqc_false in F. by rewrite bool_decide_false by congruence. }
  eexists. split; [reflexivity|]. intros f. split; [apply find_route_Some|].
  intros (u & Hin & Hp). destruct (find_route routes (with_slash request_uri)) as [g|] eqn:G.
  - apply find_route_Some in G as (v & Hin' & Hp'). f_equal. by eapply routes_unique.
  - pose proof (find_route_None _ _ _ _ G Hin). congruence.
Qed.

Lemma get_func_spec_witness :
  exists o, get_func (str "/dir/user/auth") = Ok (str "/dir/user/auth/", o) /\ o = Some user_auth.
Proof.
  destruct (get_func_spec (str "/dir/user/auth") ltac:(done) ltac:(done)) as (o & E & H).
  exists o. split; [exact E|]. apply H. exists (str "/dir/user/auth/"). split; [|vm_compute; reflexivity].
  by apply (bool_decide_unpack _); vm_compute.
Defined.
