(* ===== verification/RequestHandler.v ===== *)
(** * [src/src/request_handler.cpp]: from a request to its response.

    The route functions are the parameter [run_route]; the file system is
    [FileSystem] and the gzip compressor [gzip].  Requests, responses and the
    configuration are passed by reference: a route function gets all three and
    gives them back changed, the response left out when it throws, since the
    [catch] block then replaces it.  Log lines are not modelled. *)
From S2P Require Import Prelude CxxString Utility Request Response Config Router.

Inductive route_result : Type :=
  | returned (cfg : config) (req : request) (r : response)
  | raised (e : exn) (cfg : config) (req : request)
  | undefined (u : ub).

Definition func_ptr : Type := config -> request -> response -> route_result.

(** ** [percent_decode_and_validate] *)

(** [Some out] when it returns [true]. *)
Fixpoint percent_decode_and_validate (in_ : bytes) : option bytes :=
  match in_ with
  | [] => Some []
  | c :: in' =>
      if c =c "%"%byte then
        match in' with
        | a :: b :: rest =>
            match read_hex [a; b] with
            | Some value => cons (char_of_Z value) <$> percent_decode_and_validate rest
            | None => None
            end
        | _ => None
        end
      else if c =c "+"%byte then cons " "%byte <$> percent_decode_and_validate in'
      else cons c <$> percent_decode_and_validate in'
  end.

(** ** Access lists *)

Definition mem_list (x : bytes) (l : list bytes) : bool := existsb (fun y => y =s x) l.

Definition is_access_granted (cfg : config) (remote_addr : bytes) : bool :=
  if size cfg.(access_granted_) =? 0 then true
  else if mem_list remote_addr cfg.(access_granted_) then false
  else true.

Definition is_access_denied (cfg : config) (remote_addr : bytes) : bool :=
  if size cfg.(access_denied_) =? 0 then false
  else if negb (mem_list remote_addr cfg.(access_denied_)) then true
  else false.

(** ** [handle_request] *)

(** [name=value; path=/] *)
Definition cookie_text (nv : name_value) : bytes :=
  nv.(name) ++ str "=" ++ nv.(value) ++ str "; path=/".

Fixpoint push_cookies (l : list name_value) (r : response) : response :=
  match l with
  | [] => r
  | nv :: l' => push_cookies l' (push_header r (str "Set-Cookie") (cookie_text nv))
  end.

Definition accepted_encoding : bytes := str "gzip, deflate".

Section Handler.
Context `{FileSystem} (gzip : bytes -> bytes) (run_route : route_func -> func_ptr).

(** From [// Fill out the response] to the end of the [try] block. *)
Definition fill_out (cfg : config) (req : request) (r : response) : request * response :=
  let r := push_header r (str "Content-Type") (extension_to_type r.(content_extension)) in
  let r := push_header r (str "Keep-Alive") (str "timeout=0, max=0") in
  let r := push_cookies r.(res_cookies) r in
  let '(req, compressed) :=
    if cfg.(compress_) then
      let '(req, v) := header req (str "Accept-Encoding") in
      (req, (v =s accepted_encoding) && is_compressible r.(content_extension))
    else (req, false) in
  let r :=
    if compressed : bool then
      let r := push_header r (str "Content-Encoding") (str "gzip") in
      set_res_content r (gzip_str gzip r.(res_content))
    else r in
  let r := push_header r (str "Content-Length") (to_string (size r.(res_content))) in
  (req, set_status r status_type.ok).

(** The steps before [router::get_func]: the access lists, the decoding of the
    target and its checks.  [inr] is the path to serve. *)
Definition screen_request (cfg : config) (req : request) : response + bytes :=
  if negb (is_access_granted cfg req.(remote_addr)) || is_access_denied cfg req.(remote_addr) then
    inl (static_response status_type.unauthorized)
  else
    match percent_decode_and_validate req.(uri) with
    | None => inl (static_response status_type.bad_request)
    | Some request_uri =>
        if match request_uri with [] => true | c :: _ => negb (c =c "/"%byte) end
           || negb (find request_uri (str "..") 0 =? npos)
        then inl (static_response status_type.bad_request)
        else inr request_uri
    end.

(** From [router::get_func] on. *)
Definition serve (cfg : config) (req : request) (r : response) (request_path : bytes)
    : res (config * request * response) :=
  let* (request_uri, func) := get_func request_path in
  match func with
  | None =>
      let* (found, r) := get_file cfg r request_path in
      if negb found then Ok (cfg, req, static_response status_type.not_found)
      else let '(req, r) := fill_out cfg req r in Ok (cfg, req, r)
  | Some f =>
      match run_route f cfg req r with
      | returned cfg req r => let '(req, r) := fill_out cfg req r in Ok (cfg, req, r)
      | raised e cfg req => Ok (cfg, req, static_response status_type.internal_server_error)
      | undefined u => UB u
      end
  end.

(** Outside the route functions an exception finds the configuration and the
    request as they were given. *)
Definition handle_request (cfg : config) (req : request) (r : response) : res (config * request * response) :=
  match screen_request cfg req with
  | inl r' => Ok (cfg, req, r')
  | inr request_path =>
      match serve cfg req r request_path with
      | Throw _ => Ok (cfg, req, static_response status_type.internal_server_error)
      | o => o
      end
  end.
End Handler.

(** ** Lemmas *)

Lemma mem_list_true x l : mem_list x l = true <-> x ∈ l.
Proof.
  unfold mem_list. rewrite existsb_exists. split.
  - intros (y & Hin & E%eqs_true). subst. by apply list_elem_of_In.
  - intros Hin. exists x. split; [by apply list_elem_of_In | apply eqs_refl].
Qed.

Lemma mem_list_nil x : mem_list x [] = false.
Proof. done. Qed.

Lemma push_cookies_headers l r :
  (push_cookies l r).(res_headers) = r.(res_headers) ++ map (fun nv => mk_name_value (str "Set-Cookie") (cookie_text nv)) l.
Proof.
  revert r; induction l as [|nv l IH]; intros r; cbn [push_cookies map]; [by rewrite app_nil_r|].
  rewrite IH. cbn [push_header set_res_headers res_headers]. by rewrite <- app_assoc.
Qed.

Lemma push_cookies_rest l r :
  (push_cookies l r).(res_content) = r.(res_content) /\
  (push_cookies l r).(content_extension) = r.(content_extension).
Proof.
  revert r; induction l as [|nv l IH]; intros r; [done|]. cbn [push_cookies].
  by destruct (IH (push_header r (str "Set-Cookie") (cookie_text nv))) as [-> ->].
Qed.

(** A sound response: it declares the length of what it sends. *)
Record declares_length (r : response) : Prop := {
  dl_header : mk_name_value (str "Content-Length") (to_string (size r.(res_content))) ∈ r.(res_headers);
}.

Lemma read_hex_digits a b :
  isxdigit a = true -> isxdigit b = true -> read_hex [a; b] = Some (digit_val a * 16 + digit_val b).
Proof.
  intros Ha Hb.
  assert (forall a b, (negb (isxdigit a && isxdigit b) ||
    match read_hex [a; b] with Some v => v =? digit_val a * 16 + digit_val b | None => false end) = true) as H.
  { apply byte_forall2. vm_compute. reflexivity. }
  specialize (H a b). rewrite Ha, Hb in H. cbn [negb andb orb] in H.
  destruct (read_hex [a; b]); [by apply Z.eqb_eq in H as -> | done].
Qed.

Lemma validate_encode_char c t :
  percent_decode_and_validate (percent_encode_char c ++ t) = cons c <$> percent_decode_and_validate t.
Proof. destruct c; reflexivity. Qed.

Lemma validate_encode_app s t :
  percent_decode_and_validate (percent_encode s ++ t) = app s <$> percent_decode_and_validate t.
Proof.
  induction s as [|c s IH].
  - cbn. by destruct (percent_decode_and_validate t).
  - cbn [percent_encode]. rewrite <- app_assoc, validate_encode_char, IH.
    by destruct (percent_decode_and_validate t).
Qed.

Lemma fill_out_status gzip cfg req r :
  (fill_out gzip cfg req r).2.(status) = 200 /\
  last (fill_out gzip cfg req r).2.(res_headers) =
    Some (mk_name_value (str "Content-Length") (to_string (size (fill_out gzip cfg req r).2.(res_content)))).
Proof.
  unfold fill_out. destruct (if compress_ cfg then _ else _) as [req' c] eqn:E.
  cbn [snd set_status status res_headers res_content push_header set_res_headers set_res_content].
  split; [done|]. by rewrite last_snoc.
Qed.

Lemma last_declares r :
  last r.(res_headers) = Some (mk_name_value (str "Content-Length") (to_string (size r.(res_content)))) ->
  declares_length r.
Proof. intros H. constructor. by apply last_Some_elem_of in H. Qed.

Lemma static_declares s : declares_length (static_response s).
Proof. constructor. apply list_elem_of_here. Qed.

(** What a request's path must be to be served. *)
Definition dotdot_free (p : bytes) : Prop := forall a b, p <> a ++ str ".." ++ b.

Lemma validate_size s p : percent_decode_and_validate s = Some p -> size p <= size s.
Proof.
  revert p. induction s as [s IH] using (induction_ltof1 _ (@length byte)); unfold ltof in IH.
  intros p. destruct s as [|c s]; cbn [percent_decode_and_validate]; [intros [= <-]; done|].
  destruct (c =c "%"%byte); [|destruct (c =c "+"%byte)].
  - destruct s as [|a [|b s]]; [done|done|]. destruct (read_hex [a; b]); [|done].
    destruct (percent_decode_and_validate s) as [q|] eqn:E; [|done]. intros [= <-].
    apply IH in E; [size_lia | simpl; lia].
  - destruct (percent_decode_and_validate s) as [q|] eqn:E; [|done]. intros [= <-].
    apply IH in E; [size_lia | simpl; lia].
  - destruct (percent_decode_and_validate s) as [q|] eqn:E; [|done]. intros [= <-].
    apply IH in E; [size_lia | simpl; lia].
Qed.

Lemma screen_request_path cfg req p :
  size req.(uri) < npos -> screen_request cfg req = inr p ->
  percent_decode_and_validate req.(uri) = Some p /\ (exists q, p = "/"%byte :: q) /\ dotdot_free p.
Proof.
  intros Hsz. unfold screen_request. destruct (negb _ || _); [done|].
  destruct (percent_decode_and_validate (uri req)) as [s|] eqn:Ev; [|done].
  destruct s as [|c q]; [done|]. destruct (c =c "/"%byte) eqn:Ec; cbn [negb orb]; [|done].
  destruct (find (c :: q) (str "..") 0 =? npos) eqn:Ed; cbn [negb]; [|done]. intros [= <-].
  apply eqc_true in Ec as ->. apply Z.eqb_eq in Ed. apply validate_size in Ev.
  split; [done|]. split; [by eexists|].
  intros a b E. rewrite E in Ed, Ev. rewrite find_0 in Ed.
  destruct (find_from (str "..") (a ++ str ".." ++ b)) as [i|] eqn:F.
  - apply find_from_Some in F as (a' & b' & E' & <-). rewrite E' in Ev. cbn [pos_of] in Ed.
    change (Z.of_nat (length a')) with (size a') in Ed. size_lia.
  - by eapply (proj1 (find_from_None _ _) F).
Qed.

(** *** Paths under the document root *)

Lemma dotdot_free_prefix s t : dotdot_free (s ++ t) -> dotdot_free s.
Proof. intros H a b ->. apply (H a (b ++ t)). by rewrite <- !app_assoc. Qed.

(** Two dots do not straddle the slash that the path ends with. *)
Lemma dotdot_free_index p : dotdot_free p -> dotdot_free (p ++ str "/index.html").
Proof.
  intros H a b E. apply app_eq_inv in E as [(k & -> & E) | (k & -> & E)].
  - destruct k as [|c [|d k]]; cbn [app] in E; [discriminate E | discriminate E|].
    injection E as <- <- E. by apply (H a k).
  - by eapply (proj1 (find_from_None (str "..") (str "/index.html"))).
Qed.

Definition under_doc_root (cfg : config) (p : bytes) : Prop :=
  exists q, p = cfg.(doc_root_) ++ ("/"%byte :: q) /\ dotdot_free ("/"%byte :: q).

Lemma file_path_under cfg p :
  (Byte.x00 ∉ cfg.(doc_root_)) -> (exists q, p = "/"%byte :: q) -> dotdot_free p ->
  under_doc_root cfg (c_str (file_path cfg p)).
Proof.
  intros Hn (q & ->) Hp.
  assert (exists q', file_path cfg ("/"%byte :: q) = doc_root_ cfg ++ "/"%byte :: q' /\
    dotdot_free ("/"%byte :: q')) as (q' & -> & Hq').
  { unfold file_path. case_bool_decide.
    - exists (q ++ str "/index.html"). split; [by rewrite <- app_assoc|].
      by apply (dotdot_free_index ("/"%byte :: q)).
    - by exists q. }
  rewrite c_str_app_no_nul by done. exists (c_str q'). split; [done|].
  destruct (c_str_prefix q') as (t & E). apply (dotdot_free_prefix _ t). cbn [app]. by rewrite <- E.
Qed.

(** *** [serve] *)

(** What a request needs for its strings to fit in memory. *)
Record fits (cfg : config) (req : request) : Prop := {
  fits_root : cfg.(doc_root_) <> [];
  fits_path : size cfg.(doc_root_) + size req.(uri) < npos;
}.

Section HandlerLemmas.
Context (gzip : bytes -> bytes) (run_route : route_func -> func_ptr).

(** [serve] on a file, its route lookup evaluated. *)
Lemma serve_route (fs : FileSystem) cfg req r p :
  p <> [] -> size p < npos ->
  serve gzip run_route cfg req r p =
    match find_route routes (with_slash p) with
    | None => let* (found, r) := get_file cfg r p in
        if negb found then Ok (cfg, req, static_response status_type.not_found)
        else let '(req, r) := fill_out gzip cfg req r in Ok (cfg, req, r)
    | Some f =>
        match run_route f cfg req r with
        | returned cfg req r => let '(req, r) := fill_out gzip cfg req r in Ok (cfg, req, r)
        | raised e cfg req => Ok (cfg, req, static_response status_type.internal_server_error)
        | undefined u => UB u
        end
    end.
Proof.
  intros Hp Hsz. unfold serve, get_func. destruct (str_index_back _ Hp Hsz) as (l & c & E & ->).
  cbn [mbind res_bind].
  assert ((if negb (c =c "/"%byte) then p ++ str "/" else p) = with_slash p) as ->; [|done].
  unfold with_slash. rewrite E, last_snoc. destruct (c =c "/"%byte) eqn:F; cbn [negb].
  - apply eqc_true in F as ->. by rewrite bool_decide_true.
  - apply eqc_false in F. by rewrite bool_decide_false by congruence.
Qed.

Lemma serve_same_files (fs1 fs2 : FileSystem) cfg req r p :
  (Byte.x00 ∉ cfg.(doc_root_)) -> cfg.(doc_root_) <> [] ->
  (exists q, p = "/"%byte :: q) -> dotdot_free p -> size cfg.(doc_root_) + size p < npos ->
  (forall f, under_doc_root cfg f -> @open_file fs1 f = @open_file fs2 f) ->
  serve (H := fs1) gzip run_route cfg req r p = serve (H := fs2) gzip run_route cfg req r p.
Proof using.
  intros Hn Hr Hp Hd Hsz Hf.
  assert (p <> []) as Hne by (by destruct Hp as (q & ->)).
  assert (size cfg.(doc_root_) >= 0) by size_lia.
  rewrite !serve_route by (done || lia).
  rewrite !get_file_spec by (done || size_lia).
  by rewrite (Hf _ (file_path_under cfg p Hn Hp Hd)).
Qed.

Definition response_codes : list Z := [200; 400; 401; 404; 500].

Record sound_response (r : response) : Prop := {
  sound_status : r.(status) ∈ response_codes;
  sound_length : declares_length r;
}.

Lemma static_sound s : s ∈ response_codes -> sound_response (static_response s).
Proof using. intros H. split; [done | apply static_declares]. Qed.

Lemma fill_out_sound cfg req r : sound_response (fill_out gzip cfg req r).2.
Proof using.
  destruct (fill_out_status gzip cfg req r) as [Hs Hl]. split; [|by apply last_declares].
  rewrite Hs. apply list_elem_of_here.
Qed.

Lemma serve_sound (fs : FileSystem) cfg req r p :
  cfg.(doc_root_) <> [] -> p <> [] -> size cfg.(doc_root_) + size p < npos ->
  match serve gzip run_route cfg req r p with
  | Ok (_, _, r') => sound_response r'
  | Throw _ => False
  | UB u => exists f, find_route routes (with_slash p) = Some f /\ run_route f cfg req r = undefined u
  end.
Proof using.
  intros Hr Hne Hsz. assert (size cfg.(doc_root_) >= 0) by size_lia.
  rewrite serve_route by (done || lia).
  destruct (find_route routes (with_slash p)) as [f|].
  - destruct (run_route f cfg req r) as [cfg' req' r'|e cfg' req'|u] eqn:E; [| |by eauto].
    + pose proof (fill_out_sound cfg' req' r'). by destruct (fill_out gzip cfg' req' r').
    + apply static_sound. by apply (bool_decide_unpack _).
  - destruct (get_file_total cfg r p) as (b & r' & ->); [done | size_lia|]. cbn [mbind res_bind].
    destruct b; cbn [negb].
    + pose proof (fill_out_sound cfg req r'). by destruct (fill_out gzip cfg req r').
    + apply static_sound. by apply (bool_decide_unpack _).
Qed.
End HandlerLemmas.

Lemma screen_request_refusal cfg req r :
  screen_request cfg req = inl r -> exists s, r = static_response s /\ (s = 400 \/ s = 401).
Proof.
  unfold screen_request. destruct (negb _ || _); [intros [= <-]; eauto|].
  destruct (percent_decode_and_validate _) as [p|]; [|intros [= <-]; eauto].
  destruct (_ || _); [intros [= <-]; eauto | done].
Qed.

(** The reply to a request for a file with the contents [data]: its headers
    and its content, [zip] when the two parties agree to compress. *)
Definition file_headers (extension content : bytes) (zip : bool) : list name_value :=
  [mk_name_value (str "Content-Type") (extension_to_type extension);
   mk_name_value (str "Keep-Alive") (str "timeout=0, max=0")] ++
  (if zip then [mk_name_value (str "Content-Encoding") (str "gzip")] else []) ++
  [mk_name_value (str "Content-Length") (to_string (size content))].

Definition wants_gzip (cfg : config) (req : request) (extension : bytes) : bool :=
  cfg.(compress_) && ((header req (str "Accept-Encoding")).2 =s accepted_encoding) && is_compressible extension.

Lemma fill_out_file gzip cfg req s0 data e :
  let r := set_content_extension (append_content (response_init s0) data) e in
  let zip := wants_gzip cfg req e in
  let sent := if zip then gzip data else data in
  (fill_out gzip cfg req r).2 = mk_response 200 (file_headers e sent zip) [] sent e.
Proof.
  cbn zeta. unfold fill_out, wants_gzip, gzip_str.
  cbn [push_cookies push_header set_res_headers append_content set_content_extension set_res_content
    response_init status res_headers res_cookies res_content content_extension app].
  destruct (compress_ cfg); cbn [andb]; [|done].
  destruct (header req (str "Accept-Encoding")) as [req' v]. cbn [snd].
  by destruct (_ && _).
Qed.

Lemma refused_true cfg addr :
  negb (is_access_granted cfg addr) || is_access_denied cfg addr = true <->
  (addr ∈ cfg.(access_granted_)) \/ (cfg.(access_denied_) <> [] /\ addr ∉ cfg.(access_denied_)).
Proof.
  rewrite orb_true_iff, negb_true_iff. unfold is_access_granted, is_access_denied.
  rewrite <- !mem_list_true.
  assert (forall l : list bytes, (size l =? 0) = bool_decide (l = [])) as Hz by by intros [].
  rewrite !Hz.
  assert (cfg.(access_granted_) = [] -> mem_list addr cfg.(access_granted_) = false) as Hg by by intros ->.
  destruct (mem_list addr (access_granted_ cfg)), (mem_list addr (access_denied_ cfg));
    repeat case_bool_decide; cbn [negb]; intuition congruence.
Qed.

(** ** Properties *)

(** C27: every request gets a response: unless a route function's own code is
    undefined, [handle_request] ends without an exception, with one of the five
    statuses and a Content-Length that is the length of the content sent. *)
Theorem handle_request_sound (fs : FileSystem) gzip run_route cfg req r :
  fits cfg req ->
  match handle_request gzip run_route cfg req r with
  | Ok (_, _, r') => sound_response r'
  | Throw _ => False
  | UB u => exists f, run_route f cfg req r = undefined u
  end.
Proof.
  intros [Hr Hsz]. unfold handle_request. assert (size cfg.(doc_root_) >= 0) by size_lia.
  destruct (screen_request cfg req) as [r'|p] eqn:E.
  - apply screen_request_refusal in E as (s & -> & Hs). apply static_sound.
    destruct Hs as [-> | ->]; by apply (bool_decide_unpack _).
  - apply screen_request_path in E as (Ev & (q & ->) & Hd); [|lia]. apply validate_size in Ev.
    pose proof (serve_sound gzip run_route fs cfg req r ("/"%byte :: q) Hr ltac:(done) ltac:(lia)) as H'.
    destruct (serve _ _ _ _ _ _) as [[[cfg' req'] r']|e|u]; [done|done|].
    destruct H' as (f & _ & Hf). eauto.
Qed.


(** The access lists as the code has them: a client is answered with 401
    exactly when it is listed in [access_granted], or when [access_denied] is
    not empty and does not list it; nothing else of the request matters then. *)
Theorem access_lists (fs : FileSystem) gzip run_route cfg req r :
  let refused := (req.(remote_addr) ∈ cfg.(access_granted_)) \/
    (cfg.(access_denied_) <> [] /\ req.(remote_addr) ∉ cfg.(access_denied_)) in
  (refused -> handle_request gzip run_route cfg req r = Ok (cfg, req, static_response 401)) /\
  (~ refused -> screen_request cfg req <> inl (static_response 401)).
Proof.
  cbn zeta. split; intros H.
  - apply refused_true in H. unfold handle_request, screen_request. by rewrite H.
  - destruct (negb (is_access_granted cfg (remote_addr req)) || is_access_denied cfg (remote_addr req)) eqn:E;
      [by apply refused_true in E|].
    unfold screen_request. rewrite E.
    intros Hs. destruct (percent_decode_and_validate (uri req)) as [s|];
      [destruct (match s with [] => true | c :: _ => _ end || _)|]; try discriminate Hs;
      apply (f_equal (fun x => match x with inl r => r.(status) | inr _ => 0 end)) in Hs; discriminate Hs.
Qed.

(** C28: a percent-encoded target is the file it names: for an existing file
    that no route shadows, the response is the file, compressed when both
    sides want it, with its MIME type and its length. *)
Theorem handle_request_file (fs : FileSystem) gzip run_route cfg req s0 p q data e :
  fits cfg req -> p = "/"%byte :: q -> dotdot_free p -> req.(uri) = percent_encode p ->
  (req.(remote_addr) ∉ cfg.(access_granted_)) ->
  (cfg.(access_denied_) = [] \/ req.(remote_addr) ∈ cfg.(access_denied_)) ->
  find_route routes (with_slash p) = None ->
  open_file (c_str (file_path cfg p)) = Some data -> get_extension (file_path cfg p) = Ok e ->
  let zip := wants_gzip cfg req e in
  let sent := if zip then gzip data else data in
  exists req', handle_request gzip run_route cfg req (response_init s0) =
    Ok (cfg, req', mk_response 200 (file_headers e sent zip) [] sent e).
Proof.
  intros [Hr Hsz] Hp Hd Hu Hg Hden Hroute Ho He. cbn zeta. unfold handle_request.
  assert (percent_decode_and_validate (uri req) = Some p) as Hv.
  { rewrite Hu, <- (app_nil_r (percent_encode p)), validate_encode_app. cbn. by rewrite app_nil_r. }
  assert (screen_request cfg req = inr p) as ->.
  { unfold screen_request. rewrite Hv.
    destruct (negb (is_access_granted cfg (remote_addr req)) || is_access_denied cfg (remote_addr req)) eqn:E.
    { apply refused_true in E. destruct E as [|[]]; [done|]. by destruct Hden. }
    rewrite Hp. rewrite eqc_refl. cbn [negb orb]. rewrite <- Hp.
    destruct (find_from (str "..") p) as [i|] eqn:F.
    - apply find_from_Some in F as (a & b & -> & _). by destruct (Hd a b).
    - by rewrite find_0, F. }
  pose proof (validate_size _ _ Hv) as Hps. assert (size cfg.(doc_root_) >= 0) by size_lia.
  rewrite serve_route by first [subst p; discriminate | lia]. rewrite Hroute.
  rewrite get_file_spec, Ho, He by (done || size_lia). cbn [mbind res_bind negb].
  pose proof (fill_out_file gzip cfg req s0 data e) as Hf. cbn zeta in Hf.
  destruct (fill_out _ _ _ _) as [req' r']. cbn [snd] in Hf. subst r'. by exists req'.
Qed.

(** A document root with one file, and routes that throw. *)
Definition sample_fs : FileSystem := fun p =>
  if p =s str "../doc//a b.css" then Some (str "p {}") else None.

Definition sample_route (f : route_func) : func_ptr := fun cfg req r => raised archive_exception cfg req.

Definition sample_get (target : bytes) : request := set_uri request_init target.

Definition root_config : config := set_doc_root_ config_init (str "../doc/").
Definition denied_config : config := set_access_denied_ root_config [str "127.0.0.1"].

Lemma sample_fits target : size target < 2 ^ 62 -> fits root_config (sample_get target).
Proof.
  intros H. split; [done|]. cbn [sample_get uri set_uri]. change (size (doc_root_ root_config)) with 7.
  unfold npos. lia.
Qed.

Lemma handle_request_sound_witness :
  exists r', handle_request (H := sample_fs) id sample_route root_config (sample_get (str "/dir/user/auth"))
    (response_init 0) = Ok (root_config, sample_get (str "/dir/user/auth"), r') /\ sound_response r'.
Proof.
  pose proof (handle_request_sound sample_fs id sample_route root_config (sample_get (str "/dir/user/auth"))
    (response_init 0) (sample_fits (str "/dir/user/auth") eq_refl)) as H.
  eexists. split; [vm_compute; reflexivity|]. vm_compute in H. exact H.
Defined.


Lemma access_lists_witness :
  handle_request (H := sample_fs) id sample_route denied_config (sample_get (str "/")) (response_init 0) =
  Ok (denied_config, sample_get (str "/"), static_response 401).
Proof.
  apply (access_lists sample_fs id sample_route denied_config (sample_get (str "/")) (response_init 0)).
  right. split; [done|]. by apply (bool_decide_unpack _).
Defined.

Lemma handle_request_file_witness :
  exists req', handle_request (H := sample_fs) id sample_route root_config (sample_get (percent_encode (str "/a b.css")))
    (response_init 0) =
    Ok (root_config, req', mk_response 200 (file_headers (str "css") (str "p {}") false) [] (str "p {}") (str "css")).
Proof.
  apply (handle_request_file sample_fs id sample_route root_config (sample_get (percent_encode (str "/a b.css"))) 0
    (str "/a b.css") (str "a b.css") (str "p {}") (str "css"));
    [by apply sample_fits | done | unfold dotdot_free; by apply find_from_None | done
    | apply not_elem_of_nil | by left | vm_compute; reflexivity.. ].
Defined.
