(* ===== verification/Session.v ===== *)
(** * [src/src/session.cpp]: sessions kept in a signed cookie.

    A session is a vector of names and values that travels in a cookie: the
    percent-encoded archive of the vector, followed by the MD5 digest of that
    text and the configured key.  MD5 and boost's text archives are not in the
    repository: they are the class [SessionEnv], and what the round trip relies
    on is [SessionLaws].  The object's state is the request and the response it
    refers to and its vector; [std::time] is an argument at each call, and so
    are the sixteen bytes of the [boost::uuids::uuid] that [get_uuid] leaves
    uninitialised. *)
From S2P Require Import Prelude CxxString CxxTime Utility Request RequestContent Response Config.

Class SessionEnv : Type := {
  MD5 : bytes -> bytes;
  serialize : list name_value -> bytes;
  deserialize : bytes -> option (list name_value);  (* None: archive_exception *)
}.

Class SessionLaws (env : SessionEnv) : Prop := {
  md5_length s : length (MD5 s) = 16%nat;
  deserialize_serialize l : deserialize (serialize l) = Some l;
}.

Record session : Type := mk_session { s_req : request; s_res : response; session_ : list name_value }.

Definition set_s_req (s : session) (x : request) : session := mk_session x s.(s_res) s.(session_).
Definition set_s_res (s : session) (x : response) : session := mk_session s.(s_req) x s.(session_).
Definition set_session_ (s : session) (x : list name_value) : session := mk_session s.(s_req) s.(s_res) x.

Section Session.
Context `{SessionEnv} (cfg : config).

(** [session::get] *)
Definition session_get (s : session) (n : bytes) : session * bytes :=
  let '(l, v) := nv_get n s.(session_) in (set_session_ s l, v).

Definition cookie_value (l : list name_value) : bytes :=
  let v := percent_encode (serialize l) in
  v ++ md5_digest MD5 (v ++ cfg.(encrypt_key_)).

Definition serialize_and_set (s : session) : session :=
  set_s_res s (set_cookie s.(s_res) cfg.(sess_cookie_) (cookie_value s.(session_))).

(** [session::put] *)
Definition session_put (s : session) (n v : bytes) : session :=
  let '(l, _) := nv_get n s.(session_) in
  serialize_and_set (set_session_ s (nv_assign n v l)).

Definition get_uuid (uuid_ : bytes) : bytes := uuid_.

Definition get_curr_tm (now : Z) : bytes := to_string now.

Definition get_last_tm (s : session) : session * Z :=
  let '(s, v) := session_get s (str "last_tm") in (s, strtol (c_str v)).

Definition get_curr_ip (s : session) : bytes := s.(s_req).(remote_addr).

Definition get_last_ip (s : session) : session * bytes := session_get s (str "last_ip").

Definition get_curr_ua (s : session) : res (session * bytes) :=
  let '(req, v) := header s.(s_req) (str "User-Agent") in
  let* v := substr v 0 120 in
  Ok (set_s_req s req, v).

Definition get_last_ua (s : session) : session * bytes := session_get s (str "last_ua").

Definition session_keys_required : list bytes :=
  [str "sess_id"; str "last_tm"; str "last_ip"; str "last_ua"].

(** [res.delete_cookie(cfg.sess_cookie()); return false;] *)
Definition reject (s : session) : session * bool :=
  (set_s_res s (delete_cookie s.(s_res) cfg.(sess_cookie_)), false).

(** The checks of [load] after the vector is deserialised. *)
Definition check_ua (s : session) : res (session * bool) :=
  if cfg.(validate_ua_) then
    let* (s, curr) := get_curr_ua s in
    let '(s, last) := get_last_ua s in
    if negb (curr =s last) then Ok (reject s) else Ok (s, true)
  else Ok (s, true).

Definition check_ip (s : session) : res (session * bool) :=
  if cfg.(validate_ip_) then
    let '(s, last) := get_last_ip s in
    if negb (get_curr_ip s =s last) then Ok (reject s) else check_ua s
  else check_ua s.

Definition check_session (now : Z) (s : session) : res (session * bool) :=
  if negb (forallb (fun key => bool_decide (is_Some (nv_lookup key s.(session_)))) session_keys_required)
  then Ok (reject s)
  else
    let '(s, last) := get_last_tm s in
    if double_lt cfg.(expiry_sec_) (difftime now last) then Ok (reject s)
    else check_ip s.

(** [session::load] *)
Definition load (now : Z) (s : session) : res (session * bool) :=
  let '(req, session_cookie) := cookie s.(s_req) cfg.(sess_cookie_) in
  let s := set_s_req s req in
  if is_empty session_cookie then Ok (s, false)
  else
    let* session_md5 := substr session_cookie (sz_sub (size session_cookie) 32) npos in
    let* session_str := substr session_cookie 0 (sz_sub (size session_cookie) 32) in
    if negb (session_md5 =s md5_digest MD5 (session_str ++ cfg.(encrypt_key_))) then Ok (reject s)
    else
      match deserialize (percent_decode session_str) with
      | None => Throw archive_exception
      | Some l => check_session now (set_session_ s l)
      end.

(** [session::create] *)
Definition create (uuid_ : bytes) (now : Z) (s : session) : res session :=
  let sess_id := md5_digest MD5 (get_uuid uuid_) in
  let l := [mk_name_value (str "sess_id") sess_id; mk_name_value (str "last_tm") (get_curr_tm now);
            mk_name_value (str "last_ip") (get_curr_ip s)] in
  let s := set_session_ s l in
  let* (s, ua) := get_curr_ua s in
  Ok (serialize_and_set (set_session_ s (l ++ [mk_name_value (str "last_ua") ua]))).

(** [session::update]: [now] is read for the test, [now'] for the new time. *)
Definition update (uuid_ : bytes) (now now' : Z) (s : session) : session :=
  let '(s, last) := get_last_tm s in
  if double_lt (difftime now last) cfg.(update_sec_) then s
  else
    let new_sess_id := get_uuid uuid_ ++ get_curr_ip s in
    let s := session_put s (str "sess_id") (md5_digest MD5 new_sess_id) in
    let s := session_put s (str "last_tm") (get_curr_tm now') in
    serialize_and_set s.

(** The constructor. *)
Definition new_session (uuid_ : bytes) (now now' : Z) (req : request) (r : response) : res session :=
  let* (s, loaded) := load now (mk_session req r []) in
  if negb loaded then create uuid_ now' s else Ok (update uuid_ now now' s).
End Session.

(** ** Lemmas *)

Definition sess_value (n : bytes) (l : list name_value) : bytes := default [] (nv_lookup n l).

Definition has_keys (l : list name_value) : Prop := forall k, k ∈ session_keys_required -> is_Some (nv_lookup k l).

Lemma has_keys_true l :
  forallb (fun key => bool_decide (is_Some (nv_lookup key l))) session_keys_required = true <-> has_keys l.
Proof.
  rewrite forallb_forall. unfold has_keys.
  split; intros H k Hk; [apply (bool_decide_eq_true _), H | apply bool_decide_eq_true, H]; by apply list_elem_of_In.
Qed.

Lemma nv_get_present n l : is_Some (nv_lookup n l) -> nv_get n l = (l, sess_value n l).
Proof. intros [v E]. unfold nv_get, sess_value. by rewrite E. Qed.

Lemma session_get_present s n :
  is_Some (nv_lookup n s.(session_)) -> session_get s n = (s, sess_value n s.(session_)).
Proof. intros H. unfold session_get. rewrite nv_get_present by done. by destruct s. Qed.

Lemma session_put_lookup `{SessionEnv} cfg s n v m :
  nv_lookup m (session_put cfg s n v).(session_) = if m =s n then Some v else nv_lookup m s.(session_).
Proof.
  unfold session_put. destruct (nv_get n (session_ s)) as [l x] eqn:E. cbn.
  assert (l = (nv_get n (session_ s)).1) as -> by by rewrite E.
  rewrite nv_lookup_assign, !nv_lookup_get. rewrite eqs_refl.
  destruct (m =s n) eqn:F; [by destruct (nv_lookup n (session_ s))|].
  destruct (nv_lookup m (session_ s)); done.
Qed.

Lemma hex_lower_safe b c : c ∈ sprintf_02x b -> isalnum c = true.
Proof.
  assert (forall b, forallb isalnum (sprintf_02x b) = true) as H by (apply byte_forall; vm_compute; reflexivity).
  specialize (H b). rewrite forallb_forall in H. intros Hin. by apply H, list_elem_of_In.
Qed.

Section Digest.
Context `{SessionLaws}.

Lemma md5_digest_length s : length (md5_digest MD5 s) = 32%nat.
Proof.
  unfold md5_digest. pose proof (md5_length (c_str s)) as Hl.
  rewrite <- Hl, firstn_all. revert Hl. generalize (MD5 (c_str s)). intros d Hd.
  assert (length (flat_map sprintf_02x d) = (2 * length d)%nat) as -> by (clear; induction d; simpl in *; lia).
  lia.
Qed.

Lemma md5_digest_size s : size (md5_digest MD5 s) = 32.
Proof. unfold size. by rewrite md5_digest_length. Qed.

Lemma md5_digest_safe s c : c ∈ md5_digest MD5 s -> isalnum c = true.
Proof using.
  unfold md5_digest. rewrite list_elem_of_In, in_flat_map. intros (b & _ & Hb).
  eapply hex_lower_safe. by apply list_elem_of_In.
Qed.

(** A cookie value is made of unreserved characters and percent signs. *)
Lemma cookie_value_safe cfg l c : c ∈ cookie_value cfg l -> percent_safe c = true.
Proof using.
  unfold cookie_value. rewrite elem_of_app. intros [Hin|Hin].
  - pose proof (percent_encode_safe (serialize l)) as Hs. rewrite Forall_forall in Hs. by apply Hs.
  - apply md5_digest_safe in Hin. unfold percent_safe, unreserved. by rewrite Hin.
Qed.

Lemma cookie_value_avoids cfg l c : percent_safe c = false -> c ∉ cookie_value cfg l.
Proof using. intros Hc Hin%cookie_value_safe. congruence. Qed.
End Digest.

Lemma substr_last32 a b :
  size b = 32 -> size (a ++ b) < npos ->
  substr (a ++ b) (sz_sub (size (a ++ b)) 32) npos = Ok b /\
  substr (a ++ b) 0 (sz_sub (size (a ++ b)) 32) = Ok a.
Proof.
  intros Hb Hsz. rewrite sz_sub_small by size_lia. replace (size (a ++ b) - 32) with (size a) by size_lia.
  split; [apply substr_app_all; size_lia|].
  pose proof (substr_middle [] a b) as Hs. cbn [app] in Hs. exact Hs.
Qed.

(** What a cookie must be for [load] to accept the session [l] it carries. *)
Record accepted `{SessionEnv} (cfg : config) (now : Z) (req : request) (value : bytes) (l : list name_value) : Prop := {
  acc_signed : exists body, value = body ++ md5_digest MD5 (body ++ cfg.(encrypt_key_)) /\
    deserialize (percent_decode body) = Some l;
  acc_keys : has_keys l;
  acc_fresh : double_lt cfg.(expiry_sec_) (difftime now (strtol (c_str (sess_value (str "last_tm") l)))) = false;
  acc_ip : cfg.(validate_ip_) = true -> req.(remote_addr) = sess_value (str "last_ip") l;
  acc_ua : cfg.(validate_ua_) = true ->
    take 120 (header req (str "User-Agent")).2 = sess_value (str "last_ua") l;
}.

Lemma substr_120 v : substr v 0 120 = Ok (take 120 v).
Proof.
  unfold substr. destruct (Z.ltb_spec (size v) 0); [size_lia|].
  rewrite Z.sub_0_r. assert (suffix_at v 0 = v) as -> by (unfold suffix_at; by destruct (size v <? 0) eqn:?; [size_lia|]). apply (f_equal Ok).
  destruct (Z.min_spec 120 (size v)) as [[? ->]|[? ->]]; [done|].
  rewrite !take_ge by (unfold size in *; lia). done.
Qed.

Section Load.
Context `{SessionLaws} (cfg : config) (now : Z).
Implicit Types s : session.

(** The checks, on a session that has the four entries. *)
Lemma check_session_eq s :
  has_keys s.(session_) ->
  check_session cfg now s =
    if double_lt cfg.(expiry_sec_) (difftime now (strtol (c_str (sess_value (str "last_tm") s.(session_)))))
    then Ok (reject cfg s)
    else if cfg.(validate_ip_) && negb (s.(s_req).(remote_addr) =s sess_value (str "last_ip") s.(session_))
    then Ok (reject cfg s)
    else if cfg.(validate_ua_) then
      let '(req, v) := header s.(s_req) (str "User-Agent") in
      if negb (take 120 v =s sess_value (str "last_ua") s.(session_)) then Ok (reject cfg (set_s_req s req))
      else Ok (set_s_req s req, true)
    else Ok (s, true).
Proof using.
  intros Hk. unfold check_session. rewrite (proj2 (has_keys_true _) Hk). cbn [negb].
  assert (forall k, bool_decide (k ∈ session_keys_required) = true -> is_Some (nv_lookup k (session_ s))) as Kd
    by (intros k Hd; by apply Hk, (bool_decide_eq_true _)).
  unfold get_last_tm. rewrite session_get_present by by apply Kd.
  destruct (double_lt _ _); [done|]. unfold check_ip, get_last_ip, get_curr_ip.
  rewrite session_get_present by by apply Kd.
  assert (check_ua cfg s = if cfg.(validate_ua_) then
      let '(req, v) := header s.(s_req) (str "User-Agent") in
      if negb (take 120 v =s sess_value (str "last_ua") s.(session_)) then Ok (reject cfg (set_s_req s req))
      else Ok (set_s_req s req, true)
    else Ok (s, true)) as E.
  { unfold check_ua, get_curr_ua, get_last_ua. destruct (validate_ua_ cfg); [|done].
    destruct (header (s_req s) (str "User-Agent")) as [req v]. rewrite substr_120. cbn [mbind res_bind].
    by rewrite session_get_present by by apply Kd. }
  rewrite E. by destruct (validate_ip_ cfg); cbn [andb]; [destruct (_ =s _)|].
Qed.

Lemma check_session_keys s s' :
  check_session cfg now s = Ok (s', true) -> has_keys s.(session_).
Proof using.
  unfold check_session. destruct (forallb _ _) eqn:K; cbn [negb]; [intros _; by apply has_keys_true | done].
Qed.

Lemma check_session_true s s' :
  check_session cfg now s = Ok (s', true) ->
  s'.(session_) = s.(session_) /\ s'.(s_res) = s.(s_res) /\ s'.(s_req).(remote_addr) = s.(s_req).(remote_addr) /\
  forall value, (exists body, value = body ++ md5_digest MD5 (body ++ cfg.(encrypt_key_)) /\
    deserialize (percent_decode body) = Some s.(session_)) -> accepted cfg now s.(s_req) value s.(session_).
Proof using.
  intros E. pose proof (check_session_keys _ _ E) as Hk. rewrite check_session_eq in E by done.
  destruct (double_lt _ _) eqn:F; [done|].
  destruct (_ && _) eqn:G in E; [done|].
  assert (cfg.(validate_ip_) = true -> s.(s_req).(remote_addr) = sess_value (str "last_ip") s.(session_)) as Hip.
  { intros V. rewrite V in G. cbn [andb] in G. apply negb_false_iff in G. by apply eqs_true. }
  destruct (validate_ua_ cfg) eqn:V.
  - unfold header in E. destruct (nv_get (str "User-Agent") _) as [l v] eqn:N.
    destruct (take 120 v =s _) eqn:A in E; cbn [negb] in E; [|done]. injection E as <-.
    apply eqs_true in A. split_and!; [done..|]. intros value Hv. split; try done.
    intros _. unfold header. by rewrite N.
  - injection E as <-. split_and!; [done..|]. intros value Hv. split; try done. by rewrite V.
Qed.

Lemma check_session_accepted s value :
  accepted cfg now s.(s_req) value s.(session_) ->
  exists s', check_session cfg now s = Ok (s', true) /\ s'.(session_) = s.(session_).
Proof using.
  intros [_ Hk Hf Hip Hua]. rewrite check_session_eq by done. rewrite Hf.
  assert (cfg.(validate_ip_) && negb (s.(s_req).(remote_addr) =s sess_value (str "last_ip") s.(session_)) = false) as ->.
  { destruct (validate_ip_ cfg); [|done]. rewrite Hip by done. by rewrite eqs_refl. }
  destruct (validate_ua_ cfg); [|by eexists].
  specialize (Hua eq_refl). destruct (header (s_req s) (str "User-Agent")) as [req v]. cbn [snd] in Hua.
  rewrite Hua, eqs_refl. by eexists.
Qed.
End Load.

Lemma cookie_present req n v :
  nv_lookup n req.(cookies) = Some v -> cookie req n = (req, v).
Proof. intros E. unfold cookie, nv_get. rewrite E. by destruct req. Qed.

Lemma header_set_cookies req c n : (header (set_cookies req c) n).2 = (header req n).2.
Proof. unfold header. cbn [headers set_cookies]. by destruct (nv_get n (headers req)). Qed.

Section LoadSpec.
Context `{SessionLaws} (cfg : config) (now : Z).

(** [load] on a cookie that is signed. *)
Lemma load_signed req r body l :
  nv_lookup cfg.(sess_cookie_) req.(cookies) = Some (body ++ md5_digest MD5 (body ++ cfg.(encrypt_key_))) ->
  size (body ++ md5_digest MD5 (body ++ cfg.(encrypt_key_))) < npos ->
  deserialize (percent_decode body) = Some l ->
  load cfg now (mk_session req r []) = check_session cfg now (mk_session req r l).
Proof.
  intros Hc Hsz Hd. unfold load. cbn [s_req]. rewrite (cookie_present _ _ _ Hc). cbn [set_s_req s_req s_res session_].
  pose proof (md5_digest_size (body ++ encrypt_key_ cfg)) as Hm.
  destruct (is_empty _) eqn:E.
  { apply (f_equal negb) in E. destruct (body ++ md5_digest _ _) eqn:F; [|done].
    apply app_eq_nil in F as [_ F]. by rewrite F in Hm. }
  destruct (substr_last32 body _ Hm Hsz) as [-> ->]. cbn [mbind res_bind].
  rewrite eqs_refl. cbn [negb]. by rewrite Hd.
Qed.

Lemma load_true req r s' :
  (forall v, nv_lookup cfg.(sess_cookie_) req.(cookies) = Some v -> size v < npos) ->
  load cfg now (mk_session req r []) = Ok (s', true) ->
  exists value, nv_lookup cfg.(sess_cookie_) req.(cookies) = Some value /\
    accepted cfg now req value s'.(session_).
Proof using.
  intros Hsz. unfold load, cookie, nv_get. cbn [s_req].
  destruct (nv_lookup cfg.(sess_cookie_) req.(cookies)) as [value|] eqn:Ev; [|done].
  specialize (Hsz value eq_refl). intros E. exists value. split; [done|].
  assert (set_cookies req (cookies req) = req) as Er by by destruct req. rewrite Er in E. cbn [set_s_req] in E.
  destruct (is_empty value); [done|].
  apply bind_Ok_inv in E as (m & Em & E). apply bind_Ok_inv in E as (body & Eb & E).
  destruct (m =s _) eqn:F; cbn [negb] in E; [|done]. apply eqs_true in F.
  destruct (deserialize (percent_decode body)) as [l|] eqn:D; [|done].
  apply check_session_true in E as (El & _ & _ & Hacc). cbn [s_req session_ set_session_ set_s_req] in *.
  rewrite El. apply Hacc. exists body. split; [|done]. rewrite <- F.
  unfold substr in Em, Eb.
  destruct (Z.ltb_spec (size value) (sz_sub (size value) 32)) as [|Hle]; [done|].
  destruct (Z.ltb_spec (size value) 0); [size_lia|]. injection Em as <-. injection Eb as <-.
  assert (0 <= sz_sub (size value) 32) by (apply Z.mod_pos_bound; lia).
  set (k := sz_sub (size value) 32) in *.
  unfold suffix_at. destruct (Z.ltb_spec (size value) 0); [size_lia|]. destruct (Z.ltb_spec (size value) k); [lia|].
  rewrite Z.sub_0_r, Z.min_l, drop_0 by lia.
  rewrite (take_ge (drop _ _)) by (rewrite length_drop; unfold size in *; lia).
  symmetry. apply take_drop.
Qed.

Lemma load_accepted req r value l :
  nv_lookup cfg.(sess_cookie_) req.(cookies) = Some value -> size value < npos ->
  accepted cfg now req value l ->
  exists s', load cfg now (mk_session req r []) = Ok (s', true) /\ s'.(session_) = l.
Proof.
  intros Hc Hsz Hacc. destruct (acc_signed _ _ _ _ _ Hacc) as (body & -> & Hd).
  rewrite (load_signed req r body l) by done. by apply (check_session_accepted cfg now (mk_session req r l) _ Hacc).
Qed.
End LoadSpec.

Lemma substr_throws s pos n : match substr s pos n with Ok _ => True | Throw e => e = out_of_range | UB _ => False end.
Proof. unfold substr. by destruct (_ <? _). Qed.

Lemma check_session_ok `{SessionEnv} cfg now s : exists s' b, check_session cfg now s = Ok (s', b).
Proof.
  destruct (forallb (fun key => bool_decide (is_Some (nv_lookup key s.(session_)))) session_keys_required) eqn:K.
  - apply has_keys_true in K. rewrite check_session_eq by done. repeat case_match; eauto.
  - unfold check_session. rewrite K. eauto.
Qed.

Lemma load_outcome `{SessionEnv} cfg now s :
  match load cfg now s with
  | Ok (s', b) => b = true -> has_keys s'.(session_)
  | Throw e => e = out_of_range \/ e = archive_exception
  | UB _ => False
  end.
Proof.
  unfold load. destruct (cookie (s_req s) (sess_cookie_ cfg)) as [req v]. destruct (is_empty v); [done|].
  pose proof (substr_throws v (sz_sub (size v) 32) npos) as H1.
  destruct (substr v (sz_sub (size v) 32) npos) as [m|e|u]; cbn [mbind res_bind]; [|by left|done].
  pose proof (substr_throws v 0 (sz_sub (size v) 32)) as H2.
  destruct (substr v 0 (sz_sub (size v) 32)) as [body|e|u]; cbn [mbind res_bind]; [|by left|done].
  destruct (negb _); [done|]. destruct (deserialize _) as [l|]; [|by right].
  set (s1 := set_session_ _ l). destruct (check_session cfg now s1) as [[s' []]|e|u] eqn:E; [|done| |].
  - intros _. pose proof (check_session_keys _ _ _ _ E) as Hk. by apply check_session_true in E as (-> & _).
  - by destruct (check_session_ok cfg now s1) as (? & ? & E'); rewrite E in E'.
  - by destruct (check_session_ok cfg now s1) as (? & ? & E'); rewrite E in E'.
Qed.

Section Create.
Context `{SessionEnv} (cfg : config).

(** The vector that [create] makes. *)
Definition created (uuid_ : bytes) (now : Z) (req : request) : list name_value :=
  [mk_name_value (str "sess_id") (md5_digest MD5 uuid_); mk_name_value (str "last_tm") (to_string now);
   mk_name_value (str "last_ip") req.(remote_addr);
   mk_name_value (str "last_ua") (take 120 (header req (str "User-Agent")).2)].

Lemma create_spec uuid_ now s :
  create cfg uuid_ now s =
    Ok (mk_session (header s.(s_req) (str "User-Agent")).1
      (set_cookie s.(s_res) cfg.(sess_cookie_) (cookie_value cfg (created uuid_ now s.(s_req))))
      (created uuid_ now s.(s_req))).
Proof using.
  unfold create, get_curr_ua, created. cbn [s_req set_session_ s_res session_].
  destruct (header (s_req s) (str "User-Agent")) as [req v]. rewrite substr_120. done.
Qed.

Lemma created_keys uuid_ now req : has_keys (created uuid_ now req).
Proof using.
  intros k Hk. repeat (apply elem_of_cons in Hk as [->|Hk]; [by eexists|]). by apply elem_of_nil in Hk.
Qed.

Lemma put_keys s n v : has_keys s.(session_) -> has_keys (session_put cfg s n v).(session_).
Proof using. intros Hk k Hin. rewrite session_put_lookup. destruct (k =s n); [by eexists | by apply Hk]. Qed.

Lemma update_keys uuid_ now now' s : has_keys s.(session_) -> has_keys (update cfg uuid_ now now' s).(session_).
Proof using.
  intros Hk. unfold update, get_last_tm.
  rewrite session_get_present by (apply Hk; by apply (bool_decide_unpack _)).
  destruct (double_lt _ _); [done|]. by do 2 apply put_keys.
Qed.
End Create.

(** ** Properties *)

(** C15: [load] accepts exactly the cookies that carry a complete session with
    the digest of their text and the key, not older than the configured age
    and, where the configuration asks for it, from the same address and user
    agent; the session it leaves is the one the cookie carries. *)
Theorem load_spec `{Hlaws : SessionLaws} cfg now req r l :
  (forall v, nv_lookup cfg.(sess_cookie_) req.(cookies) = Some v -> size v < npos) ->
  (exists s', load cfg now (mk_session req r []) = Ok (s', true) /\ s'.(session_) = l) <->
  (exists value, nv_lookup cfg.(sess_cookie_) req.(cookies) = Some value /\ accepted cfg now req value l).
Proof.
  intros Hsz. split.
  - intros (s' & E & <-). by eapply load_true.
  - intros (value & Hc & Hacc). eapply load_accepted; eauto.
Qed.

(** C25: a session survives the trip to the client: the cookie that [create] sets,
    sent back among others in the Cookie header of a request from the same
    client before the session expires, is parsed and loaded as the same
    session. *)
Theorem session_survives `{Hlaws : SessionLaws} cfg uuid_ t now s0 s1 req2 r2 others :
  create cfg uuid_ t s0 = Ok s1 -> 0 <= t <= LONG_MAX ->
  double_lt cfg.(expiry_sec_) (difftime now t) = false ->
  wf_cookie (mk_name_value cfg.(sess_cookie_) []) -> Forall wf_cookie others ->
  let sent := mk_name_value cfg.(sess_cookie_) (cookie_value cfg s1.(session_)) :: others in
  nv_lookup (str "Cookie") req2.(headers) = Some (render_cookies sent) -> size (render_cookies sent) < npos ->
  req2.(cookies) = [] -> req2.(remote_addr) = s0.(s_req).(remote_addr) ->
  (header req2 (str "User-Agent")).2 = (header s0.(s_req) (str "User-Agent")).2 ->
  nv_lookup cfg.(sess_cookie_) s1.(s_res).(res_cookies) = Some (cookie_value cfg s1.(session_)) /\
  exists req s', parse_cookies req2 = Ok req /\
    load cfg now (mk_session req r2 []) = Ok (s', true) /\ s'.(session_) = s1.(session_).
Proof.
  intros Hcr Ht Hfresh Hwf Hothers. rewrite create_spec in Hcr. injection Hcr as <-.
  cbn [session_ s_res]. cbn zeta. intros Hh Hsz Hnone Hip Hua.
  split; [by rewrite set_cookie_lookup, eqs_refl|].
  set (l := created uuid_ t (s_req s0)) in *. set (c := mk_name_value cfg.(sess_cookie_) (cookie_value cfg l)) in *.
  assert (wf_cookie c) as Hc.
  { destruct Hwf as [Hn _]. split; [exact Hn|]. by apply cookie_value_avoids. }
  eexists. rewrite (parse_cookies_of_render req2 (c :: others)); [|done|by apply Forall_cons|done|done].
  rewrite Hnone. cbn [app].
  destruct (load_accepted cfg now (set_cookies req2 (c :: others)) r2 (cookie_value cfg l) l) as (s' & E & El).
  - cbn [cookies set_cookies nv_lookup name c value]. by rewrite eqs_refl.
  - assert (size (cookie_value cfg l) <= size (render_cookies (c :: others))); [|lia].
    destruct others; cbn [render_cookies]; unfold render_cookie; cbn [value c]; size_lia.
  - constructor.
    + eexists. split; [reflexivity|]. rewrite percent_decode_encode_id. apply deserialize_serialize.
    + apply created_keys.
    + change (sess_value (str "last_tm") l) with (to_string t).
      rewrite c_str_no_nul, strtol_to_string; [done | lia | by apply to_string_avoids; [lia|]].
    + intros _. cbn [remote_addr set_cookies]. by rewrite Hip.
    + intros _. change (sess_value (str "last_ua") l) with (take 120 (header (s_req s0) (str "User-Agent")).2).
      by rewrite <- Hua, header_set_cookies.
  - by exists s'.
Qed.

(** Whatever the request carries, a constructed session is complete: it has
    its identifier, time, address and user agent, or the constructor threw; and
    the value it puts in a cookie is safe in a header. *)
Theorem new_session_complete `{Hlaws : SessionLaws} cfg uuid_ now now' req r :
  match new_session cfg uuid_ now now' req r with
  | Ok s => has_keys s.(session_)
  | Throw e => e = out_of_range \/ e = archive_exception
  | UB _ => False
  end /\
  (forall l, (Byte.x0d ∉ cfg.(sess_cookie_)) -> 
     wf_field (mk_name_value (str "Set-Cookie") (cfg.(sess_cookie_) ++ str "=" ++ cookie_value cfg l ++ str "; path=/"))).
Proof.
  split.
  - unfold new_session. pose proof (load_outcome cfg now (mk_session req r [])) as Hl.
    destruct (load cfg now _) as [[s []]|e|u]; cbn [mbind res_bind negb]; [|rewrite create_spec|done|done].
    + apply update_keys, Hl, eq_refl.
    + apply created_keys.
  - intros l Hn. split; [split; by apply mem_false|]. cbn [value]. rewrite !elem_of_app.
    intros [|[Hin|[Hin|Hin]]]; [done| | |].
    + by apply mem_true in Hin.
    + by apply cookie_value_avoids in Hin.
    + by apply mem_true in Hin.
Qed.

(** A digest and an archive for the examples. *)
#[export] Instance name_value_countable : Countable name_value :=
  inj_countable' (fun nv => (nv.(name), nv.(value))) (fun p => mk_name_value p.1 p.2)
    (fun nv => match nv with mk_name_value _ _ => eq_refl end).

Fixpoint bytes_of_pos (p : positive) : bytes :=
  match p with xH => [] | xO p => Byte.x00 :: bytes_of_pos p | xI p => Byte.x01 :: bytes_of_pos p end.

Fixpoint pos_of_bytes (s : bytes) : positive :=
  match s with
  | [] => xH
  | c :: s => if c =c Byte.x00 then xO (pos_of_bytes s) else xI (pos_of_bytes s)
  end.

Lemma pos_of_bytes_of_pos p : pos_of_bytes (bytes_of_pos p) = p.
Proof. induction p as [p IH|p IH|]; simpl; by rewrite ?IH. Qed.

Definition sample_env : SessionEnv := {|
  MD5 s := take 16 (s ++ repeat Byte.x00 16);
  serialize l := bytes_of_pos (encode l);
  deserialize s := decode (pos_of_bytes s);
|}.

#[export] Instance sample_laws : SessionLaws sample_env.
Proof.
  split.
  - intros s. cbn [MD5 sample_env]. rewrite length_take, length_app. cbn [repeat length]. lia.
  - intros l. cbn [deserialize serialize sample_env]. rewrite pos_of_bytes_of_pos. apply decode_encode.
Qed.

Definition session_config : config :=
  set_sess_cookie_ (set_encrypt_key_ (set_expiry_sec_ config_init (double_of_Z 3600)) (str "MY_ENC_KEY")) (str "waspp_sess").

Definition first_request : request := set_remote_addr request_init (str "127.0.0.1").

Definition first_session : session :=
  let l := created (H := sample_env) [] 1000 first_request in
  mk_session (header first_request (str "User-Agent")).1
    (set_cookie (response_init 0) (str "waspp_sess") (cookie_value (H := sample_env) session_config l)) l.

Definition second_cookie : name_value :=
  mk_name_value (str "waspp_sess") (cookie_value (H := sample_env) session_config first_session.(session_)).

Definition second_request : request :=
  set_headers first_request [mk_name_value (str "Cookie") (render_cookies [second_cookie])].

Lemma load_spec_witness : exists value, exists s',
  load (H := sample_env) session_config 2000
    (mk_session (set_cookies request_init [mk_name_value (str "waspp_sess") value]) (response_init 0) []) = Ok (s', true) /\
  s'.(session_) = first_session.(session_).
Proof.
  exists (value second_cookie).
  apply (load_spec (Hlaws := sample_laws) session_config 2000).
  - intros v [= <-]. vm_compute. reflexivity.
  - exists (value second_cookie). split; [reflexivity|]. split.
    + eexists. split; [reflexivity|]. rewrite percent_decode_encode_id. apply deserialize_serialize.
    + apply created_keys.
    + vm_compute. reflexivity.
    + discriminate.
    + discriminate.
Defined.

Lemma session_survives_witness : exists req s',
  parse_cookies second_request = Ok req /\
  load (H := sample_env) session_config 2000 (mk_session req (response_init 0) []) = Ok (s', true) /\
  s'.(session_) = first_session.(session_).
Proof.
  apply (session_survives (Hlaws := sample_laws) session_config [] 1000 2000 (mk_session first_request (response_init 0) [])
    first_session second_request (response_init 0) []).
  - reflexivity.
  - unfold LONG_MAX. lia.
  - vm_compute. reflexivity.
  - split; [|apply not_elem_of_nil]. split_and!; [by apply mem_false.. |]. intros c n [= <- _]. reflexivity.
  - apply Forall_nil_2.
  - reflexivity.
  - vm_compute. reflexivity.
  - reflexivity.
  - reflexivity.
  - reflexivity.
Defined.

Lemma new_session_complete_witness :
  wf_field (mk_name_value (str "Set-Cookie")
    (str "waspp_sess" ++ str "=" ++ cookie_value (H := sample_env) session_config [] ++ str "; path=/")).
Proof.
  apply (new_session_complete (Hlaws := sample_laws) session_config [] 0 0 request_init (response_init 0)).
  by apply mem_false.
Defined.
