(* ===== verification/Connection.v ===== *)
(** * [src/src/connection.cpp], [src/src/connection_ssl.cpp]: the life of a
    connection.

    Every function starts one asynchronous operation and returns; what happens
    next is the completion handler of that operation.  A connection is its
    members and the operation it waits for, [phase]; an [event] is a
    completion, with its error code ([true] when it is set) and the bytes
    transferred.  The strand runs one handler at a time.  An exception that
    leaves a handler leaves [io_service::run] in a thread without a [catch]
    block: the process ends.  [ssl] tells [connection_ssl] from [connection]. *)
From S2P Require Import Prelude CxxString Utility Request RequestParser RequestGrammar RequestContent Response Config Router RequestHandler.

(** The pending operation: [async_handshake], [async_read_some],
    [async_write] of the buffers; or none: [shutdown] was called, the object
    was let go after an error, or an exception ended the process. *)
Inductive phase : Type :=
  | handshaking
  | reading
  | writing (buffers : list bytes)
  | shut
  | dropped
  | terminated (e : exn).

Record connection : Type := mk_connection {
  c_cfg : config;                  (* the shared configuration *)
  c_parser : state.state_t;        (* request_parser_ *)
  c_request : request;
  c_response : response;
  c_phase : phase;
  c_wire : bytes;                  (* the bytes of the writes that completed *)
}.

Inductive event : Type :=
  | handshake_done (e : bool)
  | read_done (e : bool) (data : bytes)
  | write_done (e : bool).

Section Connection.
Context `{FileSystem} (gzip : bytes -> bytes) (run_route : route_func -> func_ptr).
Context (ssl : bool) (remote_ip : bytes) (remote_port_ : Z).

(** [do_write]: the buffers are made here, the request and the response stay. *)
Definition do_write (c : connection) : connection :=
  mk_connection c.(c_cfg) c.(c_parser) c.(c_request) c.(c_response)
    (writing (to_buffers c.(c_response))) c.(c_wire).

Definition do_read (c : connection) : connection :=
  mk_connection c.(c_cfg) c.(c_parser) c.(c_request) c.(c_response) reading c.(c_wire).

Definition with_phase (c : connection) (p : phase) : connection :=
  mk_connection c.(c_cfg) c.(c_parser) c.(c_request) c.(c_response) p c.(c_wire).

(** [start]; the parser's constructor resets it. The request and the response
    are default-initialised: [req0] and [res0] hold what the memory had. *)
Definition start (cfg : config) (req0 : request) (res0 : response) : connection :=
  mk_connection cfg reset req0 res0 (if ssl then handshaking else reading) [].

(** What follows a complete request, up to [do_write]. *)
Definition process (cfg : config) (req : request) (r : response) : res (config * request * response) :=
  let req := set_remote_addr req remote_ip in
  let req := set_remote_port req remote_port_ in
  let* req := parse_connection_header req in
  let* req := parse_params req in
  let* req := parse_cookies req in
  let* req := parse_content req in
  handle_request gzip run_route cfg req r.

Definition on_read (c : connection) (data : bytes) : res connection :=
  let* (result, s, req, _) := parse c.(c_parser) c.(c_request) data in
  match result with
  | true_ =>
      let* (cfg, req, r) := process c.(c_cfg) req c.(c_response) in
      Ok (do_write (mk_connection cfg s req r c.(c_phase) c.(c_wire)))
  | false_ =>
      let r := static_response status_type.bad_request in
      Ok (do_write (mk_connection c.(c_cfg) s req r c.(c_phase) c.(c_wire)))
  | indeterminate =>
      Ok (do_read (mk_connection c.(c_cfg) s req c.(c_response) c.(c_phase) c.(c_wire)))
  end.

(** [connection_ssl] has no closing branch. *)
Definition on_write (c : connection) : connection :=
  if negb ssl && (c.(c_request).(connection_option) =c "c"%byte) then with_phase c shut
  else do_read (mk_connection c.(c_cfg) reset request_init (response_init 0) c.(c_phase) c.(c_wire)).

(** An event the connection waits for; [None] for any other. *)
Definition handle_event (c : connection) (ev : event) : option (res connection) :=
  match c.(c_phase), ev with
  | handshaking, handshake_done e => Some (Ok (if e then with_phase c dropped else do_read c))
  | reading, read_done e data =>
      Some (if e then Ok (with_phase c dropped)
            else match on_read c data with
                 | Throw x => Ok (with_phase c (terminated x))
                 | o => o
                 end)
  | writing bufs, write_done e =>
      let c' := mk_connection c.(c_cfg) c.(c_parser) c.(c_request) c.(c_response) c.(c_phase)
        (c.(c_wire) ++ concat bufs) in
      Some (Ok (if e then with_phase c dropped else on_write c'))
  | _, _ => None
  end.

Inductive step (c : connection) (ev : event) (c' : connection) : Prop :=
  | step_event : handle_event c ev = Some (Ok c') -> step c ev c'.

Inductive reachable (c0 : connection) : connection -> Prop :=
  | reach_start : reachable c0 c0
  | reach_step c ev c' : reachable c0 c -> step c ev c' -> reachable c0 c'.

(** A run over a list of events. *)
Fixpoint run_events (c : connection) (evs : list event) : option (res connection) :=
  match evs with
  | [] => Some (Ok c)
  | ev :: evs' =>
      match handle_event c ev with
      | Some (Ok c') => run_events c' evs'
      | o => o
      end
  end.
End Connection.

(** ** Lemmas: from a parsed request to its response *)

(** Strings that fit in memory, with room to spare. *)
Record in_memory (req : request) : Prop := {
  mem_uri : size req.(uri) < 2 ^ 60;
  mem_content : size req.(content) < 2 ^ 60;
  mem_headers : Forall (fun nv => size nv.(value) < 2 ^ 60) req.(headers);
}.

Lemma header_value_mem req n : in_memory req -> size (header req n).2 < 2 ^ 60.
Proof.
  intros [_ _ Hh]. unfold header, nv_get.
  destruct (nv_lookup n (headers req)) as [v|] eqn:E; cbn [snd]; [|done].
  induction Hh as [|nv l Hnv Hl IH]; [done|]. cbn [nv_lookup] in E.
  destruct (name nv =s n); [by injection E as <- | auto].
Qed.

Lemma header_keeps_mem req n : in_memory req -> in_memory (header req n).1.
Proof.
  intros [Hu Hc Hh]. unfold header, nv_get.
  destruct (nv_lookup n (headers req)); cbn [fst]; split; try done; cbn [headers set_headers].
  - apply Forall_app. split; [done|]. by repeat constructor.
Qed.

Lemma header_keeps_uri req n : (header req n).1.(uri) = req.(uri).
Proof. unfold header. by destruct (nv_get n _). Qed.

(** The steps of [process] before [handle_request] keep the target. *)
Definition keeps (req : request) (req' : request) : Prop :=
  in_memory req' /\ req'.(uri) = req.(uri).

Lemma set_headers_mem req l c : in_memory (set_headers req l) -> in_memory (set_connection_option (set_headers req l) c).
Proof. by intros []. Qed.

Lemma parse_connection_header_ok req :
  in_memory req -> exists req', parse_connection_header req = Ok req' /\ keeps req req'.
Proof.
  intros Hm. rewrite parse_connection_header_spec. eexists. split; [reflexivity|].
  pose proof (header_keeps_mem _ (str "Connection") Hm) as []. split; [done|]. apply header_keeps_uri.
Qed.

Lemma parse_params_ok req :
  in_memory req ->
  match parse_params req with
  | Ok req' => keeps req req'
  | Throw _ => False
  | UB u => u = erase_of_end /\ req.(uri) = []
  end.
Proof.
  intros Hm. unfold parse_params, split.
  cbn [rest_params set_rest_params].
  destruct (rest_params req ++ split_loop (percent_decode (uri req)) "/"%byte []) as [|x l] eqn:E.
  - split; [done|]. apply app_eq_nil in E as [_ E].
    destruct (uri req) as [|c s] eqn:F; [done|]. exfalso.
    eapply (split_loop_nonempty (percent_decode (c :: s)) "/"%byte []); [|done].
    by apply percent_decode_nonempty.
  - cbn [params set_rest_params]. destruct (size (params req) =? 0); by destruct Hm.
Qed.

Lemma parse_cookies_ok req :
  in_memory req -> exists req', parse_cookies req = Ok req' /\ keeps req req'.
Proof.
  intros Hm. unfold parse_cookies.
  pose proof (header_value_mem req (str "Cookie") Hm) as Hv.
  pose proof (header_keeps_mem req (str "Cookie") Hm) as Hm'.
  pose proof (header_keeps_uri req (str "Cookie")) as Hu.
  destruct (header req (str "Cookie")) as [r data]. cbn [fst snd] in *.
  destruct (is_empty data); [by exists r|].
  destruct (parse_cookies_loop_total (S (length data)) data 0 r) as (l & ->);
    [size_lia | unfold npos; lia | unfold size; lia|].
  eexists. split; [reflexivity|]. by destruct Hm'.
Qed.

Lemma parse_content_ok req :
  in_memory req ->
  match parse_content req with
  | Ok req' => keeps req req'
  | Throw e => e = invalid_part
  | UB _ => False
  end.
Proof.
  intros Hm. pose proof (header_value_mem req (str "Content-Type") Hm) as Hv.
  pose proof (parse_content_total req ltac:(destruct Hm; lia) Hv) as H.
  destruct (parse_content req) as [r|e|u] eqn:E; [|done..]. apply parse_content_extended in E as (ps & us & ->).
  pose proof (header_keeps_mem req (str "Content-Type") Hm) as Hm'.
  pose proof (header_keeps_uri req (str "Content-Type")) as Hu.
  destruct (is_empty (content req)); [by destruct Hm|]. split; [by destruct Hm' | done].
Qed.

Section Process.
Context `{FileSystem} (gzip : bytes -> bytes) (run_route : route_func -> func_ptr).
Context (remote_ip : bytes) (remote_port_ : Z).

(** The three ways out of [process]: a sound response; the exception of an
    invalid part; or undefined behaviour of the empty target or of a route. *)
Definition process_outcome (req : request) (o : res (config * request * response)) : Prop :=
  match o with
  | Ok (_, _, r) => sound_response r
  | Throw e => e = invalid_part
  | UB u => (u = erase_of_end /\ req.(uri) = []) \/
      exists f cfg' req' r', run_route f cfg' req' r' = undefined u
  end.

Lemma handle_request_total cfg req r :
  cfg.(doc_root_) <> [] -> size cfg.(doc_root_) < 2 ^ 60 -> size req.(uri) < 2 ^ 60 ->
  match handle_request gzip run_route cfg req r with
  | Ok (_, _, r') => sound_response r'
  | Throw _ => False
  | UB u => exists f, run_route f cfg req r = undefined u
  end.
Proof.
  intros Hr Hs Hu. unfold handle_request. assert (size cfg.(doc_root_) >= 0) by size_lia.
  destruct (screen_request cfg req) as [r'|p] eqn:E.
  - apply screen_request_refusal in E as (s & -> & Hc). apply static_sound.
    destruct Hc as [-> | ->]; by apply (bool_decide_unpack _).
  - apply screen_request_path in E as (Ev & (q & ->) & Hd); [|unfold npos; lia]. apply validate_size in Ev.
    pose proof (serve_sound gzip run_route _ cfg req r ("/"%byte :: q) Hr ltac:(done) ltac:(unfold npos; lia)) as H'.
    destruct (serve _ _ _ _ _ _) as [[[cfg' req'] r']|e|u]; [done|done|].
    destruct H' as (f & _ & Hf). eauto.
Qed.

Lemma process_total cfg req r :
  cfg.(doc_root_) <> [] -> size cfg.(doc_root_) < 2 ^ 60 -> in_memory req ->
  process_outcome req (process gzip run_route remote_ip remote_port_ cfg req r).
Proof.
  intros Hr Hs Hm. unfold process.
  set (req1 := set_remote_port (set_remote_addr req remote_ip) remote_port_).
  assert (in_memory req1) as Hm1 by by destruct Hm.
  destruct (parse_connection_header_ok req1 Hm1) as (req2 & -> & Hm2 & Hu2). cbn [mbind res_bind].
  pose proof (parse_params_ok req2 Hm2) as Hp. destruct (parse_params req2) as [req3|e|u]; cbn [mbind res_bind];
    [|done|destruct Hp as [-> Hp]; left; split; [done|]; by rewrite Hu2 in Hp].
  destruct Hp as [Hm3 Hu3]. destruct (parse_cookies_ok req3 Hm3) as (req4 & -> & Hm4 & Hu4). cbn [mbind res_bind].
  pose proof (parse_content_ok req4 Hm4) as Hc. destruct (parse_content req4) as [req5|e|u]; cbn [mbind res_bind]; [|done..].
  destruct Hc as [Hm5 Hu5].
  pose proof (handle_request_total cfg req5 r Hr Hs ltac:(by destruct Hm5)) as Hh.
  destruct (handle_request _ _ _ _ _) as [[[cfg' req'] r']|e|u]; [done|done|].
  destruct Hh as (f & Hf). right. eauto.
Qed.
End Process.

(** ** Lemmas: runs *)

Lemma feed_state s req d o s' r' rest :
  s <> state.param_value_start -> feed s req d = Ok ((o, s', r'), rest) -> s' <> state.param_value_start.
Proof.
  revert s req; induction d as [|c d IH]; intros s req Hs E; cbn [feed] in E; [by injection E as <- <- <- <-|].
  apply bind_Ok_inv in E as ([[o1 s1] r1] & Ec & E). apply consume_state in Ec; [|done].
  destruct o1; [by injection E as <- <- <- <- ..|]. by eapply IH.
Qed.

Section Runs.
Context `{FileSystem} (gzip : bytes -> bytes) (run_route : route_func -> func_ptr).
Context (ssl : bool) (remote_ip : bytes) (remote_port_ : Z).

Notation run_events' := (run_events gzip run_route ssl remote_ip remote_port_).
Notation process' := (process gzip run_route remote_ip remote_port_).

Lemma run_events_app c c' evs1 evs2 :
  run_events' c evs1 = Some (Ok c') -> run_events' c (evs1 ++ evs2) = run_events' c' evs2.
Proof.
  revert c; induction evs1 as [|ev evs1 IH]; intros c; cbn [run_events app]; [by intros [= ->]|].
  destruct (handle_event _ _ _ _ _ c ev) as [[c1| |]|]; try done. apply IH.
Qed.

(** Non-empty segments that make up a complete request: the verdict comes
    with the last one, and only then is the request processed. *)
Lemma run_reads c chunks s' req' cfg2 req2 r2 :
  c.(c_phase) = reading -> c.(c_parser) <> state.param_value_start ->
  chunks <> [] -> Forall (fun d => d <> []) chunks ->
  feed c.(c_parser) c.(c_request) (concat chunks) = Ok ((true_, s', req'), []) ->
  process' c.(c_cfg) req' c.(c_response) = Ok (cfg2, req2, r2) ->
  run_events' c (map (read_done false) chunks) =
    Some (Ok (mk_connection cfg2 s' req2 r2 (writing (to_buffers r2)) c.(c_wire))).
Proof using.
  revert c; induction chunks as [|d chunks IH]; intros c Hp Hs Hne Hd Hf Hpr; [done|].
  apply Forall_cons in Hd as [Hd Hds]. cbn [map run_events concat] in *.
  unfold handle_event. rewrite Hp. unfold on_read, parse. rewrite parse_loop_feed by done.
  rewrite feed_app in Hf.
  destruct (feed (c_parser c) (c_request c) d) as [[[[result s1] r1] rest]|e|u] eqn:E; cbn [mbind res_bind] in *; try done.
  destruct result; cbn [mbind res_bind] in *.
  - injection Hf as -> -> Hrest. apply app_eq_nil in Hrest as [_ Hrest].
    destruct chunks as [|d' chunks].
    + rewrite Hpr. by destruct c.
    + exfalso. cbn [concat] in Hrest. apply app_eq_nil in Hrest as [Hrest _].
      apply Forall_cons in Hds as [Hd' _]. done.
  - by injection Hf.
  - destruct chunks as [|d' chunks]; [cbn in Hf; by injection Hf|].
    rewrite (IH (do_read (mk_connection (c_cfg c) s1 r1 (c_response c) (c_phase c) (c_wire c)))); try done.
    cbn [c_parser do_read]. eapply feed_state; eauto.
Qed.
End Runs.

(** ** The abstract view: a conversation is a list of messages

    [serve_all] answers them one by one, each from a fresh request, without
    sockets or segments; [true] when the last answer closes the connection. *)
Section Conversation.
Context `{FileSystem} (gzip : bytes -> bytes) (run_route : route_func -> func_ptr).
Context (ssl : bool) (remote_ip : bytes) (remote_port_ : Z).

Fixpoint serve_all (cfg : config) (req0 : request) (res0 : response) (ms : list message)
    : option (config * list response * bool) :=
  match ms with
  | [] => Some (cfg, [], false)
  | m :: ms' =>
      match process gzip run_route remote_ip remote_port_ cfg (denotes req0 m) res0 with
      | Ok (cfg, req, r) =>
          if negb ssl && (req.(connection_option) =c "c"%byte) then
            match ms' with [] => Some (cfg, [r], true) | _ => None end
          else
            '(cfg, rs, closed) ← serve_all cfg request_init (response_init 0) ms';
            Some (cfg, r :: rs, closed)
      | _ => None
      end
  end.

Definition wire_of (rs : list response) : bytes := concat (map (fun r => concat (to_buffers r)) rs).

(** The completions of a conversation: the segments of each message, then the
    end of the write of its answer. *)
Definition exchange (segments : list bytes) : list event :=
  map (read_done false) segments ++ [write_done false].

Definition wf_exchange (m : message) (segments : list bytes) : Prop :=
  wf_message m /\ concat segments = render m /\ Forall (fun d => d <> []) segments.

Lemma render_nonempty m : render m <> [].
Proof using. unfold render, m_method. case_bool_decide; by intros ?. Qed.

Lemma run_exchange cfg req0 res0 wire m segments cfg2 req2 r2 :
  blank req0 -> wf_exchange m segments ->
  process gzip run_route remote_ip remote_port_ cfg (denotes req0 m) res0 = Ok (cfg2, req2, r2) ->
  exists s', run_events gzip run_route ssl remote_ip remote_port_
    (mk_connection cfg reset req0 res0 reading wire) (exchange segments) =
  Some (Ok (on_write ssl (mk_connection cfg2 s' req2 r2 (writing (to_buffers r2)) (wire ++ concat (to_buffers r2))))).
Proof using.
  intros Hb (Hw & Hc & Hd) Hp. destruct (feed_render req0 m Hb Hw) as (s' & Hf). exists s'.
  unfold exchange. rewrite <- Hc in Hf.
  assert (segments <> []) as Hne by (intros ->; cbn in Hc; by destruct (render_nonempty m)).
  pose proof (run_reads gzip run_route ssl remote_ip remote_port_ (mk_connection cfg reset req0 res0 reading wire)
    segments s' _ cfg2 req2 r2 eq_refl ltac:(done) Hne Hd Hf Hp) as Hr.
  by rewrite (run_events_app gzip run_route ssl remote_ip remote_port_ _ _ _ _ Hr).
Qed.

Lemma run_conversation cfg req0 res0 wire (ms : list (message * list bytes)) cfg' rs closed :
  blank req0 -> Forall (fun x => wf_exchange x.1 x.2) ms ->
  serve_all cfg req0 res0 (map fst ms) = Some (cfg', rs, closed) ->
  exists c, run_events gzip run_route ssl remote_ip remote_port_
      (mk_connection cfg reset req0 res0 reading wire) (flat_map (fun x => exchange x.2) ms) = Some (Ok c) /\
    c.(c_cfg) = cfg' /\ c.(c_wire) = wire ++ wire_of rs /\
    (if closed then c.(c_phase) = shut
     else c.(c_phase) = reading /\ c.(c_parser) = reset /\ blank c.(c_request)).
Proof using.
  revert cfg req0 res0 wire rs; induction ms as [|[m segs] ms IH]; intros cfg req0 res0 wire rs Hb Hw Hs;
    cbn [map serve_all flat_map fst snd] in *.
  - injection Hs as <- <- <-. eexists. split; [reflexivity|]. unfold wire_of. cbn. by rewrite app_nil_r.
  - apply Forall_cons in Hw as [Hm Hw]. cbn [fst snd] in Hm.
    destruct (process _ _ _ _ _ _ _) as [[[cfg2 req2] r2]|e|u] eqn:Hp; [|done|done].
    destruct (run_exchange cfg req0 res0 wire m segs cfg2 req2 r2 Hb Hm Hp) as (s' & Hr).
    unfold on_write in Hr. cbn [c_request] in Hr.
    destruct (negb ssl && (connection_option req2 =c "c"%byte)).
    + destruct ms; [|done]. injection Hs as <- <- <-. cbn [flat_map]. rewrite app_nil_r, Hr.
      eexists. split; [reflexivity|]. unfold wire_of. cbn. by rewrite app_nil_r.
    + destruct (serve_all cfg2 _ _ _) as [[[cfg3 rs'] closed']|] eqn:Hs'; [|done]. injection Hs as <- <- <-.
      rewrite (run_events_app gzip run_route ssl remote_ip remote_port_ _ _ _ _ Hr).
      destruct (IH cfg2 request_init (response_init 0) (wire ++ concat (to_buffers r2)) rs' blank_init Hw Hs')
        as (c & E & Hcfg & Hwire & Hend).
      exists c. split; [exact E|]. split; [done|]. split; [|done].
      rewrite Hwire. unfold wire_of. cbn [map concat]. by rewrite app_assoc.
Qed.
End Conversation.

(** ** Lemmas: the invariant *)

Record conn_inv (c : connection) : Prop := {
  inv_parser : c.(c_phase) = reading \/ c.(c_phase) = handshaking ->
    c.(c_parser) <> state.param_value_start /\ parser_inv c.(c_parser) c.(c_request);
  inv_buffers : forall bufs, c.(c_phase) = writing bufs -> bufs = to_buffers c.(c_response);
  inv_wire : exists rs, c.(c_wire) = wire_of rs;
}.

Lemma fresh_inv cfg req r p wire rs :
  blank req -> wire = wire_of rs -> (forall bufs, p <> writing bufs) ->
  conn_inv (mk_connection cfg reset req r p wire).
Proof.
  intros Hb -> Hp. split; cbn.
  - intros _. split; [done | by apply blank_inv].
  - intros bufs E. by destruct (Hp bufs).
  - by eexists.
Qed.

Section Invariant.
Context `{FileSystem} (gzip : bytes -> bytes) (run_route : route_func -> func_ptr).
Context (ssl : bool) (remote_ip : bytes) (remote_port_ : Z).

Lemma do_write_inv cfg s req r p wire rs : wire = wire_of rs -> conn_inv (do_write (mk_connection cfg s req r p wire)).
Proof using.
  intros ->. split; cbn; [by intros [] | by intros bufs [= <-] | by eexists].
Qed.

Lemma on_read_inv c data c' :
  conn_inv c -> c.(c_phase) = reading ->
  on_read gzip run_route remote_ip remote_port_ c data = Ok c' -> conn_inv c'.
Proof using.
  intros [Hp _ [rs Hw]] Hr E. destruct (Hp (or_introl Hr)) as [Hs Hi]. unfold on_read, parse in E.
  rewrite parse_loop_feed in E by done.
  pose proof (feed_ok data _ _ Hs Hi) as Hf.
  destruct (feed _ _ data) as [[[[result s'] req'] rest]|e|u]; cbn [mbind res_bind] in E; [|done..].
  destruct result; cbn [mbind res_bind] in E.
  - apply bind_Ok_inv in E as ([[cfg2 req2] r2] & _ & [= <-]). by eapply do_write_inv.
  - injection E as <-. by eapply do_write_inv.
  - injection E as <-. destruct Hf as (Hs' & Hi' & _). split; cbn; [done | done | by exists rs].
Qed.

Lemma with_phase_inv c p :
  conn_inv c -> (p = shut \/ p = dropped \/ exists e, p = terminated e) -> conn_inv (with_phase c p).
Proof using.
  intros [_ _ Hw] Hp. split; cbn; [| |done].
  - intros [->| ->]; by destruct Hp as [|[|[]]].
  - intros bufs ->. by destruct Hp as [|[|[]]].
Qed.

Lemma handle_event_inv c ev c' :
  conn_inv c -> handle_event gzip run_route ssl remote_ip remote_port_ c ev = Some (Ok c') -> conn_inv c'.
Proof using.
  intros Hi E. unfold handle_event in E.
  destruct (c_phase c) as [| |bufs| | |] eqn:P, ev as [err|err data|err]; try done; destruct err; injection E as E.
  all: try (subst c'; apply with_phase_inv; [done | by eauto]).
  - subst c'. destruct Hi as [Hp _ Hw]. split; cbn; [|done|done]. intros _. apply Hp. by right.
  - destruct (on_read _ _ _ _ c data) as [c1|x|u] eqn:R; [| |discriminate E]; injection E as <-.
    + by eapply on_read_inv.
    + apply with_phase_inv; [done | by eauto].
  - subst c'. destruct Hi as [_ Hb [rs Hw]]. unfold on_write. cbn [c_request c_wire c_cfg].
    assert (c_wire c ++ concat bufs = wire_of (rs ++ [c.(c_response)])) as Hw'.
    { rewrite Hw, (Hb bufs P). unfold wire_of. rewrite map_app, concat_app. cbn [map concat]. by rewrite app_nil_r. }
    destruct (negb ssl && _).
    + split; cbn; [by intros [] | done | by eexists].
    + unfold do_read. cbn. by eapply fresh_inv.
Qed.

Lemma reachable_inv cfg req0 res0 c :
  blank req0 -> reachable gzip run_route ssl remote_ip remote_port_ (start ssl cfg req0 res0) c -> conn_inv c.
Proof using.
  intros Hb. induction 1 as [|c ev c' _ IH [E]]; [|by eapply handle_event_inv].
  unfold start. apply (fresh_inv _ _ _ _ _ []); [done | done | by destruct ssl].
Qed.
End Invariant.

(** ** Properties *)



(** ** Witnesses *)

Definition get_message (path : bytes) (minor : Z) : message := mk_message path [] 1 minor [] [].

Definition two_requests : list (message * list bytes) :=
  [(get_message (str "/a%20b.css") 1, [str "GET /a%2"; drop 8 (render (get_message (str "/a%20b.css") 1))]);
   (get_message (str "/none.txt") 0, [render (get_message (str "/none.txt") 0)])].

Lemma two_requests_wf : Forall (fun x => wf_exchange x.1 x.2) two_requests.
Proof.
  repeat (apply Forall_cons; split; [|]); try apply Forall_nil_2;
    (split; [|split; [vm_compute; reflexivity | repeat constructor; discriminate]]);
    (constructor; [repeat constructor; done | constructor | vm_compute; repeat split; discriminate | constructor | done]).
Qed.


