(* ===== verification/Server.v ===== *)
(** * [src/src/server.cpp], [src/src/server_ssl.cpp]: the server.

    The server accepts connections, one at a time, and waits for a signal; its
    [io_service] runs the handlers of the acceptor, of the signals and of all the
    connections.  The handlers of one connection are run by one thread at a time;
    what connections share is the configuration.  What the world answers to the
    route function of a handler - the time, the database - is an argument of its
    event.  Resolving the address, binding and the certificates are left out. *)
From S2P Require Import Prelude CxxString Request RequestParser Response Config Router RequestHandler Connection.

(** A connection with the endpoint of its peer. *)
Record client : Type := mk_client { cl_ip : bytes; cl_port : Z; cl_connection : connection }.

(** [s_awaiting]: [signals_.async_wait] is pending; [s_running]: [stop] was not
    called and no exception left a handler. *)
Record server : Type := mk_server { s_cfg : config; s_clients : list client; s_awaiting : bool; s_running : bool }.

Inductive server_event {M : Type} : Type :=
  | accepted (e : bool) (ip : bytes) (port : Z) (req0 : request) (res0 : response)
  | signalled (signal_number : Z)
  | completed (k : nat) (answers : M) (ev : event).
Arguments server_event : clear implicits.

Definition SIGHUP : Z := 1.

Section Server.
Context `{FileSystem} {M : Type} (gzip : bytes -> bytes) (run_route : M -> route_func -> func_ptr) (ssl : bool).

(** The constructor, once it listens. *)
Definition new_server (cfg : config) : server := mk_server cfg [] true true.

(** The handler of [do_accept], which accepts again. *)
Definition do_accept (s : server) (e : bool) (ip : bytes) (port : Z) (req0 : request) (res0 : response) : server :=
  if e then s
  else mk_server s.(s_cfg) (s.(s_clients) ++ [mk_client ip port (start ssl s.(s_cfg) req0 res0)]) s.(s_awaiting) s.(s_running).

(** The handler of [do_await_stop]; a signal that nobody waits for is kept by the
    signal set. *)
Definition do_await_stop (s : server) (signal_number : Z) : server :=
  if s.(s_awaiting) then
    if signal_number =? SIGHUP then mk_server s.(s_cfg) s.(s_clients) false s.(s_running)
    else mk_server s.(s_cfg) s.(s_clients) false false
  else s.

Definition ended (c : connection) : bool := match c.(c_phase) with terminated _ => true | _ => false end.

Definition with_cfg (c : connection) (cfg : config) : connection :=
  mk_connection cfg c.(c_parser) c.(c_request) c.(c_response) c.(c_phase) c.(c_wire).

(** One handler; [None] for an event that cannot happen. *)
Definition server_step (s : server) (e : server_event M) : option (res server) :=
  if negb s.(s_running) then None
  else
    match e with
    | accepted e ip port req0 res0 => Some (Ok (do_accept s e ip port req0 res0))
    | signalled n => Some (Ok (do_await_stop s n))
    | completed k answers ev =>
        match s.(s_clients) !! k with
        | None => None
        | Some cl =>
            match handle_event gzip (run_route answers) ssl cl.(cl_ip) cl.(cl_port) (with_cfg cl.(cl_connection) s.(s_cfg)) ev with
            | None => None
            | Some m => Some (let* c := m in
                Ok (mk_server c.(c_cfg) (<[k := mk_client cl.(cl_ip) cl.(cl_port) c]> s.(s_clients)) s.(s_awaiting) (negb (ended c))))
            end
        end
    end.

Fixpoint server_run (s : server) (es : list (server_event M)) : option (res server) :=
  match es with
  | [] => Some (Ok s)
  | e :: es => match server_step s e with Some (Ok s) => server_run s es | o => o end
  end.

(** ** What a client sees *)

(** The connections accepted, and the events of one of them. *)
Definition accept_of (e : server_event M) : list (bytes * Z * request * response) :=
  match e with accepted false ip port req0 res0 => [(ip, port, req0, res0)] | _ => [] end.
Definition accepts (es : list (server_event M)) : list (bytes * Z * request * response) := concat (map accept_of es).
Definition event_of (k : nat) (e : server_event M) : list (M * event) :=
  match e with completed i answers ev => if decide (i = k) then [(answers, ev)] else [] | _ => [] end.
Definition events_of (k : nat) (es : list (server_event M)) : list (M * event) := concat (map (event_of k) es).

(** A connection by itself, each event with its own answers. *)
Fixpoint run_alone (ip : bytes) (port : Z) (c : connection) (evs : list (M * event)) : option (res connection) :=
  match evs with
  | [] => Some (Ok c)
  | (answers, ev) :: evs => match handle_event gzip (run_route answers) ssl ip port c ev with Some (Ok c) => run_alone ip port c evs | o => o end
  end.

(** The first signal of a run. *)
Fixpoint first_signal (es : list (server_event M)) : option Z :=
  match es with [] => None | signalled n :: _ => Some n | _ :: es => first_signal es end.

(** No route function changes this configuration. *)
Definition routes_keep_config (cfg : config) : Prop := forall answers f req r,
  match run_route answers f cfg req r with returned cfg' _ _ | raised _ cfg' _ => cfg' = cfg | undefined _ => True end.

Lemma handle_request_config cfg (Hkeep : routes_keep_config cfg) answers req r cfg' req' r' :
  handle_request gzip (run_route answers) cfg req r = Ok (cfg', req', r') -> cfg' = cfg.
Proof using.
  unfold handle_request. destruct (screen_request cfg req) as [r0|path]; [by intros [= <- _ _]|]. unfold serve.
  destruct (get_func path) as [[u [f|]]|e|u]; cbn [mbind res_bind]; [| |by intros [= <- _ _]|done].
  - specialize (Hkeep answers f req r). destruct (run_route answers f cfg req r) as [cfg1 req1 r1|e cfg1 req1|u1].
    + destruct (fill_out gzip cfg1 req1 r1). by intros [= <- _ _].
    + by intros [= <- _ _].
    + done.
  - destruct (get_file cfg r path) as [[found r1]|e|u1]; cbn [mbind res_bind]; [|by intros [= <- _ _]|done].
    destruct found; cbn [negb]; [destruct (fill_out gzip cfg req r1)|]; by intros [= <- _ _].
Qed.

Lemma handle_event_config ip port c (Hkeep : routes_keep_config c.(c_cfg)) answers ev c' :
  handle_event gzip (run_route answers) ssl ip port c ev = Some (Ok c') -> c'.(c_cfg) = c.(c_cfg).
Proof using.
  unfold handle_event. destruct (c_phase c), ev; try done.
  - destruct e; by intros [= <-].
  - destruct e; [by intros [= <-]|]. unfold on_read. destruct (RequestParser.parse _ _ _) as [[[[result s] req] rest]|e|u]; cbn [mbind res_bind]; [|by intros [= <-]|done].
    destruct result; [|by intros [= <-]|by intros [= <-]].
    destruct (process gzip (run_route answers) ip port (c_cfg c) req (c_response c)) as [[[cfg1 req1] r1]|e|u] eqn:E; cbn [mbind res_bind]; [|by intros [= <-]|done].
    intros [= <-]. cbn. unfold process in E. repeat (apply bind_Ok_inv in E as (? & _ & E)). by apply (handle_request_config _ Hkeep answers) in E.
  - destruct e; intros [= <-]; [done|]. unfold on_write. by destruct (_ && _).
Qed.

Lemma run_alone_snoc ip port evs answers ev : forall c c', run_alone ip port c evs = Some (Ok c') ->
  run_alone ip port c (evs ++ [(answers, ev)]) = handle_event gzip (run_route answers) ssl ip port c' ev.
Proof using.
  induction evs as [|[a e] evs IH]; intros c c'; cbn [run_alone app].
  - intros [= ->]. by destruct (handle_event _ _ _ _ _ _ _) as [[]|].
  - destruct (handle_event _ _ _ _ _ c e) as [[c1|x|u]|]; try done. apply IH.
Qed.

(** ** Runs, step by step *)

Lemma server_run_snoc es e : forall s, server_run s (es ++ [e]) = match server_run s es with Some (Ok s') => server_step s' e | o => o end.
Proof using.
  induction es as [|e' es IH]; intros s; cbn [server_run app].
  - by destruct (server_step s e) as [[]|].
  - destruct (server_step s e') as [[]|]; [apply IH|done..].
Qed.

Lemma accepts_snoc es e : accepts (es ++ [e]) = accepts es ++ accept_of e.
Proof using. unfold accepts. rewrite map_app, concat_app. cbn [map concat]. by rewrite app_nil_r. Qed.

Lemma events_snoc k es e : events_of k (es ++ [e]) = events_of k es ++ event_of k e.
Proof using. unfold events_of. rewrite map_app, concat_app. cbn [map concat]. by rewrite app_nil_r. Qed.

(** What holds of a run: the configuration is the first one, and every connection
    is what its own events make of it. *)
Record isolated (cfg : config) (es : list (server_event M)) (s : server) : Prop := {
  i_cfg : s.(s_cfg) = cfg;
  i_length : length s.(s_clients) = length (accepts es);
  i_none : forall k, (length s.(s_clients) <= k)%nat -> events_of k es = [];
  i_client : forall k cl, s.(s_clients) !! k = Some cl ->
    cl.(cl_connection).(c_cfg) = cfg /\
    exists req0 res0, accepts es !! k = Some (cl.(cl_ip), cl.(cl_port), req0, res0) /\
      run_alone cl.(cl_ip) cl.(cl_port) (start ssl cfg req0 res0) (events_of k es) = Some (Ok cl.(cl_connection)) }.

(** A step that neither accepts nor runs a connection. *)
Lemma isolated_other cfg es s e s' : isolated cfg es s -> s'.(s_cfg) = s.(s_cfg) -> s'.(s_clients) = s.(s_clients) ->
  accept_of e = [] -> (forall k, event_of k e = []) -> isolated cfg (es ++ [e]) s'.
Proof using.
  intros [I1 I2 I3 I4] E1 E2 Ha He. constructor; [by rewrite E1|by rewrite E2, accepts_snoc, Ha, app_nil_r| |]; rewrite ?E2, ?accepts_snoc, ?Ha, ?app_nil_r.
  - intros k Hk. rewrite events_snoc, He, app_nil_r. by apply I3.
  - intros k cl Hk. rewrite events_snoc, He, app_nil_r. by apply I4.
Qed.

Lemma isolated_accept cfg es s ip port req0 res0 : isolated cfg es s -> isolated cfg (es ++ [accepted false ip port req0 res0]) (do_accept s false ip port req0 res0).
Proof using.
  intros [I1 I2 I3 I4]. constructor; cbn [do_accept s_cfg s_clients]; [done|by rewrite accepts_snoc, !length_app, I2| |]; rewrite ?accepts_snoc, ?length_app.
  - intros k Hk. rewrite events_snoc. cbn [event_of]. rewrite app_nil_r. apply I3. lia.
  - intros k cl Hk. rewrite events_snoc. cbn [event_of]. rewrite app_nil_r. apply lookup_snoc_Some in Hk as [[Hlt Hk]|[Hk <-]].
    + destruct (I4 k cl Hk) as (Hc & r0 & s0 & Ha & Hr). split; [done|]. exists r0, s0. split; [|done]. by rewrite lookup_app_l by lia.
    + subst k. split; [done|]. exists req0, res0. cbn [cl_ip cl_port cl_connection]. rewrite lookup_app_r by lia. rewrite I2, Nat.sub_diag. split; [done|].
      rewrite (I3 (length (accepts es))) by lia. cbn [run_alone]. by rewrite I1.
Qed.

Lemma isolated_step cfg (Hkeep : routes_keep_config cfg) es s e s' : isolated cfg es s -> server_step s e = Some (Ok s') -> isolated cfg (es ++ [e]) s'.
Proof using.
  intros HI. unfold server_step. destruct (negb (s_running s)); [done|]. destruct e as [e ip port req0 res0|n|k answers ev].
  - intros [= <-]. destruct e; [by eapply isolated_other|by apply isolated_accept].
  - intros [= <-]. unfold do_await_stop. destruct (s_awaiting s); [destruct (n =? SIGHUP)|]; by eapply isolated_other.
  - destruct (s_clients s !! k) as [cl|] eqn:Ek; [|done]. destruct HI as [I1 I2 I3 I4]. destruct (I4 k cl Ek) as (Hc & r0 & s0 & Ha & Hr).
    assert (with_cfg (cl_connection cl) (s_cfg s) = cl_connection cl) as -> by (rewrite I1, <- Hc; by destruct (cl_connection cl)).
    destruct (handle_event gzip (run_route answers) ssl (cl_ip cl) (cl_port cl) (cl_connection cl) ev) as [[c'|x|u]|] eqn:E; try done.
    cbn [mbind res_bind]. intros [= <-]. rewrite <- Hc in Hkeep. pose proof (handle_event_config _ _ _ Hkeep _ _ _ E) as Hc'.
    constructor; cbn [s_cfg s_clients]; [by rewrite Hc'|by rewrite accepts_snoc, length_insert, app_nil_r| |]; rewrite ?accepts_snoc, ?length_insert; cbn [accept_of]; rewrite ?app_nil_r.
    + intros i Hi. rewrite events_snoc, (I3 i Hi). cbn [event_of]. rewrite decide_False; [done|]. intros ->. apply lookup_lt_Some in Ek. lia.
    + intros i cl' Hi. rewrite events_snoc. cbn [event_of]. destruct (decide (k = i)) as [<-|Hne].
      * rewrite list_lookup_insert_eq in Hi by (by eapply lookup_lt_Some). injection Hi as <-. cbn [cl_ip cl_port cl_connection].
        split; [by rewrite Hc'|]. exists r0, s0. split; [done|]. by rewrite (run_alone_snoc _ _ _ _ _ _ _ Hr).
      * rewrite list_lookup_insert_ne in Hi by done. rewrite app_nil_r. by apply I4.
Qed.

Lemma isolated_run cfg (Hkeep : routes_keep_config cfg) es : forall s, server_run (new_server cfg) es = Some (Ok s) -> isolated cfg es s.
Proof using.
  induction es as [|e es IH] using rev_ind; intros s.
  - intros [= <-]. by constructor.
  - rewrite server_run_snoc. destruct (server_run (new_server cfg) es) as [[s1|x|u]|]; try done. intros Hs. eapply (isolated_step cfg Hkeep es s1); [by apply IH|done].
Qed.

(** ** Signals *)

Lemma first_signal_snoc es e : first_signal (es ++ [e]) = match first_signal es with Some n => Some n | None => match e with signalled n => Some n | _ => None end end.
Proof using. induction es as [|e' es IH]; [by destruct e|]. cbn [first_signal app]. by destruct e'. Qed.

(** While the server runs it waits for the first signal, or the first one was
    [SIGHUP]; when it does not, the first one was another, or a handler threw. *)
Lemma signals_run cfg es : forall s, server_run (new_server cfg) es = Some (Ok s) ->
  if s.(s_running) then match first_signal es with None => s.(s_awaiting) = true | Some n => n = SIGHUP /\ s.(s_awaiting) = false end
  else (exists n, first_signal es = Some n /\ n <> SIGHUP) \/ Exists (fun cl => ended cl.(cl_connection) = true) s.(s_clients).
Proof using.
  induction es as [|e es IH] using rev_ind; intros s; [by intros [= <-]|]. rewrite server_run_snoc, first_signal_snoc.
  destruct (server_run (new_server cfg) es) as [[s1|x|u]|]; try done. specialize (IH s1 eq_refl). unfold server_step.
  destruct (s_running s1) eqn:Er; cbn [negb]; [|done]. destruct e as [e ip port req0 res0|n|k answers ev].
  - intros [= <-]. assert (s_running (do_accept s1 e ip port req0 res0) = true) as -> by (by destruct e). by destruct e, (first_signal es).
  - intros [= <-]. unfold do_await_stop. destruct (first_signal es) as [n'|] eqn:Ef.
    + destruct IH as [-> Ea]. by rewrite Ea, Er.
    + rewrite IH. destruct (Z.eqb_spec n SIGHUP) as [->|Hne]; cbn [s_running s_awaiting]; [by rewrite Er|]. left. by exists n.
  - destruct (s_clients s1 !! k) as [cl|] eqn:Ek; [|done]. destruct (handle_event _ _ _ _ _ _ _) as [[c'|x|u]|]; try done. cbn [mbind res_bind]. intros [= <-].
    cbn [s_running s_awaiting s_clients]. destruct (ended c') eqn:Ee; cbn [negb]; [|by destruct (first_signal es)].
    right. apply Exists_exists. exists (mk_client (cl_ip cl) (cl_port cl) c'). split; [|done]. apply list_elem_of_lookup_2 with k.
    apply list_lookup_insert_eq. by eapply lookup_lt_Some.
Qed.

(** C33: Whatever the connections do, the first signal decides: the server has
    stopped exactly when it was not [SIGHUP] - after a [SIGHUP] nobody waits for
    signals any more, and no later one stops the server. *)
Theorem first_signal_decides cfg es s : server_run (new_server cfg) es = Some (Ok s) ->
  Forall (fun cl => ended cl.(cl_connection) = false) s.(s_clients) ->
  s.(s_running) = match first_signal es with Some n => n =? SIGHUP | None => true end.
Proof using.
  intros Hrun Hall. pose proof (signals_run cfg es s Hrun) as Hs. destruct (s_running s).
  - destruct (first_signal es) as [n|]; [|done]. destruct Hs as [-> _]. done.
  - destruct Hs as [(n & -> & Hn)|Hex]; [by apply Z.eqb_neq in Hn|]. apply Exists_exists in Hex as (cl & Hin & He).
    rewrite Forall_forall in Hall. specialize (Hall cl Hin). congruence.
Qed.
End Server.

Section Witness.

#[local] Instance no_files : FileSystem := fun _ => None.

(** Every route answers a word. *)
Definition sample_routes (_ : unit) (f : route_func) : func_ptr := fun cfg req r => returned cfg req (set_res_content r (str "hello")).

(** Two clients, whose requests arrive in pieces between each other's. *)
Definition sample_server_events : list (server_event unit) :=
  [accepted false (str "10.0.0.1") 4001 request_init (response_init 0); completed 0 tt (read_done false (str "GET /dir/user/si"));
   accepted true (str "10.0.0.9") 4009 request_init (response_init 0); accepted false (str "10.0.0.2") 4002 request_init (response_init 0);
   completed 1 tt (read_done false (str "GET /nothing HTTP/1.1" ++ line_end)); signalled SIGHUP;
   completed 0 tt (read_done false (str "gnin HTTP/1.1" ++ line_end ++ line_end)); completed 1 tt (read_done true []); completed 0 tt (write_done false); signalled 15].

Lemma first_signal_decides_witness :
  match server_run (H := no_files) (fun s => s) sample_routes false (new_server config_init) sample_server_events with
  | Some (Ok s) => s.(s_running) = true
  | _ => False
  end.
Proof.
  destruct (server_run (H := no_files) (fun s => s) sample_routes false (new_server config_init) sample_server_events) as [[s|x|u]|] eqn:E;
    [|vm_compute in E; discriminate E..].
  apply (first_signal_decides (H := no_files) (fun s => s) sample_routes false config_init sample_server_events s E).
  apply (f_equal (fun o => match o with Some (Ok s) => forallb (fun cl => negb (ended (cl_connection cl))) (s_clients s) | _ => false end)) in E.
  cbn beta iota in E. apply Forall_forall. intros cl Hin. assert (forallb (fun cl => negb (ended (cl_connection cl))) (s_clients s) = true) as Hf by (rewrite <- E; vm_compute; reflexivity).
  rewrite forallb_forall in Hf. specialize (Hf cl (proj1 (list_elem_of_In _ _) Hin)). by apply negb_true_iff in Hf.
Defined.
End Witness.
