(* ===== verification/Sds.v ===== *)
(** * [src/win/hiredis/sds.h], [src/win/hiredis/sds.c]: the dynamic strings of
    hiredis.

    An [sds] points after a header with two [int]s, into an allocation of
    [len + free + 1] bytes.  Memory is a list of cells, [None] for a byte that
    was never written; a read or write out of the allocation, or of an
    uninitialised byte, is undefined behaviour.  [alloc_ok n] tells whether
    [malloc], [calloc] or [realloc] grants [n] bytes; a [NULL] result is the
    [None] of an option. *)
From S2P Require Import Prelude CxxString.

Class Allocator : Type := alloc_ok : Z -> bool.

(** ** Memory *)

Abbreviation memory := (list (option byte)).

(** [memcpy(m + pos, d, size d)] *)
Definition mem_write (m : memory) (pos : Z) (d : bytes) : res memory :=
  if (0 <=? pos) && (pos + size d <=? size m) then
    Ok (take (Z.to_nat pos) m ++ map Some d ++ drop (Z.to_nat (pos + size d)) m)
  else UB index_out_of_bounds.

Definition all_written (m : memory) : res bytes :=
  match mapM id m with Some d => Ok d | None => UB uninitialised_read end.

(** The [n] bytes at [m + pos]. *)
Definition mem_read (m : memory) (pos n : Z) : res bytes :=
  if (0 <=? pos) && (0 <=? n) && (pos + n <=? size m) then
    all_written (take (Z.to_nat n) (drop (Z.to_nat pos) m))
  else UB index_out_of_bounds.

Definition fresh_memory (n : Z) : memory := replicate (Z.to_nat n) None.

(** [strlen] of the C string at the start of [m]. *)
Fixpoint strlen_mem (m : memory) : res Z :=
  match m with
  | [] => UB index_out_of_bounds
  | None :: _ => UB uninitialised_read
  | Some c :: m' => if c =c Byte.x00 then Ok 0 else let* n := strlen_mem m' in Ok (1 + n)
  end.

(** ** Data *)

(** [struct sdshdr] and the bytes of [buf]. *)
Record sds : Type := mk_sds { sds_len : Z; sds_free : Z; sds_buf : memory }.

Definition set_buf (s : sds) (m : memory) : sds := mk_sds s.(sds_len) s.(sds_free) m.

Definition SDS_MAX_PREALLOC : Z := 1024 * 1024.
Definition header_size : Z := 8.

(** [int] results converted to [size_t]. *)
Definition sdslen (s : sds) : Z := wrap64 s.(sds_len).
Definition sdsavail (s : sds) : Z := wrap64 s.(sds_free).

Section Sds.
Context `{Allocator}.

(** ** Creation *)

(** [init = None] is [NULL]: zero bytes. *)
Definition sdsnewlen (init : option bytes) (initlen : Z) : res (option sds) :=
  if negb (alloc_ok (wrap64 (header_size + initlen + 1))) then Ok None
  else
    let n := wrap64 (header_size + initlen + 1) - header_size in
    let* m := match init with
              | Some d => if initlen =? 0 then Ok (fresh_memory n) else
                  if size d <? initlen then UB index_out_of_bounds
                  else mem_write (fresh_memory n) 0 (take (Z.to_nat initlen) d)
              | None => Ok (replicate (Z.to_nat n) (Some Byte.x00))
              end in
    let* m := mem_write m initlen [Byte.x00] in
    Ok (Some (mk_sds (wrap32 initlen) 0 m)).

Definition sdsempty : res (option sds) := sdsnewlen (Some []) 0.

(** [sdsnew(init)] on a C string. *)
Definition sdsnew (init : option bytes) : res (option sds) :=
  let init := c_str <$> init in
  sdsnewlen init (match init with None => 0 | Some d => size d end).

(** The bytes of a string: [len] from the start of [buf]. *)
Definition sds_bytes (s : sds) : res bytes := mem_read s.(sds_buf) 0 (sdslen s).

Definition sdsdup (s : sds) : res (option sds) :=
  let* d := sds_bytes s in sdsnewlen (Some d) (sdslen s).

(** ** Length and room *)

Definition sdsupdatelen (s : sds) : res sds :=
  let* reallen := strlen_mem s.(sds_buf) in
  let reallen := wrap32 reallen in
  let* d := int_result (s.(sds_len) - reallen) in
  let* free := int_result (s.(sds_free) + d) in
  Ok (mk_sds reallen free s.(sds_buf)).

Definition sdsclear (s : sds) : res sds :=
  let* free := int_result (s.(sds_free) + s.(sds_len)) in
  let* m := mem_write s.(sds_buf) 0 [Byte.x00] in
  Ok (mk_sds 0 free m).

(** [realloc]: the bytes both blocks have are kept. *)
Definition realloc_buf (m : memory) (n : Z) : memory :=
  take (Z.to_nat n) m ++ fresh_memory (n - size m).

Definition sdsMakeRoomFor (s : sds) (addlen : Z) : res (option sds) :=
  if addlen <=? sdsavail s then Ok (Some s)
  else
    let len := sdslen s in
    let newlen := sz_add len addlen in
    let newlen := if newlen <? SDS_MAX_PREALLOC then wrap64 (newlen * 2) else sz_add newlen SDS_MAX_PREALLOC in
    let bytes := wrap64 (header_size + newlen + 1) in
    if negb (alloc_ok bytes) then Ok None
    else Ok (Some (mk_sds s.(sds_len) (wrap32 (newlen - len)) (realloc_buf s.(sds_buf) (bytes - header_size)))).

(** A [NULL] from [realloc] is dereferenced. *)
Definition sdsRemoveFreeSpace (s : sds) : res sds :=
  let bytes := wrap64 (header_size + s.(sds_len) + 1) in
  if negb (alloc_ok bytes) then UB null_pointer
  else Ok (mk_sds s.(sds_len) 0 (realloc_buf s.(sds_buf) (bytes - header_size))).

Definition sdsAllocSize (s : sds) : Z := wrap64 (header_size + s.(sds_len) + s.(sds_free) + 1).

Definition sdsIncrLen (s : sds) (incr : Z) : res sds :=
  if negb (incr <=? s.(sds_free)) then UB assertion_failed
  else
    let* len := int_result (s.(sds_len) + incr) in
    let* free := int_result (s.(sds_free) - incr) in
    if negb (0 <=? free) then UB assertion_failed
    else
      let* m := mem_write s.(sds_buf) len [Byte.x00] in
      Ok (mk_sds len free m).

(** [s = sdsMakeRoomFor(s, n); if (s == NULL) return NULL;] then [k]. *)
Definition with_room (s : sds) (n : Z) (k : sds -> res (option sds)) : res (option sds) :=
  let* o := sdsMakeRoomFor s n in
  match o with None => Ok None | Some s => k s end.

Definition sdsgrowzero (s : sds) (len : Z) : res (option sds) :=
  let curlen := sdslen s in
  if len <=? curlen then Ok (Some s)
  else
    with_room s (sz_sub len curlen) (fun s =>
      let* m := mem_write s.(sds_buf) curlen (replicate (Z.to_nat (sz_sub len curlen + 1)) Byte.x00) in
      let* totlen := int_result (s.(sds_len) + s.(sds_free)) in
      Ok (Some (mk_sds (wrap32 len) (wrap32 (totlen - wrap32 len)) m))).

(** ** Appending and copying *)

(** [t] is the [len] bytes at the pointer. *)
Definition sdscatlen (s : sds) (t : bytes) : res (option sds) :=
  let len := size t in
  let curlen := sdslen s in
  with_room s len (fun s =>
    let* m := mem_write s.(sds_buf) curlen t in
    let* m := mem_write m (sz_add curlen len) [Byte.x00] in
    Ok (Some (mk_sds (wrap32 (curlen + len)) (wrap32 (s.(sds_free) - len)) m))).

Definition sdscat (s : sds) (t : bytes) : res (option sds) := sdscatlen s (c_str t).

Definition sdscatsds (s t : sds) : res (option sds) :=
  let* d := sds_bytes t in sdscatlen s d.

Definition sdscpylen (s : sds) (t : bytes) : res (option sds) :=
  let len := size t in
  let* totlen := int_result (s.(sds_free) + s.(sds_len)) in
  let copy s totlen :=
    let* m := mem_write s.(sds_buf) 0 t in
    let* m := mem_write m len [Byte.x00] in
    Ok (Some (mk_sds (wrap32 len) (wrap32 (totlen - len)) m)) in
  if wrap64 totlen <? len then
    with_room s (sz_sub len (sdslen s)) (fun s =>
      let* totlen := int_result (s.(sds_free) + s.(sds_len)) in copy s totlen)
  else copy s totlen.

Definition sdscpy (s : sds) (t : bytes) : res (option sds) := sdscpylen s (c_str t).

(** ** Numbers *)

(** The digits that [do { *p++ = '0'+(v%10); v /= 10; } while(v);] writes, last
    digit first; a 64-bit number has at most 20. *)
Fixpoint rev_digits (fuel : nat) (v : Z) : bytes :=
  match fuel with
  | O => []
  | S fuel' => digit_char (v mod 10) :: (if v / 10 =? 0 then [] else rev_digits fuel' (v / 10))
  end.

(** [-value] of a [long long]; overflows for the smallest one. *)
Definition ll_abs (value : Z) : res Z :=
  if value <? 0 then (if value =? LONG_MIN then UB signed_overflow else Ok (- value)) else Ok value.

(** [sdsll2str]: the text is built reversed, then reversed in place. *)
Definition sdsll2str (value : Z) : res bytes :=
  let* v := ll_abs value in
  let s := rev_digits 20 v ++ (if value <? 0 then str "-" else []) in
  Ok (reverse s).

Definition sdsull2str (v : Z) : bytes := reverse (rev_digits 20 v).

(** [sdsfromlonglong]: the text is built from the end of the buffer. *)
Definition sdsfromlonglong (value : Z) : res (option sds) :=
  let* v := ll_abs value in
  let s := (if value <? 0 then str "-" else []) ++ reverse (rev_digits 20 v) in
  sdsnewlen (Some s) (size s).

(** ** [sdscatfmt] *)

(** The variadic arguments. *)
Inductive fmt_arg : Type :=
  | arg_str (s : bytes)       (* char*, for %s *)
  | arg_sds (s : sds)         (* sds, for %S *)
  | arg_num (z : Z).          (* %i %I %u %U %T *)

(** [s = sdsMakeRoomFor(s, l); sh = ...] with the result not checked. *)
Definition force_room (s : sds) (l : Z) : res sds :=
  if s.(sds_free) <? l then
    let* o := sdsMakeRoomFor s l in
    match o with None => UB null_pointer | Some s => Ok s end
  else Ok s.

(** [memcpy(s+i, d, l); sh->len += l; sh->free -= l; i += l;] *)
Definition fmt_put (s : sds) (i : Z) (d : bytes) : res (sds * Z) :=
  let* m := mem_write s.(sds_buf) i d in
  let* len := int_result (s.(sds_len) + size d) in
  let* free := int_result (s.(sds_free) - size d) in
  let* i := int_result (i + size d) in
  Ok (mk_sds len free m, i).

Definition fmt_text (next : byte) (a : fmt_arg) : res bytes :=
  match a with
  | arg_str d => if next =c "s"%byte then Ok (c_str d) else UB dangling_pointer
  | arg_sds x => if next =c "S"%byte then sds_bytes x else UB dangling_pointer
  | arg_num z =>
      if (next =c "i"%byte) || (next =c "I"%byte) then sdsll2str z
      else if (next =c "u"%byte) || (next =c "U"%byte) || (next =c "T"%byte) then Ok (sdsull2str z)
      else UB dangling_pointer
  end.

Definition fmt_takes_arg (next : byte) : bool := mem next (str "sSiIuUT").

Fixpoint sdscatfmt_loop (f : bytes) (args : list fmt_arg) (s : sds) (i : Z) : res sds :=
  match f with
  | [] => let* m := mem_write s.(sds_buf) i [Byte.x00] in Ok (set_buf s m)
  | c :: f' =>
      let* s := (if s.(sds_free) =? 0 then
        let* o := sdsMakeRoomFor s 1 in
        match o with None => UB null_pointer | Some s => Ok s end else Ok s) in
      if c =c "%"%byte then
        match f' with
        | [] => UB index_out_of_bounds
        | next :: f'' =>
            if fmt_takes_arg next then
              match args with
              | [] => UB uninitialised_read
              | a :: args' =>
                  let* d := fmt_text next a in
                  let* s := force_room s (size d) in
                  let* (s, i) := fmt_put s i d in
                  sdscatfmt_loop f'' args' s i
              end
            else let* (s, i) := fmt_put s i [next] in sdscatfmt_loop f'' args s i
        end
      else let* (s, i) := fmt_put s i [c] in sdscatfmt_loop f' args s i
  end.

Definition sdscatfmt (s : sds) (fmt : bytes) (args : list fmt_arg) : res sds :=
  sdscatfmt_loop (c_str fmt) args s (wrap32 (sdslen s)).

(** ** Trimming and slicing *)

(** [strchr(cset, c)] is not [NULL]: it also finds the terminating NUL. *)
Definition strchr (cset : bytes) (c : byte) : bool := mem c (c_str cset) || (c =c Byte.x00).

(** [while(sp <= end && strchr(cset, *sp)) sp++;] as an offset *)
Fixpoint trim_left (d : bytes) (cset : bytes) : Z :=
  match d with
  | c :: d' => if strchr cset c then 1 + trim_left d' cset else 0
  | [] => 0
  end.

(** [while(ep > start && strchr(cset, *ep)) ep--;] on the bytes after the first,
    last one first *)
Fixpoint trim_right (rev_d : bytes) (cset : bytes) : Z :=
  match rev_d with
  | c :: d' => if strchr cset c then 1 + trim_right d' cset else 0
  | [] => 0
  end.

(** [memmove(m, m + from, n)] *)
Definition mem_move (m : memory) (from n : Z) : res memory :=
  let* d := mem_read m from n in mem_write m 0 d.

(** [buf[len] = 0; sh->free += sh->len - len; sh->len = len;] *)
Definition set_length (s : sds) (m : memory) (len : Z) : res sds :=
  let* m := mem_write m len [Byte.x00] in
  Ok (mk_sds (wrap32 len) (wrap32 (s.(sds_free) + (s.(sds_len) - len))) m).

Definition sdstrim (s : sds) (cset : bytes) : res sds :=
  let* d := sds_bytes s in
  let sp := trim_left d cset in
  let ep := sdslen s - 1 - trim_right (reverse (tail d)) cset in
  let len := if ep <? sp then 0 else ep - sp + 1 in
  let* m := (if negb (sp =? 0) then mem_move s.(sds_buf) sp len else Ok s.(sds_buf)) in
  set_length s m len.

(** The start and the length of the slice, from ends that are not negative. *)
Definition range_bounds (len start end_ : Z) : res (Z * Z) :=
  let* newlen := (if end_ <? start then Ok 0 else int_result (end_ - start + 1)) in
  if negb (newlen =? 0) then
    if wrap32 len <=? start then Ok (start, 0)
    else if wrap32 len <=? end_ then
      let end_ := wrap32 (len - 1) in
      Ok (start, if end_ <? start then 0 else end_ - start + 1)
    else Ok (start, newlen)
  else Ok (0, newlen).

Definition sdsrange (s : sds) (start end_ : Z) : res sds :=
  let len := sdslen s in
  if len =? 0 then Ok s
  else
    let start := if start <? 0 then Z.max 0 (wrap32 (len + start)) else start in
    let end_ := if end_ <? 0 then Z.max 0 (wrap32 (len + end_)) else end_ in
    let* (start, newlen) := range_bounds len start end_ in
    let* m := (if negb (start =? 0) && negb (newlen =? 0) then mem_move s.(sds_buf) start newlen
               else Ok s.(sds_buf)) in
    set_length s m newlen.

(** ** Characters and comparison *)

Definition map_bytes (f : byte -> byte) (s : sds) : res sds :=
  let* d := sds_bytes s in
  let* m := mem_write s.(sds_buf) 0 (map f d) in
  Ok (set_buf s m).

Definition tolower (c : byte) : byte :=
  if isupper c then char_of_Z (uchar c + 32) else c.

Definition sdstolower (s : sds) : res sds := map_bytes tolower s.
Definition sdstoupper (s : sds) : res sds := map_bytes toupper s.

(** [memcmp]; only its sign is specified. *)
Fixpoint memcmp (a b : bytes) : Z :=
  match a, b with
  | x :: a', y :: b' =>
      if uchar x <? uchar y then -1 else if uchar y <? uchar x then 1 else memcmp a' b'
  | _, _ => 0
  end.

Definition sdscmp (s1 s2 : sds) : res Z :=
  let l1 := sdslen s1 in
  let l2 := sdslen s2 in
  let minlen := if l1 <? l2 then l1 else l2 in
  let* d1 := mem_read s1.(sds_buf) 0 minlen in
  let* d2 := mem_read s2.(sds_buf) 0 minlen in
  let cmp := memcmp d1 d2 in
  if cmp =? 0 then Ok (wrap32 (l1 - l2)) else Ok cmp.

Fixpoint map_char (from to : bytes) (c : byte) : byte :=
  match from, to with
  | f :: from', x :: to' => if c =c f then x else map_char from' to' c
  | _, _ => c
  end.

(** [setlen] bytes of [from] and [to]. *)
Definition sdsmapchars (s : sds) (from to : bytes) : res sds := map_bytes (map_char from to) s.
End Sds.

(** ** Lemmas: memory *)

Lemma all_written_map d : all_written (map Some d) = Ok d.
Proof.
  unfold all_written. assert (mapM id (map Some d) = Some d) as ->; [|done].
  induction d as [|c d IH]; [done|]. cbn [map mapM]. cbn. by rewrite IH.
Qed.

(** Memory that starts with the bytes [d]. *)
Lemma mem_read_prefix d rest n :
  n = size d -> mem_read (map Some d ++ rest) 0 n = Ok d.
Proof.
  intros ->. unfold mem_read. destruct (_ && _) eqn:E.
  - rewrite drop_0. replace (Z.to_nat (size d)) with (length (map Some d)) by (rewrite length_map; size_lia).
    rewrite take_app_length. apply all_written_map.
  - exfalso. apply andb_false_iff in E as [E|E%Z.leb_gt].
    + apply andb_false_iff in E as [E%Z.leb_gt|E%Z.leb_gt]; size_lia.
    + rewrite size_app in E. unfold size in E. rewrite length_map in E. lia.
Qed.

Lemma mem_read_middle p d rest n :
  n = size d -> mem_read (map Some p ++ map Some d ++ rest) (size p) n = Ok d.
Proof.
  intros ->. unfold mem_read.
  assert (size (map Some p ++ map Some d ++ rest) = size p + size d + size rest) as ->.
  { rewrite !size_app. unfold size. rewrite !length_map. lia. }
  destruct (Z.leb_spec 0 (size p)); [|size_lia]. destruct (Z.leb_spec 0 (size d)); [|size_lia].
  destruct (Z.leb_spec (size p + size d) (size p + size d + size rest)); [|unfold size in *; lia]. cbn [andb].
  rewrite drop_app_length' by (rewrite length_map; unfold size; lia).
  rewrite take_app_length' by (rewrite length_map; unfold size; lia). apply all_written_map.
Qed.

Lemma mem_write_middle (p old rest : memory) d :
  size old = size d -> mem_write (p ++ old ++ rest) (size p) d = Ok (p ++ map Some d ++ rest).
Proof.
  intros Ho. unfold mem_write. rewrite !size_app.
  destruct (Z.leb_spec 0 (size p)); [|unfold size in *; lia].
  destruct (Z.leb_spec (size p + size d) (size p + (size old + size rest))); [|unfold size in *; lia]. cbn [andb].
  rewrite take_app_length' by (unfold size; lia).
  assert (drop (Z.to_nat (size p + size d)) (p ++ old ++ rest) = rest) as ->; [|done].
  rewrite app_assoc. apply drop_app_length'. rewrite length_app. unfold size in *. lia.
Qed.

Lemma split_memory (m : memory) n : 0 <= n <= size m -> exists a b, m = a ++ b /\ size a = n.
Proof.
  intros Hn. exists (take (Z.to_nat n) m), (drop (Z.to_nat n) m). split; [by rewrite take_drop|].
  unfold size in *. rewrite length_take. lia.
Qed.

(** ** Lemmas: strings as byte lists *)

(** [s] holds the bytes [t]: its header, its allocation and its terminator. *)
Record repr (s : sds) (t : bytes) : Prop := {
  repr_len : s.(sds_len) = size t;
  repr_free : 0 <= s.(sds_free);
  repr_int : s.(sds_len) + s.(sds_free) <= INT_MAX;
  repr_size : size s.(sds_buf) = s.(sds_len) + s.(sds_free) + 1;
  repr_bytes : exists junk, s.(sds_buf) = map Some t ++ Some Byte.x00 :: junk;
}.

(** A result is a string with [P], or [NULL] after a refused allocation. *)
Definition post `{Allocator} (P : sds -> Prop) (m : res (option sds)) : Prop :=
  match m with
  | Ok (Some s) => P s
  | Ok None => exists n, alloc_ok n = false
  | _ => False
  end.

Lemma post_mono `{Allocator} (P Q : sds -> Prop) m : post P m -> (forall s, P s -> Q s) -> post Q m.
Proof. destruct m as [[s|]| |]; simpl; auto. Qed.

(** The code often uses a pointer without looking whether it is [NULL]: then a
    refused allocation ends in a null pointer access, which is the only failure
    that [grants] allows. *)
Definition refused `{Allocator} : Prop := exists n, alloc_ok n = false.

(** Every allocation is granted. *)
Definition granted `{Allocator} : Prop := forall n, alloc_ok n = true.

Lemma granted_not_refused `{Allocator} : granted -> ~ refused.
Proof. intros Hg (n & Hn). by rewrite Hg in Hn. Qed.

Definition grants `{Allocator} {A} (P : A -> Prop) (m : res A) : Prop :=
  match m with Ok a => P a | UB null_pointer => refused | _ => False end.

Definition or_null `{Allocator} {A} (P : A -> Prop) (o : option A) : Prop :=
  match o with Some a => P a | None => refused end.

Lemma grants_bind `{Allocator} {A B} (P : A -> Prop) (Q : B -> Prop) (m : res A) (k : A -> res B) :
  grants P m -> (forall a, P a -> grants Q (k a)) -> grants Q (mbind k m).
Proof. destruct m as [a|e|u]; simpl; auto. Qed.

Lemma grants_mono `{Allocator} {A} (P Q : A -> Prop) (m : res A) :
  grants P m -> (forall a, P a -> Q a) -> grants Q m.
Proof. destruct m as [a|e|u]; simpl; auto. Qed.

Lemma post_grants `{Allocator} P m : post P m -> grants (or_null P) m.
Proof. by destruct m as [[s|]| |]. Qed.

Lemma repr_sdslen s t : repr s t -> sdslen s = size t.
Proof.
  intros [Hl Hf Hi _ _]. unfold sdslen, wrap64, INT_MAX in *. rewrite Z.mod_small; [done|]. unfold size in *. lia.
Qed.

Lemma repr_sdsavail s t : repr s t -> sdsavail s = s.(sds_free).
Proof.
  intros [Hl Hf Hi _ _]. unfold sdsavail, wrap64, INT_MAX in *. rewrite Z.mod_small; [done|]. unfold size in *. lia.
Qed.

Lemma int_result_id z : - 2 ^ 31 <= z <= INT_MAX -> int_result z = Ok z.
Proof. intros H. unfold int_result. destruct (Z.leb_spec (- 2 ^ 31) z), (Z.leb_spec z INT_MAX); try done; lia. Qed.

Lemma sds_bytes_repr s t : repr s t -> sds_bytes s = Ok t.
Proof.
  intros Hr. unfold sds_bytes. rewrite (repr_sdslen _ _ Hr). destruct (repr_bytes _ _ Hr) as (junk & ->).
  by apply mem_read_prefix.
Qed.

(** The cells of a represented string around its end. *)
Lemma repr_cells s t : repr s t ->
  exists junk, s.(sds_buf) = map Some t ++ Some Byte.x00 :: junk /\ size junk = s.(sds_free).
Proof.
  intros [Hl Hf Hi Hs (junk & E)]. exists junk. split; [done|]. rewrite E in Hs.
  rewrite size_app, size_cons in Hs. unfold size in *. rewrite length_map in Hs. lia.
Qed.

(** Rebuilding a string whose bytes [t'] and terminator were written. *)
Lemma repr_intro t len free m junk :
  len = size t -> 0 <= free -> len + free <= INT_MAX -> size junk = free ->
  m = map Some t ++ Some Byte.x00 :: junk -> repr (mk_sds len free m) t.
Proof.
  intros -> Hf Hi Hj ->. split; cbn; try done; [|by eexists].
  rewrite size_app, size_cons, Hj. unfold size. rewrite length_map. lia.
Qed.

Section SdsLemmas.
Context `{Allocator}.

Lemma sdsnewlen_spec t : size t <= 2 ^ 30 -> post (fun s => repr s t) (sdsnewlen (Some t) (size t)).
Proof.
  intros Hsz. unfold sdsnewlen, header_size. destruct (alloc_ok _) eqn:A; cbn [negb]; [|by eexists].
  rewrite wrap64_id by size_lia.
  replace (8 + size t + 1 - 8) with (size t + 1) by lia.
  assert (exists m, (if size t =? 0 then Ok (fresh_memory (size t + 1))
      else if size t <? size t then UB index_out_of_bounds
      else mem_write (fresh_memory (size t + 1)) 0 (take (Z.to_nat (size t)) t)) = Ok (map Some t ++ [m])) as (m & ->).
  { destruct (Z.eqb_spec (size t) 0) as [E|E].
    - rewrite E. apply size_zero in E as ->. by exists None.
    - rewrite Z.ltb_irrefl, size_to_nat, firstn_all. exists None.
      assert (fresh_memory (size t + 1) = fresh_memory (size t) ++ [None]) as ->.
      { unfold fresh_memory. replace (Z.to_nat (size t + 1)) with (Z.to_nat (size t) + 1)%nat by (pose proof (size_nonneg t); lia).
        by rewrite replicate_add. }
      apply (mem_write_middle [] (fresh_memory (size t)) [None]).
      unfold size, fresh_memory. rewrite length_replicate. lia. }
  cbn [mbind res_bind].
  assert (mem_write (map Some t ++ [m]) (size t) [Byte.x00] = Ok (map Some t ++ Some Byte.x00 :: [])) as ->.
  { assert (size (map Some t) = size t) as <- by (unfold size; by rewrite length_map).
    by apply (mem_write_middle (map Some t) [m] []). }
  cbn. rewrite wrap32_id by (unfold INT_MAX; size_lia).
  eapply repr_intro; [done | done | unfold INT_MAX; size_lia | | done]. done.
Qed.

(** Growing keeps every cell and adds fresh ones at the end. *)
Lemma sdsMakeRoomFor_grow s n :
  0 <= s.(sds_len) -> 0 <= s.(sds_free) -> s.(sds_len) + s.(sds_free) <= INT_MAX ->
  size s.(sds_buf) = s.(sds_len) + s.(sds_free) + 1 -> 0 <= n -> s.(sds_len) + n <= 2 ^ 29 ->
  post (fun s' => exists new, s' = mk_sds s.(sds_len) (s.(sds_free) + size new) (s.(sds_buf) ++ new) /\
    n <= s'.(sds_free) /\ s.(sds_len) + s'.(sds_free) <= INT_MAX) (sdsMakeRoomFor s n).
Proof.
  intros Hl Hf Hi Hs Hn Hsz. unfold sdsMakeRoomFor, sdsavail, sdslen. unfold INT_MAX in *.
  rewrite (wrap64_id s.(sds_len)), (wrap64_id s.(sds_free)) by lia. destruct (Z.leb_spec n s.(sds_free)).
  { exists []. rewrite app_nil_r, size_nil, Z.add_0_r. by destruct s. }
  cbn zeta. destruct (alloc_ok _) eqn:A; cbn [negb]; [|by eexists]. clear A.
  unfold SDS_MAX_PREALLOC, header_size. rewrite (sz_add_small s.(sds_len)) by (unfold npos; lia).
  set (newlen := if s.(sds_len) + n <? _ then _ else _).
  assert (newlen <= 2 ^ 30 /\ s.(sds_len) + n <= newlen) as [Hn1 Hn2].
  { unfold newlen. destruct (Z.ltb_spec (s.(sds_len) + n) (1024 * 1024));
      [rewrite wrap64_id | rewrite sz_add_small]; unfold npos; lia. }
  rewrite (wrap64_id (8 + newlen + 1)) by lia. rewrite wrap32_id by (unfold INT_MAX; lia).
  replace (8 + newlen + 1 - 8) with (newlen + 1) by lia. cbn.
  exists (fresh_memory (newlen - s.(sds_len) - s.(sds_free))). unfold realloc_buf.
  rewrite take_ge by (unfold size in *; lia). rewrite Hs.
  replace (newlen + 1 - (s.(sds_len) + s.(sds_free) + 1)) with (newlen - s.(sds_len) - s.(sds_free)) by lia.
  split; [|cbn; lia]. f_equal. unfold size, fresh_memory. rewrite length_replicate. lia.
Qed.

Lemma repr_fields s t : repr s t ->
  0 <= s.(sds_len) /\ s.(sds_len) = size t /\ 0 <= s.(sds_free) /\ s.(sds_len) + s.(sds_free) <= INT_MAX /\
  size s.(sds_buf) = s.(sds_len) + s.(sds_free) + 1.
Proof using. intros [Hl Hf Hi Hs _]. pose proof (size_nonneg t). lia. Qed.

Lemma sdsMakeRoomFor_spec s t n :
  repr s t -> 0 <= n -> size t + n <= 2 ^ 29 ->
  post (fun s' => repr s' t /\ n <= s'.(sds_free)) (sdsMakeRoomFor s n).
Proof.
  intros Hr Hn Hsz. destruct (repr_fields _ _ Hr) as (H0 & Hl & Hf & Hi & Hs).
  eapply post_mono; [apply sdsMakeRoomFor_grow; lia|].
  intros s' (new & -> & Hn' & Hi'). cbn in *. split; [|done].
  destruct (repr_cells _ _ Hr) as (junk & E & Hj). rewrite E, <- app_assoc. cbn [app].
  eapply repr_intro; [done | lia | done | | done]. rewrite size_app. lia.
Qed.

Lemma post_with_room P s t n k :
  repr s t -> 0 <= n -> size t + n <= 2 ^ 29 ->
  (forall s', repr s' t -> n <= s'.(sds_free) -> post P (k s')) -> post P (with_room s n k).
Proof.
  intros Hr Hn Hsz Hk. unfold with_room. pose proof (sdsMakeRoomFor_spec s t n Hr Hn Hsz) as Hp.
  destruct (sdsMakeRoomFor s n) as [[s'|]| |]; cbn [mbind res_bind post] in *; [|done..].
  destruct Hp. by apply Hk.
Qed.

(** Writing bytes and a terminator after the bytes of a string. *)
Lemma append_cells s t u :
  repr s t -> size u <= s.(sds_free) ->
  exists m m' junk, mem_write s.(sds_buf) (size t) u = Ok m /\
    mem_write m (size (t ++ u)) [Byte.x00] = Ok m' /\
    m' = map Some (t ++ u) ++ Some Byte.x00 :: junk /\ size junk = s.(sds_free) - size u.
Proof.
  intros Hr Hu. destruct (repr_cells _ _ Hr) as (junk & E & Hj).
  assert (size (map Some t) = size t) as Hmt by (unfold size; by rewrite length_map).
  assert (size (map Some (t ++ u)) = size (t ++ u)) as Hmtu by (unfold size; by rewrite length_map).
  destruct (split_memory (Some Byte.x00 :: junk) (size u)) as (old & rest & Eo & Ho);
    [rewrite size_cons; size_lia|].
  assert (size rest = s.(sds_free) - size u + 1) as Hrest.
  { apply (f_equal size) in Eo. rewrite size_cons, size_app in Eo. lia. }
  destruct rest as [|x rest]; [rewrite size_nil in Hrest; lia|]. rewrite size_cons in Hrest.
  exists (map Some t ++ map Some u ++ x :: rest), (map Some (t ++ u) ++ Some Byte.x00 :: rest), rest.
  split_and!; [| |done|lia].
  - rewrite E, Eo, <- Hmt. by apply mem_write_middle.
  - rewrite <- Hmtu. replace (map Some t ++ map Some u ++ x :: rest) with (map Some (t ++ u) ++ [x] ++ rest)
      by (rewrite map_app, <- app_assoc; done).
    by apply (mem_write_middle _ [x] rest [Byte.x00]).
Qed.

Lemma sdscatlen_spec s t u :
  repr s t -> size t + size u <= 2 ^ 29 -> post (fun s' => repr s' (t ++ u)) (sdscatlen s u).
Proof.
  intros Hr Hsz. unfold sdscatlen. apply (post_with_room _ _ t); [done | size_lia | done|].
  intros s' Hr' Hf. destruct (append_cells s' t u Hr' Hf) as (m & m' & junk & E1 & E2 & -> & Hj).
  rewrite (repr_sdslen _ _ Hr), E1. cbn [mbind res_bind].
  rewrite sz_add_small by (unfold npos; size_lia). rewrite <- size_app, E2. cbn [mbind res_bind post].
  destruct Hr' as [Hl _ Hi _ _]. unfold INT_MAX in *.
  rewrite !wrap32_id by (unfold INT_MAX; size_lia).
  eapply repr_intro; [done | lia | unfold INT_MAX; size_lia | exact Hj | done].
Qed.

Lemma size_map_Some (t : bytes) : size (map Some t) = size t.
Proof using. unfold size. by rewrite length_map. Qed.

(** Shortening: the bytes [t'] are in place, the rest of the block is free. *)
Lemma set_length_spec s t t' m rest :
  repr s t -> m = map Some t' ++ rest -> size m = size s.(sds_buf) -> size t' <= size t ->
  exists s', set_length s m (size t') = Ok s' /\ repr s' t'.
Proof using.
  intros [Hl Hf Hi Hs _] -> Hm Ht. unfold INT_MAX in *.
  rewrite size_app, size_map_Some in Hm.
  destruct rest as [|x rest]; [rewrite size_nil in Hm; lia|]. rewrite size_cons in Hm.
  unfold set_length.
  pose proof (mem_write_middle (map Some t') [x] rest [Byte.x00] eq_refl) as E. cbn [app] in E.
  rewrite size_map_Some in E. rewrite E.
  cbn [mbind res_bind]. eexists. split; [reflexivity|].
  rewrite !wrap32_id by (unfold INT_MAX; size_lia).
  eapply repr_intro; [done | lia | unfold INT_MAX; lia | | done]. lia.
Qed.

(** [memmove] of a slice of the string to its start. *)
Lemma mem_move_slice s t p d q :
  repr s t -> t = p ++ d ++ q ->
  exists rest, mem_move s.(sds_buf) (size p) (size d) = Ok (map Some d ++ rest) /\
    size (map Some d ++ rest) = size s.(sds_buf).
Proof using.
  intros Hr ->. destruct (repr_cells _ _ Hr) as (junk & E & _). unfold mem_move.
  rewrite E. rewrite !map_app, <- !app_assoc.
  rewrite mem_read_middle by done. cbn [mbind res_bind].
  set (m := map Some p ++ _). assert (0 <= size d <= size m) as Hd.
  { unfold m. rewrite !size_app, !size_map_Some, size_cons. size_lia. }
  destruct (split_memory m (size d) Hd) as (a & b & Em & Ha). exists b. rewrite Em.
  split; [apply (mem_write_middle [] a b d Ha)|].
  rewrite !size_app, size_map_Some. lia.
Qed.

(** The slice that [sdsrange] keeps: negative positions count from the end,
    both ends are included and clipped. *)
Definition clip (n i : Z) : Z := if i <? 0 then Z.max 0 (n + i) else i.

Definition range_of (t : bytes) (start end_ : Z) : bytes :=
  let n := size t in
  let start := clip n start in
  let end_ := Z.min (clip n end_) (n - 1) in
  if end_ <? start then [] else take (Z.to_nat (end_ - start + 1)) (drop (Z.to_nat start) t).

Lemma range_bounds_spec t a b :
  0 < size t <= INT_MAX -> 0 <= a -> 0 <= b < INT_MAX ->
  let d : bytes := if Z.min b (size t - 1) <? a then [] else take (Z.to_nat (Z.min b (size t - 1) - a + 1)) (drop (Z.to_nat a) t) in
  exists st, range_bounds (size t) a b = Ok (st, size d) /\
    (d <> [] -> st = a /\ a + size d <= size t /\ d = take (length d) (drop (Z.to_nat a) t)).
Proof using.
  intros Ht Ha Hb. cbn zeta. unfold range_bounds, INT_MAX in *.
  rewrite (wrap32_id (size t)) by (unfold INT_MAX; lia).
  rewrite (wrap32_id (size t - 1)) by (unfold INT_MAX; lia).
  assert (forall k, 0 <= k -> a + k <= size t -> size (take (Z.to_nat k) (drop (Z.to_nat a) t)) = k) as Hk
    by (intros k Hk1 Hk2; unfold size in *; rewrite length_take, length_drop; lia).
  assert (forall k, 0 <= k -> a + k <= size t -> a + size (take (Z.to_nat k) (drop (Z.to_nat a) t)) <= size t /\
    take (Z.to_nat k) (drop (Z.to_nat a) t) =
    take (length (take (Z.to_nat k) (drop (Z.to_nat a) t))) (drop (Z.to_nat a) t)) as Hd.
  { intros k Hk1 Hk2. rewrite Hk by done. split; [done|]. f_equal.
    rewrite length_take, length_drop. unfold size in *. lia. }
  destruct (Z.ltb_spec b a) as [|Hab].
  - cbn. destruct (Z.ltb_spec (Z.min b (size t - 1)) a); [|lia]. by exists 0.
  - rewrite int_result_id by (unfold INT_MAX; lia). cbn [mbind res_bind].
    destruct (Z.eqb_spec (b - a + 1) 0); [lia|]. cbn [negb]. exists a.
    destruct (Z.leb_spec (size t) a).
    + destruct (Z.ltb_spec (Z.min b (size t - 1)) a); [done | lia].
    + destruct (Z.leb_spec (size t) b) as [Hb'|Hb'].
      * rewrite Z.min_r by lia. cbn zeta. destruct (Z.ltb_spec (size t - 1) a); [lia|].
        rewrite Hk by lia. split; [done|]. intros _. split; [done|].
        destruct (Hd (size t - 1 - a + 1)) as [Hd1 Hd2]; [lia..|]. rewrite Hk in Hd1 by lia. done.
      * rewrite Z.min_l by lia. destruct (Z.ltb_spec b a); [lia|].
        rewrite Hk by lia. split; [done|]. intros _. split; [done|].
        destruct (Hd (b - a + 1)) as [Hd1 Hd2]; [lia..|]. rewrite Hk in Hd1 by lia. done.
Qed.

Lemma sdsrange_spec s t start end_ :
  repr s t -> - INT_MAX <= start < INT_MAX -> - INT_MAX <= end_ < INT_MAX ->
  exists s', sdsrange s start end_ = Ok s' /\ repr s' (range_of t start end_).
Proof using.
  intros Hr Hs He. unfold sdsrange. rewrite (repr_sdslen _ _ Hr). unfold INT_MAX in *.
  assert (0 <= size t <= 2 ^ 31 - 1) as Ht.
  { destruct Hr as [Hl Hf Hi _ _]. unfold INT_MAX in Hi. size_lia. }
  destruct (Z.eqb_spec (size t) 0) as [E|E].
  { exists s. split; [done|]. apply size_zero in E as ->. unfold range_of. cbn zeta.
    assert (Z.min (clip (size (@nil byte)) end_) (size (@nil byte) - 1) <? clip (size (@nil byte)) start = true) as ->; [|done].
    apply Z.ltb_lt. rewrite size_nil. unfold clip. destruct (Z.ltb_spec start 0); lia. }
  assert (forall i, - (2 ^ 31 - 1) <= i < 2 ^ 31 - 1 ->
    (if i <? 0 then Z.max 0 (wrap32 (size t + i)) else i) = clip (size t) i) as Hclip.
  { intros i Hi. unfold clip. destruct (Z.ltb_spec i 0); [|done]. rewrite wrap32_id; [done|]. unfold INT_MAX. lia. }
  rewrite !Hclip by done. unfold range_of. cbn zeta.
  assert (0 <= clip (size t) start /\ 0 <= clip (size t) end_ < 2 ^ 31 - 1) as [Hcs Hce].
  { unfold clip. destruct (Z.ltb_spec start 0), (Z.ltb_spec end_ 0); lia. }
  set (a := clip (size t) start) in *. set (b := clip (size t) end_) in *. clearbody a b. clear Hclip Hs He.
  destruct (range_bounds_spec t a b) as (st & -> & Hd); [unfold INT_MAX; lia..|]. cbn [mbind res_bind].
  set (d := (if _ <? a then [] else _) : bytes) in *. clearbody d.
  destruct (repr_bytes _ _ Hr) as (junk & Eb).
  destruct (Z.eqb_spec (size d) 0) as [Ed|Ed].
  - apply size_zero in Ed as ->. rewrite andb_false_r. cbn [mbind res_bind].
    apply (set_length_spec s t [] s.(sds_buf) s.(sds_buf)); [done|done|done|size_lia].
  - assert (d <> []) as Hne by (intros ->; done). destruct (Hd Hne) as (-> & Hle & Hdt). cbn [negb].
    rewrite andb_true_r. destruct (Z.eqb_spec a 0) as [->|Ha]; cbn [negb mbind res_bind].
    + change (Z.to_nat 0) with 0%nat in Hdt. rewrite drop_0 in Hdt.
      apply (set_length_spec s t d _ (map Some (drop (length d) t) ++ Some Byte.x00 :: junk)); [done| |done|lia].
      rewrite app_assoc, <- map_app, Eb. do 2 f_equal. rewrite Hdt at 1. by rewrite take_drop.
    + destruct (mem_move_slice s t (take (Z.to_nat a) t) d (drop (Z.to_nat a + length d) t) Hr) as (rest & Em & Hm).
      { rewrite Hdt at 1. rewrite <- drop_drop, take_drop. by rewrite take_drop. }
      assert (size (take (Z.to_nat a) t) = a) as Hta by (unfold size in *; rewrite length_take; lia).
      rewrite Hta in Em. rewrite Em. cbn [mbind res_bind].
      apply (set_length_spec s t d _ rest); [done|done|done|lia].
Qed.

(** Writing a whole string at the start of a block. *)
Lemma write_string (m : memory) u :
  size u + 1 <= size m ->
  exists m1 junk, mem_write m 0 u = Ok m1 /\
    mem_write m1 (size u) [Byte.x00] = Ok (map Some u ++ Some Byte.x00 :: junk) /\
    size junk = size m - size u - 1.
Proof using.
  intros Hm. destruct (split_memory m (size u)) as (a & b & -> & Ha); [size_lia|].
  rewrite size_app in Hm. destruct b as [|x b]; [rewrite size_nil in Hm; lia|].
  exists (map Some u ++ x :: b), b. split_and!.
  - by apply (mem_write_middle [] a (x :: b) u).
  - pose proof (mem_write_middle (map Some u) [x] b [Byte.x00] eq_refl) as E. by rewrite size_map_Some in E.
  - rewrite size_app, size_cons. lia.
Qed.

Lemma append_zeros s t u :
  repr s t -> size u <= s.(sds_free) ->
  exists junk, mem_write s.(sds_buf) (size t) (u ++ [Byte.x00]) = Ok (map Some (t ++ u) ++ Some Byte.x00 :: junk) /\
    size junk = s.(sds_free) - size u.
Proof using.
  intros Hr Hu. destruct (repr_cells _ _ Hr) as (junk & E & Hj).
  destruct (split_memory (Some Byte.x00 :: junk) (size u + 1)) as (old & rest & Eo & Ho);
    [rewrite size_cons; size_lia|].
  assert (size rest = s.(sds_free) - size u).
  { apply (f_equal size) in Eo. rewrite size_cons, size_app in Eo. lia. }
  exists rest. split; [|done]. rewrite E, Eo, <- (size_map_Some t).
  rewrite mem_write_middle by (rewrite Ho, size_app; done).
  f_equal. rewrite !map_app, <- !app_assoc. done.
Qed.

Lemma sdscpylen_spec s t u :
  repr s t -> size t + size u <= 2 ^ 29 -> post (fun s' => repr s' u) (sdscpylen s u).
Proof.
  intros Hr Hsz. unfold sdscpylen. cbn zeta.
  assert (forall s t, repr s t -> int_result (s.(sds_free) + s.(sds_len)) = Ok (s.(sds_free) + s.(sds_len))) as Htot.
  { intros s1 t1 [Hl Hf Hi _ _]. apply int_result_id. pose proof (size_nonneg t1). lia. }
  assert (forall s t, repr s t -> size u <= s.(sds_free) + s.(sds_len) ->
    post (fun s' => repr s' u)
      (let* m := mem_write s.(sds_buf) 0 u in
       let* m := mem_write m (size u) [Byte.x00] in
       Ok (Some (mk_sds (wrap32 (size u)) (wrap32 (s.(sds_free) + s.(sds_len) - size u)) m)))) as Hcopy.
  { intros s1 t1 [Hl Hf Hi Hs _] Hu. unfold INT_MAX in *.
    destruct (write_string s1.(sds_buf) u) as (m1 & junk & -> & E2 & Hj); [lia|]. cbn [mbind res_bind].
    rewrite E2. cbn [mbind res_bind post]. rewrite !wrap32_id by (unfold INT_MAX; size_lia).
    eapply repr_intro; [done | lia | unfold INT_MAX; lia | | done]. lia. }
  rewrite (Htot _ _ Hr). cbn [mbind res_bind]. rewrite (repr_sdslen _ _ Hr).
  assert (0 <= s.(sds_free) + s.(sds_len) <= INT_MAX) as Hb by (destruct Hr as [Hl Hf Hi _ _]; pose proof (size_nonneg t); lia).
  rewrite wrap64_id by (unfold INT_MAX in Hb; lia).
  destruct (Z.ltb_spec (s.(sds_free) + s.(sds_len)) (size u)); [|by eapply Hcopy].
  assert (s.(sds_len) = size t /\ 0 <= s.(sds_free)) as [Hl Hf] by by destruct Hr.
  assert (sz_sub (size u) (size t) = size u - size t) as -> by (apply sz_sub_small; unfold npos; size_lia).
  apply (post_with_room _ _ t); [done | lia | size_lia|].
  intros s' Hr' Hf'. rewrite (Htot _ _ Hr'). cbn [mbind res_bind]. eapply Hcopy; [exact Hr'|].
  destruct Hr' as [Hl' _ _ _ _]. lia.
Qed.

Lemma sdsgrowzero_spec s t n :
  repr s t -> 0 <= n <= 2 ^ 29 ->
  post (fun s' => repr s' (t ++ replicate (Z.to_nat (n - size t)) Byte.x00)) (sdsgrowzero s n).
Proof.
  intros Hr Hn. unfold sdsgrowzero. rewrite (repr_sdslen _ _ Hr). cbn zeta.
  destruct (Z.leb_spec n (size t)).
  { cbn. replace (Z.to_nat (n - size t)) with 0%nat by lia. by rewrite app_nil_r. }
  assert (0 <= size t) by size_lia.
  rewrite sz_sub_small by (unfold npos; lia).
  apply (post_with_room _ _ t); [done | lia | lia|]. intros s' Hr' Hf.
  replace (Z.to_nat (n - size t + 1)) with (Z.to_nat (n - size t) + 1)%nat by lia.
  rewrite replicate_add. set (u := replicate (Z.to_nat (n - size t)) Byte.x00).
  assert (size u = n - size t) as Hu by (unfold u, size; rewrite length_replicate; unfold size in *; lia).
  destruct (append_zeros s' t u Hr' ltac:(lia)) as (junk & E & Hj).
  change (replicate 1 Byte.x00) with [Byte.x00]. rewrite E. cbn [mbind res_bind].
  destruct Hr' as [Hl' Hf' Hi' _ _]. rewrite int_result_id by (unfold INT_MAX in *; lia). cbn [mbind res_bind post].
  unfold INT_MAX in *. rewrite (wrap32_id n) by (unfold INT_MAX; lia). rewrite wrap32_id by (unfold INT_MAX; lia).
  eapply repr_intro; [rewrite size_app; lia | lia | unfold INT_MAX; lia | | done]; lia.
Qed.

Lemma sdsclear_spec s t : repr s t -> exists s', sdsclear s = Ok s' /\ repr s' [].
Proof using.
  intros Hr. destruct (repr_cells _ _ Hr) as (junk & E & Hj). destruct Hr as [Hl Hf Hi Hs _].
  unfold sdsclear. rewrite int_result_id by size_lia. cbn [mbind res_bind].
  destruct (write_string s.(sds_buf) []) as (m1 & j & E1 & E2 & Hj2); [size_lia|].
  assert (m1 = s.(sds_buf)) as ->.
  { assert (mem_write s.(sds_buf) 0 [] = Ok s.(sds_buf)) as E3; [|congruence].
    apply (mem_write_middle [] [] s.(sds_buf) []). done. }
  rewrite size_nil in E2. rewrite E2. cbn [mbind res_bind]. eexists. split; [reflexivity|].
  eapply repr_intro; [done | size_lia | lia | | done]. size_lia.
Qed.

Lemma map_bytes_spec s t f : repr s t -> exists s', map_bytes f s = Ok s' /\ repr s' (map f t).
Proof using.
  intros Hr. unfold map_bytes. rewrite (sds_bytes_repr _ _ Hr). cbn [mbind res_bind].
  destruct (repr_cells _ _ Hr) as (junk & E & Hj). destruct Hr as [Hl Hf Hi Hs _].
  assert (size (map f t) = size t) as Hm by (unfold size; by rewrite length_map).
  pose proof (mem_write_middle [] (map Some t) (Some Byte.x00 :: junk) (map f t)) as W.
  cbn [app] in W. rewrite size_nil in W. rewrite E, W by by rewrite size_map_Some.
  cbn [mbind res_bind]. eexists. split; [reflexivity|]. unfold set_buf.
  eapply repr_intro; [lia | done | done | exact Hj | done].
Qed.

(** What [sdstrim] keeps. *)
Definition trimmed (cset t b : bytes) : Prop :=
  exists a c, t = a ++ b ++ c /\ Forall (fun x => strchr cset x = true) a /\ Forall (fun x => strchr cset x = true) c /\
    (forall x, head b = Some x \/ last b = Some x -> strchr cset x = false).

Lemma trim_left_spec cset d :
  exists a b, d = a ++ b /\ trim_left d cset = size a /\ Forall (fun x => strchr cset x = true) a /\
    (forall x, head b = Some x -> strchr cset x = false).
Proof using.
  induction d as [|c d (a & b & -> & E & Ha & Hb)].
  - by exists [], [].
  - cbn [trim_left]. destruct (strchr cset c) eqn:F.
    + exists (c :: a), b. split_and!; [done | by rewrite E, size_cons | by apply Forall_cons | done].
    + exists [], (c :: a ++ b). split_and!; [done|done|apply Forall_nil_2|]. by intros x [= <-].
Qed.

Lemma trim_right_spec cset d :
  exists b c, d = b ++ c /\ trim_right (reverse d) cset = size c /\ Forall (fun x => strchr cset x = true) c /\
    (forall x, last b = Some x -> strchr cset x = false).
Proof using.
  induction d as [|x d (b & c & -> & E & Hc & Hb)] using rev_ind.
  - by exists [], [].
  - rewrite reverse_snoc. cbn [trim_right]. destruct (strchr cset x) eqn:F.
    + exists b, (c ++ [x]). split_and!; [by rewrite app_assoc | | by apply Forall_app; split; [|by constructor] | done].
      rewrite E, size_app. change (size [x]) with 1. lia.
    + exists ((b ++ c) ++ [x]), []. split_and!; [by rewrite app_nil_r | done | apply Forall_nil_2|].
      intros y. rewrite last_snoc. by intros [= <-].
Qed.
End SdsLemmas.
