(* ===== verification/SdsRefine.v ===== *)
(** * The dynamic strings implement byte strings.

    The operations of [Sds] against their meaning on plain byte lists: runs of
    operations on one string, [sdstrim] and [sdscatfmt] with their reference
    definitions, and the numbers that [sdscatfmt] prints. *)
From S2P Require Import Prelude CxxString Sds.

(** ** Numbers: the reversed digits are the decimal text *)

Lemma rev_digits_dec fuel v acc : reverse (rev_digits fuel v) ++ acc = dec_digits fuel v acc.
Proof.
  revert v acc. induction fuel as [|fuel IH]; intros v acc; [done|]. cbn [rev_digits dec_digits].
  rewrite reverse_cons, <- app_assoc. cbn [app]. destruct (v / 10 =? 0); [done | apply IH].
Qed.

(** Enough fuel, and no more matters. *)
Lemma dec_digits_fuel f g v acc :
  0 <= v -> v < 10 ^ Z.of_nat f -> v < 10 ^ Z.of_nat g -> (0 < f)%nat -> (0 < g)%nat ->
  dec_digits f v acc = dec_digits g v acc.
Proof.
  revert g v acc. induction f as [|f IH]; intros [|g] v acc Hv Hf Hg Hf0 Hg0; [lia..|].
  cbn [dec_digits]. destruct (Z.eqb_spec (v / 10) 0) as [E|E]; [done|].
  assert (forall k, v < 10 ^ Z.of_nat (S k) -> v / 10 < 10 ^ Z.of_nat k /\ (0 < k)%nat) as Hk.
  { intros k Hk. rewrite Nat2Z.inj_succ, Z.pow_succ_r in Hk by lia. split.
    - apply Z.div_lt_upper_bound; lia.
    - destruct k; [|lia]. exfalso. apply E. apply Z.div_small. cbn in Hk. lia. }
  destruct (Hk f Hf), (Hk g Hg). apply IH; try done. apply Z.div_pos; lia.
Qed.

Lemma log2_fuel v : 0 <= v -> v < 10 ^ Z.of_nat (S (Z.to_nat (Z.log2 v))).
Proof.
  intros Hv. destruct (Z.eq_dec v 0) as [->|]; [done|].
  destruct (Z.log2_spec v ltac:(lia)) as [_ H]. pose proof (Z.log2_nonneg v).
  rewrite Nat2Z.inj_succ, Z2Nat.id by lia. eapply Z.lt_le_trans; [exact H|].
  apply Z.pow_le_mono_l. lia.
Qed.

Lemma rev_digits_to_string v : 0 <= v < 2 ^ 64 -> reverse (rev_digits 20 v) = to_string v.
Proof.
  intros Hv. rewrite <- (app_nil_r (reverse _)), rev_digits_dec. unfold to_string.
  destruct (Z.ltb_spec v 0); [lia|].
  apply dec_digits_fuel; [lia | cbn; lia | apply log2_fuel; lia | lia | lia].
Qed.

Lemma sdsull2str_decimal v : 0 <= v < 2 ^ 64 -> sdsull2str v = to_string v.
Proof. apply rev_digits_to_string. Qed.

Lemma sdsll2str_decimal v : LONG_MIN < v <= LONG_MAX -> sdsll2str v = Ok (to_string v).
Proof.
  unfold LONG_MIN, LONG_MAX. intros Hv. unfold sdsll2str, ll_abs, LONG_MIN. unfold to_string.
  destruct (Z.ltb_spec v 0) as [Hn|Hn].
  - destruct (Z.eqb_spec v (- 2 ^ 63)); [lia|]. cbn [mbind res_bind]. f_equal.
    rewrite reverse_app. change (reverse (str "-")) with (str "-").
    rewrite rev_digits_to_string by lia. unfold to_string. by destruct (Z.ltb_spec (- v) 0); [lia|].
  - cbn [mbind res_bind]. rewrite app_nil_r, rev_digits_to_string by lia. unfold to_string.
    by destruct (Z.ltb_spec v 0); [lia|].
Qed.

(** ** Trimming *)

Fixpoint drop_while (p : byte -> bool) (t : bytes) : bytes :=
  match t with c :: t' => if p c then drop_while p t' else t | [] => [] end.

(** [t] without the bytes of [cset] at both ends; a NUL counts as one. *)
Definition trim_of (cset t : bytes) : bytes :=
  let strip := drop_while (strchr cset) in reverse (strip (reverse (strip t))).

Lemma trim_left_drop cset t :
  exists a, t = a ++ drop_while (strchr cset) t /\ trim_left t cset = size a /\
    Forall (fun x => strchr cset x = true) a.
Proof.
  induction t as [|c t (a & E & F & Ha)]; [by exists []|]. cbn [drop_while trim_left].
  destruct (strchr cset c) eqn:Ec; [|by exists []].
  exists (c :: a). rewrite F, size_cons, E at 1. by split_and!; [..|constructor].
Qed.

Lemma trim_right_drop cset t :
  trim_right t cset = size t - size (drop_while (strchr cset) t).
Proof.
  induction t as [|c t IH]; [done|]. cbn [drop_while trim_right].
  destruct (strchr cset c); rewrite ?IH, ?size_cons; lia.
Qed.

Lemma drop_while_all p t u : Forall (fun x => p x = true) t -> drop_while p (t ++ u) = drop_while p u.
Proof. induction 1 as [|x t Hx _ IH]; [done|]. cbn. by rewrite Hx. Qed.

Lemma drop_while_stop p t x u :
  p x = false -> drop_while p (t ++ x :: u) = drop_while p t ++ x :: u.
Proof.
  intros Hx. induction t as [|y t IH]; cbn; [by rewrite Hx|]. by destruct (p y).
Qed.

Lemma drop_while_head p t : drop_while p t = [] \/ exists x u, drop_while p t = x :: u /\ p x = false.
Proof.
  induction t as [|y t IH]; [by left|]. cbn. destruct (p y) eqn:E; [done|]. right. eauto.
Qed.

Lemma drop_while_suffix p t : exists a, t = a ++ drop_while p t /\ Forall (fun x => p x = true) a.
Proof.
  induction t as [|y t (a & E & Ha)]; [by exists []|]. cbn. destruct (p y) eqn:Ey; [|by exists []].
  exists (y :: a). split; [by rewrite E at 1 | by constructor].
Qed.

(** Where [sdstrim] finds its ends, against the reference: [a] is the blank
    prefix, [d] what is kept, [c] the blank suffix. *)
Lemma trim_ends cset t :
  exists a c, t = a ++ trim_of cset t ++ c /\ trim_left t cset = size a /\
    (let ep := size t - 1 - trim_right (reverse (tail t)) cset in
     (if ep <? size a then 0 else ep - size a + 1) = size (trim_of cset t)).
Proof.
  destruct (trim_left_drop cset t) as (a & E & F & Ha).
  destruct (drop_while_head (strchr cset) t) as [Ed|(x & u & Ed & Hx)].
  - exists a, []. unfold trim_of. rewrite Ed. cbn [reverse rev_append drop_while]. split_and!; [|done|].
    + rewrite E at 1. by rewrite Ed.
    + cbn zeta. assert (t = a) as -> by (rewrite E, Ed; apply app_nil_r). rewrite trim_right_drop.
      destruct a as [|y a]; [done|]. cbn [tail]. apply Forall_cons in Ha as [_ Ha].
      rewrite <- (app_nil_r (reverse a)), drop_while_all by by apply Forall_reverse. cbn [drop_while].
      rewrite app_nil_r, size_nil, !size_cons. unfold size. rewrite length_reverse.
      destruct (Z.ltb_spec (1 + Z.of_nat (length a) - 1 - (Z.of_nat (length a) - 0)) (1 + Z.of_nat (length a))); lia.
  - set (p := strchr cset) in *. set (v := drop_while p (reverse u)).
    assert (trim_of cset t = x :: reverse v) as Et.
    { unfold trim_of. fold p. rewrite Ed, reverse_cons, drop_while_stop by done. by rewrite reverse_snoc. }
    destruct (drop_while_suffix p (reverse u)) as (c & Ec & Hc). fold v in Ec.
    assert (u = reverse v ++ reverse c) as Eu by (rewrite <- reverse_app, <- Ec; by rewrite reverse_involutive).
    exists a, (reverse c). rewrite Et. split_and!; [cbn; by rewrite <- Eu, <- Ed | done|].
    cbn zeta.
    assert (size u = size v + size c) as Hu.
    { rewrite Eu. unfold size. rewrite length_app, !length_reverse. lia. }
    assert (trim_right (reverse (tail t)) cset = size c) as ->.
    { rewrite trim_right_drop. fold p. rewrite E, Ed. destruct a as [|y a]; cbn [app tail].
      - fold v. unfold size in *. rewrite length_reverse. lia.
      - rewrite reverse_app, reverse_cons, <- app_assoc. cbn [app]. rewrite drop_while_stop by done. fold v.
        unfold size in *. rewrite !length_app, length_reverse. lia. }
    assert (size t = size a + 1 + size u) as -> by (rewrite E, Ed, size_app, size_cons; lia).
    assert (size (x :: reverse v) = size v + 1) as -> by (unfold size; cbn [length]; rewrite length_reverse; lia).
    pose proof (size_nonneg c). pose proof (size_nonneg v).
    destruct (Z.ltb_spec (size a + 1 + size u - 1 - size c) (size a)); lia.
Qed.

Lemma sdstrim_spec s t cset : repr s t -> exists s', sdstrim s cset = Ok s' /\ repr s' (trim_of cset t).
Proof.
  intros Hr. unfold sdstrim. rewrite (sds_bytes_repr _ _ Hr). cbn [mbind res_bind]. rewrite (repr_sdslen _ _ Hr).
  destruct (trim_ends cset t) as (a & c & E & -> & Hlen). cbn zeta in *. rewrite Hlen.
  assert (size (trim_of cset t) <= size t) as Hle by (apply (f_equal size) in E; size_lia).
  destruct (mem_move_slice s t a (trim_of cset t) c Hr E) as (rest & Em & Hm).
  destruct (Z.eqb_spec (size a) 0) as [Ha|Ha]; cbn [negb mbind res_bind].
  - apply size_zero in Ha as ->. destruct (repr_bytes _ _ Hr) as (junk & Eb).
    apply (set_length_spec s t _ _ (map Some c ++ Some Byte.x00 :: junk)); [done| |done|done].
    cbn [app] in E. rewrite app_assoc, <- map_app, <- E. done.
  - rewrite Em. cbn [mbind res_bind]. by apply (set_length_spec s t _ _ rest).
Qed.

(** ** Operations on one string *)

(** The operations that change a string and return it. *)
Inductive sds_op : Type :=
  | op_cat (u : bytes)                 (* sdscatlen *)
  | op_cpy (u : bytes)                 (* sdscpylen *)
  | op_room (n : Z)                    (* sdsMakeRoomFor *)
  | op_growzero (n : Z)
  | op_clear
  | op_trim (cset : bytes)
  | op_range (start end_ : Z)
  | op_tolower
  | op_toupper
  | op_mapchars (from to : bytes).

(** Their meaning on the bytes alone. *)
Definition denote (o : sds_op) (t : bytes) : bytes :=
  match o with
  | op_cat u => t ++ u
  | op_cpy u => u
  | op_room _ => t
  | op_growzero n => t ++ replicate (Z.to_nat (n - size t)) Byte.x00
  | op_clear => []
  | op_trim cset => trim_of cset t
  | op_range start end_ => range_of t start end_
  | op_tolower => map tolower t
  | op_toupper => map toupper t
  | op_mapchars from to => map (map_char from to) t
  end.

(** Sizes stay under half a gigabyte, positions are [int]s. *)
Definition op_fits (o : sds_op) (t : bytes) : Prop :=
  match o with
  | op_cat u | op_cpy u => size t + size u <= 2 ^ 29
  | op_room n => 0 <= n /\ size t + n <= 2 ^ 29
  | op_growzero n => 0 <= n <= 2 ^ 29
  | op_range start end_ => - INT_MAX <= start < INT_MAX /\ - INT_MAX <= end_ < INT_MAX
  | _ => True
  end.

Fixpoint ops_fit (os : list sds_op) (t : bytes) : Prop :=
  match os with [] => True | o :: os' => op_fits o t /\ ops_fit os' (denote o t) end.

Section Ops.
Context `{Allocator}.

Definition returned (m : res sds) : res (option sds) := let* s := m in Ok (Some s).

Definition sds_exec (o : sds_op) (s : sds) : res (option sds) :=
  match o with
  | op_cat u => sdscatlen s u
  | op_cpy u => sdscpylen s u
  | op_room n => sdsMakeRoomFor s n
  | op_growzero n => sdsgrowzero s n
  | op_clear => returned (sdsclear s)
  | op_trim cset => returned (sdstrim s cset)
  | op_range start end_ => returned (sdsrange s start end_)
  | op_tolower => returned (sdstolower s)
  | op_toupper => returned (sdstoupper s)
  | op_mapchars from to => returned (sdsmapchars s from to)
  end.

(** Operations in sequence; a [NULL] ends it. *)
Fixpoint sds_run (os : list sds_op) (s : sds) : res (option sds) :=
  match os with
  | [] => Ok (Some s)
  | o :: os' => let* r := sds_exec o s in match r with None => Ok None | Some s => sds_run os' s end
  end.

Lemma returned_post (P : sds -> Prop) m : (exists s, m = Ok s /\ P s) -> post P (returned m).
Proof. by intros (s & -> & Hs). Qed.

Lemma sds_exec_spec o s t :
  repr s t -> op_fits o t -> post (fun s' => repr s' (denote o t)) (sds_exec o s).
Proof.
  intros Hr Hf. destruct o; cbn [sds_exec denote op_fits] in *.
  - by apply sdscatlen_spec.
  - by eapply sdscpylen_spec.
  - destruct Hf. eapply post_mono; [by apply (sdsMakeRoomFor_spec s t)|]. by intros s' [Hs _].
  - by apply sdsgrowzero_spec.
  - apply returned_post. exact (sdsclear_spec s t Hr).
  - apply returned_post. by apply sdstrim_spec.
  - destruct Hf. apply returned_post. by apply sdsrange_spec.
  - apply returned_post. by apply map_bytes_spec.
  - apply returned_post. by apply map_bytes_spec.
  - apply returned_post. by apply map_bytes_spec.
Qed.

End Ops.


(** ** [sdscatfmt] *)

(** The text of a format with its arguments. *)
Inductive renders : bytes -> list fmt_arg -> bytes -> Prop :=
  | renders_end args : renders [] args []
  | renders_char c f args out :
      c <> "%"%byte -> renders f args out -> renders (c :: f) args (c :: out)
  | renders_other x f args out :
      fmt_takes_arg x = false -> renders f args out -> renders ("%"%byte :: x :: f) args (x :: out)
  | renders_str d f args out :
      renders f args out -> renders ("%"%byte :: "s"%byte :: f) (arg_str d :: args) (c_str d ++ out)
  | renders_sds x d f args out :
      repr x d -> renders f args out -> renders ("%"%byte :: "S"%byte :: f) (arg_sds x :: args) (d ++ out)
  | renders_signed x z f args out :
      x = "i"%byte \/ x = "I"%byte -> LONG_MIN < z <= LONG_MAX -> renders f args out ->
      renders ("%"%byte :: x :: f) (arg_num z :: args) (to_string z ++ out)
  | renders_unsigned x z f args out :
      x = "u"%byte \/ x = "U"%byte \/ x = "T"%byte -> 0 <= z < 2 ^ 64 -> renders f args out ->
      renders ("%"%byte :: x :: f) (arg_num z :: args) (to_string z ++ out).

(** A string while it is written to: no terminator yet. *)
Definition holds (s : sds) (t : bytes) : Prop :=
  s.(sds_len) = size t /\ 0 <= s.(sds_free) /\ s.(sds_len) + s.(sds_free) <= INT_MAX /\
  exists junk, s.(sds_buf) = map Some t ++ junk /\ size junk = s.(sds_free) + 1.

Lemma repr_holds s t : repr s t -> holds s t.
Proof.
  intros Hr. destruct (repr_fields _ _ Hr) as (H0 & Hl & Hf & Hi & Hs).
  destruct (repr_cells _ _ Hr) as (junk & E & Hj). split_and!; [done..|].
  exists (Some Byte.x00 :: junk). rewrite size_cons. split; [done | lia].
Qed.

Lemma fmt_text_ok x a d : fmt_text x a = Ok d -> fmt_takes_arg x = true.
Proof.
  destruct a; cbn; [destruct (eqc_spec x "s"%byte) as [->|] | destruct (eqc_spec x "S"%byte) as [->|] | ]; try done.
  destruct (eqc_spec x "i"%byte) as [->|]; [done|]. destruct (eqc_spec x "I"%byte) as [->|]; [done|]. cbn [orb].
  destruct (eqc_spec x "u"%byte) as [->|]; [done|]. destruct (eqc_spec x "U"%byte) as [->|]; [done|].
  by destruct (eqc_spec x "T"%byte) as [->|].
Qed.

Section CatFmt.
Context `{Allocator}.

Definition unchecked_room (s : sds) (n : Z) : res sds :=
  let* o := sdsMakeRoomFor s n in match o with None => UB null_pointer | Some s => Ok s end.

Lemma unchecked_room_spec s t n (k : sds -> res sds) P :
  holds s t -> 0 <= n -> size t + n <= 2 ^ 29 ->
  (forall s', holds s' t -> n <= s'.(sds_free) -> grants P (k s')) -> grants P (mbind k (unchecked_room s n)).
Proof.
  intros (Hl & Hf & Hi & junk & E & Hj) Hn Hsz Hk. unfold unchecked_room. pose proof (size_nonneg t).
  assert (size s.(sds_buf) = s.(sds_len) + s.(sds_free) + 1) as Hs.
  { rewrite E, size_app. unfold size in *. rewrite length_map. lia. }
  pose proof (sdsMakeRoomFor_grow s n ltac:(lia) Hf Hi Hs Hn ltac:(lia)) as Hp.
  destruct (sdsMakeRoomFor s n) as [[s'|]| |]; cbn [mbind res_bind post grants] in *; try done.
  destruct Hp as (new & -> & Hn' & Hi'). cbn in *. apply Hk; [|done].
  split_and!; cbn; [done | lia | lia|]. exists (junk ++ new). rewrite E, <- app_assoc, size_app. split; [done | lia].
Qed.

Lemma fmt_put_spec s t d :
  holds s t -> size d <= s.(sds_free) ->
  exists s', fmt_put s (size t) d = Ok (s', size (t ++ d)) /\ holds s' (t ++ d).
Proof.
  intros (Hl & Hf & Hi & junk & E & Hj) Hd. unfold fmt_put. unfold INT_MAX in *.
  pose proof (size_nonneg t). pose proof (size_nonneg d).
  destruct (split_memory junk (size d)) as (a & b & -> & Ha); [lia|].
  rewrite size_app in Hj. rewrite E, <- (size_map_Some t), mem_write_middle by done. rewrite size_map_Some.
  cbn [mbind res_bind]. rewrite !int_result_id by (unfold INT_MAX; lia). cbn [mbind res_bind].
  rewrite size_app. eexists. split; [reflexivity|]. unfold holds. cbn. unfold INT_MAX. rewrite size_app. split_and!; try lia.
  exists b. rewrite map_app, <- app_assoc. split; [done | lia].
Qed.

Lemma holds_finish s t :
  holds s t -> exists m, mem_write s.(sds_buf) (size t) [Byte.x00] = Ok m /\ repr (set_buf s m) t.
Proof.
  intros (Hl & Hf & Hi & junk & E & Hj). destruct junk as [|x junk]; [rewrite size_nil in Hj; lia|].
  rewrite size_cons in Hj. rewrite E, <- (size_map_Some t). rewrite (mem_write_middle _ [x] junk) by done.
  eexists. split; [reflexivity|]. unfold set_buf. eapply repr_intro; [done.. | | reflexivity]. lia.
Qed.

(** One conversion: its text [d] is appended. *)
Lemma fmt_arg_step s t x a d f args P :
  holds s t -> size t + size d + 1 <= 2 ^ 29 -> fmt_text x a = Ok d ->
  (forall s', holds s' (t ++ d) -> grants P (sdscatfmt_loop f args s' (size (t ++ d)))) ->
  grants P (sdscatfmt_loop ("%"%byte :: x :: f) (a :: args) s (size t)).
Proof.
  intros Hh Hsz Hd Hk. cbn [sdscatfmt_loop]. rewrite (fmt_text_ok _ _ _ Hd), Hd.
  fold (unchecked_room s 1). pose proof (size_nonneg d).
  assert (forall s, holds s t -> grants P (let* s := force_room s (size d) in
    let* (s, i) := fmt_put s (size t) d in sdscatfmt_loop f args s i)) as Hput.
  { intros s1 Hh1. unfold force_room. fold (unchecked_room s1 (size d)).
    destruct (Z.ltb_spec s1.(sds_free) (size d)).
    - apply (unchecked_room_spec _ t); [done | lia | lia|]. intros s2 Hh2 Hf2.
      destruct (fmt_put_spec s2 t d Hh2 Hf2) as (s3 & -> & Hh3). cbn [mbind res_bind]. by apply Hk.
    - cbn [mbind res_bind]. destruct (fmt_put_spec s1 t d Hh1 ltac:(lia)) as (s3 & -> & Hh3).
      cbn [mbind res_bind]. by apply Hk. }
  destruct (_ =? 0); [apply (unchecked_room_spec _ t); [done | lia | lia|]; intros s' Hs' _|];
    cbn [mbind res_bind]; by apply Hput.
Qed.

(** One literal byte [c], by itself or after a percent sign. *)
Lemma fmt_char_step s t c (k : sds * Z -> res sds) P :
  holds s t -> size t + 1 <= 2 ^ 29 ->
  (forall s', holds s' (t ++ [c]) -> grants P (k (s', size (t ++ [c])))) ->
  grants P (let* s := (if s.(sds_free) =? 0 then unchecked_room s 1 else Ok s) in mbind k (fmt_put s (size t) [c])).
Proof.
  intros Hh Hsz Hk.
  assert (forall s, holds s t -> 1 <= s.(sds_free) -> grants P (mbind k (fmt_put s (size t) [c]))) as Hput.
  { intros s1 Hh1 Hf1. destruct (fmt_put_spec s1 t [c] Hh1 Hf1) as (s3 & -> & Hh3). cbn [mbind res_bind]. by apply Hk. }
  destruct (Z.eqb_spec s.(sds_free) 0).
  - apply (unchecked_room_spec _ t); [done | lia | lia|]. intros s' Hs' Hf. by apply Hput.
  - cbn [mbind res_bind]. apply Hput; [done|]. destruct Hh as (_ & Hf & _). lia.
Qed.

Lemma sdscatfmt_loop_spec f args out :
  renders f args out -> forall s t, holds s t -> size t + size out + 1 <= 2 ^ 29 ->
  grants (fun s' => repr s' (t ++ out)) (sdscatfmt_loop f args s (size t)).
Proof.
  assert (forall (t d out : bytes) s f args,
    (forall s t, holds s t -> size t + size out + 1 <= 2 ^ 29 ->
       grants (fun s' => repr s' (t ++ out)) (sdscatfmt_loop f args s (size t))) ->
    size t + size (d ++ out) + 1 <= 2 ^ 29 -> holds s (t ++ d) ->
    grants (fun s' => repr s' (t ++ d ++ out)) (sdscatfmt_loop f args s (size (t ++ d)))) as Hnext.
  { intros t d out' s f' args' IH Hsz Hh. rewrite app_assoc. apply IH; [done|]. rewrite !size_app in *. lia. }
  induction 1 as [args | c f args out Hc Hr IH | x f args out Hx Hr IH | d f args out Hr IH | x d f args out Hx Hr IH
    | x z f args out Hx Hz Hr IH | x z f args out Hx Hz Hr IH]; intros s t Hh Hsz.
  - cbn [sdscatfmt_loop]. destruct (holds_finish s t Hh) as (m & -> & Hr). cbn. by rewrite app_nil_r.
  - cbn [sdscatfmt_loop]. rewrite size_cons in Hsz. pose proof (size_nonneg out).
    apply eqc_false in Hc. rewrite Hc. apply (fmt_char_step s t c); [done | lia|]. intros s' Hs'.
    change (c :: out) with ([c] ++ out). apply Hnext; [done | rewrite size_app; change (size [c]) with 1; lia | done].
  - cbn [sdscatfmt_loop]. rewrite size_cons in Hsz. pose proof (size_nonneg out). rewrite Hx.
    apply (fmt_char_step s t x); [done | lia|]. intros s' Hs'.
    change (x :: out) with ([x] ++ out). apply Hnext; [done | rewrite size_app; change (size [x]) with 1; lia | done].
  - eapply fmt_arg_step; [done | | done|]; [rewrite size_app in Hsz; pose proof (size_nonneg out); lia|].
    intros s' Hs'. by apply Hnext.
  - eapply fmt_arg_step; [done | | cbn; by apply sds_bytes_repr|]; [rewrite size_app in Hsz; pose proof (size_nonneg out); lia|].
    intros s' Hs'. by apply Hnext.
  - eapply fmt_arg_step; [done | | by destruct Hx as [->| ->]; apply sdsll2str_decimal|];
      [rewrite size_app in Hsz; pose proof (size_nonneg out); lia|]. intros s' Hs'. by apply Hnext.
  - eapply (fmt_arg_step _ _ _ _ (to_string z)); [done | | rewrite <- (sdsull2str_decimal z Hz); by destruct Hx as [->|[->| ->]]|];
      [rewrite size_app in Hsz; pose proof (size_nonneg out); lia|]. intros s' Hs'. by apply Hnext.
Qed.

(** [sdscatfmt] appends the text of its format: literal bytes, [%%] and
    unknown conversions as they are, C strings up to their NUL, dynamic strings
    with all their bytes, and signed and unsigned numbers in decimal.  Every
    write stays in the allocation.  A refused allocation makes it use a null
    pointer, which is the only other outcome. *)
Theorem sdscatfmt_renders s t fmt args out :
  repr s t -> renders (c_str fmt) args out -> size t + size out + 1 <= 2 ^ 29 ->
  grants (fun s' => repr s' (t ++ out)) (sdscatfmt s fmt args).
Proof.
  intros Hr Hf Hsz. unfold sdscatfmt. rewrite (repr_sdslen _ _ Hr).
  rewrite wrap32_id by (unfold INT_MAX; size_lia). apply sdscatfmt_loop_spec; [done | by apply repr_holds | done].
Qed.
End CatFmt.

(** [sdscatfmt(s, "$%i\r\n%s%%", 3, "abc")] on an empty string. *)
Lemma sdscatfmt_renders_witness :
  exists s', sdscatfmt (H := fun _ => true) (mk_sds 0 0 [Some Byte.x00]) (str "$%i;%s%%") [arg_num (-3); arg_str (str "abc")] = Ok s' /\
    repr s' (str "$-3;abc%").
Proof.
  pose proof (sdscatfmt_renders (H := fun _ => true) (mk_sds 0 0 [Some Byte.x00]) [] (str "$%i;%s%%")
    [arg_num (-3); arg_str (str "abc")] (str "$-3;abc%")) as Hp.
  eexists. split; [vm_compute; reflexivity|]. apply Hp.
  - by apply (repr_intro [] 0 0 _ []).
  - apply (renders_char "$"%byte); [done|]. apply (renders_signed "i"%byte (-3)); [by left|vm_compute; split; [done|discriminate]|].
    apply (renders_char ";"%byte); [done|]. apply (renders_str (str "abc")).
    apply (renders_other "%"%byte); [done|]. constructor.
  - vm_compute. discriminate.
Defined.
