(* ===== verification/SdsText.v ===== *)
(** * [src/win/hiredis/sds.c]: splitting, joining and quoting.

    Pointers to strings are options, [None] for [NULL]; [live] is a use of one
    that the code does not test.  A vector of pointers is a list.  A C string
    that is scanned is the list of its bytes without the terminator, which
    [at_ p i] yields at the end; every read past it is guarded by a test of the
    byte before.  [free] has no effect on the results and is left out. *)
From S2P Require Import Prelude CxxString Sds SdsRefine.

Definition live {A} (o : option A) : res A := match o with Some a => Ok a | None => UB null_pointer end.

Definition at_ (p : bytes) (i : nat) : byte := default Byte.x00 (p !! i).

Definition pointer_size : Z := 8.

(** [isprint] in the "C" locale; a [char] above 127 is negative. *)
Definition isprint (c : byte) : bool := (32 <=? schar c) && (schar c <=? 126).

Section Text.
Context `{Allocator}.

(** ** Joining *)

(** The loop of both functions: [put] is [sdscat] or [sdscatsds]. *)
Fixpoint join_loop {A} (put : sds -> A -> res (option sds)) (argv : list A) (sep : bytes) (join : option sds)
  : res (option sds) :=
  match argv with
  | [] => Ok join
  | a :: argv' =>
      let* s := live join in
      let* join := put s a in
      let* join := (match argv' with [] => Ok join | _ => let* s := live join in sdscatlen s sep end) in
      join_loop put argv' sep join
  end.

Definition sdsjoin (argv : list bytes) (sep : bytes) : res (option sds) :=
  let* join := sdsempty in join_loop sdscat argv sep join.

Definition sdsjoinsds (argv : list sds) (sep : bytes) : res (option sds) :=
  let* join := sdsempty in join_loop sdscatsds argv sep join.

(** ** Splitting on a separator *)

(** The separator is at [s + j]. *)
Definition sep_at (s sep : bytes) (j : Z) : bool :=
  ((size sep =? 1) && (at_ s (Z.to_nat j) =c at_ sep 0)) || is_prefix sep (drop (Z.to_nat j) s).

(** [tokens[elements] = t] in a vector with room for [slots]. *)
Definition store (slots : Z) (tokens : list sds) (t : sds) : res (list sds) :=
  if size tokens <? slots then Ok (tokens ++ [t]) else UB index_out_of_bounds.

(** The [for] loop; [tokens] are the elements so far, [None] is [cleanup]. *)
Fixpoint splitlen_loop (fuel : nat) (s sep : bytes) (j start slots : Z) (tokens : list sds)
  : res (option (Z * Z * list sds)) :=
  match fuel with
  | O => UB no_fuel
  | S fuel' =>
      if j <? size s - (size sep - 1) then
        let* slots := (if slots <? size tokens + 2 then
            let* slots := int_result (slots * 2) in
            Ok (if alloc_ok (wrap64 (pointer_size * slots)) then Some slots else None)
          else Ok (Some slots)) in
        match slots with
        | None => Ok None
        | Some slots =>
            if sep_at s sep j then
              let* o := sdsnewlen (Some (take (Z.to_nat (j - start)) (drop (Z.to_nat start) s))) (j - start) in
              match o with
              | None => Ok None
              | Some t =>
                  let* tokens := store slots tokens t in
                  splitlen_loop fuel' s sep (j + size sep - 1 + 1) (j + size sep) slots tokens
              end
            else splitlen_loop fuel' s sep (j + 1) start slots tokens
        end
      else Ok (Some (start, slots, tokens))
  end.

(** [s] is the [len] bytes at the pointer and [sep] the [seplen] bytes of the
    separator; the result is the vector, its length the [*count]. *)
Definition sdssplitlen (s sep : bytes) : res (option (list sds)) :=
  if size sep <? 1 then Ok None
  else if negb (alloc_ok (wrap64 (pointer_size * 5))) then Ok None
  else if size s =? 0 then Ok (Some [])
  else
    let* r := splitlen_loop (S (length s)) s sep 0 0 5 [] in
    match r with
    | None => Ok None
    | Some (start, slots, tokens) =>
        let* o := sdsnewlen (Some (drop (Z.to_nat start) s)) (size s - start) in
        match o with
        | None => Ok None
        | Some t => let* tokens := store slots tokens t in Ok (Some tokens)
        end
    end.

(** ** Quoting *)

(** [sdscatvprintf] with [out] the whole formatted text: [vsnprintf] keeps what
    fits in the buffer, which grows until its last byte but one stays NUL. *)
Fixpoint sdscatvprintf_loop (fuel : nat) (s : sds) (out : bytes) (buflen : Z) : res (option sds) :=
  match fuel with
  | O => UB no_fuel
  | S fuel' =>
      if negb (alloc_ok buflen) then Ok None
      else
        let buf := take (Z.to_nat (buflen - 1)) out in
        if negb (at_ buf (Z.to_nat (buflen - 2)) =c Byte.x00) then sdscatvprintf_loop fuel' s out (wrap64 (buflen * 2))
        else sdscat s buf
  end.

Definition sdscatvprintf (s : sds) (out : bytes) : res (option sds) := sdscatvprintf_loop 64 s out 16.
Definition sdscatprintf (s : sds) (out : bytes) : res (option sds) := sdscatvprintf s out.

(** [%02x] of an [unsigned char] *)
Definition hex_char (d : Z) : byte := if d <? 10 then char_of_Z (48 + d) else char_of_Z (87 + d).
Definition hex2 (c : byte) : bytes := [hex_char (uchar c / 16); hex_char (uchar c mod 16)].

Definition NL : byte := Byte.x0a.
Definition CR : byte := Byte.x0d.
Definition TAB : byte := Byte.x09.
Definition BEL : byte := Byte.x07.
Definition BS : byte := Byte.x08.
Definition backslash : byte := "\"%byte.
Definition dquote : byte := Byte.x22.
Definition squote : byte := "'"%byte.

(** One byte of [sdscatrepr]. *)
Definition catrepr_char (s : sds) (c : byte) : res (option sds) :=
  if (c =c backslash) || (c =c dquote) then sdscatprintf s [backslash; c]
  else if c =c NL then sdscatlen s (str "\n")
  else if c =c CR then sdscatlen s (str "\r")
  else if c =c TAB then sdscatlen s (str "\t")
  else if c =c BEL then sdscatlen s (str "\a")
  else if c =c BS then sdscatlen s (str "\b")
  else if isprint c then sdscatprintf s [c]
  else sdscatprintf s (str "\x" ++ hex2 c).

Fixpoint catrepr_loop (o : option sds) (p : bytes) : res (option sds) :=
  match p with
  | [] => Ok o
  | c :: p' => let* s := live o in let* o := catrepr_char s c in catrepr_loop o p'
  end.

(** [p] is the [len] bytes at the pointer. *)
Definition sdscatrepr (s : sds) (p : bytes) : res (option sds) :=
  let* o := sdscatlen s [dquote] in
  let* o := catrepr_loop o p in
  let* s := live o in sdscatlen s [dquote].

(** ** Splitting a line into arguments *)

Definition is_hex_digit (c : byte) : bool :=
  let z := schar c in
  ((48 <=? z) && (z <=? 57)) || ((97 <=? z) && (z <=? 102)) || ((65 <=? z) && (z <=? 70)).

Definition hex_digit_to_int (c : byte) : Z :=
  let z := uchar c in
  if (48 <=? z) && (z <=? 57) then z - 48
  else if (97 <=? z) && (z <=? 102) then z - 87
  else if (65 <=? z) && (z <=? 70) then z - 55
  else 0.

Definition unescape (c : byte) : byte :=
  if c =c "n"%byte then NL else if c =c "r"%byte then CR else if c =c "t"%byte then TAB
  else if c =c "b"%byte then BS else if c =c "a"%byte then BEL else c.

(** [inq], [insq] *)
Inductive quoting : Type := unquoted | in_double | in_single.

(** What an iteration of the token loop does: append [c] and skip [n] more
    bytes, switch the quotes, end the token, or give up. *)
Inductive token_step : Type :=
  | token_char (c : byte) (n : nat)
  | token_quote (q : quoting)
  | token_done
  | token_err.

Definition closing (p : bytes) : token_step :=
  if negb (at_ p 1 =c Byte.x00) && negb (isspace (at_ p 1)) then token_err else token_done.

Definition step_token (q : quoting) (p : bytes) : token_step :=
  let c := at_ p 0 in
  match q with
  | in_double =>
      if (c =c backslash) && (at_ p 1 =c "x"%byte) && is_hex_digit (at_ p 2) && is_hex_digit (at_ p 3) then
        token_char (char_of_Z (hex_digit_to_int (at_ p 2) * 16 + hex_digit_to_int (at_ p 3))) 3
      else if (c =c backslash) && negb (at_ p 1 =c Byte.x00) then token_char (unescape (at_ p 1)) 1
      else if c =c dquote then closing p
      else if c =c Byte.x00 then token_err
      else token_char c 0
  | in_single =>
      if (c =c backslash) && (at_ p 1 =c squote) then token_char squote 1
      else if c =c squote then closing p
      else if c =c Byte.x00 then token_err
      else token_char c 0
  | unquoted =>
      if (c =c " "%byte) || (c =c NL) || (c =c CR) || (c =c TAB) || (c =c Byte.x00) then token_done
      else if c =c dquote then token_quote in_double
      else if c =c squote then token_quote in_single
      else token_char c 0
  end.

(** [while(!done)]: the token and the rest of the line; [None] is [goto err].
    [if ( *p) p++] is [tail]. *)
Fixpoint token_loop (fuel : nat) (q : quoting) (current : option sds) (p : bytes)
  : res (option (option sds * bytes)) :=
  match fuel with
  | O => UB no_fuel
  | S fuel' =>
      match step_token q p with
      | token_char c n =>
          let* s := live current in
          let* current := sdscatlen s [c] in
          token_loop fuel' q current (tail (drop n p))
      | token_quote q' => token_loop fuel' q' current (tail p)
      | token_done => Ok (Some (current, tail p))
      | token_err => Ok None
      end
  end.

Fixpoint skip_blanks (p : bytes) : bytes :=
  match p with c :: p' => if isspace c then skip_blanks p' else p | [] => [] end.

(** [vector] is [None] until the first token is stored. *)
Fixpoint splitargs_loop (fuel : nat) (p : bytes) (vector : option (list (option sds)))
  : res (option (list (option sds))) :=
  match fuel with
  | O => UB no_fuel
  | S fuel' =>
      match skip_blanks p with
      | [] =>
          match vector with
          | None => Ok (if alloc_ok pointer_size then Some [] else None)
          | Some v => Ok (Some v)
          end
      | p =>
          let* current := sdsempty in
          let* r := token_loop (S (length p)) unquoted current p in
          match r with
          | None => Ok None
          | Some (current, p) =>
              let v := default [] vector in
              let* argc := int_result (size v + 1) in
              if negb (alloc_ok (wrap64 (argc * pointer_size))) then UB null_pointer
              else splitargs_loop fuel' p (Some (v ++ [current]))
          end
      end
  end.

Definition sdssplitargs (line : bytes) : res (option (list (option sds))) :=
  splitargs_loop (S (length (c_str line))) (c_str line) None.
End Text.

Example splitargs_example :
  let a n := Z.leb n 1000 in
  match sdssplitargs (H := a) (str "set 'it\'s' " ++ [dquote] ++ str "a\x41\n" ++ [dquote]) with
  | Ok (Some v) => map (fun o => match o with Some s => sds_bytes s | None => UB null_pointer end) v
  | _ => [] end = [Ok (str "set"); Ok (str "it's"); Ok (str "aA" ++ [NL])].
Proof. reflexivity. Qed.

(** ** Lemmas: quoting *)

(** What [sdscatrepr] writes for a byte, and for a string. *)
Definition escape (c : byte) : bytes :=
  if (c =c backslash) || (c =c dquote) then [backslash; c]
  else if c =c NL then str "\n" else if c =c CR then str "\r" else if c =c TAB then str "\t"
  else if c =c BEL then str "\a" else if c =c BS then str "\b"
  else if isprint c then [c] else str "\x" ++ hex2 c.

Definition escaped (p : bytes) : bytes := concat (map escape p).
Definition quoted (p : bytes) : bytes := dquote :: escaped p ++ [dquote].

(** Each escape reads back as its byte. *)
Lemma step_escape c rest :
  exists n, step_token in_double (escape c ++ rest) = token_char c n /\ tail (drop n (escape c ++ rest)) = rest.
Proof. destruct c; (eexists; split; [cbv; reflexivity | reflexivity]). Qed.

Lemma escape_facts c : (size (escape c) <=? 4) && negb (mem Byte.x00 (escape c)) && (1 <=? size (escape c)) = true.
Proof. revert c. apply byte_forall. vm_compute. reflexivity. Qed.

Lemma escape_no_nul c : Byte.x00 ∉ escape c.
Proof. apply mem_false. pose proof (escape_facts c). destruct (mem _ _); [|done]. by rewrite andb_false_r in *. Qed.

Lemma escape_size c : 1 <= size (escape c) <= 4.
Proof. pose proof (escape_facts c) as E. apply andb_prop in E as [E E2]. apply andb_prop in E as [E1 _]. lia. Qed.

Lemma quoted_no_nul p : Byte.x00 ∉ quoted p.
Proof.
  unfold quoted. rewrite elem_of_cons, elem_of_app, list_elem_of_singleton. intros [?|[Hin|?]]; [done| |done].
  unfold escaped in Hin. induction p as [|c p IH]; [by apply elem_of_nil in Hin|].
  cbn in Hin. apply elem_of_app in Hin as [Hin|Hin]; [by apply escape_no_nul in Hin | done].
Qed.

Section TextLemmas.
Context `{Allocator}.

Lemma grants_live {A B} (P : A -> Prop) (Q : B -> Prop) o (k : A -> res B) :
  or_null P o -> (forall a, P a -> grants Q (k a)) -> grants Q (mbind k (live o)).
Proof. destruct o as [a|]; cbn; [auto | done]. Qed.

(** Running an operation that may return [NULL] and using its result. *)
Lemma grants_use {A B} (P : B -> Prop) (Q : A -> Prop) m (k : B -> res A) :
  grants (or_null P) m -> (forall s, P s -> grants Q (k s)) ->
  grants Q (let* o := m in mbind k (live o)).
Proof. intros Hm Hk. eapply grants_bind; [exact Hm|]. intros o Ho. by eapply grants_live. Qed.

Lemma sdscatprintf_spec s t out :
  repr s t -> Byte.x00 ∉ out -> size out <= 14 -> size t + size out <= 2 ^ 29 ->
  post (fun s' => repr s' (t ++ out)) (sdscatprintf s out).
Proof.
  intros Hr Hn Hs Hsz. unfold sdscatprintf, sdscatvprintf. cbn [sdscatvprintf_loop].
  destruct (alloc_ok 16) eqn:A; cbn [negb]; [|by exists 16].
  rewrite take_ge by (unfold size in *; cbn; lia).
  assert (at_ out (Z.to_nat (16 - 2)) = Byte.x00) as ->.
  { unfold at_. rewrite lookup_ge_None_2; [done|]. unfold size in *. cbn. lia. }
  rewrite eqc_refl. cbn [negb]. unfold sdscat. rewrite c_str_no_nul by done. by apply sdscatlen_spec.
Qed.

Lemma catrepr_char_spec s t c :
  repr s t -> size t + 4 <= 2 ^ 29 -> post (fun s' => repr s' (t ++ escape c)) (catrepr_char s c).
Proof.
  intros Hr Hsz. unfold catrepr_char. pose proof (escape_no_nul c) as Hn. pose proof (escape_size c) as Hc.
  unfold escape in *.
  repeat match goal with |- context [if ?b then _ else _] => destruct b end;
    first [apply sdscatlen_spec | apply sdscatprintf_spec]; try done; try lia; try (cbn; lia).
Qed.

Lemma catrepr_loop_spec p o t :
  or_null (fun s => repr s t) o -> size t + size (escaped p) + 4 <= 2 ^ 29 ->
  grants (or_null (fun s => repr s (t ++ escaped p))) (catrepr_loop o p).
Proof.
  revert o t. induction p as [|c p IH]; intros o t Ho Hsz; cbn [catrepr_loop].
  - unfold escaped. cbn. by rewrite app_nil_r.
  - assert (escaped (c :: p) = escape c ++ escaped p) as E by done. rewrite E in *. rewrite size_app in Hsz.
    pose proof (size_nonneg (escaped p)). pose proof (escape_size c).
    eapply grants_live; [exact Ho|]. intros s Hr. eapply grants_bind.
    { apply post_grants, (catrepr_char_spec s t); [done | lia]. }
    intros o' Ho'. rewrite app_assoc. apply IH; [done|]. rewrite size_app. lia.
Qed.

Lemma sdscatrepr_spec s t p :
  repr s t -> size t + size (quoted p) + 4 <= 2 ^ 29 ->
  grants (or_null (fun s' => repr s' (t ++ quoted p))) (sdscatrepr s p).
Proof.
  intros Hr Hsz. unfold sdscatrepr, quoted in *. rewrite size_cons, size_app in Hsz. change (size [dquote]) with 1 in Hsz.
  pose proof (size_nonneg (escaped p)).
  eapply grants_bind; [apply post_grants, (sdscatlen_spec s t); [done | change (size [dquote]) with 1; lia]|].
  intros o Ho. eapply grants_bind; [apply (catrepr_loop_spec p o (t ++ [dquote])); [done|]|].
  { rewrite size_app. change (size [dquote]) with 1. lia. }
  intros o' Ho'. eapply grants_live; [exact Ho'|]. intros s' Hs'. apply post_grants.
  assert (t ++ dquote :: escaped p ++ [dquote] = ((t ++ [dquote]) ++ escaped p) ++ [dquote]) as ->
    by (by rewrite <- !app_assoc).
  apply sdscatlen_spec; [done|]. rewrite !size_app. change (size [dquote]) with 1. lia.
Qed.

(** ** Lemmas: reading a quoted token *)

Lemma token_loop_quoted p : forall fuel s t rest,
  (length (escaped p ++ dquote :: rest) < fuel)%nat -> repr s t -> size t + size p <= 2 ^ 29 ->
  (rest = [] \/ exists r, rest = " "%byte :: r) ->
  grants (fun r => exists o, r = Some (o, rest) /\ or_null (fun s' => repr s' (t ++ p)) o)
    (token_loop fuel in_double (Some s) (escaped p ++ dquote :: rest)).
Proof.
  induction p as [|c p IH]; intros [|fuel] s t rest Hfuel Hr Hsz Hrest; [lia| |lia|]; cbn [token_loop].
  - assert (step_token in_double (escaped [] ++ dquote :: rest) = token_done) as ->.
    { destruct Hrest as [->|(r & ->)]; reflexivity. }
    cbn. exists (Some s). rewrite app_nil_r. done.
  - assert (escaped (c :: p) ++ dquote :: rest = escape c ++ (escaped p ++ dquote :: rest)) as E
      by (unfold escaped; cbn; by rewrite <- app_assoc).
    rewrite E in *. destruct (step_escape c (escaped p ++ dquote :: rest)) as (n & -> & ->).
    rewrite size_cons in Hsz. pose proof (size_nonneg p). pose proof (escape_size c). cbn [live mbind res_bind].
    eapply grants_bind; [apply post_grants, (sdscatlen_spec s t [c]); [done | change (size [c]) with 1; lia]|].
    intros [s'|] Hs'.
    + change (c :: p) with ([c] ++ p). rewrite app_assoc. apply IH; [|done| |done].
      * rewrite length_app in Hfuel. unfold size in *. lia.
      * rewrite size_app. change (size [c]) with 1. lia.
    + cbn in Hs'. destruct fuel as [|fuel]; [rewrite length_app in Hfuel; unfold size in *; lia|].
      clear IH. destruct p as [|d p]; cbn [token_loop].
      * assert (step_token in_double (escaped [] ++ dquote :: rest) = token_done) as ->.
        { destruct Hrest as [->|(r & ->)]; reflexivity. }
        cbn. by exists None.
      * assert (escaped (d :: p) ++ dquote :: rest = escape d ++ (escaped p ++ dquote :: rest)) as E'
          by (unfold escaped; cbn; by rewrite <- app_assoc).
        rewrite E'. destruct (step_escape d (escaped p ++ dquote :: rest)) as (n' & -> & _). done.
Qed.

(** A line of quoted tokens, each with a space after it. *)
Definition line_of (toks : list bytes) : bytes := concat (map (fun t => quoted t ++ [" "%byte]) toks).

Definition holds_token (o : option sds) (t : bytes) : Prop := or_null (fun s => repr s t) o.

Lemma line_of_cons t toks : line_of (t :: toks) = quoted t ++ " "%byte :: line_of toks.
Proof using. unfold line_of. cbn [map concat]. rewrite <- (app_assoc (quoted t)). done. Qed.

Lemma line_of_no_nul toks : Byte.x00 ∉ line_of toks.
Proof using.
  induction toks as [|t toks IH]; [by intros ?%elem_of_nil|]. rewrite line_of_cons, elem_of_app, elem_of_cons.
  intros [Hin|[?|Hin]]; [by apply quoted_no_nul in Hin | done | done].
Qed.

Lemma sdsempty_spec : grants (or_null (fun s => repr s [])) sdsempty.
Proof. apply post_grants. apply (sdsnewlen_spec []). rewrite size_nil. lia. Qed.

Lemma size_escaped p : size p <= size (escaped p).
Proof using.
  induction p as [|c p IH]; [done|]. unfold escaped in *. cbn [map concat]. rewrite size_app, size_cons.
  pose proof (escape_size c). lia.
Qed.

Lemma splitargs_loop_spec toks : forall fuel p v done,
  skip_blanks p = line_of toks -> (length p < fuel)%nat -> size p <= 2 ^ 29 ->
  size done + size (line_of toks) <= 2 ^ 29 -> Forall2 holds_token (default [] v) done ->
  grants (or_null (fun v => Forall2 holds_token v (done ++ toks))) (splitargs_loop fuel p v).
Proof.
  induction toks as [|t toks IH]; intros [|fuel] p v dn Hp Hfuel Hsz Hdn Hv; [lia| |lia|]; cbn [splitargs_loop].
  - rewrite Hp. cbn. rewrite app_nil_r. destruct v as [v|]; cbn in *; [done|].
    destruct (alloc_ok pointer_size) eqn:A; cbn; [done | by eexists].
  - rewrite Hp, line_of_cons. unfold quoted. cbn [app]. rewrite line_of_cons in Hdn, Hp.
    assert (length (quoted t ++ " "%byte :: line_of toks) <= length p)%nat as Hlen.
    { rewrite <- Hp. clear. induction p as [|c p IH]; cbn; [lia|]. destruct (isspace c); cbn; lia. }
    pose proof (size_escaped t) as Het. pose proof (size_nonneg dn). pose proof (size_nonneg (line_of toks)).
    assert (length (quoted t) = length (escaped t) + 2)%nat as Hq by (unfold quoted; cbn; rewrite length_app; cbn; lia).
    rewrite size_app, size_cons in Hdn. rewrite length_app in Hlen. cbn [length] in Hlen.
    eapply grants_bind; [apply sdsempty_spec|]. intros cur Hcur.
    set (q := dquote :: (escaped t ++ [dquote]) ++ " "%byte :: line_of toks).
    assert (forall r, (exists o, r = Some (o, " "%byte :: line_of toks) /\ holds_token o t) ->
      grants (or_null (fun v => Forall2 holds_token v (dn ++ t :: toks)))
        (match r with None => Ok None | Some (current, p) =>
           let* argc := int_result (size (default [] v) + 1) in
           if negb (alloc_ok (wrap64 (argc * pointer_size))) then UB null_pointer
           else splitargs_loop fuel p (Some (default [] v ++ [current])) end)) as Hstore.
    { intros r (o & -> & Ho). pose proof (Forall2_length _ _ _ Hv) as Hvl.
      rewrite int_result_id by (unfold INT_MAX, size in *; lia). cbn [mbind res_bind].
      destruct (alloc_ok _) eqn:A; cbn [negb]; [|by eexists].
      replace (dn ++ t :: toks) with ((dn ++ [t]) ++ toks) by by rewrite <- app_assoc.
      apply IH; try done.
      - cbn [skip_blanks]. change (isspace " "%byte) with true. cbn [skip_blanks].
        destruct toks; [done|]. by rewrite line_of_cons.
      - cbn [length]. lia.
      - rewrite size_cons. unfold size in *. lia.
      - rewrite size_app. change (size [t]) with 1. unfold size in *. lia.
      - cbn [default]. apply Forall2_app; [done | by constructor]. }
    eapply grants_bind; [|exact Hstore].
    cbn [token_loop]. change (step_token unquoted q) with (token_quote in_double). cbn beta iota.
    change (tail q) with ((escaped t ++ [dquote]) ++ " "%byte :: line_of toks). rewrite <- app_assoc. cbn [app].
    unfold q. cbn [length]. destruct cur as [s|].
    + eapply grants_mono; [apply (token_loop_quoted t _ s []); [|done| |by right; eexists]|].
      * rewrite <- app_assoc. cbn [app]. lia.
      * rewrite size_nil. unfold size in *. lia.
      * done.
    + cbn in Hcur. destruct t as [|c t]; cbn [token_loop].
      * cbn. by exists None.
      * assert (escaped (c :: t) ++ dquote :: " "%byte :: line_of toks =
          escape c ++ (escaped t ++ dquote :: " "%byte :: line_of toks)) as E
          by (unfold escaped; cbn; by rewrite <- app_assoc).
        rewrite E. by destruct (step_escape c (escaped t ++ dquote :: " "%byte :: line_of toks)) as (n' & -> & _).
Qed.

(** Quoting tokens one after the other onto a line. *)
Fixpoint quote_tokens (toks : list bytes) (s : sds) : res sds :=
  match toks with
  | [] => Ok s
  | t :: toks' =>
      let* o := sdscatrepr s t in
      let* s := live o in
      let* o := sdscatlen s [" "%byte] in
      let* s := live o in quote_tokens toks' s
  end.

Lemma quote_tokens_spec toks : forall s t,
  repr s t -> size t + size (line_of toks) + 4 <= 2 ^ 29 ->
  grants (fun s' => repr s' (t ++ line_of toks)) (quote_tokens toks s).
Proof.
  induction toks as [|u toks IH]; intros s t Hr Hsz; cbn [quote_tokens].
  - unfold line_of. cbn. by rewrite app_nil_r.
  - rewrite line_of_cons in *. rewrite size_app, size_cons in Hsz. pose proof (size_nonneg (line_of toks)).
    eapply grants_use; [apply (sdscatrepr_spec s t); [done | lia]|]. intros s' Hs'.
    eapply grants_use; [apply post_grants, (sdscatlen_spec s' (t ++ quoted u)); [done|]|].
    { rewrite size_app. change (size [" "%byte]) with 1. lia. }
    intros s'' Hs''.
    replace (t ++ quoted u ++ " "%byte :: line_of toks) with (((t ++ quoted u) ++ [" "%byte]) ++ line_of toks)
      by by rewrite <- !app_assoc.
    apply IH; [done|]. rewrite !size_app. change (size [" "%byte]) with 1. lia.
Qed.

(** Quoting and splitting are inverse.  A line made of the [sdscatrepr] forms
    of any byte strings (quotes, backslashes, blanks, NULs and other bytes that
    are not printable included), each followed by a space, is split by
    [sdssplitargs] into exactly those strings, in order; the only other outcomes
    are those of a refused allocation. *)
Theorem splitargs_catrepr toks s :
  repr s [] -> size (line_of toks) + 4 <= 2 ^ 29 ->
  grants (or_null (fun v => Forall2 holds_token v toks))
    (let* s := quote_tokens toks s in
     let* line := sds_bytes s in
     sdssplitargs line).
Proof.
  intros Hr Hsz. eapply grants_bind; [apply (quote_tokens_spec toks s []); [done | rewrite size_nil; lia]|].
  intros s' Hs'. cbn [app] in Hs'. rewrite (sds_bytes_repr _ _ Hs'). cbn [mbind res_bind].
  unfold sdssplitargs. rewrite (c_str_no_nul _ (line_of_no_nul toks)).
  apply (splitargs_loop_spec toks _ _ None []); [|lia|lia|rewrite size_nil; lia|by constructor].
  destruct toks as [|t toks]; [done|]. by rewrite line_of_cons.
Qed.
End TextLemmas.

Lemma splitargs_catrepr_witness :
  exists a b, (let* s := quote_tokens (H := fun _ => true) [str "it's"; [Byte.x00; dquote]] (mk_sds 0 0 [Some Byte.x00]) in
     let* line := sds_bytes s in
     sdssplitargs (H := fun _ => true) line) = Ok (Some [Some a; Some b]) /\ repr a (str "it's") /\ repr b [Byte.x00; dquote].
Proof.
  pose proof (splitargs_catrepr (H := fun _ => true) [str "it's"; [Byte.x00; dquote]] (mk_sds 0 0 [Some Byte.x00])
    (repr_intro [] 0 0 _ [] eq_refl ltac:(lia) ltac:(vm_compute; discriminate) eq_refl eq_refl)
    ltac:(vm_compute; discriminate)) as Hs.
  match type of Hs with grants _ ?m =>
    let r := eval vm_compute in m in assert (m = r) as E by (vm_compute; reflexivity) end.
  rewrite E in Hs. cbn [grants or_null] in Hs. apply Forall2_cons in Hs as [Ha Hs]. apply Forall2_cons in Hs as [Hb _].
  eexists _, _. split; [exact E|]. split; [exact Ha | exact Hb].
Defined.

(** ** Splitting and joining *)

(** Byte strings with [sep] between them. *)
Definition joined (sep : bytes) (ts : list bytes) : bytes :=
  match ts with [] => [] | t :: ts' => t ++ concat (map (fun u => sep ++ u) ts') end.

Definition avoids (sep t : bytes) : Prop := forall a b, t <> a ++ sep ++ b.

Lemma joined_snoc sep ts t : joined sep (ts ++ [t]) = concat (map (fun u => u ++ sep) ts) ++ t.
Proof.
  destruct ts as [|u ts]; [by cbn; rewrite app_nil_r|]. cbn [app joined map concat].
  revert u. induction ts as [|v ts IH]; intros u; cbn [map concat app].
  - rewrite !app_nil_r, <- app_assoc. done.
  - rewrite <- app_assoc, IH, <- !app_assoc. done.
Qed.

Lemma joined_cons sep t u ts : joined sep (t :: u :: ts) = t ++ sep ++ joined sep (u :: ts).
Proof. unfold joined. cbn [map concat]. by rewrite <- app_assoc. Qed.

Lemma drop_slice (s : bytes) i j : 0 <= i <= j -> j <= size s ->
  drop (Z.to_nat i) s = take (Z.to_nat (j - i)) (drop (Z.to_nat i) s) ++ drop (Z.to_nat j) s.
Proof.
  intros Hi Hj. rewrite <- (take_drop (Z.to_nat (j - i)) (drop (Z.to_nat i) s)) at 1. rewrite drop_drop.
  do 2 f_equal. lia.
Qed.

Lemma size_slice (s : bytes) i n : 0 <= i -> 0 <= n -> i + n <= size s ->
  size (take (Z.to_nat n) (drop (Z.to_nat i) s)) = n.
Proof. intros. unfold size in *. rewrite length_take, length_drop. lia. Qed.

Lemma sep_at_prefix s sep j :
  0 <= j < size s -> sep_at s sep j = is_prefix sep (drop (Z.to_nat j) s).
Proof.
  intros Hj. unfold sep_at. destruct (Z.eqb_spec (size sep) 1) as [E|]; [|done].
  destruct sep as [|x [|y sep]]; [done| |rewrite !size_cons in E; pose proof (size_nonneg sep); lia].
  destruct (drop (Z.to_nat j) s) as [|c r] eqn:Ed.
  { apply (f_equal length) in Ed. rewrite length_drop in Ed. cbn in Ed. unfold size in *. lia. }
  assert (at_ s (Z.to_nat j) = c) as ->.
  { unfold at_. rewrite <- (Nat.add_0_r (Z.to_nat j)), <- lookup_drop, Ed. done. }
  change (at_ [x] 0) with x. cbn. destruct (eqc_spec c x) as [->|]; [by rewrite eqc_refl|]. done.
Qed.

(** No separator starts in [[i, j)]. *)
Definition clear_between (s sep : bytes) (i j : Z) : Prop :=
  forall k, i <= k < j -> is_prefix sep (drop (Z.to_nat k) s) = false.

Lemma clear_avoids s sep i j :
  0 < size sep -> 0 <= i <= j -> j <= size s -> clear_between s sep i j ->
  avoids sep (take (Z.to_nat (j - i)) (drop (Z.to_nat i) s)).
Proof.
  intros Hsep Hi Hj Hc a b E. pose proof (size_slice s i (j - i) ltac:(lia) ltac:(lia) ltac:(lia)) as Hs.
  rewrite E, !size_app in Hs. pose proof (size_nonneg a). pose proof (size_nonneg b).
  assert (is_prefix sep (drop (Z.to_nat (i + size a)) s) = true) as Ht; [|rewrite Hc in Ht; [done|lia]].
  rewrite Z2Nat.inj_add by lia. rewrite <- drop_drop, (drop_slice s i j Hi Hj), E.
  rewrite <- !app_assoc. rewrite drop_app_length' by (unfold size; lia).
  apply is_prefix_true. eauto.
Qed.

Section SplitLemmas.
Context `{Allocator}.

(** What the loop has split: [ts] are the tokens before [start], each followed
    by the separator. *)
Definition split_so_far (s sep : bytes) (start : Z) (tokens : list sds) : Prop :=
  exists ts, Forall2 repr tokens ts /\ Forall (avoids sep) ts /\
    concat (map (fun u => u ++ sep) ts) = take (Z.to_nat start) s.

Lemma split_so_far_push s sep start tokens x j :
  split_so_far s sep start tokens -> 0 < size sep -> 0 <= start <= j -> j + size sep <= size s ->
  clear_between s sep start j -> is_prefix sep (drop (Z.to_nat j) s) = true ->
  repr x (take (Z.to_nat (j - start)) (drop (Z.to_nat start) s)) ->
  split_so_far s sep (j + size sep) (tokens ++ [x]).
Proof using.
  intros (ts & H1 & H2 & H3) Hsep Hst Hj Hclear Hp Hx.
  exists (ts ++ [take (Z.to_nat (j - start)) (drop (Z.to_nat start) s)]). split_and!.
  - apply Forall2_app; [done | by constructor].
  - apply Forall_app. split; [done|]. constructor; [|done]. apply clear_avoids; try done; lia.
  - rewrite map_app, concat_app, H3. cbn [map concat]. rewrite app_nil_r.
    apply is_prefix_true in Hp as (r & Hr).
    assert (s = take (Z.to_nat start) s ++ take (Z.to_nat (j - start)) (drop (Z.to_nat start) s) ++ sep ++ r) as Es.
    { rewrite <- Hr, <- drop_slice by lia. by rewrite take_drop. }
    assert (forall a b, s = a ++ b ++ sep ++ r -> size a = start -> size b = j - start ->
      a ++ b ++ sep = take (Z.to_nat (j + size sep)) s) as Ht.
    { intros a b -> Ha Hb. rewrite !app_assoc, take_app_length'; [done|].
      rewrite !length_app. unfold size in *. lia. }
    apply (Ht _ _ Es); [unfold size in *; rewrite length_take; lia | apply size_slice; lia].
Qed.

(** What the loop returns. *)
Definition split_done (s sep : bytes) (r : Z * Z * list sds) : Prop :=
  let '(start, slots, tokens) := r in
  0 <= start <= size s /\ size tokens < slots /\ split_so_far s sep start tokens /\
  clear_between s sep start (size s).

Lemma splitlen_loop_spec s sep : 0 < size sep -> size s <= 2 ^ 28 -> size sep <= 2 ^ 28 ->
  forall fuel j start slots tokens,
  (Z.to_nat (size s - j) < fuel)%nat -> 0 <= start <= j -> start <= size s -> slots <= 2 ^ 30 -> size tokens <= j ->
  size tokens < slots ->
  split_so_far s sep start tokens -> clear_between s sep start j ->
  grants (or_null (split_done s sep)) (splitlen_loop fuel s sep j start slots tokens).
Proof.
  intros Hsep Hs Hss. induction fuel as [|fuel IH]; intros j start slots tokens Hfuel Hst Hle Hsl Htok Hroom Hsf Hcl; [lia|].
  pose proof (size_nonneg tokens).
  cbn [splitlen_loop]. destruct (Z.ltb_spec j (size s - (size sep - 1))) as [Hj|Hj].
  - assert (forall slots, size tokens + 2 <= slots <= 2 ^ 30 ->
      grants (or_null (split_done s sep))
       (if sep_at s sep j then
          let* o := sdsnewlen (Some (take (Z.to_nat (j - start)) (drop (Z.to_nat start) s))) (j - start) in
          match o with
          | None => Ok None
          | Some t =>
              let* tokens := store slots tokens t in
              splitlen_loop fuel s sep (j + size sep - 1 + 1) (j + size sep) slots tokens
          end
        else splitlen_loop fuel s sep (j + 1) start slots tokens)) as Hbody.
    { intros sl Hsl'. rewrite sep_at_prefix by lia. destruct (is_prefix sep (drop (Z.to_nat j) s)) eqn:E.
      - pose proof (size_slice s start (j - start) ltac:(lia) ltac:(lia) ltac:(lia)) as Hsz.
        rewrite <- Hsz at 2. eapply grants_bind; [apply post_grants, sdsnewlen_spec; lia|].
        intros [x|] Hx; [|done]. cbn in Hx. unfold store. destruct (Z.ltb_spec (size tokens) sl); [|lia].
        cbn [mbind res_bind]. pose proof (size_app tokens [x]) as Hx1. change (size [x]) with 1 in Hx1.
        apply IH; try lia.
        + apply split_so_far_push with (start := start); try done; lia.
        + intros k Hk. lia.
      - apply IH; try done; try lia. intros k Hk. destruct (Z.eq_dec k j) as [->|]; [done|]. apply Hcl. lia. }
    destruct (Z.ltb_spec slots (size tokens + 2)).
    + rewrite int_result_id by (unfold INT_MAX; lia). cbn [mbind res_bind].
      destruct (alloc_ok _) eqn:A; [|by eexists]. apply Hbody. lia.
    + cbn [mbind res_bind]. apply Hbody. lia.
  - cbn. split_and!; [lia..|done|]. intros k Hk. destruct (Z.lt_ge_cases k j); [apply Hcl; lia|].
    destruct (is_prefix sep (drop (Z.to_nat k) s)) eqn:E; [|done]. apply is_prefix_true in E as (r & E).
    apply (f_equal size) in E. rewrite size_app in E. unfold size in *. rewrite length_drop in E. lia.
Qed.

Lemma sdssplitlen_spec s sep : 0 < size sep <= 2 ^ 28 -> size s <= 2 ^ 28 ->
  grants (or_null (fun tokens => exists ts, Forall2 repr tokens ts /\ Forall (avoids sep) ts /\ joined sep ts = s))
    (sdssplitlen s sep).
Proof.
  intros Hsep Hs. unfold sdssplitlen. destruct (Z.ltb_spec (size sep) 1); [lia|].
  destruct (alloc_ok _) eqn:A; cbn [negb]; [|by eexists]. clear A.
  destruct (Z.eqb_spec (size s) 0) as [E|E].
  { apply size_zero in E as ->. by exists []. }
  pose proof (size_nonneg s) as Hs0. eapply grants_bind.
  { apply splitlen_loop_spec; rewrite ?size_nil; try lia; [unfold size; lia | | ].
    - exists []. split_and!; by constructor.
    - intros k Hk. lia. }
  intros [[[start slots] tokens]|] Hr; [|done]. destruct Hr as (Hst & Hroom & (ts & H1 & H2 & H3) & H4).
  assert (size (drop (Z.to_nat start) s) = size s - start) as Hd by (unfold size in *; rewrite length_drop; lia).
  rewrite <- Hd. eapply grants_bind; [apply post_grants, sdsnewlen_spec; lia|].
  intros [x|] Hx; [|done]. unfold store. destruct (Z.ltb_spec (size tokens) slots); [|lia].
  cbn in *. exists (ts ++ [drop (Z.to_nat start) s]). split_and!.
  - apply Forall2_app; [done | by constructor].
  - apply Forall_app. split; [done|]. constructor; [|done].
    pose proof (clear_avoids s sep start (size s) ltac:(lia) Hst ltac:(lia) H4) as Ha.
    rewrite take_ge in Ha by (rewrite length_drop; unfold size; lia). exact Ha.
  - by rewrite joined_snoc, H3, take_drop.
Qed.

Lemma join_loop_spec {A} (put : sds -> A -> res (option sds)) (R : A -> bytes -> Prop) sep :
  (forall s t a d, repr s t -> R a d -> size t + size d <= 2 ^ 29 -> post (fun s' => repr s' (t ++ d)) (put s a)) ->
  forall argv ts o t, Forall2 R argv ts -> or_null (fun s => repr s t) o -> size t + size (joined sep ts) <= 2 ^ 29 ->
  grants (or_null (fun s => repr s (t ++ joined sep ts))) (join_loop put argv sep o).
Proof.
  intros Hput argv ts o t HR. revert o t. induction HR as [|a d argv ts Ha HR IH]; intros o t Ho Hsz; cbn [join_loop].
  - cbn. by rewrite app_nil_r.
  - eapply grants_live; [exact Ho|]. intros s Hs.
    assert (size (joined sep (d :: ts)) = size d + match ts with [] => 0 | _ => size sep + size (joined sep ts) end) as Hj.
    { destruct ts; [cbn; rewrite app_nil_r; lia|]. rewrite joined_cons, !size_app. lia. }
    assert (0 <= match ts with [] => 0 | _ => size sep + size (joined sep ts) end)
      by (destruct ts as [|e ts']; [done|]; pose proof (size_nonneg sep); pose proof (size_nonneg (joined sep (e :: ts'))); lia).
    eapply grants_bind; [apply post_grants, (Hput s t a d); [done|done|lia]|]. intros o1 Ho1.
    destruct HR as [|a' d' argv ts Ha' HR].
    + cbn. rewrite app_nil_r. done.
    + eapply grants_bind.
      { eapply grants_live; [exact Ho1|]. intros s1 Hs1. apply post_grants, (sdscatlen_spec s1 (t ++ d)); [done|].
        pose proof (size_nonneg (joined sep (d' :: ts))). rewrite size_app. lia. }
      intros o2 Ho2. rewrite joined_cons. rewrite (app_assoc t), (app_assoc (t ++ d)).
      apply IH; [done|]. rewrite !size_app. lia.
Qed.

Lemma sdsjoinsds_spec argv ts sep :
  Forall2 repr argv ts -> size (joined sep ts) <= 2 ^ 29 ->
  grants (or_null (fun s => repr s (joined sep ts))) (sdsjoinsds argv sep).
Proof.
  intros HR Hsz. unfold sdsjoinsds. eapply grants_bind; [apply sdsempty_spec|]. intros o Ho.
  apply (join_loop_spec sdscatsds repr sep) with (t := []); [|done|done|rewrite size_nil; lia].
  intros s t a d Hs Ha Hle. unfold sdscatsds. rewrite (sds_bytes_repr _ _ Ha). by apply sdscatlen_spec.
Qed.

(** [sdssplitlen] cuts a string at every separator, of any length: none of
    its elements contains the separator, and [sdsjoinsds] with the same separator
    gives the string back.  The other outcomes are those of a refused allocation;
    the vector always has room for the elements stored in it. *)
Theorem split_join s sep :
  0 < size sep <= 2 ^ 28 -> size s <= 2 ^ 28 ->
  grants (fun '(tokens, j) => or_null (fun j => repr j s) j /\
      exists ts, Forall2 repr tokens ts /\ Forall (avoids sep) ts /\ joined sep ts = s)
    (let* o := sdssplitlen s sep in
     let* tokens := live o in
     let* j := sdsjoinsds tokens sep in Ok (tokens, j)).
Proof.
  intros Hsep Hs. eapply grants_use; [by apply sdssplitlen_spec|]. intros tokens (ts & H1 & H2 & H3).
  eapply grants_bind; [apply (sdsjoinsds_spec tokens ts sep H1); rewrite H3; lia|]. intros j Hj. rewrite H3 in Hj.
  cbn. split; [done|]. by exists ts.
Qed.
End SplitLemmas.

Lemma split_join_witness :
  exists a b c j, (let* o := sdssplitlen (H := fun _ => true) (str "foo_-_bar_-_") (str "_-_") in
     let* tokens := live o in
     let* j := sdsjoinsds (H := fun _ => true) tokens (str "_-_") in Ok (tokens, j)) = Ok ([a; b; c], Some j) /\
    repr j (str "foo_-_bar_-_").
Proof.
  pose proof (split_join (H := fun _ => true) (str "foo_-_bar_-_") (str "_-_")
    ltac:(vm_compute; split; [done | discriminate]) ltac:(vm_compute; discriminate)) as Hs.
  match type of Hs with grants _ ?m =>
    let r := eval vm_compute in m in assert (m = r) as E by (vm_compute; reflexivity) end.
  rewrite E in Hs. destruct Hs as [Hj _].
  eexists _, _, _, _. split; [exact E | exact Hj].
Defined.
