(* ===== verification/HiredisFormat.v ===== *)
(** * [src/win/hiredis/hiredis.c]: formatting commands.

    A command goes to the server as an array of bulk strings.  Three functions
    build one: from a printf-like format ([redisvFormatCommand]), from a vector
    of arguments into a malloc'ed buffer ([redisFormatCommandArgv]) and into a
    dynamic string ([redisFormatSdsCommandArgv]).  Each computes the length
    first and asserts that it wrote exactly that much. *)
From S2P Require Import Prelude CxxString Sds SdsRefine SdsText.

(** Rendering of one numeric conversion by [vsnprintf]: the conversion with its
    flags, width and precision, and the argument. *)
Inductive va_value : Type :=
  | va_int (z : Z)            (* int, long, long long *)
  | va_double (bits : Z).     (* the IEEE representation *)
Class Printf : Type := print_conversion : bytes -> va_value -> bytes.

(** The variadic arguments. *)
Inductive va : Type :=
  | va_str (s : bytes)              (* char*, the memory at the pointer *)
  | va_bin (s : bytes) (n : Z)      (* char* and size_t *)
  | va_num (v : va_value).

(** ** Lengths *)

(** [for (;;)] over groups of four digits; a 64-bit value has five. *)
Fixpoint countDigits_loop (fuel : nat) (v result : Z) : Z :=
  match fuel with
  | O => result
  | S fuel' =>
      if v <? 10 then result
      else if v <? 100 then result + 1
      else if v <? 1000 then result + 2
      else if v <? 10000 then result + 3
      else countDigits_loop fuel' (v / 10000) (result + 4)
  end.

Definition countDigits (v : Z) : Z := countDigits_loop 6 (wrap64 v) 1.

Definition bulklen (len : Z) : Z := wrap64 (1 + countDigits len + 2 + len + 2).

(** [totlen += bulklen(len)] on an [int] *)
Definition add_bulk (totlen len : Z) : Z := wrap32 (wrap64 totlen + bulklen len).

Definition crlf : bytes := [CR; NL].

Section Format.
Context `{Allocator} `{Printf}.

(** ** Writing the protocol *)

(** [pos += sprintf(cmd+pos, ...)]: the text and a NUL. *)
Definition sprintf_at (m : memory) (pos : Z) (text : bytes) : res (memory * Z) :=
  let* m := mem_write m pos (text ++ [Byte.x00]) in
  let* pos := int_result (pos + size text) in Ok (m, pos).

(** One argument of [len] bytes. *)
Definition emit_arg (m : memory) (pos : Z) (arg : bytes) (len : Z) : res (memory * Z) :=
  let* (m, pos) := sprintf_at m pos ("$"%byte :: to_string len ++ crlf) in
  let* d := (if size arg <? len then UB index_out_of_bounds else Ok (take (Z.to_nat len) arg)) in
  let* m := mem_write m pos d in
  let pos := wrap32 (wrap64 pos + len) in
  let* m := mem_write m pos [CR] in
  let* pos := int_result (pos + 1) in
  let* m := mem_write m pos [NL] in
  let* pos := int_result (pos + 1) in
  Ok (m, pos).

Fixpoint emit_args (m : memory) (pos : Z) (args : list (bytes * Z)) : res (memory * Z) :=
  match args with
  | [] => Ok (m, pos)
  | (a, len) :: args' => let* (m, pos) := emit_arg m pos a len in emit_args m pos args'
  end.

(** The buffer of [totlen + 1] bytes and everything in it; [None] when [malloc]
    fails. *)
Definition build_command (totlen argc : Z) (args : list (bytes * Z)) : res (option memory) :=
  let* bytes := int_result (totlen + 1) in
  if negb (alloc_ok (wrap64 bytes)) then Ok None
  else
    let* (m, pos) := sprintf_at (fresh_memory (wrap64 bytes)) 0 ("*"%byte :: to_string argc ++ crlf) in
    let* (m, pos) := emit_args m pos args in
    if negb (pos =? totlen) then UB assertion_failed
    else let* m := mem_write m pos [Byte.x00] in Ok (Some m).

(** ** From a vector of arguments *)

(** [len = argvlen ? argvlen[j] : strlen(argv[j])] for each argument. *)
Fixpoint arg_lengths (argv : list bytes) (argvlen : option (list Z)) : res (list (bytes * Z)) :=
  match argv with
  | [] => Ok []
  | a :: argv' =>
      match argvlen with
      | None => let* l := arg_lengths argv' None in Ok ((a, size (c_str a)) :: l)
      | Some [] => UB index_out_of_bounds
      | Some (n :: ns) => let* l := arg_lengths argv' (Some ns) in Ok ((a, n) :: l)
      end
  end.

(** The return value, and the command if [*target] is set. *)
Definition redisFormatCommandArgv (argv : list bytes) (argvlen : option (list Z)) : res (Z * option memory) :=
  let argc := size argv in
  let* args := arg_lengths argv argvlen in
  let totlen := foldl (fun t p => add_bulk t (snd p)) (1 + countDigits argc + 2) args in
  let* o := build_command totlen argc args in
  match o with None => Ok (-1, None) | Some m => Ok (totlen, Some m) end.

Fixpoint sds_command_loop (args : list (bytes * Z)) (cmd : sds) : res (option sds) :=
  match args with
  | [] => Ok (Some cmd)
  | (a, len) :: args' =>
      let* cmd := sdscatfmt cmd ("$"%byte :: "%"%byte :: "T"%byte :: crlf) [arg_num len] in
      let* d := (if size a <? len then UB index_out_of_bounds else Ok (take (Z.to_nat len) a)) in
      let* o := sdscatlen cmd d in
      let* cmd := live o in
      let* o := sdscatlen cmd crlf in
      let* cmd := live o in sds_command_loop args' cmd
  end.

Definition redisFormatSdsCommandArgv (argv : list bytes) (argvlen : option (list Z)) : res (Z * option sds) :=
  let argc := size argv in
  let* args := arg_lengths argv argvlen in
  let totlen := foldl (fun t p => wrap64 (t + bulklen (snd p))) (1 + countDigits argc + 2) args in
  let* o := sdsempty in
  match o with
  | None => Ok (-1, None)
  | Some cmd =>
      let* o := sdsMakeRoomFor cmd totlen in
      match o with
      | None => Ok (-1, None)
      | Some cmd =>
          let* cmd := sdscatfmt cmd ("*"%byte :: "%"%byte :: "i"%byte :: crlf) [arg_num argc] in
          let* o := sds_command_loop args cmd in
          let* cmd := live o in
          if negb (sdslen cmd =? totlen) then UB assertion_failed
          else Ok (wrap32 totlen, Some cmd)
      end
  end.

(** ** From a format *)

(** [strchr(set, c) != NULL] with [c] at the terminator included. *)
Definition in_set (set : bytes) (p : bytes) : bool := strchr set (at_ p 0).

Fixpoint skip_in (P : byte -> bool) (p : bytes) : bytes :=
  match p with c :: p' => if P c then skip_in P p' else p | [] => [] end.

Definition intfmts : bytes := str "diouxX".
Definition fmt_flags : bytes := str "#0-+ ".
Definition dblfmts : bytes := str "eEfFgGaA".

(** Flags, width and precision from [c + 1]. *)
Definition skip_spec (p : bytes) : bytes :=
  let p := skip_in (fun c => mem c fmt_flags) p in
  let p := skip_in isdigit p in
  if at_ p 0 =c "."%byte then skip_in isdigit (tail p) else p.

Inductive conversion : Type := conv_int | conv_double.

(** The text from the conversion character on, or [fmt_invalid]. *)
Definition classify (p : bytes) : option (conversion * bytes) :=
  let sized p := if negb (at_ p 0 =c Byte.x00) && in_set intfmts p then Some (conv_int, p) else None in
  if in_set intfmts p then Some (conv_int, p)
  else if in_set dblfmts p then Some (conv_double, p)
  else if (at_ p 0 =c "h"%byte) && (at_ p 1 =c "h"%byte) then sized (drop 2 p)
  else if at_ p 0 =c "h"%byte then sized (drop 1 p)
  else if (at_ p 0 =c "l"%byte) && (at_ p 1 =c "l"%byte) then sized (drop 2 p)
  else if at_ p 0 =c "l"%byte then sized (drop 1 p)
  else None.

(** [va_arg]: the next argument at the given type. *)
Definition take_num (k : conversion) (ap : list va) : res (va_value * list va) :=
  match ap with
  | va_num (va_int z as v) :: ap' => match k with conv_int => Ok (v, ap') | conv_double => UB dangling_pointer end
  | va_num (va_double d as v) :: ap' => match k with conv_double => Ok (v, ap') | conv_int => UB dangling_pointer end
  | _ => UB dangling_pointer
  end.

(** The result of a directive: the new [curarg] ([newarg], [None] for [NULL]),
    the rest of the arguments and of the format. *)
Inductive directive_result : Type :=
  | dir_arg (newarg : option sds) (ap : list va) (c : bytes)
  | dir_format_err.

(** [c] is at a [%] that is not the last character; [c2] is what follows both. *)
Definition directive (curarg : sds) (ap : list va) (c : bytes) : res directive_result :=
  let c2 := drop 2 c in
  if at_ c 1 =c "s"%byte then
    match ap with
    | va_str s :: ap' =>
        let arg := c_str s in
        let* n := (if 0 <? size arg then sdscatlen curarg arg else Ok (Some curarg)) in
        Ok (dir_arg n ap' c2)
    | _ => UB dangling_pointer
    end
  else if at_ c 1 =c "b"%byte then
    match ap with
    | va_bin s n :: ap' =>
        if size s <? n then UB index_out_of_bounds else
        let* x := (if 0 <? n then sdscatlen curarg (take (Z.to_nat n) s) else Ok (Some curarg)) in
        Ok (dir_arg x ap' c2)
    | _ => UB dangling_pointer
    end
  else if at_ c 1 =c "%"%byte then
    let* n := sdscat curarg (str "%") in Ok (dir_arg n ap c2)
  else
    match classify (skip_spec (tail c)) with
    | None => Ok dir_format_err
    | Some (k, p) =>
        let* (v, ap') := take_num k ap in
        let l := size c - size p + 1 in
        if l <? 16 - 2 then
          let* n := sdscatvprintf curarg (print_conversion (take (Z.to_nat l) c) v) in
          (* c = _p - 1, then two increments *)
          match p with
          | [] => match n with None => Ok (dir_arg None ap' []) | Some _ => UB index_out_of_bounds end
          | _ :: p' => Ok (dir_arg n ap' p')
          end
        else Ok (dir_arg (Some curarg) ap' c2)
    end.

(** [curargv], [argc] and [totlen] grow together. *)
Record fmt_state : Type := mk_fmt {
  curarg : sds; touched : bool; curargv : list sds; totlen : Z }.

Inductive fmt_result : Type := fmt_done (st : fmt_state) | fmt_error (code : Z).

(** [curargv[argc++] = curarg; totlen += bulklen(sdslen(curarg));] *)
Definition push_arg (st : fmt_state) : res (option fmt_state) :=
  let argc := size st.(curargv) in
  let* n := int_result (argc + 1) in
  if negb (alloc_ok (wrap64 (pointer_size * n))) then Ok None
  else Ok (Some (mk_fmt st.(curarg) st.(touched) (st.(curargv) ++ [st.(curarg)])
                   (add_bulk st.(totlen) (sdslen st.(curarg))))).

(** The loop over the format. *)
Fixpoint format_loop (fuel : nat) (c : bytes) (ap : list va) (st : fmt_state) : res fmt_result :=
  match fuel with
  | O => UB no_fuel
  | S fuel' =>
      match c with
      | [] => Ok (fmt_done st)
      | ch :: c' =>
          if negb (ch =c "%"%byte) || (at_ c 1 =c Byte.x00) then
            if ch =c " "%byte then
              if st.(touched) then
                let* o := push_arg st in
                match o with
                | None => Ok (fmt_error (-1))
                | Some st =>
                    let* o := sdsempty in
                    match o with
                    | None => Ok (fmt_error (-1))
                    | Some s => format_loop fuel' c' ap (mk_fmt s false st.(curargv) st.(totlen))
                    end
                end
              else format_loop fuel' c' ap st
            else
              let* o := sdscatlen st.(curarg) [ch] in
              match o with
              | None => Ok (fmt_error (-1))
              | Some s => format_loop fuel' c' ap (mk_fmt s true st.(curargv) st.(totlen))
              end
          else
            let* d := directive st.(curarg) ap c in
            match d with
            | dir_format_err => Ok (fmt_error (-2))
            | dir_arg None _ _ => Ok (fmt_error (-1))
            | dir_arg (Some s) ap' c'' => format_loop fuel' c'' ap' (mk_fmt s true st.(curargv) st.(totlen))
            end
      end
  end.

(** The arguments with the lengths that are printed. *)
Fixpoint sds_args (l : list sds) : res (list (bytes * Z)) :=
  match l with
  | [] => Ok []
  | s :: l' => let* d := sds_bytes s in let* r := sds_args l' in Ok ((d, sdslen s) :: r)
  end.

(** After the format: the last argument, and the command with its length. *)
Definition finish_command (st : fmt_state) : res (Z * option memory) :=
  let* o := (if st.(touched) then push_arg st else Ok (Some st)) in
  match o with
  | None => Ok (-1, None)
  | Some st =>
      let argc := size st.(curargv) in
      let totlen := wrap32 (st.(totlen) + (1 + countDigits argc + 2)) in
      let* args := sds_args st.(curargv) in
      let* o := build_command totlen argc args in
      match o with None => Ok (-1, None) | Some m => Ok (totlen, Some m) end
  end.

Definition redisvFormatCommand (format : bytes) (ap : list va) : res (Z * option memory) :=
  let* o := sdsempty in
  match o with
  | None => Ok (-1, None)
  | Some s =>
      let format := c_str format in
      let* r := format_loop (S (length format)) format ap (mk_fmt s false [] 0) in
      match r with fmt_error e => Ok (e, None) | fmt_done st => finish_command st end
  end.

(** Errors are all [-1] to the caller. *)
Definition redisFormatCommand (format : bytes) (ap : list va) : res (Z * option memory) :=
  let* (len, cmd) := redisvFormatCommand format ap in Ok (if len <? 0 then -1 else len, cmd).
End Format.

(** ** The protocol *)

(** The request the server expects: an array of bulk strings. *)
Definition bulk (d : bytes) : bytes := "$"%byte :: to_string (size d) ++ crlf ++ d ++ crlf.
Definition request_bytes (args : list bytes) : bytes :=
  "*"%byte :: to_string (size args) ++ crlf ++ concat (map bulk args).

(** ** Lemmas: lengths *)

Lemma rev_digits_fuel f g v :
  0 <= v -> v < 10 ^ Z.of_nat f -> v < 10 ^ Z.of_nat g -> (0 < f)%nat -> (0 < g)%nat ->
  rev_digits f v = rev_digits g v.
Proof.
  intros Hv Hf Hg Hf0 Hg0. pose proof (dec_digits_fuel f g v [] Hv Hf Hg Hf0 Hg0) as E.
  rewrite <- !rev_digits_dec, !app_nil_r in E. by apply (inj reverse).
Qed.

Lemma size_to_string v : 0 <= v < 2 ^ 64 -> size (to_string v) = size (rev_digits 20 v).
Proof. intros Hv. rewrite <- rev_digits_to_string by done. unfold size. by rewrite length_reverse. Qed.

Lemma size_to_string_small v : 0 <= v < 10 -> size (to_string v) = 1.
Proof.
  intros Hv. rewrite size_to_string by lia. cbn [rev_digits]. rewrite Z.div_small by lia. done.
Qed.

Lemma size_to_string_step v : 10 <= v < 2 ^ 64 -> size (to_string v) = 1 + size (to_string (v / 10)).
Proof.
  intros Hv. assert (1 <= v / 10) by (apply Z.div_le_lower_bound; lia).
  assert (v / 10 < 10 ^ Z.of_nat 19) by (apply Z.div_lt_upper_bound; cbn; lia).
  rewrite !size_to_string by lia. change (rev_digits 20 v) with
    (digit_char (v mod 10) :: (if v / 10 =? 0 then [] else rev_digits 19 (v / 10))).
  destruct (Z.eqb_spec (v / 10) 0); [lia|]. rewrite size_cons.
  by rewrite (rev_digits_fuel 19 20 (v / 10)) by (cbn; lia).
Qed.

Lemma countDigits_loop_spec fuel v r :
  0 <= v -> v < 10000 ^ Z.of_nat fuel -> v < 2 ^ 64 -> (0 < fuel)%nat ->
  countDigits_loop fuel v r = r - 1 + size (to_string v).
Proof.
  revert v r. induction fuel as [|fuel IH]; intros v r Hv Hf H64 Hf0; [lia|]. cbn [countDigits_loop].
  destruct (Z.ltb_spec v 10); [rewrite size_to_string_small by lia; lia|].
  rewrite size_to_string_step by lia.
  destruct (Z.ltb_spec v 100).
  { rewrite size_to_string_small; [lia|]. split; [apply Z.div_pos; lia | apply Z.div_lt_upper_bound; lia]. }
  assert (10 <= v / 10 < 2 ^ 64) by (split; [apply Z.div_le_lower_bound; lia | apply Z.div_lt_upper_bound; lia]).
  rewrite (size_to_string_step (v / 10)) by lia. rewrite Z.div_div by lia. change (10 * 10) with 100.
  destruct (Z.ltb_spec v 1000).
  { rewrite size_to_string_small; [lia|]. split; [apply Z.div_pos; lia | apply Z.div_lt_upper_bound; lia]. }
  assert (10 <= v / 100 < 2 ^ 64) by (split; [apply Z.div_le_lower_bound; lia | apply Z.div_lt_upper_bound; lia]).
  rewrite (size_to_string_step (v / 100)) by lia. rewrite Z.div_div by lia. change (100 * 10) with 1000.
  destruct (Z.ltb_spec v 10000).
  { rewrite size_to_string_small; [lia|]. split; [apply Z.div_pos; lia | apply Z.div_lt_upper_bound; lia]. }
  assert (10 <= v / 1000 < 2 ^ 64) by (split; [apply Z.div_le_lower_bound; lia | apply Z.div_lt_upper_bound; lia]).
  rewrite (size_to_string_step (v / 1000)) by lia. rewrite Z.div_div by lia. change (1000 * 10) with 10000.
  rewrite Nat2Z.inj_succ, Z.pow_succ_r in Hf by lia.
  assert (1 <= v / 10000) by (apply Z.div_le_lower_bound; lia).
  assert (v / 10000 < 10000 ^ Z.of_nat fuel) by (apply Z.div_lt_upper_bound; lia).
  rewrite IH; [lia|lia|done|apply Z.div_lt_upper_bound; lia|].
  destruct fuel; [cbn in *; lia | lia].
Qed.

Lemma countDigits_spec v : 0 <= v < 2 ^ 64 -> countDigits v = size (to_string v).
Proof.
  intros Hv. unfold countDigits. rewrite wrap64_id by done.
  rewrite countDigits_loop_spec; [lia | lia | cbn; lia | lia | lia].
Qed.

Lemma countDigits_bound v : 0 <= v < 2 ^ 64 -> 1 <= countDigits v <= 20.
Proof.
  intros Hv. rewrite countDigits_spec, size_to_string by done.
  assert (forall f v, size (rev_digits f v) <= Z.of_nat f /\ ((0 < f)%nat -> 1 <= size (rev_digits f v))) as Hb.
  { clear. induction f as [|f IH]; intros v; cbn [rev_digits]; [rewrite size_nil; lia|]. rewrite size_cons. destruct (IH (v / 10)).
    destruct (_ =? 0); [|unfold size in *; lia]. rewrite size_nil. lia. }
  destruct (Hb 20%nat v). unfold size in *. lia.
Qed.

Lemma size_bulk d : size d <= 2 ^ 30 ->
  size (bulk d) = bulklen (size d) /\ size d + 6 <= size (bulk d) <= size d + 25.
Proof.
  intros Hd. pose proof (size_nonneg d). pose proof (countDigits_bound (size d) ltac:(lia)).
  unfold bulk, bulklen. rewrite wrap64_id by lia. rewrite size_cons, !size_app, <- countDigits_spec by lia.
  change (size crlf) with 2. lia.
Qed.

Lemma add_bulk_spec t d : 0 <= t -> size d <= 2 ^ 30 -> t + size (bulk d) <= INT_MAX ->
  add_bulk t (size d) = t + size (bulk d).
Proof.
  intros Ht Hd Hle. destruct (size_bulk d Hd) as [E Hb]. unfold add_bulk. rewrite <- E. unfold INT_MAX in *.
  pose proof (size_nonneg d). rewrite wrap64_id by lia. apply wrap32_id. unfold INT_MAX. lia.
Qed.

(** ** Lemmas: the buffer *)

Lemma mem_append t (junk : memory) d :
  size d <= size junk -> exists junk', mem_write (map Some t ++ junk) (size t) d = Ok (map Some (t ++ d) ++ junk') /\
    size junk' = size junk - size d.
Proof.
  intros Hd. destruct (split_memory junk (size d)) as (a & b & -> & Ha); [size_lia|].
  exists b. rewrite <- (size_map_Some t), mem_write_middle by done. rewrite map_app, <- app_assoc, size_app.
  split; [done | lia].
Qed.

Lemma sprintf_at_spec t (junk : memory) text :
  size text + 1 <= size junk -> size (t ++ text) <= INT_MAX ->
  exists junk', sprintf_at (map Some t ++ junk) (size t) text = Ok (map Some (t ++ text) ++ junk', size (t ++ text)) /\
    size junk' = size junk - size text.
Proof.
  intros Hj Hi. unfold sprintf_at. destruct (mem_append t junk (text ++ [Byte.x00])) as (j & -> & Hj').
  { rewrite size_app. change (size [Byte.x00]) with 1. lia. }
  rewrite size_app in Hi, Hj'. change (size [Byte.x00]) with 1 in Hj'. pose proof (size_nonneg t). pose proof (size_nonneg text).
  cbn [mbind res_bind]. rewrite int_result_id by lia. cbn [mbind res_bind].
  exists (Some Byte.x00 :: j). rewrite size_cons, size_app. split; [|lia].
  rewrite app_assoc, (map_app _ (t ++ text)), <- app_assoc. done.
Qed.

Lemma emit_arg_spec t (junk : memory) d r :
  size (bulk d) + 1 <= size junk -> size (t ++ bulk d) < INT_MAX ->
  exists junk', emit_arg (map Some t ++ junk) (size t) (d ++ r) (size d) =
      Ok (map Some (t ++ bulk d) ++ junk', size (t ++ bulk d)) /\ size junk' = size junk - size (bulk d).
Proof.
  intros Hj Hi. unfold emit_arg, bulk in *. set (head := "$"%byte :: to_string (size d) ++ crlf).
  replace ("$"%byte :: to_string (size d) ++ crlf ++ d ++ crlf) with (head ++ d ++ crlf) in *
    by (unfold head; cbn; by rewrite <- app_assoc).
  rewrite !size_app in Hj. rewrite !size_app in Hi. change (size crlf) with 2 in *.
  pose proof (size_nonneg t). pose proof (size_nonneg d). pose proof (size_nonneg head). unfold INT_MAX in *.
  destruct (sprintf_at_spec t junk head) as (j1 & -> & Hj1); [lia | unfold INT_MAX; rewrite size_app; lia|].
  cbn [mbind res_bind]. destruct (Z.ltb_spec (size (d ++ r)) (size d)) as [Hlt|_].
  { rewrite size_app in Hlt. size_lia. }
  rewrite size_to_nat, take_app_length. cbn [mbind res_bind].
  destruct (mem_append (t ++ head) j1 d) as (j2 & -> & Hj2); [lia|]. cbn [mbind res_bind].
  assert (wrap32 (wrap64 (size (t ++ head)) + size d) = size ((t ++ head) ++ d)) as ->.
  { rewrite !size_app. rewrite wrap64_id by lia. apply wrap32_id. unfold INT_MAX. lia. }
  destruct (mem_append ((t ++ head) ++ d) j2 [CR]) as (j3 & -> & Hj3); [change (size [CR]) with 1; lia|].
  change (size [CR]) with 1 in Hj3. cbn [mbind res_bind].
  assert (size ((t ++ head) ++ d) + 1 = size (((t ++ head) ++ d) ++ [CR])) as -> by (by rewrite (size_app _ [CR])).
  rewrite int_result_id by (unfold INT_MAX; rewrite !size_app; change (size [CR]) with 1; lia). cbn [mbind res_bind].
  destruct (mem_append (((t ++ head) ++ d) ++ [CR]) j3 [NL]) as (j4 & -> & Hj4); [change (size [NL]) with 1; lia|].
  change (size [NL]) with 1 in Hj4. cbn [mbind res_bind].
  assert (size (((t ++ head) ++ d) ++ [CR]) + 1 = size ((((t ++ head) ++ d) ++ [CR]) ++ [NL])) as ->
    by (by rewrite (size_app _ [NL])).
  rewrite int_result_id by (unfold INT_MAX; rewrite !size_app; change (size [CR]) with 1; change (size [NL]) with 1; lia).
  cbn [mbind res_bind]. exists j4.
  replace ((((t ++ head) ++ d) ++ [CR]) ++ [NL]) with (t ++ head ++ d ++ crlf) by (unfold crlf; by rewrite <- !app_assoc).
  rewrite !size_app. change (size crlf) with 2. split; [done | lia].
Qed.

(** ** Building a command *)

(** The arguments in memory against the bytes they stand for. *)
Definition arg_is (p : bytes * Z) (d : bytes) : Prop := snd p = size d /\ exists r, fst p = d ++ r.

(** [argv] and [argvlen] denote the byte strings [ds]. *)
Definition argv_is (argv : list bytes) (argvlen : option (list Z)) (ds : list bytes) : Prop :=
  match argvlen with
  | None => ds = map c_str argv
  | Some ns => size ns = size ds /\ Forall2 arg_is (zip argv ns) ds /\ size argv = size ds
  end.

Lemma arg_lengths_spec argv argvlen ds :
  argv_is argv argvlen ds -> exists args, arg_lengths argv argvlen = Ok args /\ Forall2 arg_is args ds.
Proof.
  destruct argvlen as [ns|]; cbn.
  - intros (Hn & HR & Ha). exists (zip argv ns). split; [|done]. clear HR.
    assert (length argv = length ns) as Hl by (unfold size in *; lia). clear Hn Ha.
    revert ns Hl. induction argv as [|a argv IH]; intros [|n ns] Hl; try done. cbn in *. rewrite IH by lia. done.
  - intros ->. exists (map (fun a => (a, size (c_str a))) argv). split.
    + induction argv as [|a argv IH]; [done|]. cbn. by rewrite IH.
    + induction argv as [|a argv IH]; constructor; [|done]. split; [done|]. apply c_str_prefix.
Qed.

Lemma argv_is_size argv argvlen ds : argv_is argv argvlen ds -> size argv = size ds.
Proof. destruct argvlen; cbn; [tauto|]. intros ->. unfold size. by rewrite length_map. Qed.

Definition bulks (ds : list bytes) : bytes := concat (map bulk ds).

Lemma bulks_cons d ds : bulks (d :: ds) = bulk d ++ bulks ds.
Proof. done. Qed.

Lemma bulks_snoc ds d : bulks (ds ++ [d]) = bulks ds ++ bulk d.
Proof. unfold bulks. rewrite map_app, concat_app. cbn. by rewrite app_nil_r. Qed.

Lemma bulk_larger d : size d <= size (bulk d).
Proof. unfold bulk. rewrite size_cons, !size_app. pose proof (size_nonneg (to_string (size d))). pose proof (size_nonneg crlf). lia. Qed.

Lemma emit_args_spec args ds : Forall2 arg_is args ds -> forall t (junk : memory),
  size (bulks ds) + 1 <= size junk -> size (t ++ bulks ds) < INT_MAX ->
  exists junk', emit_args (map Some t ++ junk) (size t) args = Ok (map Some (t ++ bulks ds) ++ junk', size (t ++ bulks ds)) /\
    size junk' = size junk - size (bulks ds).
Proof.
  induction 1 as [|[a n] d args ds [Hn (r & Ha)] HR IH]; intros t junk Hj Hi; cbn [emit_args].
  - rewrite app_nil_r in *. exists junk. split; [done|]. change (size (bulks [])) with 0. lia.
  - cbn in Hn, Ha. subst n a. rewrite bulks_cons in *. rewrite size_app in Hj. rewrite !size_app in Hi.
    pose proof (size_nonneg (bulks ds)). pose proof (size_nonneg (bulk d)).
    destruct (emit_arg_spec t junk d r) as (j1 & -> & Hj1); [lia | rewrite size_app; lia|]. cbn [mbind res_bind].
    destruct (IH (t ++ bulk d) j1) as (j2 & -> & Hj2); [lia | rewrite !size_app; lia|].
    exists j2. rewrite <- !app_assoc. split; [done|]. rewrite size_app. lia.
Qed.

Definition refuses `{Allocator} {A} (Q : Prop) (P : A -> Prop) (m : res (option A)) : Prop :=
  match m with Ok (Some a) => P a | Ok None => refused /\ Q | _ => False end.

Lemma request_bytes_size ds : size ds <= 2 ^ 30 ->
  size (request_bytes ds) = 1 + countDigits (size ds) + 2 + size (bulks ds).
Proof.
  intros Hn. unfold request_bytes. rewrite size_cons, !size_app, <- countDigits_spec by (pose proof (size_nonneg ds); lia).
  change (size crlf) with 2. change (concat (map bulk ds)) with (bulks ds). lia.
Qed.

Lemma size_bulks ds : size ds <= size (bulks ds).
Proof.
  induction ds as [|d ds IH]; [done|]. rewrite bulks_cons, size_cons, size_app. pose proof (bulk_larger d).
  assert (1 <= size (bulk d)) by (unfold bulk; rewrite size_cons, !size_app; size_lia). lia.
Qed.

Section Build.
Context `{Allocator}.

Lemma build_command_spec totlen args ds :
  Forall2 arg_is args ds -> totlen = size (request_bytes ds) -> totlen <= 2 ^ 30 ->
  refuses True (fun m => m = map Some (request_bytes ds) ++ [Some Byte.x00]) (build_command totlen (size ds) args).
Proof.
  intros HR -> Hle. unfold build_command. pose proof (size_nonneg (request_bytes ds)).
  rewrite int_result_id by (unfold INT_MAX; lia). cbn [mbind res_bind]. rewrite wrap64_id by lia.
  destruct (alloc_ok _) eqn:A; cbn [negb]; [|split; [by eexists | done]]. clear A.
  set (head := "*"%byte :: to_string (size ds) ++ crlf).
  assert (request_bytes ds = head ++ bulks ds) as E by (unfold request_bytes, head; cbn; by rewrite <- app_assoc).
  rewrite E in *. rewrite size_app in *. pose proof (size_nonneg head). pose proof (size_nonneg (bulks ds)).
  set (m0 := fresh_memory _).
  assert (size m0 = size head + size (bulks ds) + 1) as Hm0 by (unfold m0, size, fresh_memory; rewrite length_replicate; unfold size; lia).
  change m0 with (map Some [] ++ m0) at 1. change 0 with (size (@nil byte)) at 1.
  destruct (sprintf_at_spec [] m0 head) as (j1 & -> & Hj1); [lia | unfold INT_MAX; cbn [app]; lia|]. cbn [mbind res_bind app].
  destruct (emit_args_spec args ds HR head j1) as (j2 & -> & Hj2); [lia | unfold INT_MAX; rewrite size_app; lia|].
  cbn [mbind res_bind]. rewrite size_app, Z.eqb_refl. cbn [negb]. rewrite <- size_app.
  destruct (mem_append (head ++ bulks ds) j2 [Byte.x00]) as (j3 & -> & Hj3); [change (size [Byte.x00]) with 1; lia|].
  change (size [Byte.x00]) with 1 in Hj3. cbn.
  assert (j3 = []) as -> by (apply size_zero; lia). by rewrite app_nil_r, map_app.
Qed.

(** The sum that both functions compute. *)
Lemma total_length args ds t :
  Forall2 arg_is args ds -> 0 <= t -> t + size (bulks ds) <= 2 ^ 30 ->
  foldl (fun t p => add_bulk t (snd p)) t args = t + size (bulks ds) /\
  foldl (fun t p => wrap64 (t + bulklen (snd p))) t args = t + size (bulks ds).
Proof using.
  intros HR. revert t. induction HR as [|p d args ds [Hn _] HR IH]; intros t Ht Hle; cbn [foldl].
  - change (size (bulks [])) with 0. lia.
  - rewrite bulks_cons, size_app in *. rewrite Hn. pose proof (size_nonneg (bulks ds)). pose proof (bulk_larger d).
    destruct (size_bulk d ltac:(lia)) as [E Hb]. pose proof (size_nonneg d).
    rewrite add_bulk_spec by (unfold INT_MAX; lia). rewrite <- E, wrap64_id by lia.
    destruct (IH (t + size (bulk d)) ltac:(lia) ltac:(lia)) as [-> ->]. lia.
Qed.

Lemma argv_total argv argvlen args ds :
  argv_is argv argvlen ds -> Forall2 arg_is args ds -> size (request_bytes ds) <= 2 ^ 30 ->
  foldl (fun t p => add_bulk t (snd p)) (1 + countDigits (size argv) + 2) args = size (request_bytes ds) /\
  foldl (fun t p => wrap64 (t + bulklen (snd p))) (1 + countDigits (size argv) + 2) args = size (request_bytes ds).
Proof using.
  intros Ha HR Hle. rewrite (argv_is_size _ _ _ Ha).
  assert (size ds <= 2 ^ 30) as Hds.
  { unfold request_bytes in Hle. change (concat (map bulk ds)) with (bulks ds) in Hle.
    pose proof (size_bulks ds). rewrite size_cons, !size_app in Hle. size_lia. }
  rewrite request_bytes_size in * by done. pose proof (countDigits_bound (size ds) ltac:(size_lia)).
  apply total_length; [done|lia|lia].
Qed.
End Build.

(** ** The vector formatters *)

(** A computation without exception or undefined behaviour. *)
Definition yields {A} (P : A -> Prop) (m : res A) : Prop := exists a, m = Ok a /\ P a.

Lemma yields_bind {A B} (P : A -> Prop) (Q : B -> Prop) (m : res A) (k : A -> res B) :
  yields P m -> (forall a, P a -> yields Q (k a)) -> yields Q (mbind k m).
Proof. intros (a & -> & Ha) Hk. cbn. by apply Hk. Qed.


(** A formatted command: the returned length and the buffer, NUL terminated; or
    [-1] after a refused allocation. *)
Definition formatted `{Allocator} (ds : list bytes) (r : Z * option memory) : Prop :=
  let '(n, o) := r in
  match o with
  | Some m => n = size (request_bytes ds) /\ m = map Some (request_bytes ds) ++ [Some Byte.x00]
  | None => n = -1 /\ refused
  end.

Definition formatted_sds `{Allocator} (ds : list bytes) (r : Z * option sds) : Prop :=
  let '(n, o) := r in
  match o with
  | Some s => n = size (request_bytes ds) /\ repr s (request_bytes ds)
  | None => n = -1 /\ refused
  end.

Section VectorFormat.
Context `{Allocator}.

Lemma sdscatfmt_header s t h k n :
  repr s t -> h = "*"%byte /\ k = "i"%byte \/ h = "$"%byte /\ k = "T"%byte -> 0 <= n < 2 ^ 63 -> size t + 30 <= 2 ^ 29 ->
  grants (fun s' => repr s' (t ++ h :: to_string n ++ crlf)) (sdscatfmt s (h :: "%"%byte :: k :: crlf) [arg_num n]).
Proof.
  intros Hr Hk Hn Hsz.
  assert (renders crlf [] crlf) as Hcr by (repeat constructor; done).
  assert (renders (c_str (h :: "%"%byte :: k :: crlf)) [arg_num n] (h :: to_string n ++ crlf)) as Hren.
  { destruct Hk as [[-> ->]|[-> ->]]; (apply renders_char; [done|]).
    - apply (renders_signed "i"%byte n); [by left | unfold LONG_MIN, LONG_MAX; lia | done].
    - apply (renders_unsigned "T"%byte n); [by right; right | lia | done]. }
  eapply sdscatfmt_loop_spec in Hren; [|by apply repr_holds|].
  - unfold sdscatfmt. rewrite (repr_sdslen _ _ Hr), wrap32_id by (unfold INT_MAX; size_lia). exact Hren.
  - pose proof (countDigits_bound n ltac:(lia)) as Hb. rewrite countDigits_spec in Hb by lia.
    rewrite size_cons, size_app. change (size crlf) with 2. lia.
Qed.

Lemma sds_command_loop_spec args ds : Forall2 arg_is args ds -> forall s t,
  repr s t -> size t + size (bulks ds) + 64 <= 2 ^ 29 ->
  grants (or_null (fun s' => repr s' (t ++ bulks ds))) (sds_command_loop args s).
Proof.
  induction 1 as [|[a n] d args ds [Hn (r & Ha)] HR IH]; intros s t Hr Hsz; cbn [sds_command_loop].
  - by rewrite app_nil_r.
  - cbn in Hn, Ha. subst n a. rewrite bulks_cons, size_app in *. pose proof (size_nonneg (bulks ds)).
    pose proof (size_nonneg t). pose proof (bulk_larger d). pose proof (size_nonneg d).
    assert (size (bulk d) = 1 + (size (to_string (size d)) + 2) + size d + 2) as Hb.
    { unfold bulk. rewrite size_cons, !size_app. change (size crlf) with 2. lia. }
    eapply grants_bind; [apply (sdscatfmt_header s t "$" "T" (size d)); [done | by right | lia | lia]|].
    intros s1 Hs1. destruct (Z.ltb_spec (size d + size r) (size d)); [size_lia|].
    rewrite size_to_nat, take_app_length. cbn [mbind res_bind].
    eapply grants_use; [apply post_grants; eapply sdscatlen_spec; [exact Hs1|]|].
    { rewrite size_app, size_cons, size_app. change (size crlf) with 2. lia. }
    intros s2 Hs2. eapply grants_use; [apply post_grants; eapply sdscatlen_spec; [exact Hs2|]|].
    { rewrite !size_app, size_cons, size_app. change (size crlf) with 2. lia. }
    intros s3 Hs3. rewrite app_assoc. eapply IH; [|rewrite size_app; lia].
    replace (t ++ bulk d) with (((t ++ "$"%byte :: to_string (size d) ++ crlf) ++ d) ++ crlf); [done|].
    unfold bulk. rewrite <- !app_assoc. cbn. by rewrite <- !app_assoc.
Qed.

Lemma format_sds_argv argv argvlen ds :
  argv_is argv argvlen ds -> size (request_bytes ds) + 128 <= 2 ^ 29 ->
  grants (formatted_sds ds) (redisFormatSdsCommandArgv argv argvlen).
Proof.
  intros Ha Hsz. destruct (arg_lengths_spec _ _ _ Ha) as (args & El & HR).
  destruct (argv_total _ _ _ _ Ha HR ltac:(lia)) as [E1 E2].
  pose proof (argv_is_size _ _ _ Ha) as Hn.
  unfold redisFormatSdsCommandArgv. rewrite El. cbn [mbind res_bind]. rewrite E2.
  set (total := size (request_bytes ds)) in *.
  assert (0 <= total) by (unfold total; size_lia).
  assert (total = 1 + (size (to_string (size ds)) + 2) + size (bulks ds)) as Ht.
  { unfold total, request_bytes. rewrite size_cons, !size_app. change (size crlf) with 2. unfold bulks. lia. }
  pose proof (size_bulks ds). pose proof (size_nonneg ds). pose proof (size_nonneg (to_string (size ds))).
  eapply grants_bind; [apply sdsempty_spec|]. intros [s|] Hs; [|done]. cbn in Hs.
  eapply grants_bind; [apply post_grants; eapply (sdsMakeRoomFor_spec s [] total); [done | done | rewrite size_nil; lia]|].
  intros [s1|] Hs1; [|done]. destruct Hs1 as [Hs1 _]. rewrite Hn.
  eapply grants_bind; [apply (sdscatfmt_header s1 [] "*" "i" (size ds)); [done | by left | lia | rewrite size_nil; lia]|].
  intros s2 Hs2. cbn [app] in Hs2.
  eapply grants_use; [eapply (sds_command_loop_spec args ds HR); [exact Hs2|]|].
  { rewrite size_cons, size_app. change (size crlf) with 2. lia. }
  intros s3 Hs3. assert (repr s3 (request_bytes ds)) as Hr.
  { unfold request_bytes. change (concat (map bulk ds)) with (bulks ds).
    replace ("*"%byte :: to_string (size ds) ++ crlf ++ bulks ds) with (("*"%byte :: to_string (size ds) ++ crlf) ++ bulks ds)
      by (cbn; by rewrite <- app_assoc). done. }
  rewrite (repr_sdslen _ _ Hr), Z.eqb_refl. cbn [negb grants]. split; [|done]. apply wrap32_id. unfold INT_MAX, total in *. lia.
Qed.

(** The functions that format a vector of arguments write the Redis request
    of those arguments: the number of arguments and every argument with its
    length, byte for byte, whatever bytes they hold; without [argvlen] an
    argument ends at its first NUL.  The length announced is the length written
    (the assertions hold), no write leaves the buffer, and the buffer is NUL
    terminated.  They fail with [-1] when the first allocations are refused. *)
Theorem format_argv_spec argv argvlen ds :
  argv_is argv argvlen ds -> size (request_bytes ds) + 128 <= 2 ^ 29 ->
  yields (formatted ds) (redisFormatCommandArgv argv argvlen) /\
  grants (formatted_sds ds) (redisFormatSdsCommandArgv argv argvlen).
Proof.
  intros Ha Hsz. destruct (arg_lengths_spec _ _ _ Ha) as (args & El & HR).
  destruct (argv_total _ _ _ _ Ha HR ltac:(lia)) as [E1 E2].
  pose proof (argv_is_size _ _ _ Ha) as Hn.
  split; [|by apply format_sds_argv]. unfold redisFormatCommandArgv. rewrite El. cbn [mbind res_bind]. rewrite E1.
  rewrite Hn. pose proof (build_command_spec _ args ds HR eq_refl ltac:(lia)) as Hb.
  destruct (build_command _ _ _) as [[m|]| |]; cbn in *; try done; (eexists; split; [reflexivity|]); [done|].
  by destruct Hb.
Qed.
End VectorFormat.

Lemma format_argv_spec_witness :
  exists m, redisFormatCommandArgv (H := fun _ => true) [str "GET"; [Byte.x00]] (Some [3; 1]) = Ok (20, Some m) /\
    m = map Some (request_bytes [str "GET"; [Byte.x00]]) ++ [Some Byte.x00].
Proof.
  pose proof (format_argv_spec (H := fun _ => true) [str "GET"; [Byte.x00]] (Some [3; 1]) [str "GET"; [Byte.x00]]) as Hs.
  destruct Hs as [Hs _]; [|vm_compute; discriminate|].
  - split; [done|]. split; [|done]. repeat constructor; by exists [].
  - destruct Hs as (r & E & Hs). match type of E with ?m = _ =>
      let r := eval vm_compute in m in assert (m = r) as E' by (vm_compute; reflexivity) end.
    rewrite E' in E. injection E as <-. eexists. split; [exact E' | exact (proj2 Hs)].
Defined.

(** ** The printf-like formatter *)

(** A format as a sequence of pieces, with the arguments they take. *)
Inductive piece : Type :=
  | p_space
  | p_char (c : byte)
  | p_percent
  | p_str (s : bytes)
  | p_bin (s : bytes) (n : Z)
  | p_num (spec : bytes) (v : va_value).

(** A numeric directive: flags, width, precision, size and conversion. *)
Definition is_flag (c : byte) : bool := mem c fmt_flags.

Definition conv_ok (v : va_value) (md : bytes) (k : byte) : Prop :=
  match v with
  | va_int _ => mem k intfmts = true /\ (md = [] \/ md = str "h" \/ md = str "hh" \/ md = str "l" \/ md = str "ll")
  | va_double _ => mem k dblfmts = true /\ md = []
  end.

Definition num_spec (spec : bytes) (v : va_value) : Prop :=
  exists fl w pr md k, spec = "%"%byte :: fl ++ w ++ pr ++ md ++ [k] /\
    Forall (fun c => is_flag c = true) fl /\ Forall (fun c => isdigit c = true) w /\
    (pr = [] \/ exists ds, pr = "."%byte :: ds /\ Forall (fun c => isdigit c = true) ds) /\
    conv_ok v md k /\ size spec <= 13.

Section Pieces.
Context `{Printf}.

Definition piece_text (p : piece) : bytes :=
  match p with
  | p_space => str " " | p_char c => [c] | p_percent => str "%%" | p_str _ => str "%s" | p_bin _ _ => str "%b"
  | p_num spec _ => spec
  end.

Definition piece_args (p : piece) : list va :=
  match p with
  | p_str s => [va_str s] | p_bin s n => [va_bin s n] | p_num _ v => [va_num v] | _ => []
  end.

(** What a piece adds to the current argument. *)
Definition piece_bytes (p : piece) : bytes :=
  match p with
  | p_space => [] | p_char c => [c] | p_percent => str "%"
  | p_str s => c_str s | p_bin s n => take (Z.to_nat n) s
  | p_num spec v => print_conversion spec v
  end.

Definition piece_ok (p : piece) : Prop :=
  match p with
  | p_char c => c <> " "%byte /\ c <> "%"%byte /\ c <> Byte.x00
  | p_bin s n => 0 <= n <= size s
  | p_num spec v => num_spec spec v /\ Byte.x00 ∉ print_conversion spec v
  | _ => True
  end.

(** The arguments of the command: spaces separate them; an argument exists once
    a piece other than a space was seen, even if it adds no byte. *)
Fixpoint command_of (ps : list piece) (cur : bytes) (touched : bool) : list bytes :=
  match ps with
  | [] => if touched then [cur] else []
  | p_space :: ps' => if touched then cur :: command_of ps' [] false else command_of ps' cur false
  | p :: ps' => command_of ps' (cur ++ piece_bytes p) true
  end.
End Pieces.

(** ** Lemmas: numeric directives *)

Lemma skip_in_app P a b : Forall (fun c => P c = true) a -> skip_in P (a ++ b) = skip_in P b.
Proof. induction 1 as [|c a Hc _ IH]; [done|]. cbn. by rewrite Hc. Qed.

Lemma skip_in_stop P c b : P c = false -> skip_in P (c :: b) = c :: b.
Proof. intros Hc. cbn. by rewrite Hc. Qed.

(** After a directive's flags and digits comes a byte that is neither. *)
Definition stops (c : byte) : bool := negb (is_flag c) && negb (isdigit c).

Lemma stops_facts c : negb (mem c (str "hl" ++ intfmts ++ dblfmts)) || (stops c && negb (c =c "."%byte) && negb (c =c Byte.x00)
  && negb (mem c (str "sb%"))) = true.
Proof. revert c. apply byte_forall. vm_compute. reflexivity. Qed.

Lemma skip_digits w c r : Forall (fun c => isdigit c = true) w -> isdigit c = false ->
  skip_in isdigit (w ++ c :: r) = c :: r.
Proof. intros Hw Hc. by rewrite skip_in_app, skip_in_stop. Qed.

Lemma skip_flags_digits fl w c r :
  Forall (fun c => is_flag c = true) fl -> Forall (fun c => isdigit c = true) w -> stops c = true ->
  skip_in isdigit (skip_in is_flag (fl ++ w ++ c :: r)) = c :: r.
Proof.
  intros Hfl Hw Hc. apply andb_prop in Hc as [Hc1%negb_true_iff Hc2%negb_true_iff]. rewrite skip_in_app by done.
  induction Hw as [|d w Hd Hw IH]; cbn [app].
  - by rewrite skip_in_stop, skip_in_stop.
  - cbn [skip_in]. destruct (is_flag d); [done|]. cbn [skip_in]. rewrite Hd. by apply skip_digits.
Qed.

(** The head of [md ++ [k]]. *)
Lemma mod_conv_head v md k :
  conv_ok v md k -> exists c r, md ++ [k] = c :: r /\ mem c (str "hl" ++ intfmts ++ dblfmts) = true.
Proof.
  assert (forall a b c, mem c b = true -> mem c (a ++ b) = true) as Hr by
    (intros a b c Hm; apply mem_true; apply mem_true in Hm; set_solver).
  assert (forall a b c, mem c a = true -> mem c (a ++ b) = true) as Hl by
    (intros a b c Hm; apply mem_true; apply mem_true in Hm; set_solver).
  destruct v; intros [Hk Hmd].
  - destruct Hmd as [->|[->|[->|[->| ->]]]]; (eexists _, _; split; [reflexivity|]); try reflexivity.
    by apply Hr, Hl.
  - subst md. eexists _, _. split; [reflexivity|]. by apply Hr, Hr.
Qed.

Lemma skip_spec_num fl w pr md k v r :
  Forall (fun c => is_flag c = true) fl -> Forall (fun c => isdigit c = true) w ->
  (pr = [] \/ exists ds, pr = "."%byte :: ds /\ Forall (fun c => isdigit c = true) ds) ->
  conv_ok v md k -> skip_spec ((fl ++ w ++ pr ++ md ++ [k]) ++ r) = md ++ k :: r.
Proof.
  intros Hfl Hw Hpr Hv. destruct (mod_conv_head v md k Hv) as (c & r' & E & Hc).
  pose proof (stops_facts c) as Hs. rewrite Hc in Hs. cbn [negb orb] in Hs.
  apply andb_prop in Hs as [Hs _]. apply andb_prop in Hs as [Hs _]. apply andb_prop in Hs as [Hs Hdot].
  assert (md ++ k :: r = c :: r' ++ r) as E'.
  { change (k :: r) with ([k] ++ r). by rewrite app_assoc, E. }
  unfold skip_spec. change (fun c => mem c fmt_flags) with is_flag.
  rewrite <- !app_assoc. cbn [app]. rewrite E'. destruct Hpr as [->|(ds & -> & Hds)]; cbn [app].
  - rewrite skip_flags_digits by done. change (at_ (c :: r' ++ r) 0) with c.
    destruct (c =c "."%byte); [done|]. done.
  - rewrite skip_flags_digits by done. change (at_ ("."%byte :: ds ++ c :: r' ++ r) 0) with "."%byte.
    cbn [tail]. apply andb_prop in Hs as [_ Hs%negb_true_iff]. rewrite eqc_refl. by apply skip_digits.
Qed.

Definition kind_of (v : va_value) : conversion := match v with va_int _ => conv_int | va_double _ => conv_double end.

Lemma classify_num v md k r :
  conv_ok v md k -> classify (md ++ k :: r) = Some (kind_of v, k :: r).
Proof.
  assert (forall l, mem k l = true -> k ∈ l) as Hmem by (intros l; apply mem_true).
  destruct v; intros [Hk Hmd]; apply Hmem in Hk;
    repeat (apply elem_of_cons in Hk as [->|Hk]); try (by apply elem_of_nil in Hk).
  all: try (subst md; reflexivity).
  all: destruct Hmd as [->|[->|[->|[->| ->]]]]; reflexivity.
Qed.

(** The second byte of a numeric directive is not one of the other directives'. *)
Lemma num_second v fl w pr md k r :
  Forall (fun c => is_flag c = true) fl -> Forall (fun c => isdigit c = true) w ->
  (pr = [] \/ exists ds, pr = "."%byte :: ds /\ Forall (fun c => isdigit c = true) ds) ->
  conv_ok v md k -> exists c t, (fl ++ w ++ pr ++ md ++ [k]) ++ r = c :: t /\ mem c (str "sb%") = false /\ c <> Byte.x00.
Proof.
  assert (forall c, implb (is_flag c || isdigit c || (c =c "."%byte) || mem c (str "hl" ++ intfmts ++ dblfmts))
    (negb (mem c (str "sb%")) && negb (c =c Byte.x00)) = true) as Hf by (apply byte_forall; vm_compute; reflexivity).
  assert (forall c t, is_flag c || isdigit c || (c =c "."%byte) || mem c (str "hl" ++ intfmts ++ dblfmts) = true ->
    exists c' t', c :: t = c' :: t' /\ mem c' (str "sb%") = false /\ c' <> Byte.x00) as Hc.
  { intros c t E. exists c, t. specialize (Hf c). rewrite E in Hf. cbn [implb] in Hf.
    apply andb_prop in Hf as [H1%negb_true_iff H2%negb_true_iff]. by apply eqc_false in H2. }
  intros Hfl Hw Hpr Hv. destruct fl as [|c fl]; cbn [app].
  2:{ apply Hc. apply Forall_cons in Hfl as [-> _]. done. }
  destruct w as [|c w]; cbn [app].
  2:{ apply Hc. apply Forall_cons in Hw as [-> _]. by rewrite orb_true_r. }
  destruct Hpr as [->|(ds & -> & Hds)]; cbn [app].
  2:{ by apply Hc. }
  destruct (mod_conv_head v md k Hv) as (c & t & -> & E). cbn [app]. apply Hc. by rewrite E, orb_true_r.
Qed.

Section CommandLemmas.
Context `{Allocator} `{Printf}.

Lemma post_yields P m : post P m -> yields (or_null P) m.
Proof. destruct m as [[s|]| |]; cbn; try done; intros Hp; (eexists; split; [reflexivity | exact Hp]). Qed.

Lemma sdscatvprintf_loop_spec s t out : repr s t -> Byte.x00 ∉ out -> size t + size out <= 2 ^ 29 ->
  forall fuel buflen, 16 <= buflen -> size out + 2 <= buflen * 2 ^ Z.of_nat fuel -> buflen <= 2 * size out + 16 ->
  post (fun s' => repr s' (t ++ out)) (sdscatvprintf_loop (S fuel) s out buflen).
Proof.
  intros Hr Hn Hsz. pose proof (size_nonneg out). pose proof (size_nonneg t).
  induction fuel as [|fuel IH]; intros buflen Hb Hout Hle; cbn [sdscatvprintf_loop];
    (destruct (alloc_ok buflen) eqn:A; cbn [negb]; [|by eexists]);
    set (buf := take (Z.to_nat (buflen - 1)) out); clear A.
  - assert (buf = out) as -> by (unfold buf; apply take_ge; unfold size in *; cbn in Hout; lia).
    assert (at_ out (Z.to_nat (buflen - 2)) = Byte.x00) as ->.
    { unfold at_. rewrite lookup_ge_None_2; [done|]. unfold size in *. cbn in Hout. lia. }
    rewrite eqc_refl. cbn [negb]. unfold sdscat. rewrite c_str_no_nul by done. by apply sdscatlen_spec.
  - destruct (at_ buf (Z.to_nat (buflen - 2)) =c Byte.x00) eqn:E; cbn [negb].
    + apply eqc_true in E. assert (size out <= buflen - 2).
      { destruct (Z.le_gt_cases (size out) (buflen - 2)); [done|]. exfalso. apply Hn. rewrite <- E. unfold at_, buf.
        rewrite lookup_take_lt by lia.
        destruct (lookup_lt_is_Some_2 out (Z.to_nat (buflen - 2))) as [x Ex]; [unfold size in *; lia|].
        rewrite Ex. cbn. by apply list_elem_of_lookup_2 in Ex. }
      assert (buf = out) as -> by (unfold buf; apply take_ge; unfold size in *; lia).
      unfold sdscat. rewrite c_str_no_nul by done. by apply sdscatlen_spec.
    + assert (buflen - 2 < size out) as Hlt.
      { destruct (Z.le_gt_cases (size out) (buflen - 2)); [|lia]. exfalso. apply eqc_false in E. apply E.
        unfold at_, buf. rewrite lookup_ge_None_2; [done|]. rewrite length_take. unfold size in *. lia. }
      rewrite wrap64_id by lia. apply IH; [lia| |lia].
      rewrite Nat2Z.inj_succ, Z.pow_succ_r in Hout by lia. lia.
Qed.

Lemma sdscatvprintf_spec s t out : repr s t -> Byte.x00 ∉ out -> size t + size out <= 2 ^ 29 ->
  post (fun s' => repr s' (t ++ out)) (sdscatvprintf s out).
Proof.
  intros Hr Hn Hsz. apply sdscatvprintf_loop_spec; try done; pose proof (size_nonneg out); pose proof (size_nonneg t); try lia.
Qed.

(** The bytes of a piece were added to the current argument. *)
Definition dir_ok (ap : list va) (r t : bytes) (d : directive_result) : Prop :=
  exists n, d = dir_arg n ap r /\ or_null (fun s => repr s t) n.

Lemma dir_arg_yields ap r t m :
  post (fun s => repr s t) m -> yields (dir_ok ap r t) (let* n := m in Ok (dir_arg n ap r)).
Proof.
  intros Hp. eapply yields_bind; [by apply post_yields|]. intros n Hn. eexists. split; [reflexivity|]. by exists n.
Qed.

Lemma maybe_cat s t u : repr s t -> size t + size u <= 2 ^ 29 ->
  post (fun s' => repr s' (t ++ u)) (if 0 <? size u then sdscatlen s u else Ok (Some s)).
Proof.
  intros Hr Hsz. destruct (Z.ltb_spec 0 (size u)); [by apply sdscatlen_spec|].
  assert (u = []) as -> by (apply size_zero; size_lia). by rewrite app_nil_r.
Qed.

Lemma directive_num_spec s t ap r spec v :
  repr s t -> num_spec spec v -> Byte.x00 ∉ print_conversion spec v ->
  size t + size (print_conversion spec v) <= 2 ^ 29 ->
  yields (dir_ok ap r (t ++ print_conversion spec v)) (directive s (va_num v :: ap) (spec ++ r)).
Proof.
  intros Hr (fl & w & pr & md & k & E & Hfl & Hw & Hpr & Hv & Hlen) Hn Hsz. unfold directive.
  assert (tail (spec ++ r) = (fl ++ w ++ pr ++ md ++ [k]) ++ r) as Et by by rewrite E.
  destruct (num_second v fl w pr md k r Hfl Hw Hpr Hv) as (c & u & Es & Hc & Hz).
  assert (at_ (spec ++ r) 1 = c) as -> by (rewrite E; cbn [app]; by rewrite Es).
  assert (forall d, mem d (str "sb%") = true -> (c =c d) = false) as Hne.
  { intros d Hd. apply eqc_false. intros ->. by rewrite Hd in Hc. }
  rewrite !Hne by done. rewrite Et, skip_spec_num with (v := v) by done. rewrite (classify_num v) by done.
  assert (take_num (kind_of v) (va_num v :: ap) = Ok (v, ap)) as -> by by destruct v.
  cbn [mbind res_bind].
  assert (size (spec ++ r) - size (k :: r) + 1 = size spec) as ->.
  { rewrite size_app, size_cons. lia. }
  destruct (Z.ltb_spec (size spec) (16 - 2)); [|lia]. rewrite size_to_nat, take_app_length.
  by apply dir_arg_yields, sdscatvprintf_spec.
Qed.

Lemma directive_spec p s t ap r :
  repr s t -> piece_ok p -> (forall c, p <> p_char c) -> p <> p_space -> size t + size (piece_bytes p) <= 2 ^ 29 ->
  yields (dir_ok ap r (t ++ piece_bytes p)) (directive s (piece_args p ++ ap) (piece_text p ++ r)).
Proof.
  intros Hr Hok Hc Hs Hsz. destruct p as [|c| |u|u n|spec v]; try done; cbn [piece_args piece_text piece_bytes app] in *.
  - by destruct (Hc c).
  - apply (dir_arg_yields ap r). by apply sdscatlen_spec.
  - apply (dir_arg_yields ap r). by apply maybe_cat.
  - unfold directive. change (at_ (str "%b" ++ r) 1) with "b"%byte. cbn [Byte.eqb]. cbn in Hok.
    change ("b" =c "s")%byte with false. change ("b" =c "b")%byte with true. cbn beta iota.
    destruct (Z.ltb_spec (size u) n); [lia|].
    assert (size (take (Z.to_nat n) u) = n) as Hn by (unfold size in *; rewrite length_take; lia).
    assert ((0 <? n) = (0 <? size (take (Z.to_nat n) u))) as -> by by rewrite Hn.
    apply (dir_arg_yields ap r). by apply maybe_cat.
  - destruct Hok as [Hok Hn]. by apply directive_num_spec.
Qed.

Lemma pieces_no_nul ps : Forall piece_ok ps -> Byte.x00 ∉ concat (map piece_text ps).
Proof using.
  assert (forall c, implb (is_flag c || isdigit c || mem c (str "%.hl" ++ intfmts ++ dblfmts)) (negb (c =c Byte.x00)) = true) as Hf
    by (apply byte_forall; vm_compute; reflexivity).
  assert (forall P l, (forall c, P c = true -> is_flag c || isdigit c || mem c (str "%.hl" ++ intfmts ++ dblfmts) = true) ->
    Forall (fun c => P c = true) l -> Byte.x00 ∉ l) as Hl.
  { intros P l HP Hl Hin. rewrite Forall_forall in Hl. specialize (Hf Byte.x00). by rewrite (HP _ (Hl _ Hin)) in Hf. }
  assert (forall p, piece_ok p -> Byte.x00 ∉ piece_text p) as Hp.
  { intros [|c| |u|u n|spec v] Hp; try (by apply mem_false).
    - destruct Hp as (_ & _ & Hz). intros ?%list_elem_of_singleton. by destruct Hz.
    - destruct Hp as [(fl & w & pr & md & k & -> & Hfl & Hw & Hpr & Hv & _) _]. cbn [piece_text].
      assert (Forall (fun c => mem c (str "%.hl" ++ intfmts ++ dblfmts) = true) (md ++ [k])) as Hmd.
      { destruct v; destruct Hv as [Hk Hmd]; apply mem_true in Hk.
        - assert (mem k (str "%.hl" ++ intfmts ++ dblfmts) = true) by (apply mem_true; rewrite !elem_of_app; by (right; left)).
          apply Forall_app. split; [destruct Hmd as [->|[->|[->|[->| ->]]]]; by repeat constructor | by constructor].
        - subst md. constructor; [apply mem_true; rewrite !elem_of_app; by (right; right) | done]. }
      assert (Byte.x00 ∉ fl) by (apply (Hl is_flag); [by intros c -> | done]).
      assert (Byte.x00 ∉ w) by (apply (Hl isdigit); [intros c ->; by rewrite orb_true_r | done]).
      assert (Byte.x00 ∉ md ++ [k]) by (eapply Hl; [|exact Hmd]; intros c ->; by rewrite orb_true_r).
      assert (Byte.x00 ∉ pr).
      { destruct Hpr as [->|(ds & -> & Hds)]; [by apply not_elem_of_nil|]. rewrite elem_of_cons. intros [?|Hin]; [done|].
        revert Hin. apply (Hl isdigit); [intros c ->; by rewrite orb_true_r | done]. }
      rewrite elem_of_cons, !elem_of_app. rewrite elem_of_app in *. intros [?|?]; [done | tauto]. }
  induction 1 as [|p ps Hpk _ IH]; [by apply not_elem_of_nil|]. cbn. rewrite elem_of_app.
  intros [Hin|Hin]; [by apply Hp in Hin | done].
Qed.

(** What the loop has collected: the arguments [ds] and the current one. *)
Definition collected (st : fmt_state) (ds : list bytes) (cur : bytes) : Prop :=
  repr st.(curarg) cur /\ Forall2 repr st.(curargv) ds /\ st.(totlen) = size (bulks ds) /\
  (st.(touched) = false -> cur = []).

Definition weight (ps : list piece) : Z := foldr (fun p n => size (piece_bytes p) + 25 + n) 25 ps.

Lemma weight_pos ps : 25 <= weight ps.
Proof using.
  unfold weight. induction ps as [|p ps IH]; cbn [foldr]; [lia|]. pose proof (size_nonneg (piece_bytes p)). lia.
Qed.

Lemma push_arg_spec st ds cur : collected st ds cur -> size (bulks ds) + size cur + 25 <= 2 ^ 29 ->
  yields (fun o => match o with
    | Some st' => collected (mk_fmt st.(curarg) st.(touched) [] 0) [] cur /\ Forall2 repr st'.(curargv) (ds ++ [cur]) /\
        st'.(totlen) = size (bulks (ds ++ [cur]))
    | None => refused end) (push_arg st).
Proof.
  intros (Hr & HR & Ht & Hc) Hsz. unfold push_arg. pose proof (size_bulks ds). pose proof (size_nonneg cur).
  assert (size st.(curargv) = size ds) as -> by (unfold size; by rewrite (Forall2_length _ _ _ HR)).
  pose proof (size_nonneg ds). rewrite int_result_id by (unfold INT_MAX; lia). cbn [mbind res_bind].
  destruct (alloc_ok _) eqn:A; cbn [negb]; [|eexists; split; [reflexivity | by eexists]].
  eexists. split; [reflexivity|]. cbn. split_and!.
  - by split_and!.
  - apply Forall2_app; [done | by constructor].
  - destruct (size_bulk cur ltac:(lia)) as [_ Hb].
    rewrite (repr_sdslen _ _ Hr), bulks_snoc, size_app, Ht. apply add_bulk_spec; unfold INT_MAX; lia.
Qed.

(** The outcome of the loop, and of the whole formatting of the arguments. *)
Definition loop_ok (all : list bytes) (r : fmt_result) : Prop :=
  match r with
  | fmt_done st => exists ds cur, collected st ds cur /\ size (bulks ds) + size cur + 25 <= 2 ^ 29 /\
      ds ++ (if st.(touched) then [cur] else []) = all
  | fmt_error e => e = -1 /\ refused
  end.

Lemma loop_error all : refused -> yields (loop_ok all) (Ok (fmt_error (-1))).
Proof. intros Hr. eexists. split; [reflexivity|]. done. Qed.

Lemma yields_option {A B} (P : A -> Prop) (Q : B -> Prop) o (k1 : res B) (k2 : A -> res B) :
  or_null P o -> (refused -> yields Q k1) -> (forall a, P a -> yields Q (k2 a)) ->
  yields Q (match o with None => k1 | Some a => k2 a end).
Proof. destruct o; cbn; auto. Qed.

Lemma loop_char_step fuel c f ap st ds cur all :
  collected st ds cur -> size cur + 1 <= 2 ^ 29 -> c <> " "%byte -> c <> "%"%byte ->
  (forall st', collected st' ds (cur ++ [c]) -> st'.(touched) = true -> yields (loop_ok all) (format_loop fuel f ap st')) ->
  yields (loop_ok all) (format_loop (S fuel) (c :: f) ap st).
Proof.
  intros (Hr & HR & Ht & Hc) Hsz Hsp Hpc Hk. cbn [format_loop].
  apply eqc_false in Hsp, Hpc. rewrite Hsp, Hpc. cbn [negb orb].
  eapply yields_bind; [apply post_yields, (sdscatlen_spec _ cur [c]); [done | change (size [c]) with 1; lia]|].
  intros o Ho. eapply yields_option; [exact Ho | apply loop_error|]. intros s Hs. apply Hk; [|done]. by split_and!.
Qed.

Lemma loop_piece_step fuel p f ap st ds cur all :
  collected st ds cur -> size cur + size (piece_bytes p) <= 2 ^ 29 -> piece_ok p -> (forall c, p <> p_char c) -> p <> p_space ->
  (forall st', collected st' ds (cur ++ piece_bytes p) -> st'.(touched) = true -> yields (loop_ok all) (format_loop fuel f ap st')) ->
  yields (loop_ok all) (format_loop (S fuel) (piece_text p ++ f) (piece_args p ++ ap) st).
Proof.
  intros (Hr & HR & Ht & Hc) Hsz Hok Hp1 Hp2 Hk.
  assert (exists c t, piece_text p ++ f = "%"%byte :: c :: t /\ c <> Byte.x00) as (c & t & E & Hz).
  { destruct p as [|c| |u|u n|spec v]; try done; [by destruct (Hp1 c) | by eexists _, _..|].
    destruct Hok as [(fl & w & pr & md & k & -> & Hfl & Hw & Hpr & Hv & _) _].
    destruct (num_second v fl w pr md k f Hfl Hw Hpr Hv) as (c & t & Es & _ & Hz).
    cbn [piece_text app]. rewrite Es. by eexists _, _. }
  pose proof (directive_spec p st.(curarg) cur ap f Hr Hok Hp1 Hp2 Hsz) as Hd. rewrite E in *. cbn [format_loop].
  change (at_ ("%"%byte :: c :: t) 1) with c. apply eqc_false in Hz. rewrite Hz. cbn [negb orb].
  change ("%" =c "%")%byte with true. cbn [negb orb].
  eapply yields_bind; [exact Hd|]. intros d (n & -> & Hn). destruct n as [s|]; cbn in Hn; [|by apply loop_error].
  apply Hk; [|done]. by split_and!.
Qed.

Lemma format_loop_spec ps : forall fuel st ds cur,
  (length (concat (map piece_text ps)) < fuel)%nat -> collected st ds cur -> Forall piece_ok ps ->
  size (bulks ds) + size cur + weight ps <= 2 ^ 29 ->
  yields (loop_ok (ds ++ command_of ps cur st.(touched)))
    (format_loop fuel (concat (map piece_text ps)) (concat (map piece_args ps)) st).
Proof.
  induction ps as [|p ps IH]; intros [|fuel] st ds cur Hfuel Hcol Hok Hw; [lia| |lia|].
  { eexists. split; [reflexivity|]. by exists ds, cur. }
  apply Forall_cons in Hok as [Hp Hok]. cbn [map concat weight foldr] in *. fold (weight ps) in *.
  pose proof (weight_pos ps). pose proof (size_nonneg (bulks ds)). pose proof (size_nonneg cur).
  pose proof (size_nonneg (piece_bytes p)). rewrite length_app in Hfuel.
  assert (length (piece_text p) >= 1)%nat as Hlen.
  { destruct p as [|c| |u|u n|spec v]; cbn; try lia. destruct Hp as [(fl & w & pr & md & k & -> & _) _]. cbn. lia. }
  assert (p = p_space \/ p <> p_space) as [->|Hsp] by (destruct p; (by left) || by right).
  - cbn [piece_text piece_args app command_of str String.list_byte_of_string] in *. cbn [format_loop].
    change (str " " ++ concat (map piece_text ps)) with (" "%byte :: concat (map piece_text ps)). cbn [format_loop].
    change (" " =c "%")%byte with false. change (" " =c " ")%byte with true. cbn [negb orb].
    destruct st.(touched) eqn:Et; [|rewrite <- Et; apply IH; try done; cbn in *; lia].
    cbn [piece_bytes] in Hw. rewrite size_nil in Hw.
    eapply yields_bind; [apply (push_arg_spec st ds cur Hcol); lia|].
    intros [st'|] Hst; [|by apply loop_error]. destruct Hst as (_ & HR & Ht).
    eapply yields_bind; [apply post_yields, (sdsnewlen_spec []); rewrite size_nil; lia|].
    intros o Ho. eapply yields_option; [exact Ho | apply loop_error|]. intros s Hs.
    replace (ds ++ cur :: command_of ps [] false) with ((ds ++ [cur]) ++ command_of ps [] false) by by rewrite <- app_assoc.
    apply (IH fuel (mk_fmt s false _ _)); [cbn in *; lia | by split_and! | done|].
    destruct (size_bulk cur ltac:(lia)) as [_ Hb]. rewrite bulks_snoc, size_app, size_nil. lia.
  - assert (command_of (p :: ps) cur st.(touched) = command_of ps (cur ++ piece_bytes p) true) as -> by by destruct p.
    assert (forall st', collected st' ds (cur ++ piece_bytes p) -> st'.(touched) = true ->
      yields (loop_ok (ds ++ command_of ps (cur ++ piece_bytes p) true))
        (format_loop fuel (concat (map piece_text ps)) (concat (map piece_args ps)) st')) as Hnext.
    { intros st' Hst' Et. rewrite <- Et. apply IH; [lia|done|done|]. rewrite size_app. lia. }
    assert ((exists c, p = p_char c) \/ forall c, p <> p_char c) as [[c ->]|Hc] by (destruct p; (by right) || (by left; eexists)).
    + destruct Hp as (H1' & H2' & H3').
      cbn [piece_text piece_args app]. apply (loop_char_step fuel c _ _ _ ds cur); try done. change (size (piece_bytes (p_char c))) with 1 in *. lia.
    + apply (loop_piece_step fuel p _ _ _ ds cur); try done; lia.
Qed.

(** What the formatter returns. *)
Lemma format_yields ps :
  Forall piece_ok ps -> weight ps <= 2 ^ 29 - 2 ^ 10 ->
  yields (formatted (command_of ps [] false))
    (redisvFormatCommand (concat (map piece_text ps)) (concat (map piece_args ps))).
Proof.
  intros Hok Hw. unfold redisvFormatCommand.
  eapply yields_bind; [apply post_yields, (sdsnewlen_spec []); rewrite size_nil; lia|].
  intros o Ho. eapply yields_option; [exact Ho | intros Hr; by eexists|]. intros s Hs.
  rewrite c_str_no_nul by by apply pieces_no_nul.
  eapply yields_bind; [apply (format_loop_spec ps _ _ [] []); [lia | by split_and! | done | change (size (bulks [])) with 0; change (size (@nil byte)) with 0; lia]|].
  intros [st|e] Hst; [|destruct Hst as [-> Hr]; by eexists]. destruct Hst as (ds & cur & Hcol & Hsz & Eall).
  cbn [touched app] in Eall. rewrite <- Eall.
  assert (yields (fun o => match o with
      | Some st' => let all := ds ++ (if st.(touched) then [cur] else []) in
          Forall2 repr st'.(curargv) all /\ st'.(totlen) = size (bulks all) /\ size (bulks all) <= 2 ^ 29
      | None => refused end) (if st.(touched) then push_arg st else Ok (Some st))) as Hpush.
  { destruct st.(touched) eqn:Et.
    - destruct (push_arg_spec st ds cur Hcol Hsz) as (o' & -> & Ho'). eexists. split; [reflexivity|].
      destruct o' as [st'|]; [|done]. destruct Ho' as (_ & H1 & H2). cbn. split_and!; [done|done|].
      rewrite bulks_snoc, size_app. pose proof (size_nonneg (bulks ds)). pose proof (size_nonneg cur).
      destruct (size_bulk cur ltac:(lia)). lia.
    - eexists. split; [reflexivity|]. cbn. rewrite app_nil_r. destruct Hcol as (_ & H1 & H2 & _).
      pose proof (size_nonneg cur). split_and!; [done|done|lia]. }
  eapply yields_bind; [exact Hpush|]. intros [st'|] Hst'; [|by eexists]. cbn zeta in Hst'.
  set (all := ds ++ (if st.(touched) then [cur] else [])) in *. destruct Hst' as (HR & Ht & Hb).
  assert (exists args, sds_args st'.(curargv) = Ok args /\ Forall2 arg_is args all) as (args & Ea & Hargs).
  { clear -HR. induction HR as [|x d l ds' Hx HR (args & E & Hargs)]; [by exists []|].
    exists ((d, size d) :: args). cbn. rewrite (sds_bytes_repr _ _ Hx), E, (repr_sdslen _ _ Hx). split; [done|].
    constructor; [|done]. split; [done|]. exists []. by rewrite app_nil_r. }
  rewrite Ea. cbn [mbind res_bind].
  assert (size st'.(curargv) = size all) as -> by (unfold size; by rewrite (Forall2_length _ _ _ HR)).
  pose proof (size_bulks all). pose proof (size_nonneg all). pose proof (countDigits_bound (size all) ltac:(lia)).
  assert (wrap32 (st'.(totlen) + (1 + countDigits (size all) + 2)) = size (request_bytes all)) as ->.
  { rewrite request_bytes_size by lia. rewrite Ht, wrap32_id by (unfold INT_MAX; lia). lia. }
  pose proof (build_command_spec _ args all Hargs eq_refl) as Hbuild.
  specialize (Hbuild ltac:(rewrite request_bytes_size; lia)).
  destruct (build_command _ _ _) as [[m|]| |]; cbn in Hbuild; try done; (eexists; split; [reflexivity|]); [done|].
  by destruct Hbuild.
Qed.

End CommandLemmas.


(** A directive cut off by the end of the format: [strchr] finds the terminator
    in the set of conversions, so the directive is taken as complete and the
    scan goes on after the end of the format. *)
Example format_overrun :
  redisvFormatCommand (H := fun _ => true) (H0 := fun _ _ => []) (str "GET %-") [va_num (va_int 1)] = UB index_out_of_bounds.
Proof. vm_compute. reflexivity. Qed.
