(* ===== verification/HiredisReply.v ===== *)
(** * [src/win/hiredis/hiredis.c]: reply objects.

    Replies live in a heap of objects: a pointer is an index, a freed object is
    [None].  The functions the reader calls back create an object and store it
    in its parent array. *)
From S2P Require Import Prelude CxxString Sds.

(** [REDIS_REPLY_*] *)
Definition REPLY_STRING : Z := 1.
Definition REPLY_ARRAY : Z := 2.
Definition REPLY_INTEGER : Z := 3.
Definition REPLY_NIL : Z := 4.
Definition REPLY_STATUS : Z := 5.
Definition REPLY_ERROR : Z := 6.

(** [struct redisReply]; [element] is the vector of [calloc], [None] if [NULL]. *)
Record redisReply : Type := mk_reply {
  r_type : Z; r_integer : Z; r_len : Z; r_str : option bytes;
  r_elements : Z; r_element : option (list (option nat)) }.

Abbreviation heap := (list (option redisReply)).

Definition set_str (r : redisReply) (s : bytes) (n : Z) : redisReply :=
  mk_reply r.(r_type) r.(r_integer) n (Some s) r.(r_elements) r.(r_element).
Definition set_integer (r : redisReply) (v : Z) : redisReply :=
  mk_reply r.(r_type) v r.(r_len) r.(r_str) r.(r_elements) r.(r_element).
Definition set_elements (r : redisReply) (n : Z) (v : option (list (option nat))) : redisReply :=
  mk_reply r.(r_type) r.(r_integer) r.(r_len) r.(r_str) n v.

(** Dereferencing an object. *)
Definition deref (h : heap) (p : nat) : res redisReply :=
  match h !! p with Some (Some r) => Ok r | _ => UB dangling_pointer end.

(** What the callbacks use of a task: its type, its index and, when it has a
    parent, the parent's object ([None] inside is [NULL]). *)
Record task_view : Type := mk_view { v_type : Z; v_idx : Z; v_parent : option (option nat) }.

Definition reply_size : Z := 48.

Section Create.
Context `{Allocator}.

Definition createReplyObject (h : heap) (type : Z) : option nat * heap :=
  if negb (alloc_ok reply_size) then (None, h)
  else (Some (length h), h ++ [Some (mk_reply type 0 0 None 0 None)]).

(** [for (j = 0; j < r->elements; j++) if (r->element[j] != NULL)
    freeReplyObject(r->element[j]);] *)
Fixpoint free_elements (free : heap -> nat -> res heap) (l : list (option nat)) (h : heap) : res heap :=
  match l with
  | [] => Ok h
  | None :: l' => free_elements free l' h
  | Some q :: l' => let* h := free h q in free_elements free l' h
  end.

(** [freeReplyObject]: an object and the objects of its vector; no tree is
    deeper than the heap is long. *)
Fixpoint freeReplyObject (fuel : nat) (h : heap) (p : nat) : res heap :=
  match fuel with
  | O => UB no_fuel
  | S fuel' =>
      match h !! p with
      | Some (Some r) =>
          let* h := (if r.(r_type) =? REPLY_ARRAY then
              match r.(r_element) with
              | None => Ok h
              | Some l =>
                  if size l <? r.(r_elements) then UB index_out_of_bounds
                  else free_elements (freeReplyObject fuel') (take (Z.to_nat r.(r_elements)) l) h
              end
            else Ok h) in
          Ok (<[p := None]> h)
      | _ => UB double_free
      end
  end.

(** [parent->element[task->idx] = r], with the assertion on the parent. *)
Definition set_element (h : heap) (t : task_view) (r : nat) : res heap :=
  match t.(v_parent) with
  | None => Ok h
  | Some None => UB null_pointer
  | Some (Some pp) =>
      let* parent := deref h pp in
      if negb (parent.(r_type) =? REPLY_ARRAY) then UB assertion_failed
      else
        match parent.(r_element) with
        | None => UB null_pointer
        | Some l =>
            if (0 <=? t.(v_idx)) && (t.(v_idx) <? size l) then
              Ok (<[pp := Some (set_elements parent parent.(r_elements) (Some (<[Z.to_nat t.(v_idx) := Some r]> l)))]> h)
            else UB index_out_of_bounds
        end
  end.

(** The object in the heap, stored in its parent. *)
Definition finish_object (h : heap) (t : task_view) (p : nat) (r : redisReply) : res (option nat * heap) :=
  let* h := set_element (<[p := Some r]> h) t p in Ok (Some p, h).

(** [str] is the [len] bytes at the pointer. *)
Definition createStringObject (t : task_view) (str : bytes) (h : heap) : res (option nat * heap) :=
  let len := size str in
  let '(o, h) := createReplyObject h t.(v_type) in
  match o with
  | None => Ok (None, h)
  | Some p =>
      if negb (alloc_ok (wrap64 (len + 1))) then let* h := freeReplyObject 1 h p in Ok (None, h)
      else if negb ((t.(v_type) =? REPLY_ERROR) || (t.(v_type) =? REPLY_STATUS) || (t.(v_type) =? REPLY_STRING)) then
        UB assertion_failed
      else let* r := deref h p in finish_object h t p (set_str r str (wrap32 len))
  end.

Definition createArrayObject (t : task_view) (elements : Z) (h : heap) : res (option nat * heap) :=
  let '(o, h) := createReplyObject h REPLY_ARRAY in
  match o with
  | None => Ok (None, h)
  | Some p =>
      let* r := deref h p in
      if 0 <? elements then
        if negb (alloc_ok (wrap64 (elements * 8))) then let* h := freeReplyObject 1 h p in Ok (None, h)
        else finish_object h t p (set_elements r (wrap64 elements) (Some (replicate (Z.to_nat elements) None)))
      else finish_object h t p (set_elements r (wrap64 elements) None)
  end.

Definition createIntegerObject (t : task_view) (value : Z) (h : heap) : res (option nat * heap) :=
  let '(o, h) := createReplyObject h REPLY_INTEGER in
  match o with
  | None => Ok (None, h)
  | Some p => let* r := deref h p in finish_object h t p (set_integer r value)
  end.

Definition createNilObject (t : task_view) (h : heap) : res (option nat * heap) :=
  let '(o, h) := createReplyObject h REPLY_NIL in
  match o with
  | None => Ok (None, h)
  | Some p => let* r := deref h p in finish_object h t p r
  end.
End Create.
