(* ===== verification/HiredisReader.v ===== *)
(** * [src/win/hiredis/read.h], [src/win/hiredis/read.c]: the incremental reader
    of replies.

    The reader keeps its input in a dynamic string, with a cursor, and a stack of
    nine tasks, one per level of nesting.  The reply objects are in the heap that
    the record carries.  A pointer into the buffer is an offset. *)
From S2P Require Import Prelude CxxString Sds SdsText HiredisReply.

Definition REDIS_OK : Z := 0.
Definition REDIS_ERR : Z := -1.
Definition REDIS_ERR_PROTOCOL : Z := 4.
Definition REDIS_ERR_OOM : Z := 5.
Definition REDIS_READER_MAX_BUF : Z := 1024 * 16.

(** What a callback returned; without callbacks the type stands for the object. *)
Inductive obj : Type := obj_reply (p : nat) | obj_const (z : Z).

(** [struct redisReadTask]; the parent is a level of the stack. *)
Record task : Type := mk_task {
  t_type : Z; t_elements : Z; t_idx : Z; t_obj : option obj; t_parent : option nat }.

(** [struct redisReader]; [rd_fn] tells whether the default callbacks are set. *)
Record reader : Type := mk_reader {
  rd_err : Z; rd_errstr : bytes; rd_buf : option sds; rd_pos : Z; rd_len : Z; rd_maxbuf : Z;
  rd_rstack : list task; rd_ridx : Z; rd_reply : option obj; rd_fn : bool; rd_heap : heap }.

Definition set_pos (r : reader) (pos : Z) : reader :=
  mk_reader r.(rd_err) r.(rd_errstr) r.(rd_buf) pos r.(rd_len) r.(rd_maxbuf) r.(rd_rstack) r.(rd_ridx) r.(rd_reply) r.(rd_fn) r.(rd_heap).
Definition set_input (r : reader) (b : option sds) (pos len : Z) : reader :=
  mk_reader r.(rd_err) r.(rd_errstr) b pos len r.(rd_maxbuf) r.(rd_rstack) r.(rd_ridx) r.(rd_reply) r.(rd_fn) r.(rd_heap).
Definition set_stack (r : reader) (st : list task) (ridx : Z) : reader :=
  mk_reader r.(rd_err) r.(rd_errstr) r.(rd_buf) r.(rd_pos) r.(rd_len) r.(rd_maxbuf) st ridx r.(rd_reply) r.(rd_fn) r.(rd_heap).
Definition set_reply (r : reader) (o : option obj) : reader :=
  mk_reader r.(rd_err) r.(rd_errstr) r.(rd_buf) r.(rd_pos) r.(rd_len) r.(rd_maxbuf) r.(rd_rstack) r.(rd_ridx) o r.(rd_fn) r.(rd_heap).
Definition set_heap (r : reader) (h : heap) : reader :=
  mk_reader r.(rd_err) r.(rd_errstr) r.(rd_buf) r.(rd_pos) r.(rd_len) r.(rd_maxbuf) r.(rd_rstack) r.(rd_ridx) r.(rd_reply) r.(rd_fn) h.

(** ** Errors *)

Definition redisReaderSetError (r : reader) (type : Z) (msg : bytes) : res reader :=
  let* r := (match r.(rd_reply) with
    | Some (obj_reply p) =>
        if r.(rd_fn) then
          let* h := freeReplyObject (S (length r.(rd_heap))) r.(rd_heap) p in
          Ok (set_reply (set_heap r h) None)
        else Ok r
    | Some (obj_const _) => if r.(rd_fn) then UB dangling_pointer else Ok r
    | None => Ok r
    end) in
  let r := match r.(rd_buf) with Some _ => set_input r None 0 0 | None => r end in
  Ok (mk_reader type (take 127 msg) r.(rd_buf) r.(rd_pos) r.(rd_len) r.(rd_maxbuf) r.(rd_rstack) (-1)
        r.(rd_reply) r.(rd_fn) r.(rd_heap)).

Definition chrtos (c : byte) : bytes :=
  dquote :: (if (c =c backslash) || (c =c dquote) then [backslash; c]
    else if c =c NL then str "\n" else if c =c CR then str "\r" else if c =c TAB then str "\t"
    else if c =c BEL then str "\a" else if c =c BS then str "\b"
    else if isprint c then [c] else str "\x" ++ hex2 c) ++ [dquote].

Definition redisReaderSetErrorProtocolByte (r : reader) (c : byte) : res reader :=
  redisReaderSetError r REDIS_ERR_PROTOCOL
    (str "Protocol error, got " ++ take 7 (chrtos c) ++ str " as reply type byte").

Definition redisReaderSetErrorOOM (r : reader) : res reader :=
  redisReaderSetError r REDIS_ERR_OOM (str "Out of memory").

(** ** The input buffer *)

Definition buffer (r : reader) : res memory :=
  match r.(rd_buf) with Some s => Ok s.(sds_buf) | None => UB null_pointer end.

(** [m[i]] *)
Definition char_at (m : memory) (i : Z) : res byte :=
  if 0 <=? i then
    match m !! Z.to_nat i with
    | Some (Some c) => Ok c
    | Some None => UB uninitialised_read
    | None => UB index_out_of_bounds
    end
  else UB index_out_of_bounds.

(** [readBytes(r, 1)]: the byte. *)
Definition readByte (r : reader) : res (option byte * reader) :=
  if 1 <=? sz_sub r.(rd_len) r.(rd_pos) then
    let* m := buffer r in
    let* c := char_at m r.(rd_pos) in
    Ok (Some c, set_pos r (r.(rd_pos) + 1))
  else Ok (None, r).

(** [while(pos < _len && s[pos] != '\r') pos++;] with [s] at [base]. *)
Fixpoint seek_cr (fuel : nat) (m : memory) (base pos len : Z) : res Z :=
  match fuel with
  | O => UB no_fuel
  | S fuel' =>
      if pos <? len then
        let* c := char_at m (base + pos) in
        if c =c CR then Ok pos else seek_cr fuel' m base (pos + 1) len
      else Ok pos
  end.

Fixpoint seek_loop (fuel : nat) (m : memory) (base pos len : Z) : res (option Z) :=
  match fuel with
  | O => UB no_fuel
  | S fuel' =>
      if pos <? len then
        let* pos := seek_cr fuel m base pos len in
        let* c := char_at m (base + pos) in
        if negb (c =c CR) then Ok None
        else
          let* c := char_at m (base + pos + 1) in
          if c =c NL then Ok (Some pos) else seek_loop fuel' m base (pos + 1) len
      else Ok None
  end.

(** [seekNewline(s, len)] with [s] at [base]: the offset of the line end from
    [base]. *)
Definition seekNewline (m : memory) (base len : Z) : res (option Z) :=
  let _len := wrap32 (sz_sub len 1) in
  seek_loop (S (S (length m))) m base 0 _len.

(** The digits of [readLongLong] from [i] to the carriage return. *)
Fixpoint long_digits (fuel : nat) (m : memory) (i v : Z) : res (option Z) :=
  match fuel with
  | O => UB no_fuel
  | S fuel' =>
      let* c := char_at m i in
      if c =c CR then Ok (Some v)
      else
        let dec := schar c - 48 in
        if (0 <=? dec) && (dec <? 10) then
          if (LONG_MAX <? v * 10) || (LONG_MAX <? v * 10 + dec) then UB signed_overflow
          else long_digits fuel' m (i + 1) (v * 10 + dec)
        else Ok None
  end.

Definition readLongLong (m : memory) (i : Z) : res Z :=
  let* c := char_at m i in
  let '(mult, i) := if c =c "-"%byte then (-1, i + 1) else if c =c "+"%byte then (1, i + 1) else (1, i) in
  let* o := long_digits (S (length m)) m i 0 in
  match o with None => Ok (-1) | Some v => Ok (mult * v) end.

(** The start and the length of the line; the cursor moves after its end. *)
Definition readLine (r : reader) : res (option (Z * Z) * reader) :=
  let p := r.(rd_pos) in
  let* m := buffer r in
  let* s := seekNewline m p (sz_sub r.(rd_len) p) in
  match s with
  | Some n =>
      let len := wrap32 n in
      Ok (Some (p, len), set_pos r (wrap64 (r.(rd_pos) + (len + 2))))
  | None => Ok (None, r)
  end.

(** ** Tasks *)

Definition task_at (r : reader) (i : Z) : res task :=
  if 0 <=? i then match r.(rd_rstack) !! Z.to_nat i with Some t => Ok t | None => UB index_out_of_bounds end
  else UB index_out_of_bounds.

Definition put_task (r : reader) (i : Z) (t : task) : reader :=
  set_stack r (<[Z.to_nat i := t]> r.(rd_rstack)) r.(rd_ridx).

(** What the callbacks see of the current task. *)
Definition view_of (r : reader) (t : task) : res task_view :=
  match t.(t_parent) with
  | None => Ok (mk_view t.(t_type) t.(t_idx) None)
  | Some k =>
      match r.(rd_rstack) !! k with
      | Some p =>
          match p.(t_obj) with
          | None => Ok (mk_view t.(t_type) t.(t_idx) (Some None))
          | Some (obj_reply q) => Ok (mk_view t.(t_type) t.(t_idx) (Some (Some q)))
          | Some (obj_const _) => UB dangling_pointer
          end
      | None => UB index_out_of_bounds
      end
  end.

(** [while (r->ridx >= 0)] of [moveToNextTask]: each turn pops a level. *)
Fixpoint moveToNextTask_loop (fuel : nat) (r : reader) : res reader :=
  match fuel with
  | O => UB no_fuel
  | S fuel' =>
      if 0 <=? r.(rd_ridx) then
        if r.(rd_ridx) =? 0 then Ok (set_stack r r.(rd_rstack) (-1))
        else
          let* cur := task_at r r.(rd_ridx) in
          let* prv := task_at r (r.(rd_ridx) - 1) in
          if negb (prv.(t_type) =? REPLY_ARRAY) then UB assertion_failed
          else
            let* last := int_result (prv.(t_elements) - 1) in
            if cur.(t_idx) =? last then moveToNextTask_loop fuel' (set_stack r r.(rd_rstack) (r.(rd_ridx) - 1))
            else if negb (cur.(t_idx) <? prv.(t_elements)) then UB assertion_failed
            else
              let* idx := int_result (cur.(t_idx) + 1) in
              Ok (put_task r r.(rd_ridx) (mk_task (-1) (-1) idx cur.(t_obj) cur.(t_parent)))
      else Ok r
  end.

Definition moveToNextTask (r : reader) : res reader := moveToNextTask_loop 10 r.

Section Reader.
Context `{Allocator}.

(** A callback, or the constant that stands for the object without callbacks. *)
Definition create (r : reader) (cur : task) (k : task_view -> heap -> res (option nat * heap)) (type : Z)
  : res (option obj * reader) :=
  if r.(rd_fn) then
    let* v := view_of r cur in
    let* (o, h) := k v r.(rd_heap) in
    Ok (obj_reply <$> o, set_heap r h)
  else Ok (Some (obj_const type), r).

(** [if (r->ridx == 0) r->reply = obj; moveToNextTask(r); return REDIS_OK;],
    after the test of [obj]. *)
Definition item_done (o : option obj) (r : reader) : res (Z * reader) :=
  match o with
  | None => let* r := redisReaderSetErrorOOM r in Ok (REDIS_ERR, r)
  | Some x =>
      let r := if r.(rd_ridx) =? 0 then set_reply r (Some x) else r in
      let* r := moveToNextTask r in Ok (REDIS_OK, r)
  end.

(** ** Items *)

Definition processLineItem (r : reader) : res (Z * reader) :=
  let* cur := task_at r r.(rd_ridx) in
  let* (l, r) := readLine r in
  match l with
  | Some (p, len) =>
      let* (o, r) := (if cur.(t_type) =? REPLY_INTEGER then
          if r.(rd_fn) then
            let* m := buffer r in
            let* v := readLongLong m p in
            create r cur (fun t => createIntegerObject t v) REPLY_INTEGER
          else Ok (Some (obj_const REPLY_INTEGER), r)
        else
          let* m := buffer r in
          let* d := mem_read m p len in
          create r cur (fun t => createStringObject t d) cur.(t_type)) in
      item_done o r
  | None => Ok (REDIS_ERR, r)
  end.

Definition processBulkItem (r : reader) : res (Z * reader) :=
  let* cur := task_at r r.(rd_ridx) in
  let p := r.(rd_pos) in
  let* m := buffer r in
  let* s := seekNewline m p (sz_sub r.(rd_len) p) in
  match s with
  | Some n =>
      let bytelen := wrap64 (n + 2) in
      let* len := readLongLong m p in
      if len <? 0 then
        let* (o, r) := create r cur createNilObject REPLY_NIL in
        match o with
        | None => let* r := redisReaderSetErrorOOM r in Ok (REDIS_ERR, r)
        | Some _ => item_done o (set_pos r (wrap64 (r.(rd_pos) + bytelen)))
        end
      else if LONG_MAX <? len + 2 then UB signed_overflow
      else
        let bytelen := wrap64 (bytelen + (len + 2)) in
        if wrap64 (r.(rd_pos) + bytelen) <=? r.(rd_len) then
          let* d := mem_read m (p + n + 2) len in
          let* (o, r) := create r cur (fun t => createStringObject t d) REPLY_STRING in
          match o with
          | None => let* r := redisReaderSetErrorOOM r in Ok (REDIS_ERR, r)
          | Some _ => item_done o (set_pos r (wrap64 (r.(rd_pos) + bytelen)))
          end
        else Ok (REDIS_ERR, r)
  | None => Ok (REDIS_ERR, r)
  end.

Definition depth_message : bytes := str "No support for nested multi bulk replies with depth > 7".

(** The task that is pushed for the first element. *)
Definition first_task (level : Z) : task := mk_task (-1) (-1) 0 None (Some (Z.to_nat level)).

Definition processMultiBulkItem (r : reader) : res (Z * reader) :=
  let* cur := task_at r r.(rd_ridx) in
  if r.(rd_ridx) =? 8 then
    let* r := redisReaderSetError r REDIS_ERR_PROTOCOL depth_message in Ok (REDIS_ERR, r)
  else
    let* (l, r) := readLine r in
    match l with
    | Some (p, _) =>
        let* m := buffer r in
        let* elements := readLongLong m p in
        let root := r.(rd_ridx) =? 0 in
        if elements =? -1 then
          let* (o, r) := create r cur createNilObject REPLY_NIL in
          match o with
          | None => let* r := redisReaderSetErrorOOM r in Ok (REDIS_ERR, r)
          | Some x =>
              let* r := moveToNextTask r in
              Ok (REDIS_OK, if root then set_reply r (Some x) else r)
          end
        else
          let* (o, r) := create r cur (fun t => createArrayObject t (wrap32 elements)) REPLY_ARRAY in
          match o with
          | None => let* r := redisReaderSetErrorOOM r in Ok (REDIS_ERR, r)
          | Some x =>
              let* r := (if 0 <? elements then
                  let level := r.(rd_ridx) in
                  let r := put_task r level (mk_task cur.(t_type) (wrap32 elements) cur.(t_idx) (Some x) cur.(t_parent)) in
                  let* _ := task_at r (level + 1) in
                  Ok (set_stack r (<[Z.to_nat (level + 1) := first_task level]> r.(rd_rstack)) (level + 1))
                else moveToNextTask r) in
              Ok (REDIS_OK, if root then set_reply r (Some x) else r)
          end
    | None => Ok (REDIS_ERR, r)
    end.

(** The reply type of a first byte. *)
Definition type_of_byte (c : byte) : option Z :=
  if c =c "-"%byte then Some REPLY_ERROR
  else if c =c "+"%byte then Some REPLY_STATUS
  else if c =c ":"%byte then Some REPLY_INTEGER
  else if c =c "$"%byte then Some REPLY_STRING
  else if c =c "*"%byte then Some REPLY_ARRAY
  else None.

Definition process_typed (r : reader) : res (Z * reader) :=
  let* cur := task_at r r.(rd_ridx) in
  let t := cur.(t_type) in
  if (t =? REPLY_ERROR) || (t =? REPLY_STATUS) || (t =? REPLY_INTEGER) then processLineItem r
  else if t =? REPLY_STRING then processBulkItem r
  else if t =? REPLY_ARRAY then processMultiBulkItem r
  else UB assertion_failed.

Definition processItem (r : reader) : res (Z * reader) :=
  let* cur := task_at r r.(rd_ridx) in
  if cur.(t_type) <? 0 then
    let* (o, r) := readByte r in
    match o with
    | Some c =>
        match type_of_byte c with
        | Some t =>
            process_typed (put_task r r.(rd_ridx) (mk_task t cur.(t_elements) cur.(t_idx) cur.(t_obj) cur.(t_parent)))
        | None => let* r := redisReaderSetErrorProtocolByte r c in Ok (REDIS_ERR, r)
        end
    | None => Ok (REDIS_ERR, r)
    end
  else process_typed r.

(** ** The interface *)

Definition no_task : task := mk_task 0 0 0 None None.
Definition reader_size : Z := 560.

(** [h] is the heap of replies at that time. *)
Definition redisReaderCreateWithFunctions (fn : bool) (h : heap) : res (option reader) :=
  if negb (alloc_ok reader_size) then Ok None
  else
    let* buf := sdsempty in
    match buf with
    | None => Ok None
    | Some s => Ok (Some (mk_reader 0 [] (Some s) 0 0 REDIS_READER_MAX_BUF (replicate 9 no_task) (-1) None fn h))
    end.

Definition redisReaderCreate (h : heap) : res (option reader) := redisReaderCreateWithFunctions true h.

(** The heap after the reader is freed. *)
Definition redisReaderFree (r : reader) : res heap :=
  match r.(rd_reply) with
  | Some (obj_reply p) => if r.(rd_fn) then freeReplyObject (S (length r.(rd_heap))) r.(rd_heap) p else Ok r.(rd_heap)
  | Some (obj_const _) => if r.(rd_fn) then UB dangling_pointer else Ok r.(rd_heap)
  | None => Ok r.(rd_heap)
  end.

(** [buf] is the [len] bytes at the pointer. *)
Definition redisReaderFeed (r : reader) (buf : bytes) : res (Z * reader) :=
  if negb (r.(rd_err) =? 0) then Ok (REDIS_ERR, r)
  else if 1 <=? size buf then
    let* s := live r.(rd_buf) in
    let* r := (if (r.(rd_len) =? 0) && negb (r.(rd_maxbuf) =? 0) && (r.(rd_maxbuf) <? sdsavail s) then
        let* o := sdsempty in
        match o with None => UB assertion_failed | Some s => Ok (set_input r (Some s) 0 r.(rd_len)) end
      else Ok r) in
    let* s := live r.(rd_buf) in
    let* o := sdscatlen s buf in
    match o with
    | None => let* r := redisReaderSetErrorOOM r in Ok (REDIS_ERR, r)
    | Some s => Ok (REDIS_OK, set_input r (Some s) r.(rd_pos) (sdslen s))
    end
  else Ok (REDIS_OK, r).

(** [while (r->ridx >= 0) if (processItem(r) != REDIS_OK) break;] *)
Fixpoint process_loop (fuel : nat) (r : reader) : res reader :=
  match fuel with
  | O => UB no_fuel
  | S fuel' =>
      if 0 <=? r.(rd_ridx) then
        let* (ok, r) := processItem r in
        if ok =? REDIS_OK then process_loop fuel' r else Ok r
      else Ok r
  end.

Definition root_task : task := mk_task (-1) (-1) (-1) None None.

(** The return value and [*reply].  Every item that is processed takes at least
    one byte of the buffer. *)
Definition redisReaderGetReply (r : reader) : res (Z * option obj * reader) :=
  if negb (r.(rd_err) =? 0) then Ok (REDIS_ERR, None, r)
  else if r.(rd_len) =? 0 then Ok (REDIS_OK, None, r)
  else
    let r := if r.(rd_ridx) =? -1 then set_stack r (<[0%nat := root_task]> r.(rd_rstack)) 0 else r in
    let* r := process_loop (S (Z.to_nat r.(rd_len))) r in
    if negb (r.(rd_err) =? 0) then Ok (REDIS_ERR, None, r)
    else
      let* r := (if 1024 <=? r.(rd_pos) then
          let* s := live r.(rd_buf) in
          let* s := sdsrange s (wrap32 r.(rd_pos)) (-1) in
          Ok (set_input r (Some s) 0 (sdslen s))
        else Ok r) in
      if r.(rd_ridx) =? -1 then Ok (REDIS_OK, r.(rd_reply), set_reply r None)
      else Ok (REDIS_OK, None, r).
End Reader.
