(* ===== verification/HiredisReaderInput.v ===== *)
(** * The input side of the reply reader.

    What the buffer primitives of [HiredisReader] compute, in terms of the bytes
    that are not consumed yet: line ends are the first CR LF, and the loops end
    with the fuel they are given. *)
From S2P Require Import Prelude CxxString Sds SdsText HiredisFormat HiredisReader.

(** ** Bytes in the buffer *)

(** The reader holds the unread bytes [d]. *)
Definition unread (r : reader) (d : bytes) : Prop :=
  exists s p, r.(rd_buf) = Some s /\ repr s (p ++ d) /\ r.(rd_pos) = size p /\ r.(rd_len) = size (p ++ d).

Lemma char_at_app s p c d : repr s (p ++ c :: d) -> char_at s.(sds_buf) (size p) = Ok c.
Proof.
  intros Hr. destruct (repr_bytes _ _ Hr) as (junk & E). unfold char_at. rewrite E.
  destruct (Z.leb_spec 0 (size p)); [|size_lia]. rewrite size_to_nat, map_app, <- app_assoc. cbn [map app].
  rewrite <- (length_map Some p), list_lookup_middle by done. done.
Qed.

Lemma char_at_end s t : repr s t -> char_at s.(sds_buf) (size t) = Ok Byte.x00.
Proof.
  intros Hr. destruct (repr_bytes _ _ Hr) as (junk & E). unfold char_at. rewrite E.
  destruct (Z.leb_spec 0 (size t)); [|size_lia].
  rewrite size_to_nat, <- (length_map Some t), list_lookup_middle by done. done.
Qed.

(** The byte at [size a] in the unread part. *)
Lemma char_at_unread s p a c b : repr s (p ++ a ++ c :: b) -> char_at s.(sds_buf) (size p + size a) = Ok c.
Proof. intros Hr. rewrite <- size_app. apply (char_at_app s (p ++ a) c b). by rewrite <- app_assoc. Qed.

Lemma repr_int_size s t : repr s t -> size t <= INT_MAX.
Proof. intros [Hl Hf Hi _ _]. lia. Qed.

(** ** Line ends *)

Lemma find_crlf_skip a x b : CR ∉ a ->
  find_from crlf (a ++ CR :: x :: b) =
    if x =c NL then Some (length a) else (fun i => (length a + 1 + i)%nat) <$> find_from crlf (x :: b).
Proof.
  intros Ha. induction a as [|c a IH]; cbn [app length].
  - cbn [find_from is_prefix crlf]. rewrite eqc_refl. cbn [andb].
    destruct (eqc_spec x NL) as [->|Hx]; [by rewrite eqc_refl|].
    assert ((NL =c x) = false) as -> by (apply eqc_false; congruence). cbn [andb]. done.
  - apply not_elem_of_cons in Ha as [Hc Ha].
    assert (find_from crlf (c :: a ++ CR :: x :: b) = S <$> find_from crlf (a ++ CR :: x :: b)) as ->.
    { cbn [find_from is_prefix crlf]. apply eqc_false in Hc. by rewrite Hc. }
    rewrite (IH Ha). destruct (x =c NL); [done|]. by destruct (find_from crlf (x :: b)).
Qed.

Lemma find_crlf_none a : (forall b c, a <> b ++ CR :: c) \/ (exists b, a = b ++ [CR] /\ CR ∉ b) -> find_from crlf a = None.
Proof.
  intros Ha. apply find_from_None. intros b c ->. destruct Ha as [Ha|(x & E & Hx)].
  - by apply (Ha b (NL :: c)).
  - destruct c as [|c0 c] using rev_ind.
    + unfold crlf in E. rewrite app_nil_r in E. change [CR; NL] with ([CR] ++ [NL]) in E. rewrite app_assoc in E.
      by apply app_inj_tail in E as [_ E].
    + clear IHc. rewrite !app_assoc in E. apply app_inj_tail in E as [<- _]. apply Hx. unfold crlf. set_solver.
Qed.

Lemma find_crlf_app d u n : find_from crlf d = Some n -> find_from crlf (d ++ u) = Some n.
Proof.
  intros E. destruct (find_from_Some _ _ _ E) as (a & b & -> & Hl).
  revert n E Hl. induction a as [|c a IH]; intros n E Hl.
  - cbn in *. subst n. reflexivity.
  - cbn [app find_from] in *. destruct (is_prefix crlf (c :: a ++ crlf ++ b)) eqn:Hp.
    + apply is_prefix_true in Hp as (t & Hp). injection E as <-. done.
    + assert (is_prefix crlf (c :: (a ++ crlf ++ b) ++ u) = false) as ->.
      { destruct a; cbn in *; [by rewrite !andb_false_r | done]. }
      destruct (find_from crlf (a ++ crlf ++ b)) as [m|] eqn:Em; [|done]. injection E as <-.
      rewrite (IH m eq_refl); [done|]. cbn in Hl. lia.
Qed.

(** ** The search for a line end *)

Lemma seek_cr_spec s p d : repr s (p ++ d) -> forall fuel b a,
  d = a ++ b -> b <> [] -> (length b <= fuel)%nat ->
  exists b1 b2, b = b1 ++ b2 /\ CR ∉ b1 /\ b2 <> [] /\
    seek_cr fuel s.(sds_buf) (size p) (size a) (size d - 1) = Ok (size a + size b1) /\
    (head b2 = Some CR \/ length b2 = 1%nat).
Proof.
  intros Hr. induction fuel as [|fuel IH]; intros b a Hd Hb Hf; [destruct b; [done | cbn in Hf; lia]|].
  destruct b as [|c b]; [done|]. cbn [seek_cr]. rewrite Hd, size_app, size_cons. pose proof (size_nonneg b).
  destruct (Z.ltb_spec (size a) (size a + (1 + size b) - 1)) as [Hlt|Hge].
  - rewrite (char_at_unread s p a c b) by (rewrite Hd in Hr; done). cbn [mbind res_bind].
    destruct (eqc_spec c CR) as [->|Hc].
    + exists [], (CR :: b). rewrite size_nil, Z.add_0_r. split_and!; try done; [apply not_elem_of_nil | by left].
    + destruct (IH b (a ++ [c])) as (b1 & b2 & -> & H1 & H2 & H3 & H4); [by rewrite Hd, <- app_assoc | | cbn in Hf; lia|].
      { intros ->. rewrite size_nil in Hlt. lia. }
      exists (c :: b1), b2. split_and!; try done; [rewrite not_elem_of_cons; split; [congruence | done]|].
      replace (size (a ++ [c])) with (size a + 1) in H3 by (rewrite size_app; done).
      replace (size d - 1) with (size a + (1 + size (b1 ++ b2)) - 1) in H3 by (rewrite Hd, !size_app, size_cons, !size_app; lia).
      rewrite H3, size_cons. f_equal. lia.
  - assert (b = []) as -> by (apply size_zero; lia). exists [], [c]. rewrite size_nil, Z.add_0_r.
    split_and!; try done; [apply not_elem_of_nil | by right].
Qed.

Lemma seek_loop_spec s p d : repr s (p ++ d) -> forall fuel b a,
  d = a ++ b -> (length b < fuel)%nat ->
  seek_loop fuel s.(sds_buf) (size p) (size a) (size d - 1) = Ok ((fun i => size a + Z.of_nat i) <$> find_from crlf b).
Proof.
  intros Hr. induction fuel as [|fuel IH]; intros b a Hd Hf; [lia|]. cbn [seek_loop].
  destruct (Z.ltb_spec (size a) (size d - 1)) as [Hlt|Hge].
  - assert (b <> []) as Hb by (intros ->; rewrite Hd, app_nil_r in Hlt; lia).
    destruct (seek_cr_spec s p d Hr (S fuel) b a Hd Hb ltac:(lia)) as (b1 & b2 & -> & H1 & H2 & -> & H4).
    cbn [mbind res_bind]. destruct b2 as [|c b2]; [done|]. rewrite app_assoc in Hd.
    assert (char_at s.(sds_buf) (size p + (size a + size b1)) = Ok c) as ->.
    { rewrite <- (size_app a). apply (char_at_unread s p (a ++ b1) c b2). by rewrite <- Hd. }
    cbn [mbind res_bind]. destruct (eqc_spec c CR) as [->|Hc]; cbn [negb].
    + destruct b2 as [|x b2].
      * assert (size p + (size a + size b1) + 1 = size (p ++ d)) as ->.
        { rewrite Hd, !size_app. change (size [CR]) with 1. lia. }
        rewrite (char_at_end _ _ Hr). cbn [mbind res_bind]. change (Byte.x00 =c NL) with false. cbn beta iota.
        destruct fuel as [|fuel]; [cbn in Hf; rewrite length_app in Hf; cbn in Hf; lia|]. cbn [seek_loop].
        rewrite Hd, !size_app. change (size [CR]) with 1. 
        destruct (Z.ltb_spec (size a + size b1 + 1) (size a + size b1 + 1 - 1)); [lia|].
        rewrite find_crlf_none; [done|]. right. by exists b1.
      * assert (size p + (size a + size b1) + 1 = size p + size ((a ++ b1) ++ [CR])) as ->.
        { rewrite !size_app. change (size [CR]) with 1. lia. }
        rewrite (char_at_unread s p ((a ++ b1) ++ [CR]) x b2) by (rewrite <- app_assoc; cbn [app]; by rewrite <- Hd).
        cbn [mbind res_bind]. rewrite find_crlf_skip by done. destruct (x =c NL); [done|].
        replace (size a + size b1 + 1) with (size ((a ++ b1) ++ [CR])) by (rewrite !size_app; change (size [CR]) with 1; lia).
        rewrite (IH (x :: b2)); [| rewrite Hd, <- (app_assoc (a ++ b1)); done | rewrite length_app in Hf; cbn in *; lia].
        f_equal. destruct (find_from crlf (x :: b2)) as [i|]; [|done]. cbn. f_equal.
        rewrite !size_app. change (size [CR]) with 1. unfold size. lia.
    + destruct H4 as [H4|H4]; [cbn in H4; congruence|]. destruct b2; [|done].
      rewrite find_crlf_none; [done|]. left. intros x y E. assert (CR ∈ b1 ++ [c]) as Hin by (rewrite E; set_solver).
      apply elem_of_app in Hin as [Hin|Hin%list_elem_of_singleton]; [done | congruence].
  - destruct b as [|c [|c' b]]; [done | cbn; by rewrite andb_false_r|].
    rewrite Hd, !size_app, !size_cons in Hge. pose proof (size_nonneg b). lia.
Qed.

Lemma seekNewline_spec s p d : repr s (p ++ d) ->
  seekNewline s.(sds_buf) (size p) (size d) = Ok (Z.of_nat <$> find_from crlf d).
Proof.
  intros Hr. unfold seekNewline. pose proof (repr_int_size _ _ Hr) as Hi. rewrite size_app in Hi.
  pose proof (size_nonneg p). pose proof (size_nonneg d).
  assert (wrap32 (sz_sub (size d) 1) = size d - 1) as ->.
  { unfold INT_MAX in Hi. unfold sz_sub, wrap32, wrap64. destruct (Z.eq_dec (size d) 0) as [->|]; [done|].
    rewrite (Z.mod_small (size d - 1)) by lia. rewrite Z.mod_small by lia. lia. }
  change 0 with (size (@nil byte)) at 1. rewrite (seek_loop_spec s p d Hr _ d []); [|done|].
  - by destruct (find_from crlf d).
  - destruct Hr as [Hl Hf _ Hs _]. rewrite size_app in Hl. unfold size in *. lia.
Qed.

(** ** Numbers *)

(** The text of a number up to its carriage return. *)
Fixpoint digits_value (d : bytes) (v : Z) : res (option Z) :=
  match d with
  | [] => UB index_out_of_bounds
  | c :: d' =>
      if c =c CR then Ok (Some v)
      else
        let dec := schar c - 48 in
        if (0 <=? dec) && (dec <? 10) then
          if (LONG_MAX <? v * 10) || (LONG_MAX <? v * 10 + dec) then UB signed_overflow
          else digits_value d' (v * 10 + dec)
        else Ok None
  end.

Definition number_value (d : bytes) : res Z :=
  match d with
  | [] => UB index_out_of_bounds
  | c :: d' =>
      let '(mult, d) := if c =c "-"%byte then (-1, d') else if c =c "+"%byte then (1, d') else (1, d) in
      let* o := digits_value d 0 in
      match o with None => Ok (-1) | Some v => Ok (mult * v) end
  end.

Lemma long_digits_spec s p d : repr s (p ++ d) -> forall fuel b a v,
  d = a ++ b -> CR ∈ b -> (length b < fuel)%nat ->
  long_digits fuel s.(sds_buf) (size p + size a) v = digits_value b v.
Proof.
  intros Hr. induction fuel as [|fuel IH]; intros b a v Hd Hb Hf; [lia|].
  destruct b as [|c b]; [by apply elem_of_nil in Hb|]. cbn [long_digits digits_value].
  rewrite (char_at_unread s p a c b) by (by rewrite Hd in Hr). cbn [mbind res_bind].
  destruct (eqc_spec c CR) as [->|Hc]; [done|].
  destruct (_ && _); [|done]. destruct (_ || _); [done|].
  replace (size p + size a + 1) with (size p + size (a ++ [c])) by (rewrite size_app; change (size [c]) with 1; lia).
  apply IH; [by rewrite <- app_assoc | | cbn in Hf; lia].
  apply elem_of_cons in Hb as [Hb|Hb]; [by destruct Hc | done].
Qed.

Lemma readLongLong_spec s p d : repr s (p ++ d) -> CR ∈ d ->
  readLongLong s.(sds_buf) (size p) = number_value d.
Proof.
  intros Hr Hd. destruct d as [|c d]; [by apply elem_of_nil in Hd|].
  unfold readLongLong, number_value. rewrite (char_at_app s p c d Hr). cbn [mbind res_bind].
  assert (length (c :: d) < S (length s.(sds_buf)))%nat as Hlen.
  { destruct Hr as [Hl Hf _ Hs _]. rewrite size_app in Hl. unfold size in *. lia. }
  assert (c = "-"%byte \/ c = "+"%byte -> CR ∈ d) as Hd'.
  { intros Hc. apply elem_of_cons in Hd as [Hd|Hd]; [destruct Hc; by subst c | done]. }
  assert (forall v, (c = "-"%byte \/ c = "+"%byte) ->
    long_digits (S (length s.(sds_buf))) s.(sds_buf) (size p + 1) v = digits_value d v) as H1.
  { intros v Hc. apply (long_digits_spec s p (c :: d) Hr _ d [c]); [done | auto | cbn in Hlen; lia]. }
  destruct (eqc_spec c "-"%byte) as [Hc|]; [by rewrite H1 by auto|].
  destruct (eqc_spec c "+"%byte) as [Hc|]; [by rewrite H1 by auto|].
  pose proof (long_digits_spec s p (c :: d) Hr (S (length s.(sds_buf))) (c :: d) [] 0 eq_refl Hd Hlen) as H0.
  rewrite size_nil, Z.add_0_r in H0. by rewrite H0.
Qed.

Lemma find_crlf_cr d n : find_from crlf d = Some n -> CR ∈ d.
Proof. intros E. destruct (find_from_Some _ _ _ E) as (a & b & -> & _). unfold crlf. set_solver. Qed.

Lemma digits_value_app d u v : CR ∈ d -> digits_value (d ++ u) v = digits_value d v.
Proof.
  revert v. induction d as [|c d IH]; intros v Hin; [by apply elem_of_nil in Hin|]. cbn [app digits_value].
  destruct (eqc_spec c CR); [done|]. rewrite IH; [done|]. apply elem_of_cons in Hin as [Hin|Hin]; [congruence | done].
Qed.

Lemma number_value_app d u : CR ∈ d -> number_value (d ++ u) = number_value d.
Proof.
  intros Hin. destruct d as [|c d]; [by apply elem_of_nil in Hin|]. cbn [app number_value].
  assert (c = CR \/ CR ∈ d) as Hd by (apply elem_of_cons in Hin as [Hin|Hin]; auto).
  destruct (eqc_spec c "-"%byte) as [->|]; [rewrite digits_value_app; [done | by destruct Hd]|].
  destruct (eqc_spec c "+"%byte) as [->|]; [rewrite digits_value_app; [done | by destruct Hd]|].
  change (c :: d ++ u) with ((c :: d) ++ u). by rewrite digits_value_app.
Qed.

(** ** Reading *)

Lemma unread_buffer r d : unread r d -> exists s p, r.(rd_buf) = Some s /\ repr s (p ++ d) /\ buffer r = Ok s.(sds_buf) /\
  r.(rd_pos) = size p /\ sz_sub r.(rd_len) r.(rd_pos) = size d /\ r.(rd_len) = size p + size d.
Proof.
  intros (s & p & E & Hr & Hp & Hl). exists s, p. unfold buffer. rewrite E, Hp, Hl, size_app. split_and!; try done.
  pose proof (repr_int_size _ _ Hr) as Hi. rewrite size_app in Hi. unfold INT_MAX in Hi.
  rewrite sz_sub_small; [lia | size_lia | unfold npos; size_lia].
Qed.

(** Moving the cursor over [a]. *)
Lemma unread_advance r a d pos : unread r (a ++ d) -> pos = r.(rd_pos) + size a -> unread (set_pos r pos) d.
Proof.
  intros (s & p & E & Hr & Hp & Hl) ->. exists s, (p ++ a). rewrite <- app_assoc. cbn. rewrite size_app, Hp. done.
Qed.

Lemma unread_set_pos_end r d : unread r d -> 0 <= r.(rd_pos) /\ r.(rd_pos) + size d <= INT_MAX.
Proof.
  intros (s & p & _ & Hr & Hp & _). pose proof (repr_int_size _ _ Hr) as Hi. rewrite size_app in Hi. size_lia.
Qed.

Lemma readByte_cons r c d : unread r (c :: d) -> readByte r = Ok (Some c, set_pos r (r.(rd_pos) + 1)).
Proof.
  intros Hu. destruct (unread_buffer _ _ Hu) as (s & p & _ & Hr & Hb & Hp & Hl & _). unfold readByte.
  rewrite Hl, size_cons. destruct (Z.leb_spec 1 (1 + size d)); [|size_lia].
  rewrite Hb. cbn [mbind res_bind]. rewrite Hp at 1. by rewrite (char_at_app s p c d Hr).
Qed.

Lemma readByte_nil r : unread r [] -> readByte r = Ok (None, r).
Proof. intros Hu. destruct (unread_buffer _ _ Hu) as (s & p & _ & _ & _ & _ & Hl & _). unfold readByte. by rewrite Hl. Qed.

Lemma readLine_spec r d : unread r d ->
  readLine r = Ok (match find_from crlf d with
    | Some n => (Some (r.(rd_pos), Z.of_nat n), set_pos r (r.(rd_pos) + (Z.of_nat n + 2)))
    | None => (None, r) end).
Proof.
  intros Hu. destruct (unread_buffer _ _ Hu) as (s & p & _ & Hr & Hb & Hp & Hl & _).
  destruct (unread_set_pos_end r d Hu) as [H0 Hi].
  unfold readLine. rewrite Hb. cbn [mbind res_bind]. rewrite Hl, Hp, (seekNewline_spec s p d Hr). cbn [mbind res_bind].
  destruct (find_from crlf d) as [n|] eqn:E; [|done]. cbn [fmap option_fmap option_map].
  destruct (find_from_Some _ _ _ E) as (a & b & Hd & Hn). rewrite Hd, !size_app in Hi. change (size crlf) with 2 in Hi.
  unfold INT_MAX, size in *. rewrite wrap32_id by (unfold INT_MAX; lia). rewrite wrap64_id by lia. done.
Qed.
