(* ===== verification/HiredisReplyTree.v ===== *)
(** * Trees of reply objects.

    The objects that a reader has created form one tree: a finished reply, or an
    array with a hole where the next element goes, itself an element of an array,
    and so on up to the root.  [frame]s are the arrays around the hole, innermost
    first; [settle] is what finishing an element does to them.  A tree in the heap
    has every object once, so freeing it is safe. *)
From S2P Require Import Prelude CxxString Sds HiredisReply.

Inductive rtree : Type := rnode (p : nat) (r : redisReply) (kids : list (option rtree)).

Definition root (t : rtree) : nat := match t with rnode p _ _ => p end.

Lemma rtree_rect_kids (P : rtree -> Prop) :
  (forall p r kids, (forall t, Some t ∈ kids -> P t) -> P (rnode p r kids)) -> forall t, P t.
Proof.
  intros HP. fix IH 1. intros [p r kids]. apply HP.
  induction kids as [|o kids IHk]; [intros t Hin; exfalso; exact (not_elem_of_nil _ Hin)|].
  assert (match o with Some t => P t | None => True end) as Ho by (destruct o as [t|]; [apply IH | done]).
  intros t Hin. apply elem_of_cons in Hin as [<-|Hin]; [exact Ho | exact (IHk t Hin)].
Qed.

(** The addresses in a tree. *)
Fixpoint nodes (t : rtree) : list nat :=
  match t with rnode p _ kids => p :: concat (map (fun o => match o with Some t => nodes t | None => [] end) kids) end.

Definition kids_nodes (kids : list (option rtree)) : list nat :=
  concat (map (fun o => match o with Some t => nodes t | None => [] end) kids).

(** A text has the length it says. *)
Definition is_text (ty : Z) : bool := (ty =? REPLY_STRING) || (ty =? REPLY_STATUS) || (ty =? REPLY_ERROR).
Definition sized (r : redisReply) : Prop := is_text r.(r_type) = true -> exists s, r.(r_str) = Some s /\ r.(r_len) = size s.

(** The vector of an object against its elements. *)
Definition shape (r : redisReply) (kids : list (option rtree)) : Prop :=
  match r.(r_element) with
  | None => kids = [] /\ sized r
  | Some l => r.(r_type) = REPLY_ARRAY /\ r.(r_elements) = size kids /\ l = map (fmap root) kids
  end.

Inductive heap_has (h : heap) : rtree -> Prop :=
  | has_node p r kids :
      h !! p = Some (Some r) -> shape r kids -> (forall t, Some t ∈ kids -> heap_has h t) -> heap_has h (rnode p r kids).

Lemma in_kids_nodes t kids q : Some t ∈ kids -> q ∈ nodes t -> q ∈ kids_nodes kids.
Proof.
  intros Ht Hq. unfold kids_nodes. induction kids as [|o kids IH]; [by apply elem_of_nil in Ht|].
  cbn. apply elem_of_app. apply elem_of_cons in Ht as [<-|Ht]; [by left | right; by apply IH].
Qed.

(** A tree only depends on its own objects. *)
Lemma heap_has_frame h h' t :
  heap_has h t -> (forall q, q ∈ nodes t -> h' !! q = h !! q) -> heap_has h' t.
Proof.
  induction 1 as [p r kids Hp Hs Hk IH]. intros Hq. constructor; [|done|].
  - rewrite Hq; [done | by left].
  - intros t Ht. apply IH; [done|]. intros q Hin. apply Hq. right. by eapply in_kids_nodes.
Qed.

Lemma heap_has_lt h t q : heap_has h t -> q ∈ nodes t -> (q < length h)%nat.
Proof.
  induction 1 as [p r kids Hp Hs Hk IH]. intros Hin. apply elem_of_cons in Hin as [->|Hin].
  - by eapply lookup_lt_Some.
  - fold (kids_nodes kids) in Hin. clear Hk Hs. induction kids as [|o kids IHk]; [by apply elem_of_nil in Hin|].
    cbn in Hin. apply elem_of_app in Hin as [Hin|Hin].
    + destruct o as [t|]; [|by apply elem_of_nil in Hin]. apply (IH t); [by left | done].
    + apply IHk; [|done]. intros t Ht. apply IH. by right.
Qed.

(** ** Freeing *)

Lemma nodes_length p r kids t : Some t ∈ kids -> (length (nodes t) < length (nodes (rnode p r kids)))%nat.
Proof.
  intros Ht. cbn. induction kids as [|o kids IH]; [by apply elem_of_nil in Ht|]. cbn. rewrite length_app.
  apply elem_of_cons in Ht as [<-|Ht]; [lia|]. specialize (IH Ht). lia.
Qed.

(** What freeing the addresses [l] leaves. *)
Definition freed (h h' : heap) (l : list nat) : Prop :=
  length h' = length h /\ (forall q, q ∉ l -> h' !! q = h !! q) /\ forall q, q ∈ l -> h' !! q = Some None.

Lemma free_elements_spec fuel kids : forall h,
  (forall t h, Some t ∈ kids -> heap_has h t -> exists h', freeReplyObject fuel h (root t) = Ok h' /\ freed h h' (nodes t)) ->
  (forall t, Some t ∈ kids -> heap_has h t) -> NoDup (kids_nodes kids) ->
  exists h', free_elements (freeReplyObject fuel) (map (fmap root) kids) h = Ok h' /\ freed h h' (kids_nodes kids).
Proof.
  induction kids as [|[t|] kids IH]; intros h Hfree Hh Hnd.
  - exists h. split; [done|]. split_and!; [done|done|]. intros q Hq. by apply elem_of_nil in Hq.
  - cbn [map fmap option_fmap option_map free_elements]. apply NoDup_app in Hnd as (_ & Hdis & Hnd).
    destruct (Hfree t h) as (h1 & -> & Hl1 & Hout1 & Hin1); [by left | apply Hh; by left|]. cbn [mbind res_bind].
    destruct (IH h1) as (h2 & -> & Hl2 & Hout2 & Hin2); [| |done|].
    + intros t' h' Ht'. apply Hfree. by right.
    + intros t' Ht'. eapply heap_has_frame; [apply Hh; by right|]. intros q Hq. apply Hout1.
      intros Hq'. apply (Hdis q Hq'). by eapply in_kids_nodes.
    + exists h2. split; [done|]. split_and!; [lia| |].
      * intros q Hq. unfold kids_nodes in *. cbn [map concat] in Hq. apply not_elem_of_app in Hq as [Hq1 Hq2].
        by rewrite Hout2, Hout1.
      * intros q Hq. unfold kids_nodes in *. cbn [map concat] in Hq. apply elem_of_app in Hq as [Hq|Hq]; [|by apply Hin2].
        rewrite Hout2; [by apply Hin1 | by apply Hdis].
  - cbn [map fmap option_fmap option_map free_elements]. apply IH; [| |done].
    + intros t' h' Ht'. apply Hfree. by right.
    + intros t' Ht'. apply Hh. by right.
Qed.

(** Freeing a tree frees each of its objects once, and nothing else. *)
Lemma free_tree t : forall fuel h, heap_has h t -> NoDup (nodes t) -> (length (nodes t) <= fuel)%nat ->
  exists h', freeReplyObject fuel h (root t) = Ok h' /\ freed h h' (nodes t).
Proof.
  induction t as [p r kids IH] using rtree_rect_kids. intros [|fuel] h Hh Hnd Hf; [cbn in Hf; lia|].
  inversion Hh as [p' r' kids' Hp Hs Hk]; subst. cbn [root freeReplyObject]. rewrite Hp.
  cbn [nodes] in Hnd. apply NoDup_cons in Hnd as [Hp' Hnd]. fold (kids_nodes kids) in *.
  assert (exists h', (if r_type r =? REPLY_ARRAY then
      match r_element r with
      | None => Ok h
      | Some l => if size l <? r_elements r then UB index_out_of_bounds
          else free_elements (freeReplyObject fuel) (take (Z.to_nat (r_elements r)) l) h
      end else Ok h) = Ok h' /\ freed h h' (kids_nodes kids)) as (h1 & -> & Hl & Hout & Hin).
  { unfold shape in Hs. destruct (r_element r) as [l|].
    - destruct Hs as (-> & -> & ->). cbn [Z.eqb]. rewrite Z.eqb_refl.
      assert (size (map (fmap root) kids) = size kids) as Hsz by (unfold size; by rewrite length_map).
      rewrite Hsz, Z.ltb_irrefl, take_ge by (rewrite length_map; unfold size; lia).
      apply free_elements_spec; [|done|done]. intros t h' Ht Hh'. apply IH; [done|done| |].
      + clear -Hnd Ht. induction kids as [|o kids IHk]; [by apply elem_of_nil in Ht|]. cbn in Hnd.
        apply NoDup_app in Hnd as (H1 & _ & H2). apply elem_of_cons in Ht as [<-|Ht]; [done | by apply IHk].
      + pose proof (nodes_length p r kids t Ht). lia.
    - destruct Hs as [-> _]. exists h. assert (freed h h (kids_nodes [])) by (split_and!; [done|done|]; intros q Hq; by apply elem_of_nil in Hq).
      by destruct (_ =? _). }
  cbn [mbind res_bind]. eexists. split; [reflexivity|]. split_and!.
  - by rewrite length_insert.
  - intros q Hq. cbn [nodes] in Hq. apply not_elem_of_cons in Hq as [Hq1 Hq2]. by rewrite list_lookup_insert_ne, Hout.
  - intros q Hq. cbn [nodes] in Hq. apply elem_of_cons in Hq as [->|Hq].
    + rewrite list_lookup_insert_eq; [done|]. rewrite Hl. by eapply lookup_lt_Some.
    + destruct (decide (p = q)) as [->|Hne]; [done|]. rewrite list_lookup_insert_ne by done. by apply Hin.
Qed.

(** The heap is always fuel enough. *)
Lemma free_tree_heap t h : heap_has h t -> NoDup (nodes t) ->
  exists h', freeReplyObject (S (length h)) h (root t) = Ok h' /\ freed h h' (nodes t).
Proof.
  intros Hh Hnd. apply free_tree; [done|done|]. cut (length (nodes t) <= length h)%nat; [lia|].
  rewrite <- (length_seq (length h) 0). apply submseteq_length, NoDup_submseteq; [done|].
  intros q Hq. apply elem_of_seq. pose proof (heap_has_lt _ _ _ Hh Hq). lia.
Qed.

(** ** Arrays around a hole *)

Record frame : Type := mk_frame { f_p : nat; f_r : redisReply; f_done : list rtree }.

(** The array object of a frame, with [q] in the slot of the hole; an array
    without a vector cannot be filled. *)
Definition frame_shape (f : frame) (q : option nat) : Prop :=
  f.(f_r).(r_type) = REPLY_ARRAY /\
  match f.(f_r).(r_element) with
  | None => q = None /\ f.(f_done) = []
  | Some l =>
      f.(f_r).(r_elements) = size l /\ (length f.(f_done) < length l)%nat /\
      l = map (fun t => Some (root t)) f.(f_done) ++ q :: replicate (length l - length f.(f_done) - 1) None
  end.

Fixpoint ctx_has (h : heap) (fs : list frame) (q : option nat) : Prop :=
  match fs with
  | [] => True
  | f :: fs' =>
      h !! f.(f_p) = Some (Some f.(f_r)) /\ frame_shape f q /\ (forall t, t ∈ f.(f_done) -> heap_has h t) /\
      ctx_has h fs' (Some f.(f_p))
  end.

Definition done_nodes (ts : list rtree) : list nat := concat (map nodes ts).
Definition ctx_nodes (fs : list frame) : list nat := concat (map (fun f => f.(f_p) :: done_nodes f.(f_done)) fs).

Lemma in_done_nodes t ts q : t ∈ ts -> q ∈ nodes t -> q ∈ done_nodes ts.
Proof.
  intros Ht Hq. unfold done_nodes. induction ts as [|u ts IH]; [by apply elem_of_nil in Ht|].
  cbn. apply elem_of_app. apply elem_of_cons in Ht as [->|Ht]; [by left | right; by apply IH].
Qed.

Lemma ctx_has_frame h h' fs q :
  ctx_has h fs q -> (forall a, a ∈ ctx_nodes fs -> h' !! a = h !! a) -> ctx_has h' fs q.
Proof.
  revert q. induction fs as [|f fs IH]; intros q; [done|]. intros (H1 & H2 & H3 & H4) Ha.
  assert (ctx_nodes (f :: fs) = f.(f_p) :: done_nodes f.(f_done) ++ ctx_nodes fs) as E by done. rewrite E in Ha.
  split_and!; [|done| |].
  - rewrite Ha; [done | by left].
  - intros t Ht. eapply heap_has_frame; [by apply H3|]. intros a Hin. apply Ha. right. apply elem_of_app. left.
    by eapply in_done_nodes.
  - apply IH; [done|]. intros a Hin. apply Ha. right. apply elem_of_app. by right.
Qed.

Lemma done_nodes_lt h ts q : (forall t, t ∈ ts -> heap_has h t) -> q ∈ done_nodes ts -> (q < length h)%nat.
Proof.
  intros Hh Hq. induction ts as [|t ts IH]; [by apply elem_of_nil in Hq|]. cbn in Hq. apply elem_of_app in Hq as [Hq|Hq].
  - eapply heap_has_lt; [apply Hh; by left | done].
  - apply IH; [|done]. intros u Hu. apply Hh. by right.
Qed.

Lemma ctx_nodes_lt h fs q a : ctx_has h fs q -> a ∈ ctx_nodes fs -> (a < length h)%nat.
Proof.
  revert q. induction fs as [|f fs IH]; intros q; [intros _ Ha; by apply elem_of_nil in Ha|].
  intros (H1 & _ & H3 & H4) Ha. apply elem_of_cons in Ha as [->|Ha]; [by eapply lookup_lt_Some|].
  fold (ctx_nodes fs) in Ha. apply elem_of_app in Ha as [Ha|Ha]; [by eapply done_nodes_lt | by eapply IH].
Qed.

(** ** Filling the hole *)

(** A hole that waits for an element, and an element just stored in it. *)
Definition hole (h : heap) (fs : list frame) : Prop := ctx_has h fs None /\ NoDup (ctx_nodes fs).

Definition completed (h : heap) (fs : list frame) (t : rtree) : Prop :=
  ctx_has h fs (Some (root t)) /\ heap_has h t /\ NoDup (nodes t ++ ctx_nodes fs).

Definition fill (f : frame) (q : nat) : frame :=
  match f.(f_r).(r_element) with
  | None => f
  | Some l => mk_frame f.(f_p) (set_elements f.(f_r) f.(f_r).(r_elements) (Some (<[length f.(f_done) := Some q]> l))) f.(f_done)
  end.

Definition fill_top (fs : list frame) (q : nat) : list frame :=
  match fs with [] => [] | f :: fs' => fill f q :: fs' end.

(** The hole can be filled: its array has a vector. *)
Definition fillable (fs : list frame) : Prop :=
  match fs with [] => True | f :: _ => f.(f_r).(r_element) <> None end.

(** What the callbacks are told about the hole. *)
Definition fits (v : task_view) (fs : list frame) : Prop :=
  match fs with
  | [] => v.(v_parent) = None
  | f :: _ => v.(v_parent) = Some (Some f.(f_p)) /\ v.(v_idx) = size f.(f_done)
  end.

Lemma fill_nodes fs q : ctx_nodes (fill_top fs q) = ctx_nodes fs.
Proof. destruct fs as [|f fs]; [done|]. cbn. unfold fill. by destruct (r_element _). Qed.

Lemma fill_p f q : f_p (fill f q) = f_p f.
Proof. unfold fill. by destruct (r_element _). Qed.

Lemma fill_done f q : f_done (fill f q) = f_done f.
Proof. unfold fill. by destruct (r_element _). Qed.

Lemma kids_nodes_none n : kids_nodes (replicate n None) = [].
Proof. induction n; [done|]. unfold kids_nodes in *. cbn. done. Qed.

Lemma leaf_completed (h h' : heap) fs r n :
  (forall a, a ∈ ctx_nodes fs -> (a < length h)%nat) -> length h' = S (length h) -> h' !! length h = Some (Some r) -> shape r (replicate n None) ->
  ctx_has h' fs (Some (length h)) -> NoDup (ctx_nodes fs) ->
  completed h' fs (rnode (length h) r (replicate n None)).
Proof.
  intros Hc Hl Hp Hs Hc' Hnd. split_and!; [done| |].
  - constructor; [done|done|]. intros t Ht. apply elem_of_replicate in Ht as [Ht _]. done.
  - cbn [nodes]. fold (kids_nodes (replicate n None)). rewrite kids_nodes_none. cbn [app].
    constructor; [|done]. intros Hin. specialize (Hc _ Hin). lia.
Qed.

Lemma lookup_grow (h : heap) x q : (q < length h)%nat -> (h ++ [x]) !! q = h !! q.
Proof. intros Hq. by apply lookup_app_l. Qed.

Lemma frame_shape_fill f q l : frame_shape f None -> f.(f_r).(r_element) = Some l -> frame_shape (fill f q) (Some q).
Proof.
  intros [Ht Hl] E. rewrite E in Hl. destruct Hl as (He & Hlt & El). unfold fill. rewrite E. split; [done|].
  cbn [f_r f_done r_element set_elements r_elements r_type]. rewrite length_insert. split_and!; [|done|].
  - unfold size. by rewrite length_insert.
  - rewrite El at 1. rewrite insert_app_r_alt by (rewrite length_map; lia).
    by rewrite length_map, Nat.sub_diag.
Qed.

Section Fill.
Context `{Allocator}.

(** An object stored in the hole completes it. *)
Lemma finish_object_spec h fs v r r0 n :
  hole h fs -> fits v fs -> fillable fs -> shape r (replicate n None) ->
  exists h', finish_object (h ++ [Some r0]) v (length h) r = Ok (Some (length h), h') /\
    length h' = S (length h) /\ completed h' (fill_top fs (length h)) (rnode (length h) r (replicate n None)).
Proof.
  intros Hh Hv Hfill Hs. pose proof Hh as [Hc Hnd]. unfold finish_object.
  assert (<[length h := Some r]> (h ++ [Some r0]) = h ++ [Some r]) as ->.
  { by rewrite insert_app_r_alt, Nat.sub_diag by lia. }
  assert (length (h ++ [Some r]) = S (length h)) as Hlen by (rewrite length_app; cbn; lia).
  assert (forall fs' q, ctx_has h fs' q -> ctx_has (h ++ [Some r]) fs' q) as Hgrow.
  { intros fs' q Hc'. eapply ctx_has_frame; [done|]. intros a Ha. apply lookup_grow. by eapply ctx_nodes_lt. }
  destruct fs as [|f fs].
  - unfold set_element. rewrite Hv. cbn [mbind res_bind]. eexists. split; [reflexivity|]. split; [done|].
    apply (leaf_completed h _ [] r n); [intros a Ha; by apply elem_of_nil in Ha | done | | done | done | constructor].
    by rewrite lookup_app_r, Nat.sub_diag by lia.
  - destruct Hv as [Hv1 Hv2], Hc as (Hp & Hshape & Hdone & Hctx). cbn in Hfill.
    destruct (r_element (f_r f)) as [l|] eqn:E; [|done]. pose proof Hshape as [Ht Hl]. rewrite E in Hl. destruct Hl as (He & Hlt & El).
    assert (f_p f < length h)%nat as Hpl by (by eapply lookup_lt_Some).
    unfold set_element. rewrite Hv1. unfold deref. rewrite lookup_grow, Hp by done. cbn [mbind res_bind].
    rewrite Ht, E. cbn [Z.eqb negb]. rewrite Z.eqb_refl, Hv2. cbn [negb].
    destruct (Z.leb_spec 0 (size (f_done f))); [|size_lia]. destruct (Z.ltb_spec (size (f_done f)) (size l)); [|unfold size in *; lia].
    cbn [andb mbind res_bind]. eexists. split; [reflexivity|].
    assert (f_r (fill f (length h)) = set_elements (f_r f) (r_elements (f_r f)) (Some (<[Z.to_nat (size (f_done f)) := Some (length h)]> l))) as <-.
    { unfold fill. rewrite E, size_to_nat. done. }
    split; [by rewrite length_insert|]. cbn [ctx_nodes map concat] in Hnd. fold (ctx_nodes fs) in Hnd.
    assert (ctx_nodes (f :: fs) = f_p f :: done_nodes (f_done f) ++ ctx_nodes fs) as En by done.
    assert (NoDup (f_p f :: done_nodes (f_done f) ++ ctx_nodes fs)) as Hnd' by done.
    pose proof Hnd' as Hnd2. apply NoDup_cons in Hnd2 as [Hnotin Hnd2].
    apply (leaf_completed h _ _ r n).
    + rewrite fill_nodes. intros a Ha. by eapply (ctx_nodes_lt h (f :: fs) None).
    + by rewrite length_insert.
    + rewrite list_lookup_insert_ne by lia. by rewrite lookup_app_r, Nat.sub_diag by lia.
    + done.
    + cbn [fill_top ctx_has]. rewrite fill_p, fill_done. split_and!.
      * rewrite list_lookup_insert_eq; [done|]. lia.
      * by eapply frame_shape_fill.
      * intros t Hin. eapply heap_has_frame; [by apply Hdone|]. intros a Ha.
        assert (a ∈ done_nodes (f_done f)) as Ha' by (by eapply in_done_nodes).
        rewrite list_lookup_insert_ne; [apply lookup_grow; by eapply done_nodes_lt|].
        intros Heq. apply Hnotin. rewrite Heq. apply elem_of_app. by left.
      * eapply ctx_has_frame; [exact Hctx|]. intros a Ha. rewrite list_lookup_insert_ne; [apply lookup_grow; by eapply ctx_nodes_lt|].
        intros Heq. apply Hnotin. rewrite Heq. apply elem_of_app. by right.
    + by rewrite fill_nodes, En.
Qed.

(** An array without a vector is a null pointer when an element arrives. *)
Lemma finish_object_unfillable h fs v r r0 :
  hole h fs -> fits v fs -> ~ fillable fs -> finish_object (h ++ [Some r0]) v (length h) r = UB null_pointer.
Proof.
  intros [Hc _] Hv Hfill. destruct fs as [|f fs]; [by destruct Hfill|]. destruct Hv as [Hv1 Hv2], Hc as (Hp & [Ht _] & _).
  assert (r_element (f_r f) = None) as E by (destruct (r_element (f_r f)) eqn:E; [by destruct Hfill; cbn; rewrite E | done]).
  unfold finish_object, set_element. rewrite Hv1. unfold deref.
  rewrite list_lookup_insert_ne by (apply lookup_lt_Some in Hp; lia). rewrite lookup_grow, Hp by by eapply lookup_lt_Some.
  cbn [mbind res_bind]. by rewrite Ht, Z.eqb_refl, E.
Qed.
End Fill.

(** ** Finishing an element *)

(** The element [t] is in the hole: the hole moves to the next slot, or the array
    is itself a finished element of the one around it. *)
Fixpoint settle (fs : list frame) (t : rtree) : list frame + rtree :=
  match fs with
  | [] => inr t
  | f :: fs' =>
      if Z.eqb (size f.(f_done) + 1) f.(f_r).(r_elements) then
        settle fs' (rnode f.(f_p) f.(f_r) (map Some (f.(f_done) ++ [t])))
      else inl (mk_frame f.(f_p) f.(f_r) (f.(f_done) ++ [t]) :: fs')
  end.

Definition settled (h : heap) (s : list frame + rtree) : Prop :=
  match s with
  | inl fs => hole h fs /\ fillable fs
  | inr t => heap_has h t /\ NoDup (nodes t)
  end.

Lemma done_nodes_snoc ts t : done_nodes (ts ++ [t]) = done_nodes ts ++ nodes t.
Proof. unfold done_nodes. rewrite map_app, concat_app. cbn. by rewrite app_nil_r. Qed.

Lemma kids_nodes_some ts : kids_nodes (map Some ts) = done_nodes ts.
Proof. unfold kids_nodes, done_nodes. by rewrite map_map. Qed.

Lemma nodes_permute (p : nat) (a b c : list nat) : p :: (a ++ b) ++ c ≡ₚ b ++ p :: a ++ c.
Proof. rewrite (Permutation_app_comm a b), <- app_assoc. apply Permutation_middle. Qed.

Lemma settle_spec h fs : forall t, completed h fs t -> settled h (settle fs t).
Proof.
  induction fs as [|f fs IH]; intros t (Hc & Ht & Hnd).
  - split; [done|]. cbn in Hnd. by rewrite app_nil_r in Hnd.
  - destruct Hc as (Hp & [Hty Hsh] & Hdone & Hctx). cbn [settle].
    destruct (r_element (f_r f)) as [l|] eqn:E; [|by destruct Hsh]. destruct Hsh as (He & Hlt & El).
    assert (forall u, u ∈ f_done f ++ [t] -> heap_has h u) as Hall.
    { intros u Hu. apply elem_of_app in Hu as [Hu|Hu%list_elem_of_singleton]; [by apply Hdone | by subst u]. }
    assert (ctx_nodes (f :: fs) = f_p f :: done_nodes (f_done f) ++ ctx_nodes fs) as En by done. rewrite En in Hnd.
    assert (NoDup (f_p f :: done_nodes (f_done f ++ [t]) ++ ctx_nodes fs)) as Hnd'.
    { rewrite done_nodes_snoc. by rewrite nodes_permute. }
    destruct (Z.eqb_spec (size (f_done f) + 1) (r_elements (f_r f))) as [Hlast|Hmore].
    + apply IH. split_and!; [done| |].
      * constructor; [done| |].
        -- unfold shape. rewrite E. split_and!; [done| |].
           ++ unfold size in *. rewrite length_map, length_app. cbn [length]. lia.
           ++ assert (length l = length (f_done f) + 1)%nat as Hl by (unfold size in *; lia).
              rewrite El, Hl. replace (length (f_done f) + 1 - length (f_done f) - 1)%nat with 0%nat by lia.
              by rewrite !map_app, map_map.
        -- intros u Hu. apply list_elem_of_fmap in Hu as (u' & [= <-] & Hu). by apply Hall.
      * cbn [nodes]. fold (kids_nodes (map Some (f_done f ++ [t]))). rewrite kids_nodes_some. exact Hnd'.
    + split; [|cbn; by rewrite E]. split; [|done]. cbn [ctx_has f_p f_r f_done]. split_and!; [done| |done|done].
      split; [done|]. cbn [f_r f_done]. rewrite E, length_app. cbn [length]. split_and!; [done | unfold size in *; lia|].
      rewrite map_app, <- app_assoc. rewrite El at 1.
      replace (length l - length (f_done f) - 1)%nat with (S (length l - (length (f_done f) + 1) - 1)) by (unfold size in *; lia).
      done.
Qed.

(** The hole with everything around it as one tree, to be freed. *)
Fixpoint plug (fs : list frame) (o : option rtree) : option rtree :=
  match fs with
  | [] => o
  | f :: fs' =>
      plug fs' (Some (rnode f.(f_p) f.(f_r)
        match f.(f_r).(r_element) with
        | None => []
        | Some l => map Some f.(f_done) ++ o :: replicate (length l - length f.(f_done) - 1) None
        end))
  end.

Lemma map_root_none n : map (fmap root) (replicate n None) = replicate n None.
Proof. induction n as [|n IH]; [done|]. cbn. by rewrite IH. Qed.

Definition opt_nodes (o : option rtree) : list nat := match o with Some t => nodes t | None => [] end.

Lemma plug_spec h fs : forall o,
  ctx_has h fs (root <$> o) -> (forall t, o = Some t -> heap_has h t) -> NoDup (opt_nodes o ++ ctx_nodes fs) ->
  match plug fs o with Some t => heap_has h t /\ NoDup (nodes t) | None => fs = [] /\ o = None end.
Proof.
  induction fs as [|f fs IH]; intros o Hc Ho Hnd; cbn [plug].
  - destruct o as [t|]; [|done]. cbn in Hnd. rewrite app_nil_r in Hnd. split; [by apply Ho | done].
  - destruct Hc as (Hp & [Hty Hsh] & Hdone & Hctx).
    set (t := rnode _ _ _).
    assert (heap_has h t /\ NoDup (nodes t ++ ctx_nodes fs)) as [Ht Hnt].
    { assert (ctx_nodes (f :: fs) = f_p f :: done_nodes (f_done f) ++ ctx_nodes fs) as En by done. rewrite En in Hnd.
      unfold t. destruct (r_element (f_r f)) as [l|] eqn:E.
      - destruct Hsh as (He & Hlt & El). split.
        + constructor; [done| |].
          * unfold shape. rewrite E. split_and!; [done| |].
            -- rewrite He. unfold size. rewrite length_app, length_map. cbn [length]. rewrite length_replicate. lia.
            -- rewrite El at 1. rewrite map_app, map_map. cbn [map]. by rewrite map_root_none.
          * intros u Hu. apply elem_of_app in Hu as [Hu|Hu].
            -- apply list_elem_of_fmap in Hu as (u' & [= <-] & Hu). by apply Hdone.
            -- apply elem_of_cons in Hu as [Hu|Hu]; [by apply Ho|]. by apply elem_of_replicate in Hu as [Hu _].
        + cbn [nodes]. fold (kids_nodes (map Some (f_done f) ++ o :: replicate (length l - length (f_done f) - 1) None)).
          assert (kids_nodes (map Some (f_done f) ++ o :: replicate (length l - length (f_done f) - 1) None) =
            done_nodes (f_done f) ++ opt_nodes o) as ->.
          { unfold kids_nodes. rewrite map_app, concat_app. fold (kids_nodes (map Some (f_done f))). rewrite kids_nodes_some.
            cbn [map concat]. fold (kids_nodes (replicate (length l - length (f_done f) - 1) None)).
            rewrite kids_nodes_none, app_nil_r. done. }
          cbn [app]. by rewrite nodes_permute.
      - destruct Hsh as [Hq Hd]. destruct o as [u|]; [done|]. rewrite Hd in *. split.
        + constructor; [done | unfold shape, sized; rewrite E, Hty; by split|]. intros u Hu. by apply elem_of_nil in Hu.
        + exact Hnd. }
    specialize (IH (Some t)). cbn [fmap option_fmap option_map root opt_nodes] in IH.
    assert (root t = f_p f) as Hroot by done. rewrite Hroot in IH.
    specialize (IH Hctx ltac:(by intros u [= <-]) Hnt).
    destruct (plug fs (Some t)) as [w|]; [done|]. by destruct IH.
Qed.
