(* ===== verification/HiredisReaderSpec.v ===== *)
(** * What the reply reader does with its input.

    [parse_item] says, on the unread bytes alone, what the next item is: not yet
    complete, a protocol error, a leaf or an array header.  [processItem_spec]
    shows that [processItem] does exactly that to the stack of tasks and the tree
    of objects, whatever the bytes. *)
From S2P Require Import Prelude CxxString Sds SdsRefine SdsText HiredisFormat HiredisReply HiredisReader HiredisReaderInput HiredisReplyTree.

(** ** The stack of tasks and the frames *)

(** The tasks of the arrays around the hole, innermost frame first: the array's
    task holds its object and its length, the task above it the index. *)
Fixpoint linked (st : list task) (fs : list frame) : Prop :=
  match fs with
  | [] => True
  | f :: fs' =>
      (exists t, st !! length fs' = Some t /\ t.(t_type) = REPLY_ARRAY /\ t.(t_obj) = Some (obj_reply f.(f_p)) /\
        (f.(f_r).(r_element) <> None -> t.(t_elements) = f.(f_r).(r_elements) /\ f.(f_r).(r_elements) <= INT_MAX)) /\
      (exists t, st !! S (length fs') = Some t /\ t.(t_idx) = size f.(f_done) /\ t.(t_parent) = Some (length fs')) /\
      linked st fs'
  end.

Definition root_ok (st : list task) : Prop := exists t, st !! 0%nat = Some t /\ t.(t_parent) = None.

(** The current task is the one of the hole. *)
Definition at_level (st : list task) (ridx : Z) (fs : list frame) : Prop :=
  length st = 9%nat /\ ridx = Z.of_nat (length fs) /\ (length fs <= 8)%nat /\ root_ok st /\ linked st fs.

Definition top_type (st : list task) (fs : list frame) (ty : Z) : Prop :=
  exists t, st !! length fs = Some t /\ t.(t_type) = ty.

Lemma linked_insert st fs k x : (length fs < k)%nat -> linked st fs -> linked (<[k := x]> st) fs.
Proof.
  induction fs as [|f fs IH]; [done|]. cbn [length linked]. intros Hk ((t & H1 & H2) & (t' & H3 & H4) & H5).
  split_and!; [| |apply IH; [lia | done]].
  - exists t. by rewrite list_lookup_insert_ne by lia.
  - exists t'. by rewrite list_lookup_insert_ne by lia.
Qed.

Lemma root_ok_insert st k x : (0 < k)%nat -> root_ok st -> root_ok (<[k := x]> st).
Proof. intros Hk (t & H1 & H2). exists t. by rewrite list_lookup_insert_ne by lia. Qed.

(** The current task may change its type, its length and its object. *)
Lemma at_level_put st ridx fs t t' :
  at_level st ridx fs -> st !! length fs = Some t -> t'.(t_idx) = t.(t_idx) -> t'.(t_parent) = t.(t_parent) ->
  at_level (<[length fs := t']> st) ridx fs.
Proof.
  intros (H1 & H2 & H3 & H4 & H5) Ht Hi Hp. split_and!; [by rewrite length_insert|done|done| |].
  - destruct fs as [|f fs]; [|by apply root_ok_insert; cbn; [lia|]].
    destruct H4 as (u & Hu & Hu'). exists t'. cbn [length] in *. rewrite list_lookup_insert_eq by lia.
    split; [done|]. congruence.
  - destruct fs as [|f fs]; [done|]. cbn [length linked] in *. destruct H5 as ((u & Hu) & (u' & Hu1 & Hu2 & Hu3) & H5).
    rewrite Ht in Hu1. injection Hu1 as <-. split_and!.
    + exists u. rewrite list_lookup_insert_ne by lia. done.
    + exists t'. rewrite list_lookup_insert_eq by lia. split; [done|]. by rewrite Hi, Hp.
    + apply linked_insert; [lia | done].
Qed.

Lemma linked_fill st fs q : linked st fs -> linked st (fill_top fs q).
Proof.
  destruct fs as [|f fs]; [done|]. cbn [fill_top linked]. intros ((t & H1 & H2 & H3 & H4) & H5 & H6).
  rewrite fill_p, fill_done. split_and!; [|done|done]. exists t. split_and!; [done..|].
  unfold fill. destruct (r_element (f_r f)) as [l|] eqn:E; [|by rewrite E]. cbn. intros _. by apply H4.
Qed.

Lemma fill_top_length fs q : length (fill_top fs q) = length fs.
Proof. by destruct fs. Qed.

Lemma at_level_fill st ridx fs q : at_level st ridx fs -> at_level st ridx (fill_top fs q).
Proof.
  intros (H1 & H2 & H3 & H4 & H5). unfold at_level. rewrite fill_top_length.
  split_and!; [done..|]. by apply linked_fill.
Qed.

(** ** Moving to the next task *)

(** What [moveToNextTask] leaves of the stack when an element is finished. *)
Definition moved (st : list task) (ridx : Z) (s : list frame + rtree) : Prop :=
  match s with
  | inl fs => at_level st ridx fs /\ top_type st fs (-1)
  | inr _ => length st = 9%nat /\ ridx = -1
  end.

Lemma set_stack_twice r st1 i1 st2 i2 : set_stack (set_stack r st1 i1) st2 i2 = set_stack r st2 i2.
Proof. done. Qed.

Lemma task_at_lookup r k t : r.(rd_rstack) !! k = Some t -> task_at r (Z.of_nat k) = Ok t.
Proof. intros E. unfold task_at. destruct (Z.leb_spec 0 (Z.of_nat k)); [|lia]. by rewrite Nat2Z.id, E. Qed.

Lemma moveToNextTask_loop_spec h fs : forall fuel r t,
  (length fs < fuel)%nat -> at_level r.(rd_rstack) r.(rd_ridx) fs -> ctx_has h fs (Some (root t)) ->
  exists st i, moveToNextTask_loop fuel r = Ok (set_stack r st i) /\ moved st i (settle fs t).
Proof.
  induction fs as [|f fs IH]; intros [|fuel] r t Hf Hl Hc; [lia| |lia|]; cbn [moveToNextTask_loop];
    destruct Hl as (H9 & Hr & H8 & Hroot & Hlk); rewrite Hr; cbn [length] in *.
  - exists r.(rd_rstack), (-1). by split.
  - destruct Hc as (_ & [Hty Hsh] & _ & Hc). destruct Hlk as ((prv & Hp1 & Hp2 & Hp3 & Hp4) & (cur & Hc1 & Hc2 & Hc3) & Hlk).
    destruct (r_element (f_r f)) as [l|]; [|by destruct Hsh]. destruct Hsh as (He & Hlt & _).
    destruct Hp4 as [Hel Hmax]; [done|].
    destruct (Z.leb_spec 0 (Z.of_nat (S (length fs)))); [|lia]. destruct (Z.eqb_spec (Z.of_nat (S (length fs))) 0); [lia|].
    rewrite (task_at_lookup r _ cur) by done. cbn [mbind res_bind].
    replace (Z.of_nat (S (length fs)) - 1) with (Z.of_nat (length fs)) by lia.
    rewrite (task_at_lookup r _ prv) by done. cbn [mbind res_bind]. rewrite Hp2, Z.eqb_refl, Hel. cbn [negb].
    rewrite (int_result_id (r_elements (f_r f) - 1)) by (unfold INT_MAX, size in *; lia).
    cbn [mbind res_bind settle]. rewrite Hc2.
    destruct (Z.eqb_spec (size (f_done f) + 1) (r_elements (f_r f))) as [E|E].
    + destruct (Z.eqb_spec (size (f_done f)) (r_elements (f_r f) - 1)); [|lia].
      destruct (IH fuel (set_stack r r.(rd_rstack) (Z.of_nat (length fs)))
        (rnode (f_p f) (f_r f) (map Some (f_done f ++ [t])))) as (st & i & E1 & E2); [lia| |done|].
      { split_and!; [done|done|cbn; lia|done|done]. }
      exists st, i. by rewrite E1.
    + destruct (Z.eqb_spec (size (f_done f)) (r_elements (f_r f) - 1)); [lia|].
      destruct (Z.ltb_spec (size (f_done f)) (r_elements (f_r f))); [|unfold size in *; lia]. cbn [negb].
      rewrite int_result_id by (unfold INT_MAX, size in *; lia). cbn [mbind res_bind]. unfold put_task. cbn [rd_ridx].
      rewrite Hr, Nat2Z.id. do 2 eexists. split; [reflexivity|]. split.
      * split_and!; [by rewrite length_insert | cbn; lia | cbn; lia | by apply root_ok_insert; [lia|]|].
        cbn [linked f_p f_r f_done]. split_and!.
        -- exists prv. rewrite list_lookup_insert_ne by lia. done.
        -- eexists. rewrite list_lookup_insert_eq by lia. split; [reflexivity|]. cbn. rewrite size_app. done.
        -- apply linked_insert; [lia | done].
      * eexists. cbn [length]. rewrite list_lookup_insert_eq by lia. done.
Qed.

Lemma moveToNextTask_spec h fs r t :
  at_level r.(rd_rstack) r.(rd_ridx) fs -> ctx_has h fs (Some (root t)) ->
  exists st i, moveToNextTask r = Ok (set_stack r st i) /\ moved st i (settle fs t).
Proof. intros Hl Hc. pose proof Hl as (_ & _ & H8 & _). eapply moveToNextTask_loop_spec; [lia | done | done]. Qed.

(** ** Creating objects *)

Definition string_reply (ty : Z) (s : bytes) : redisReply := mk_reply ty 0 (wrap32 (size s)) (Some s) 0 None.
Definition integer_reply (v : Z) : redisReply := mk_reply REPLY_INTEGER v 0 None 0 None.
Definition nil_reply : redisReply := mk_reply REPLY_NIL 0 0 None 0 None.
Definition array_reply (n : Z) : redisReply :=
  mk_reply REPLY_ARRAY 0 0 None (wrap64 n) (if 0 <? n then Some (replicate (Z.to_nat n) None) else None).

Lemma array_shape n : n <= INT_MAX -> shape (array_reply n) (replicate (Z.to_nat n) None).
Proof.
  intros Hn. unfold shape, array_reply. cbn. destruct (Z.ltb_spec 0 n) as [H|H].
  - split_and!; [done| |by rewrite map_root_none].
    unfold size. rewrite length_replicate. rewrite wrap64_id; unfold INT_MAX in *; lia.
  - by replace (Z.to_nat n) with 0%nat by lia.
Qed.

Lemma string_shape ty s : size s <= INT_MAX -> shape (string_reply ty s) (replicate 0 None).
Proof. intros Hs. split; [done|]. intros _. exists s. split; [done|]. apply wrap32_id. pose proof (size_nonneg s). unfold INT_MAX in *. lia. Qed.

Section Creation.
Context `{Allocator}.

(** A callback stores the object [r], with [n] empty slots, in the hole; or its
    allocation is refused; or the array has no vector. *)
Definition creates (h : heap) (fs : list frame) (r : redisReply) (n : nat) (m : res (option nat * heap)) : Prop :=
  (exists h', m = Ok (None, h') /\ refused /\ hole h' fs) \/
  (fillable fs /\ exists h', m = Ok (Some (length h), h') /\ length h' = S (length h) /\
     completed h' (fill_top fs (length h)) (rnode (length h) r (replicate n None))) \/
  (~ fillable fs /\ m = UB null_pointer).

Lemma fillable_dec fs : fillable fs \/ ~ fillable fs.
Proof using. destruct fs as [|f fs]; [by left|]. cbn. destruct (r_element (f_r f)); [by left | right; auto]. Qed.

Lemma hole_frame h h' fs : hole h fs -> (forall a, (a < length h)%nat -> h' !! a = h !! a) -> hole h' fs.
Proof using.
  intros [Hc Hnd] Ha. split; [|done]. eapply ctx_has_frame; [done|]. intros a Hin. apply Ha. by eapply ctx_nodes_lt.
Qed.

Lemma finish_creates h fs v r r0 n :
  hole h fs -> fits v fs -> shape r (replicate n None) -> creates h fs r n (finish_object (h ++ [Some r0]) v (length h) r).
Proof.
  intros Hh Hv Hs. right. destruct (fillable_dec fs) as [Hf|Hf]; [left | right].
  - split; [done|]. by apply finish_object_spec.
  - split; [done|]. by apply (finish_object_unfillable h fs).
Qed.

Lemma deref_new (h : heap) r : deref (h ++ [Some r]) (length h) = Ok r.
Proof using. unfold deref. by rewrite lookup_app_r, Nat.sub_diag by lia. Qed.

(** The two refusals: of the object, of its contents. *)
Lemma refused_object h fs r n k : hole h fs -> alloc_ok k = false -> creates h fs r n (Ok (None, h)).
Proof. intros Hh Hk. left. exists h. split_and!; [done | by exists k | done]. Qed.

Lemma refused_contents h fs r n r0 k : hole h fs -> alloc_ok k = false -> r0.(r_element) = None ->
  creates h fs r n (let* h := freeReplyObject 1 (h ++ [Some r0]) (length h) in Ok (None, h)).
Proof.
  intros Hh Hk Hr. left. cbn [freeReplyObject]. rewrite lookup_app_r, Nat.sub_diag by lia. cbn [lookup list_lookup nth_error].
  rewrite Hr. assert ((if r_type r0 =? REPLY_ARRAY then Ok (h ++ [Some r0]) else Ok (h ++ [Some r0])) = Ok (h ++ [Some r0])) as E
    by by destruct (_ =? _).
  rewrite E. cbn [mbind res_bind]. eexists. split_and!; [reflexivity | by exists k|].
  eapply hole_frame; [done|]. intros a Ha. rewrite list_lookup_insert_ne by lia. by apply lookup_grow.
Qed.

Lemma createStringObject_spec h fs v s :
  hole h fs -> fits v fs -> v.(v_type) = REPLY_ERROR \/ v.(v_type) = REPLY_STATUS \/ v.(v_type) = REPLY_STRING ->
  size s <= INT_MAX -> creates h fs (string_reply v.(v_type) s) 0 (createStringObject v s h).
Proof.
  intros Hh Hv Hty Hsz. unfold createStringObject, createReplyObject.
  destruct (alloc_ok reply_size) eqn:A; cbn [negb]; [|by eapply refused_object].
  destruct (alloc_ok (wrap64 (size s + 1))) eqn:B; cbn [negb]; [|by eapply refused_contents].
  assert (negb ((v_type v =? REPLY_ERROR) || (v_type v =? REPLY_STATUS) || (v_type v =? REPLY_STRING)) = false) as ->.
  { by destruct Hty as [->|[->| ->]]. }
  rewrite deref_new. cbn [mbind res_bind]. apply finish_creates; [done|done|by apply string_shape].
Qed.

Lemma createIntegerObject_spec h fs v z :
  hole h fs -> fits v fs -> creates h fs (integer_reply z) 0 (createIntegerObject v z h).
Proof.
  intros Hh Hv. unfold createIntegerObject, createReplyObject.
  destruct (alloc_ok reply_size) eqn:A; cbn [negb]; [|by eapply refused_object].
  rewrite deref_new. cbn [mbind res_bind]. by apply finish_creates.
Qed.

Lemma createNilObject_spec h fs v : hole h fs -> fits v fs -> creates h fs nil_reply 0 (createNilObject v h).
Proof.
  intros Hh Hv. unfold createNilObject, createReplyObject.
  destruct (alloc_ok reply_size) eqn:A; cbn [negb]; [|by eapply refused_object].
  rewrite deref_new. cbn [mbind res_bind]. by apply finish_creates.
Qed.

Lemma createArrayObject_spec h fs v n :
  hole h fs -> fits v fs -> n <= INT_MAX -> creates h fs (array_reply n) (Z.to_nat n) (createArrayObject v n h).
Proof.
  intros Hh Hv Hn. unfold createArrayObject, createReplyObject.
  destruct (alloc_ok reply_size) eqn:A; cbn [negb]; [|by eapply refused_object].
  rewrite deref_new. cbn [mbind res_bind]. pose proof (array_shape n Hn) as Hs. unfold array_reply in *.
  destruct (0 <? n).
  - destruct (alloc_ok (wrap64 (n * 8))) eqn:B; cbn [negb]; [|by eapply refused_contents]. by apply finish_creates.
  - by apply finish_creates.
Qed.
End Creation.

(** ** States of the reader *)

(** The object at the root of the tree around the hole. *)
Fixpoint base (fs : list frame) : option nat :=
  match fs with [] => None | [f] => Some f.(f_p) | _ :: fs' => base fs' end.

Lemma base_cons f fs : base (f :: fs) = match fs with [] => Some f.(f_p) | _ => base fs end.
Proof. by destruct fs. Qed.

Lemma base_fill fs q : base (fill_top fs q) = base fs.
Proof. destruct fs as [|f fs]; [done|]. cbn [fill_top]. rewrite !base_cons, fill_p. done. Qed.

Lemma base_some f fs : exists p, base (f :: fs) = Some p.
Proof. revert f. induction fs as [|g fs IH]; intros f; [by eexists|]. rewrite base_cons. apply IH. Qed.

(** The reader waits for the element in the hole, whose type may be known. *)
Definition holding (r : reader) (fs : list frame) (ty : Z) : Prop :=
  r.(rd_err) = 0 /\ r.(rd_fn) = true /\ at_level r.(rd_rstack) r.(rd_ridx) fs /\ top_type r.(rd_rstack) fs ty /\
  hole r.(rd_heap) fs /\ r.(rd_reply) = obj_reply <$> base fs.

(** The reader has a whole reply to deliver. *)
Definition delivers (r : reader) (t : rtree) : Prop :=
  r.(rd_err) = 0 /\ r.(rd_fn) = true /\ length r.(rd_rstack) = 9%nat /\ r.(rd_ridx) = -1 /\
  heap_has r.(rd_heap) t /\ NoDup (nodes t) /\ r.(rd_reply) = Some (obj_reply (root t)).

Definition in_state (r : reader) (s : list frame + rtree) : Prop :=
  match s with inl fs => holding r fs (-1) | inr t => delivers r t end.

(** The reader has failed: nothing is left of the partial reply. *)
Definition failed (r : reader) (code : Z) : Prop :=
  r.(rd_err) = code /\ r.(rd_fn) = true /\ length r.(rd_rstack) = 9%nat /\ r.(rd_ridx) = -1 /\ r.(rd_reply) = None /\ r.(rd_buf) = None.

Lemma plug_root fs : forall o, root <$> plug fs o = match base fs with Some p => Some p | None => root <$> o end.
Proof.
  induction fs as [|f fs IH]; intros o; [done|]. cbn [plug]. rewrite IH, base_cons.
  destruct fs as [|g fs]; [done|]. destruct (base_some g fs) as (p & E). by rewrite E.
Qed.

Lemma redisReaderSetError_spec r fs code msg :
  hole r.(rd_heap) fs -> r.(rd_fn) = true -> length r.(rd_rstack) = 9%nat -> r.(rd_reply) = obj_reply <$> base fs ->
  exists r', redisReaderSetError r code msg = Ok r' /\ failed r' code.
Proof.
  intros [Hc Hnd] Hfn H9 Hrep. unfold redisReaderSetError.
  pose proof (plug_spec r.(rd_heap) fs None Hc ltac:(done) Hnd) as Hp. pose proof (plug_root fs None) as Hroot.
  assert (exists r1, match r.(rd_reply) with
    | Some (obj_reply p) => if r.(rd_fn) then
          let* h := freeReplyObject (S (length r.(rd_heap))) r.(rd_heap) p in Ok (set_reply (set_heap r h) None) else Ok r
    | Some (obj_const _) => if r.(rd_fn) then UB dangling_pointer else Ok r
    | None => Ok r end = Ok r1 /\ r1.(rd_reply) = None /\ r1.(rd_fn) = true /\ length r1.(rd_rstack) = 9%nat) as (r1 & -> & H1 & H2 & H3).
  { rewrite Hrep, Hfn. destruct (plug fs None) as [t|].
    - destruct Hp as [Ht Hnt]. destruct (base fs) as [p|]; [|done].
      cbn [fmap option_fmap option_map] in *. injection Hroot as <-.
      destruct (free_tree_heap t r.(rd_heap) Ht Hnt) as (h' & -> & _). cbn [mbind res_bind]. by eexists.
    - destruct Hp as [-> _]. cbn. exists r. by rewrite Hrep. }
  cbn [mbind res_bind]. eexists. split; [reflexivity|]. destruct (rd_buf r1) eqn:Eb; by split_and!.
Qed.

(** ** The next item of the input *)

Inductive leaf : Type :=
  | leaf_string (ty : Z) (s : bytes)
  | leaf_integer (v : Z)
  | leaf_nil
  | leaf_array (n : Z).     (* an array whose count is not positive *)

Definition leaf_reply (l : leaf) : redisReply :=
  match l with
  | leaf_string ty s => string_reply ty s
  | leaf_integer v => integer_reply v
  | leaf_nil => nil_reply
  | leaf_array n => array_reply (wrap32 n)
  end.

Definition leaf_slots (l : leaf) : nat := match l with leaf_array n => Z.to_nat (wrap32 n) | _ => 0 end.

(** What the unread bytes start with: nothing complete (the type may be known
    by now, one byte may be consumed), an unknown type byte, an array nested too
    deep, a number too large, or an item of [k] bytes. *)
Inductive parsed : Type :=
  | p_more (ty : Z) (k : nat)
  | p_unknown (c : byte)
  | p_deep
  | p_overflow
  | p_leaf (l : leaf) (k : nat)
  | p_array (n : Z) (k : nat).

Definition parse_line (ty : Z) (d : bytes) : parsed :=
  match find_from crlf d with
  | None => p_more ty 0
  | Some n =>
      if ty =? REPLY_INTEGER then
        match number_value d with Ok v => p_leaf (leaf_integer v) (n + 2) | _ => p_overflow end
      else p_leaf (leaf_string ty (take n d)) (n + 2)
  end.

Definition parse_bulk (d : bytes) : parsed :=
  match find_from crlf d with
  | None => p_more REPLY_STRING 0
  | Some n =>
      match number_value d with
      | Ok len =>
          if len <? 0 then p_leaf leaf_nil (n + 2)
          else if LONG_MAX <? len + 2 then p_overflow
          else if Z.of_nat n + 2 + len + 2 <=? size d then
            p_leaf (leaf_string REPLY_STRING (take (Z.to_nat len) (drop (n + 2) d))) (n + 2 + Z.to_nat len + 2)
          else p_more REPLY_STRING 0
      | _ => p_overflow
      end
  end.

Definition parse_multi (level : nat) (d : bytes) : parsed :=
  if Nat.eqb level 8 then p_deep
  else
    match find_from crlf d with
    | None => p_more REPLY_ARRAY 0
    | Some n =>
        match number_value d with
        | Ok v =>
            if v =? -1 then p_leaf leaf_nil (n + 2)
            else if 0 <? v then p_array v (n + 2) else p_leaf (leaf_array v) (n + 2)
        | _ => p_overflow
        end
    end.

Definition parse_typed (level : nat) (ty : Z) (d : bytes) : parsed :=
  if (ty =? REPLY_ERROR) || (ty =? REPLY_STATUS) || (ty =? REPLY_INTEGER) then parse_line ty d
  else if ty =? REPLY_STRING then parse_bulk d
  else parse_multi level d.

Definition skip (j : nat) (p : parsed) : parsed :=
  match p with
  | p_more ty k => p_more ty (j + k) | p_leaf l k => p_leaf l (j + k) | p_array n k => p_array n (j + k) | _ => p
  end.

Definition parse_item (level : nat) (ty : Z) (d : bytes) : parsed :=
  if ty <? 0 then
    match d with
    | [] => p_more ty 0
    | c :: d' => match type_of_byte c with None => p_unknown c | Some t => skip 1 (parse_typed level t d') end
    end
  else parse_typed level ty d.

Definition known (ty : Z) : Prop :=
  ty = -1 \/ ty = REPLY_STRING \/ ty = REPLY_ARRAY \/ ty = REPLY_INTEGER \/ ty = REPLY_STATUS \/ ty = REPLY_ERROR.

(** ** Advancing *)

Lemma base_settle fs : forall t,
  match settle fs t with
  | inl fs' => base fs' = base fs /\ fs <> []
  | inr t' => Some (root t') = match base fs with Some p => Some p | None => Some (root t) end
  end.
Proof.
  induction fs as [|f fs IH]; intros t; [done|]. cbn [settle]. destruct (_ =? _).
  - specialize (IH (rnode (f_p f) (f_r f) (map Some (f_done f ++ [t])))). rewrite base_cons.
    destruct (settle fs _) as [fs'|t'].
    + destruct IH as [IH Hne]. split; [|done]. destruct fs; [done | exact IH].
    + rewrite IH. destruct fs as [|g fs]; [done|]. by destruct (base_some g fs) as (p & ->).
  - split; [|done]. rewrite !base_cons. by destruct fs.
Qed.

Lemma set_reply_same r : set_reply r r.(rd_reply) = r.
Proof. by destruct r. Qed.

(** The element [t] was stored in the hole: the reader moves on, its reply being
    the root of the tree. *)
Lemma advance r fs t :
  r.(rd_err) = 0 -> r.(rd_fn) = true -> at_level r.(rd_rstack) r.(rd_ridx) fs -> completed r.(rd_heap) fs t ->
  exists st i, moveToNextTask r = Ok (set_stack r st i) /\
    in_state (set_stack (set_reply r (Some (obj_reply (default (root t) (base fs))))) st i) (settle fs t).
Proof.
  intros He Hfn Hl Hc. pose proof Hc as (Hctx & _).
  destruct (moveToNextTask_spec _ _ _ _ Hl Hctx) as (st & i & E & Hm). exists st, i. split; [done|].
  pose proof (settle_spec _ _ _ Hc) as Hs. pose proof (base_settle fs t) as Hb.
  destruct (settle fs t) as [fs'|t']; cbn in *.
  - destruct Hm as [Hm1 Hm2], Hs as [Hs _], Hb as [Hb Hne]. split_and!; try done. cbn. rewrite Hb.
    destruct fs as [|f fs]; [done|]. by destruct (base_some f fs) as (p & ->).
  - destruct Hm as [Hm1 Hm2], Hs as [Hs1 Hs2]. split_and!; try done. cbn. do 2 f_equal.
    destruct (base fs); cbn in *; congruence.
Qed.

Section Items.
Context `{Allocator}.

(** [create] for the hole of a waiting reader. *)
Lemma create_object_spec r fs ty cur k c rep n :
  holding r fs ty -> r.(rd_rstack) !! length fs = Some cur ->
  (forall v, fits v fs -> v.(v_type) = cur.(t_type) -> creates r.(rd_heap) fs rep n (k v r.(rd_heap))) ->
  (exists h', create r cur k c = Ok (None, set_heap r h') /\ refused /\ hole h' fs) \/
  (fillable fs /\ exists h', create r cur k c = Ok (Some (obj_reply (length r.(rd_heap))), set_heap r h') /\
     completed h' (fill_top fs (length r.(rd_heap))) (rnode (length r.(rd_heap)) rep (replicate n None))) \/
  (~ fillable fs /\ create r cur k c = UB null_pointer).
Proof.
  intros (He & Hfn & Hl & Hty & Hh & Hrep) Hcur Hk. unfold create. rewrite Hfn.
  assert (exists v, view_of r cur = Ok v /\ fits v fs /\ v.(v_type) = cur.(t_type)) as (v & -> & Hv & Hvt).
  { destruct Hl as (_ & _ & _ & (t0 & Ht0 & Hp0) & Hlk). unfold view_of. destruct fs as [|f fs].
    - cbn in Hcur. rewrite Ht0 in Hcur. injection Hcur as <-. rewrite Hp0. by eexists.
    - cbn [linked length] in *. destruct Hlk as ((p & Hp1 & _ & Hp2 & _) & (t & Ht1 & Ht2 & Ht3) & _).
      rewrite Ht1 in Hcur. injection Hcur as <-. rewrite Ht3, Hp1, Hp2. by eexists. }
  cbn [mbind res_bind]. destruct (Hk v Hv Hvt) as [(h' & -> & Hr & Hh')|[(Hf & h' & -> & Hlen & Hc)|[Hf ->]]].
  - left. by exists h'.
  - right. left. split; [done|]. by exists h'.
  - by right; right.
Qed.

(** How an item that makes an object may end. *)
Definition same_buffer (r r' : reader) : Prop :=
  r'.(rd_buf) = r.(rd_buf) /\ r'.(rd_len) = r.(rd_len) /\ r'.(rd_maxbuf) = r.(rd_maxbuf).

Definition made (r : reader) (fs : list frame) (P : reader -> nat -> Prop) (m : res (Z * reader)) : Prop :=
  (fillable fs /\ exists r', m = Ok (REDIS_OK, r') /\ P r' (length r.(rd_heap)) /\ same_buffer r r') \/
  (refused /\ exists r', m = Ok (REDIS_ERR, r') /\ failed r' REDIS_ERR_OOM) \/
  (~ fillable fs /\ m = UB null_pointer).

Definition item_outcome (r : reader) (fs : list frame) (d : bytes) (p : parsed) (m : res (Z * reader)) : Prop :=
  match p with
  | p_more ty k => exists r', m = Ok (REDIS_ERR, r') /\ holding r' fs ty /\ unread r' (drop k d) /\ same_buffer r r'
  | p_unknown _ | p_deep => exists r', m = Ok (REDIS_ERR, r') /\ failed r' REDIS_ERR_PROTOCOL
  | p_overflow => m = UB signed_overflow
  | p_leaf l k =>
      made r fs (fun r' q => in_state r' (settle (fill_top fs q) (rnode q (leaf_reply l) (replicate (leaf_slots l) None))) /\
        unread r' (drop k d)) m
  | p_array n k =>
      made r fs (fun r' q => holding r' (mk_frame q (array_reply (wrap32 n)) [] :: fill_top fs q) (-1) /\
        unread r' (drop k d)) m
  end.

(** The OOM branch that all items share. *)
Lemma oom_made r fs ty h' P k :
  holding r fs ty -> hole h' fs -> refused ->
  made r fs P (let* r := redisReaderSetErrorOOM (set_heap (set_pos r k) h') in Ok (REDIS_ERR, r)).
Proof.
  intros (He & Hfn & (H9 & _) & Hty & Hh & Hrep) Hh' Href. right. left. split; [done|].
  destruct (redisReaderSetError_spec (set_heap (set_pos r k) h') fs REDIS_ERR_OOM (str "Out of memory"))
    as (r' & E & Hf); [done..|].
  unfold redisReaderSetErrorOOM. rewrite E. by eexists.
Qed.

Lemma unread_same r r' d :
  unread r d -> r'.(rd_buf) = r.(rd_buf) -> r'.(rd_pos) = r.(rd_pos) -> r'.(rd_len) = r.(rd_len) -> unread r' d.
Proof using. intros (s & p & E & Hr & Hp & Hl) H1 H2 H3. exists s, p. by rewrite H1, H2, H3. Qed.

(** Bytes of the unread part as the callbacks get them. *)
Lemma read_slice s p a x b : repr s (p ++ a ++ x ++ b) -> mem_read s.(sds_buf) (size p + size a) (size x) = Ok x.
Proof using.
  intros Hr. destruct (repr_bytes _ _ Hr) as (junk & E).
  rewrite E, (app_assoc p), !map_app, <- app_assoc, <- (map_app Some p), <- size_app, <- app_assoc. by apply mem_read_middle.
Qed.

(** The end of an item whose object is in the hole. *)
Lemma item_done_spec r fs ty r2 rep n q :
  holding r fs ty -> r2.(rd_err) = 0 -> r2.(rd_fn) = true -> r2.(rd_rstack) = r.(rd_rstack) -> r2.(rd_ridx) = r.(rd_ridx) ->
  r2.(rd_reply) = r.(rd_reply) -> completed r2.(rd_heap) (fill_top fs q) (rnode q rep (replicate n None)) ->
  exists r', item_done (Some (obj_reply q)) r2 = Ok (REDIS_OK, r') /\
    in_state r' (settle (fill_top fs q) (rnode q rep (replicate n None))) /\
    r'.(rd_pos) = r2.(rd_pos) /\ r'.(rd_buf) = r2.(rd_buf) /\ r'.(rd_len) = r2.(rd_len) /\ r'.(rd_maxbuf) = r2.(rd_maxbuf).
Proof.
  intros (He & Hfn & Hl & Hty & Hh & Hrep) H1 H2 H3 H4 H5 Hc. unfold item_done.
  assert ((if rd_ridx r2 =? 0 then set_reply r2 (Some (obj_reply q)) else r2) =
    set_reply r2 (Some (obj_reply (default q (base (fill_top fs q)))))) as ->.
  { destruct Hl as (_ & Hr & _). rewrite H4, Hr. destruct fs as [|f fs]; [done|]. rewrite base_fill.
    destruct (base_some f fs) as (p & E). rewrite E in *. cbn in Hrep |- *. rewrite <- Hrep, <- H5. symmetry. apply set_reply_same. }
  destruct (advance (set_reply r2 (Some (obj_reply (default q (base (fill_top fs q)))))) (fill_top fs q)
    (rnode q rep (replicate n None))) as (st & i & -> & Hs); [done|done| |done|].
  { cbn. rewrite H3, H4. by apply at_level_fill. }
  cbn [mbind res_bind]. eexists. split; [reflexivity|]. split; [exact Hs|]. done.
Qed.

(** Creating an object and finishing the item: [r1] is the reader whose input may
    have been consumed, [pos] where the cursor ends. *)
Lemma make_item r fs ty cur k c rep n d j pos (fin : option obj * reader -> res (Z * reader)) :
  holding r fs ty -> r.(rd_rstack) !! length fs = Some cur ->
  (forall v, fits v fs -> v.(v_type) = cur.(t_type) -> creates r.(rd_heap) fs rep n (k v r.(rd_heap))) ->
  unread (set_pos r pos) (drop j d) ->
  (forall h', exists p, fin (None, set_heap r h') = let* r := redisReaderSetErrorOOM (set_heap (set_pos r p) h') in Ok (REDIS_ERR, r)) ->
  (forall q h', fin (Some (obj_reply q), set_heap r h') = item_done (Some (obj_reply q)) (set_heap (set_pos r pos) h')) ->
  made r fs (fun r' q => in_state r' (settle (fill_top fs q) (rnode q rep (replicate n None))) /\ unread r' (drop j d))
    (mbind fin (create r cur k c)).
Proof.
  intros Hr Hcur Hk Hu Hnone Hsome.
  destruct (create_object_spec r fs ty cur k c rep n Hr Hcur Hk) as [(h' & -> & Href & Hh')|[(Hf & h' & -> & Hc)|[Hf ->]]];
    cbn [mbind res_bind].
  - destruct (Hnone h') as (p & ->). by eapply oom_made.
  - left. split; [done|]. rewrite Hsome. pose proof Hr as (He & Hfn & _).
    destruct (item_done_spec r fs ty (set_heap (set_pos r pos) h') rep n (length r.(rd_heap))) as (r' & -> & Hs & E1 & E2 & E3 & E4);
      [done..|]. exists r'. split; [done|]. split; [split; [done|]|].
    + eapply unread_same; [exact Hu|..]; by rewrite ?E1, ?E2, ?E3.
    + split_and!; [exact E2 | exact E3 | exact E4].
  - by right; right.
Qed.

Lemma set_pos_same r : set_pos r r.(rd_pos) = r.
Proof using. by destruct r. Qed.

Lemma holding_set_pos r fs ty pos : holding r fs ty -> holding (set_pos r pos) fs ty.
Proof using. done. Qed.

Lemma holding_top r fs ty : holding r fs ty -> exists cur, r.(rd_rstack) !! length fs = Some cur /\ cur.(t_type) = ty /\
  task_at r r.(rd_ridx) = Ok cur.
Proof using.
  intros (_ & _ & (_ & Hr & _) & (t & Ht & Hty) & _). exists t. split_and!; [done|done|]. rewrite Hr. by apply task_at_lookup.
Qed.

Lemma number_value_cases d : CR ∈ d -> (exists v, number_value d = Ok v) \/ number_value d = UB signed_overflow.
Proof using.
  assert (forall d v, CR ∈ d -> (exists o, digits_value d v = Ok o) \/ digits_value d v = UB signed_overflow) as Hd.
  { clear. induction d as [|c d IH]; intros v Hin; [by apply elem_of_nil in Hin|]. cbn [digits_value].
    destruct (eqc_spec c CR) as [->|Hc]; [left; by eexists|].
    destruct (_ && _); [|left; by eexists]. destruct (_ || _); [by right|]. apply IH.
    apply elem_of_cons in Hin as [Hin|Hin]; [congruence | done]. }
  intros Hin. destruct d as [|c d]; [by apply elem_of_nil in Hin|]. cbn [number_value].
  assert (forall mult d', CR ∈ d' -> (exists v, (let* o := digits_value d' 0 in
      match o with None => Ok (-1) | Some v => Ok (mult * v) end) = Ok v) \/
    (let* o := digits_value d' 0 in match o with None => Ok (-1) | Some v => Ok (mult * v) end) = UB signed_overflow) as Hm.
  { intros mult d' Hin'. destruct (Hd d' 0 Hin') as [(o & ->)| ->]; [left | by right]. destruct o; by eexists. }
  assert (c = CR \/ CR ∈ d) as Hor by (apply elem_of_cons in Hin as [Hin|Hin]; auto).
  destruct (eqc_spec c "-"%byte) as [->|]; [apply Hm; by destruct Hor|].
  destruct (eqc_spec c "+"%byte) as [->|]; [apply Hm; by destruct Hor|]. by apply Hm.
Qed.

Lemma find_crlf_split d n : find_from crlf d = Some n -> exists a b, d = a ++ crlf ++ b /\ length a = n /\ take n d = a /\ drop (n + 2) d = b.
Proof using.
  intros E. destruct (find_from_Some _ _ _ E) as (a & b & -> & <-). exists a, b. split_and!; [done|done|by rewrite take_app_length|].
  rewrite app_assoc. apply drop_app_length'. by rewrite length_app.
Qed.

Lemma unread_line r d n : unread r d -> find_from crlf d = Some n ->
  unread (set_pos r (r.(rd_pos) + (Z.of_nat n + 2))) (drop (n + 2) d).
Proof using.
  intros Hu E. destruct (find_crlf_split _ _ E) as (a & b & -> & Ha & _ & ->). rewrite app_assoc in Hu.
  eapply unread_advance; [exact Hu|]. rewrite size_app. change (size crlf) with 2. unfold size. lia.
Qed.

Lemma find_crlf_size d n : find_from crlf d = Some n -> Z.of_nat n + 2 <= size d.
Proof using.
  intros E. destruct (find_crlf_split _ _ E) as (a & b & -> & <- & _). rewrite !size_app. change (size crlf) with 2.
  pose proof (size_nonneg b). unfold size in *. lia.
Qed.

Lemma processLineItem_spec r fs ty d :
  holding r fs ty -> unread r d -> ty = REPLY_ERROR \/ ty = REPLY_STATUS \/ ty = REPLY_INTEGER ->
  item_outcome r fs d (parse_line ty d) (processLineItem r).
Proof.
  intros Hr Hu Hty. destruct (holding_top _ _ _ Hr) as (cur & Hcur & Hct & Ht). unfold processLineItem, parse_line.
  rewrite Ht. cbn [mbind res_bind]. rewrite (readLine_spec r d Hu). cbn [mbind res_bind].
  destruct (find_from crlf d) as [n|] eqn:E; [|exists r; by split_and!].
  pose proof (unread_line r d n Hu E) as Hu'. set (r1 := set_pos r _) in *. pose proof Hr as (_ & Hfn & _ & _ & Hh & _).
  pose proof (unread_buffer _ _ Hu) as (s & p & _ & Hrep & Hb & Hp & _).
  assert (buffer r1 = Ok s.(sds_buf)) as Hb1 by done. rewrite Hct.
  destruct (Z.eqb_spec ty REPLY_INTEGER) as [->|Hne].
  - assert (rd_fn r1 = true) as -> by done. rewrite Hb1. cbn [mbind res_bind]. rewrite Hp, (readLongLong_spec s p d Hrep (find_crlf_cr _ _ E)).
    destruct (number_value_cases d (find_crlf_cr _ _ E)) as [(v & ->)| ->]; cbn [mbind res_bind]; [|done].
    apply (make_item r1 fs REPLY_INTEGER cur _ _ _ 0 d (n + 2) r1.(rd_pos)); try done.
    + intros v' Hv' _. by apply createIntegerObject_spec.
    + intros h'. exists r1.(rd_pos). by rewrite set_pos_same.
  - rewrite Hb1. cbn [mbind res_bind]. destruct (find_crlf_split _ _ E) as (a & b & Ed & Ha & Hta & Hdb).
    assert (mem_read s.(sds_buf) (rd_pos r) (Z.of_nat n) = Ok a) as ->.
    { rewrite Hp. rewrite Ed in Hrep. rewrite <- (Z.add_0_r (size p)). change 0 with (size (@nil byte)).
      replace (Z.of_nat n) with (size a) by (unfold size; lia). by apply (read_slice s p [] a (crlf ++ b)). }
    cbn [mbind res_bind]. rewrite Hta.
    apply (make_item r1 fs ty cur _ _ (string_reply ty a) 0 d (n + 2) r1.(rd_pos)); try done.
    + intros v' Hv' Hvt. rewrite <- Hct, <- Hvt. apply createStringObject_spec; [done|done| |].
      * rewrite Hvt, Hct. destruct Hty as [->|[->| ->]]; [by left | by right; left | done].
      * destruct (unread_set_pos_end r d Hu) as [H0 Hi]. pose proof (find_crlf_size _ _ E). unfold size in *. lia.
    + intros h'. exists r1.(rd_pos). by rewrite set_pos_same.
Qed.

Lemma wrap_advance r d k : unread r d -> 0 <= k <= size d -> wrap64 (r.(rd_pos) + k) = r.(rd_pos) + k.
Proof using. intros Hu Hk. pose proof (unread_set_pos_end r d Hu). apply wrap64_id. unfold INT_MAX in *. lia. Qed.

Lemma unread_drop r d k : unread r d -> (k <= length d)%nat -> unread (set_pos r (r.(rd_pos) + Z.of_nat k)) (drop k d).
Proof using.
  intros Hu Hk. rewrite <- (take_drop k d) in Hu. eapply unread_advance; [exact Hu|].
  unfold size. rewrite length_take, Nat.min_l by lia. done.
Qed.

(** The cursor after the [k] bytes of an item. *)
Lemma unread_item r d k z : unread r d -> (k <= length d)%nat -> z = Z.of_nat k ->
  unread (set_pos r (wrap64 (r.(rd_pos) + z))) (drop k d).
Proof using.
  intros Hu Hk ->. rewrite (wrap_advance r d) by (try done; unfold size; lia). by apply unread_drop.
Qed.

Lemma processBulkItem_spec r fs d :
  holding r fs REPLY_STRING -> unread r d -> item_outcome r fs d (parse_bulk d) (processBulkItem r).
Proof.
  intros Hr Hu. destruct (holding_top _ _ _ Hr) as (cur & Hcur & Hct & Ht). unfold processBulkItem, parse_bulk.
  rewrite Ht. cbn [mbind res_bind]. pose proof Hr as (_ & Hfn & _ & _ & Hh & _).
  pose proof (unread_buffer _ _ Hu) as (s & p & _ & Hrep & Hb & Hp & Hlen & Hl).
  rewrite Hb. cbn [mbind res_bind]. rewrite Hlen, Hp, (seekNewline_spec s p d Hrep). cbn [mbind res_bind].
  destruct (find_from crlf d) as [n|] eqn:E; cbn [fmap option_fmap option_map]; [|exists r; by split_and!].
  rewrite (readLongLong_spec s p d Hrep (find_crlf_cr _ _ E)). pose proof (find_crlf_size _ _ E) as Hn.
  destruct (unread_set_pos_end r d Hu) as [H0 Hi]. unfold INT_MAX in Hi.
  rewrite (wrap64_id (Z.of_nat n + 2)) by lia.
  destruct (number_value_cases d (find_crlf_cr _ _ E)) as [(v & ->)| ->]; cbn [mbind res_bind]; [|done].
  destruct (Z.ltb_spec v 0) as [Hv|Hv].
  - apply (make_item r fs REPLY_STRING cur _ _ nil_reply 0 d (n + 2) (wrap64 (rd_pos r + (Z.of_nat n + 2)))); try done.
    + intros v' Hv' _. by apply createNilObject_spec.
    + apply unread_item; [done | unfold size in *; lia | lia].
    + intros h'. exists r.(rd_pos). by rewrite set_pos_same.
  - destruct (Z.ltb_spec LONG_MAX (v + 2)) as [Hov|Hov]; [done|]. unfold LONG_MAX in Hov.
    rewrite (wrap64_id (Z.of_nat n + 2 + (v + 2))) by lia. rewrite <- Hp, (wrap64_id (rd_pos r + (Z.of_nat n + 2 + (v + 2)))) by lia.
    assert ((rd_pos r + (Z.of_nat n + 2 + (v + 2)) <=? rd_len r) = (Z.of_nat n + 2 + v + 2 <=? size d)) as ->.
    { destruct (Z.leb_spec (Z.of_nat n + 2 + v + 2) (size d)); [apply Z.leb_le | apply Z.leb_gt]; lia. }
    destruct (Z.leb_spec (Z.of_nat n + 2 + v + 2) (size d)) as [Hfit|]; [|exists r; by split_and!].
    set (x := take (Z.to_nat v) (drop (n + 2) d)).
    assert (size x = v) as Hx by (unfold x, size in *; rewrite length_take, length_drop; lia).
    assert (mem_read s.(sds_buf) (rd_pos r + Z.of_nat n + 2) v = Ok x) as ->.
    { rewrite Hp, <- Hx. rewrite <- (take_drop (n + 2) d), <- (take_drop (Z.to_nat v) (drop (n + 2) d)) in Hrep.
      replace (size p + Z.of_nat n + 2) with (size p + size (take (n + 2) d)) by (unfold size in *; rewrite length_take; lia).
      by eapply read_slice. }
    cbn [mbind res_bind].
    apply (make_item r fs REPLY_STRING cur _ _ (string_reply REPLY_STRING x) 0 d _ (wrap64 (rd_pos r + (Z.of_nat n + 2 + (v + 2))))); try done.
    + intros v' Hv' Hvt. rewrite Hct in Hvt. rewrite <- Hvt. apply createStringObject_spec; [done|done|auto|unfold INT_MAX; lia].
    + apply unread_item; [done | unfold size in *; lia | lia].
    + intros h'. exists r.(rd_pos). by rewrite set_pos_same.
Qed.

(** ** Array headers *)

Lemma moveToNextTask_loop_reply o fuel : forall r,
  moveToNextTask_loop fuel (set_reply r o) = let* r := moveToNextTask_loop fuel r in Ok (set_reply r o).
Proof using.
  induction fuel as [|fuel IH]; intros r; [done|]. cbn [moveToNextTask_loop].
  change (rd_ridx (set_reply r o)) with (rd_ridx r). change (task_at (set_reply r o)) with (task_at r).
  destruct (0 <=? rd_ridx r); [|done]. destruct (rd_ridx r =? 0); [done|].
  destruct (task_at r (rd_ridx r)) as [cur| |]; [|done|done]. cbn [mbind res_bind].
  destruct (task_at r (rd_ridx r - 1)) as [prv| |]; [|done|done]. cbn [mbind res_bind].
  destruct (negb _); [done|]. destruct (int_result (t_elements prv - 1)); [|done|done]. cbn [mbind res_bind].
  destruct (_ =? _); [apply (IH (set_stack r _ _))|]. destruct (negb _); [done|].
  by destruct (int_result (t_idx cur + 1)).
Qed.

(** Setting the reply after the move, as the array items do. *)
Lemma item_done_multi x r :
  (let* r' := moveToNextTask r in Ok (REDIS_OK, if r.(rd_ridx) =? 0 then set_reply r' (Some x) else r')) = item_done (Some x) r.
Proof using.
  unfold item_done, moveToNextTask. destruct (rd_ridx r =? 0); [|done]. rewrite moveToNextTask_loop_reply.
  by destruct (moveToNextTask_loop 10 r).
Qed.

(** The frame of an array that was just created. *)
Lemma push_hole h fs q n : n <= INT_MAX ->
  completed h (fill_top fs q) (rnode q (array_reply n) (replicate (Z.to_nat n) None)) ->
  hole h (mk_frame q (array_reply n) [] :: fill_top fs q).
Proof using.
  intros Hn (Hc & Hh & Hnd). inversion Hh as [? ? ? Hq Hsh _]; subst. split.
  - cbn [ctx_has f_p f_r f_done]. split_and!; [done| |intros t Ht; by apply elem_of_nil in Ht|done].
    split; [done|]. cbn. destruct (Z.ltb_spec 0 n); [|done]. rewrite length_replicate. unfold INT_MAX in Hn.
    split_and!; [|lia|].
    + rewrite wrap64_id by lia. unfold size. rewrite length_replicate. lia.
    + replace (Z.to_nat n) with (S (Z.to_nat n - 0 - 1)) at 1 by lia. done.
  - cbn [nodes] in Hnd. fold (kids_nodes (replicate (Z.to_nat n) None)) in Hnd. rewrite kids_nodes_none in Hnd. exact Hnd.
Qed.

(** The task of an array that was just created, and the one of its first element. *)
Lemma push_level st ridx fs q cur n :
  at_level st ridx fs -> (length fs < 8)%nat -> st !! length fs = Some cur -> cur.(t_type) = REPLY_ARRAY -> n <= INT_MAX ->
  let st' := <[S (length fs) := first_task ridx]>
    (<[length fs := mk_task cur.(t_type) n cur.(t_idx) (Some (obj_reply q)) cur.(t_parent)]> st) in
  at_level st' (ridx + 1) (mk_frame q (array_reply n) [] :: fill_top fs q) /\
  top_type st' (mk_frame q (array_reply n) [] :: fill_top fs q) (-1).
Proof using.
  intros Hl H8 Hcur Hty Hn st'. pose proof Hl as (H9 & Hr & _).
  set (t' := mk_task _ n _ _ _) in st'.
  assert (at_level (<[length fs := t']> st) ridx fs) as (H9' & _ & _ & Hroot & Hlk) by by eapply at_level_put.
  apply (linked_fill _ _ q) in Hlk. split.
  - split_and!; [unfold st'; by rewrite length_insert | | | |].
    + cbn [length]. rewrite fill_top_length. lia.
    + cbn [length]. rewrite fill_top_length. lia.
    + unfold st'. apply root_ok_insert; [lia | done].
    + unfold st'. cbn [linked f_p f_r f_done]. rewrite fill_top_length. split_and!.
      * exists t'. rewrite list_lookup_insert_ne, list_lookup_insert_eq by lia. split_and!; [done..|].
        unfold t'. cbn. destruct (Z.ltb_spec 0 n); [|done]. intros _. rewrite wrap64_id by (unfold INT_MAX in Hn; lia). by split.
      * eexists. rewrite list_lookup_insert_eq by (rewrite length_insert; lia). split; [reflexivity|].
        unfold first_task. cbn. rewrite Hr, Nat2Z.id. done.
      * apply linked_insert; [rewrite fill_top_length; lia | done].
  - eexists. cbn [length]. rewrite fill_top_length. unfold st'. rewrite list_lookup_insert_eq by (rewrite length_insert; lia). done.
Qed.

Lemma wrap32_max n : wrap32 n <= INT_MAX.
Proof using. unfold wrap32, INT_MAX. pose proof (Z.mod_pos_bound (n + 2 ^ 31) (2 ^ 32)). lia. Qed.

Lemma processMultiBulkItem_spec r fs d :
  holding r fs REPLY_ARRAY -> unread r d -> item_outcome r fs d (parse_multi (length fs) d) (processMultiBulkItem r).
Proof.
  intros Hr Hu. destruct (holding_top _ _ _ Hr) as (cur & Hcur & Hct & Ht). unfold processMultiBulkItem, parse_multi.
  rewrite Ht. cbn [mbind res_bind]. pose proof Hr as (He & Hfn & Hl & _ & Hh & Hrep). pose proof Hl as (H9 & Hridx & H8 & _).
  assert ((rd_ridx r =? 8) = Nat.eqb (length fs) 8) as ->.
  { rewrite Hridx. destruct (Nat.eqb_spec (length fs) 8); [apply Z.eqb_eq | apply Z.eqb_neq]; lia. }
  destruct (Nat.eqb_spec (length fs) 8) as [|Hlt].
  { destruct (redisReaderSetError_spec r fs REDIS_ERR_PROTOCOL depth_message Hh Hfn H9 Hrep) as (r' & -> & Hf). by eexists. }
  rewrite (readLine_spec r d Hu). cbn [mbind res_bind].
  destruct (find_from crlf d) as [n|] eqn:E; [|exists r; by split_and!].
  pose proof (unread_line r d n Hu E) as Hu'. set (r1 := set_pos r _) in *.
  pose proof (unread_buffer _ _ Hu) as (s & p & _ & Hs & Hb & Hp & _).
  assert (buffer r1 = Ok s.(sds_buf)) as -> by done. cbn [mbind res_bind].
  rewrite Hp, (readLongLong_spec s p d Hs (find_crlf_cr _ _ E)).
  destruct (number_value_cases d (find_crlf_cr _ _ E)) as [(v & ->)| ->]; cbn [mbind res_bind]; [|done].
  destruct (Z.eqb_spec v (-1)) as [->|Hv1].
  { apply (make_item r1 fs REPLY_ARRAY cur _ _ nil_reply 0 d (n + 2) r1.(rd_pos)); try done.
    - intros v' Hv' _. by apply createNilObject_spec.
    - intros h'. exists r1.(rd_pos). by rewrite set_pos_same.
    - intros q h'. exact (item_done_multi (obj_reply q) (set_heap r1 h')). }
  assert (forall v', fits v' fs -> v_type v' = t_type cur ->
    creates (rd_heap r1) fs (array_reply (wrap32 v)) (Z.to_nat (wrap32 v)) (createArrayObject v' (wrap32 v) (rd_heap r1))) as Hk.
  { intros v' Hv' _. apply createArrayObject_spec; [done|done|apply wrap32_max]. }
  destruct (Z.ltb_spec 0 v) as [Hpos|Hneg].
  - destruct (create_object_spec r1 fs REPLY_ARRAY cur (fun t => createArrayObject t (wrap32 v)) REPLY_ARRAY _ _ Hr Hcur Hk) as [(h' & -> & Href & Hh')|[(Hf & h' & -> & Hc)|[Hf ->]]];
      cbn [mbind res_bind].
    + apply (oom_made r1 fs REPLY_ARRAY h' _ r1.(rd_pos)); done.
    + left. split; [done|]. change (rd_ridx (set_heap r1 h')) with (rd_ridx r).
      set (t' := mk_task _ (wrap32 v) _ _ _). set (r2 := put_task (set_heap r1 h') (rd_ridx r) t').
      assert (exists t, task_at r2 (rd_ridx r + 1) = Ok t) as (t & ->).
      { rewrite Hridx. destruct (lookup_lt_is_Some_2 r2.(rd_rstack) (S (length fs))) as [t Ht2].
        { unfold r2. cbn. rewrite length_insert. lia. }
        exists t. replace (Z.of_nat (length fs) + 1) with (Z.of_nat (S (length fs))) by lia. by apply task_at_lookup. }
      cbn [mbind res_bind].
      destruct (push_level _ _ fs (length r.(rd_heap)) cur (wrap32 v) Hl ltac:(lia) Hcur Hct (wrap32_max v)) as [Hl' Ht'].
      pose proof (push_hole h' fs _ (wrap32 v) (wrap32_max v) Hc) as Hh'.
      assert (rd_rstack r2 = <[length fs := t']> (rd_rstack r)) as Hst.
      { unfold r2. cbn. by rewrite Hridx, Nat2Z.id. }
      assert (Z.to_nat (rd_ridx r + 1) = S (length fs)) as -> by lia. rewrite Hst.
      change (rd_ridx r1) with (rd_ridx r).
      eexists. split; [reflexivity|]. split; [|by destruct (_ =? _)]. split; [|destruct (_ =? _); exact Hu'].
      split_and!; [by destruct (_ =? _) | by destruct (_ =? _) | by destruct (_ =? _) | by destruct (_ =? _)
        | by destruct (_ =? _) |]. rewrite base_cons. destruct fs as [|f fs].
      * assert (rd_ridx r =? 0 = true) as -> by (apply Z.eqb_eq; cbn in Hridx; lia). done.
      * assert (rd_ridx r =? 0 = false) as -> by (apply Z.eqb_neq; cbn in Hridx; lia). cbn. rewrite Hrep.
        rewrite <- (base_fill (f :: fs) (length (rd_heap r))). done.
    + by right; right.
  - apply (make_item r1 fs REPLY_ARRAY cur _ _ (array_reply (wrap32 v)) (Z.to_nat (wrap32 v)) d (n + 2) r1.(rd_pos)); try done.
    + intros h'. exists r1.(rd_pos). by rewrite set_pos_same.
    + intros q h'. exact (item_done_multi (obj_reply q) (set_heap r1 h')).
Qed.

(** ** Any item *)

Lemma process_typed_spec r fs ty d :
  holding r fs ty -> unread r d -> known ty -> ty <> -1 ->
  item_outcome r fs d (parse_typed (length fs) ty d) (process_typed r).
Proof.
  intros Hr Hu Hk Hne. destruct (holding_top _ _ _ Hr) as (cur & Hcur & Hct & Ht). unfold process_typed, parse_typed.
  rewrite Ht. cbn [mbind res_bind]. rewrite Hct.
  destruct Hk as [->|[->|[->|[->|[->| ->]]]]]; [done| | | | |]; cbn [Z.eqb orb].
  - by apply processBulkItem_spec.
  - by apply processMultiBulkItem_spec.
  - apply processLineItem_spec; auto.
  - apply processLineItem_spec; auto.
  - apply processLineItem_spec; auto.
Qed.

Lemma holding_typed r fs cur t :
  holding r fs (-1) -> r.(rd_rstack) !! length fs = Some cur ->
  holding (put_task r r.(rd_ridx) (mk_task t cur.(t_elements) cur.(t_idx) cur.(t_obj) cur.(t_parent))) fs t.
Proof using.
  intros (He & Hfn & Hl & Hty & Hh & Hrep) Hcur. pose proof Hl as (H9 & Hr & H8 & _).
  assert (Z.to_nat (rd_ridx r) = length fs) as E by lia.
  split_and!; [done|done| | |done|done]; cbn; rewrite E.
  - by eapply at_level_put.
  - eexists. rewrite list_lookup_insert_eq by lia. done.
Qed.

Lemma same_buffer_trans r1 r2 r3 : same_buffer r1 r2 -> same_buffer r2 r3 -> same_buffer r1 r3.
Proof using. unfold same_buffer. intros (-> & -> & ->) (-> & -> & ->). done. Qed.

Lemma outcome_skip r r' fs d a p m :
  same_buffer r r' -> length r'.(rd_heap) = length r.(rd_heap) -> item_outcome r' fs d p m ->
  item_outcome r fs (a ++ d) (skip (length a) p) m.
Proof using.
  intros B Hh Hm. assert (forall k, drop (length a + k) (a ++ d) = drop k d) as Hd.
  { intros k. by rewrite <- drop_drop, drop_app_length. }
  destruct p; cbn [skip item_outcome] in *; unfold made in *; try setoid_rewrite Hd; try done.
  - destruct Hm as (r2 & E & H1 & H2 & H3). exists r2. eauto using same_buffer_trans.
  - destruct Hm as [(Hf & r2 & E & H1 & H3)|Hm]; [left | by right]. rewrite Hh in H1. eauto 6 using same_buffer_trans.
  - destruct Hm as [(Hf & r2 & E & H1 & H3)|Hm]; [left | by right]. rewrite Hh in H1. eauto 6 using same_buffer_trans.
Qed.

Lemma type_of_byte_known c t : type_of_byte c = Some t -> known t /\ 0 <= t.
Proof using.
  unfold type_of_byte, known, REPLY_STRING, REPLY_ARRAY, REPLY_INTEGER, REPLY_STATUS, REPLY_ERROR.
  repeat case_match; intros [= <-]; lia.
Qed.

Lemma processItem_spec r fs ty d :
  holding r fs ty -> unread r d -> known ty -> item_outcome r fs d (parse_item (length fs) ty d) (processItem r).
Proof.
  intros Hr Hu Hk. destruct (holding_top _ _ _ Hr) as (cur & Hcur & Hct & Ht). unfold processItem, parse_item.
  rewrite Ht. cbn [mbind res_bind]. rewrite Hct.
  destruct (Z.ltb_spec ty 0) as [Hneg|Hpos].
  - assert (ty = -1) as -> by (unfold known, REPLY_STRING, REPLY_ARRAY, REPLY_INTEGER, REPLY_STATUS, REPLY_ERROR in Hk; lia).
    destruct d as [|c d].
    + rewrite (readByte_nil r Hu). exists r. by split_and!.
    + rewrite (readByte_cons r c d Hu). cbn [mbind res_bind]. set (r1 := set_pos r _).
      assert (unread r1 d) as Hu1 by (apply (unread_advance r [c] d); done).
      destruct (type_of_byte c) as [t|] eqn:Et.
      * destruct (type_of_byte_known _ _ Et) as [Hkt Ht0].
        assert (rd_ridx r1 = rd_ridx r) as -> by done.
        eapply (outcome_skip r (put_task r1 (rd_ridx r) _) fs d [c]); [| |].
        -- split_and!; done.
        -- done.
        -- apply process_typed_spec; [by apply (holding_typed r1) | done | done | lia].
      * destruct Hr as (He & Hfn & (H9 & _) & _ & Hh & Hrep). unfold redisReaderSetErrorProtocolByte.
        destruct (redisReaderSetError_spec r1 fs REDIS_ERR_PROTOCOL
          (str "Protocol error, got " ++ take 7 (chrtos c) ++ str " as reply type byte")) as (r' & -> & Hf); [done..|].
        by eexists.
  - apply process_typed_spec; [done|done|done|lia].
Qed.

End Items.
