(* ===== verification/HiredisProtocol.v ===== *)
(** * The reply protocol as a pure machine.

    [parse] reads one reply from the unread bytes, given the arrays that are open
    around it: the abstract specification of the reader, without buffer, heap or
    stack.  [encode] prints a reply.  [parse] does not depend on how the bytes
    were cut ([parse_wait], [parse_reply]) and reads back what [encode] prints. *)
From S2P Require Import Prelude CxxString Sds SdsRefine SdsText HiredisFormat HiredisReply HiredisReader HiredisReaderInput HiredisReplyTree HiredisReaderSpec.

(** ** Values *)

Inductive value : Type :=
  | V_string (ty : Z) (s : bytes)     (* bulk string, status or error *)
  | V_integer (v : Z)
  | V_nil
  | V_array (n : Z) (vs : list (option value)).

Lemma value_rect_elements (P : value -> Prop) :
  (forall ty s, P (V_string ty s)) -> (forall z, P (V_integer z)) -> P V_nil ->
  (forall n vs, (forall v, Some v ∈ vs -> P v) -> P (V_array n vs)) -> forall v, P v.
Proof.
  intros H1 H2 H3 H4. fix IH 1. intros [ty s|z| |n vs]; [apply H1 | apply H2 | apply H3 |]. apply H4.
  induction vs as [|o vs IHv]; [intros v Hin; exfalso; exact (not_elem_of_nil _ Hin)|].
  assert (match o with Some v => P v | None => True end) as Ho by (destruct o as [v|]; [apply IH | done]).
  intros v Hin. apply elem_of_cons in Hin as [<-|Hin]; [exact Ho | exact (IHv v Hin)].
Qed.

Definition leaf_value (l : leaf) : value :=
  match l with
  | leaf_string ty s => V_string ty s
  | leaf_integer v => V_integer v
  | leaf_nil => V_nil
  | leaf_array n => V_array (wrap64 (wrap32 n)) (replicate (Z.to_nat (wrap32 n)) None)
  end.

(** An open array: its count and the elements it has, innermost array first. *)
Record level : Type := mk_level { l_count : Z; l_done : list value }.

(** An array of a negative or truncated count has no room. *)
Definition room (ls : list level) : bool := match ls with [] => true | l :: _ => 0 <? l.(l_count) end.

Fixpoint close (ls : list level) (v : value) : list level + value :=
  match ls with
  | [] => inr v
  | l :: ls' =>
      if size l.(l_done) + 1 =? l.(l_count) then close ls' (V_array l.(l_count) (map Some (l.(l_done) ++ [v])))
      else inl (mk_level l.(l_count) (l.(l_done) ++ [v]) :: ls')
  end.

(** ** The machine *)

Inductive outcome : Type :=
  | o_wait (ls : list level) (ty : Z) (d : bytes)   (* more input is needed *)
  | o_reply (v : value) (d : bytes)
  | o_protocol                                      (* a protocol error *)
  | o_undefined (u : ub).

Fixpoint parse_loop (fuel : nat) (ls : list level) (ty : Z) (d : bytes) : outcome :=
  match fuel with
  | O => o_undefined no_fuel
  | S fuel' =>
      match parse_item (length ls) ty d with
      | p_more ty' k => o_wait ls ty' (drop k d)
      | p_unknown _ | p_deep => o_protocol
      | p_overflow => o_undefined signed_overflow
      | p_leaf l k =>
          if room ls then
            match close ls (leaf_value l) with
            | inl ls' => parse_loop fuel' ls' (-1) (drop k d)
            | inr v => o_reply v (drop k d)
            end
          else o_undefined null_pointer
      | p_array n k =>
          if room ls then parse_loop fuel' (mk_level (wrap32 n) [] :: ls) (-1) (drop k d)
          else o_undefined null_pointer
      end
  end.

Definition parse (ls : list level) (ty : Z) (d : bytes) : outcome := parse_loop (S (length d)) ls ty d.

(** An outcome with more input to come. *)
Definition outcome_app (o : outcome) (x : bytes) : outcome :=
  match o with
  | o_wait ls ty d => parse ls ty (d ++ x)
  | o_reply v d => o_reply v (d ++ x)
  | _ => o
  end.

(** ** Items *)

Lemma parse_typed_more lvl ty d ty' k : known ty -> ty <> -1 -> parse_typed lvl ty d = p_more ty' k -> ty' = ty /\ k = 0%nat.
Proof.
  intros Hk Hne. unfold parse_typed, parse_line, parse_bulk, parse_multi.
  destruct Hk as [->|[->|[->|[->|[->| ->]]]]]; [done|..]; cbn [Z.eqb orb]; repeat case_match; try done; by intros [= <- <-].
Qed.

Lemma take_app_le {A} k (l k' : list A) : (k <= length l)%nat -> take k (l ++ k') = take k l.
Proof. intros H. by rewrite take_app, (proj2 (Nat.sub_0_le k (length l)) H), take_0, app_nil_r. Qed.

Lemma drop_app_le' {A} k (l k' : list A) : (k <= length l)%nat -> drop k (l ++ k') = drop k l ++ k'.
Proof. intros H. by rewrite drop_app_le. Qed.

Lemma find_crlf_length d n : find_from crlf d = Some n -> (n + 2 <= length d)%nat.
Proof. intros E. pose proof (find_crlf_size _ _ E). unfold size in *. lia. Qed.

Lemma parse_typed_app lvl ty d x :
  parse_typed lvl ty (d ++ x) = match parse_typed lvl ty d with p_more _ _ => parse_typed lvl ty (d ++ x) | p => p end.
Proof.
  unfold parse_typed. destruct (_ || _); [|destruct (ty =? REPLY_STRING)].
  - unfold parse_line. destruct (find_from crlf d) as [n|] eqn:E; [|done].
    rewrite (find_crlf_app _ _ _ E), (number_value_app d x (find_crlf_cr _ _ E)).
    pose proof (find_crlf_length _ _ E). rewrite take_app_le by lia. destruct (ty =? REPLY_INTEGER); [|done].
    by destruct (number_value d).
  - unfold parse_bulk. destruct (find_from crlf d) as [n|] eqn:E; [|done].
    rewrite (find_crlf_app _ _ _ E), (number_value_app d x (find_crlf_cr _ _ E)). pose proof (find_crlf_length _ _ E).
    destruct (number_value d) as [v| |]; [|done|done]. destruct (Z.ltb_spec v 0); [done|].
    destruct (LONG_MAX <? v + 2); [done|].
    destruct (Z.leb_spec (Z.of_nat n + 2 + v + 2) (size d)) as [Hd|]; [|done].
    destruct (Z.leb_spec (Z.of_nat n + 2 + v + 2) (size (d ++ x))); [|rewrite size_app in *; pose proof (size_nonneg x); lia].
    rewrite drop_app_le' by lia. rewrite take_app_le; [done|]. rewrite length_drop. unfold size in Hd. lia.
  - unfold parse_multi. destruct (Nat.eqb lvl 8); [done|]. destruct (find_from crlf d) as [n|] eqn:E; [|done].
    rewrite (find_crlf_app _ _ _ E), (number_value_app d x (find_crlf_cr _ _ E)).
    destruct (number_value d); repeat case_match; done.
Qed.

Lemma skip_0 p : skip 0 p = p.
Proof. by destruct p. Qed.

(** More input does not change a complete item, and completes another as if it
    had been there from the start. *)
Lemma parse_item_app lvl ty d x : known ty ->
  parse_item lvl ty (d ++ x) =
    match parse_item lvl ty d with p_more ty' k => skip k (parse_item lvl ty' (drop k d ++ x)) | p => p end.
Proof.
  intros Hk. unfold parse_item at 1 2. destruct (Z.ltb_spec ty 0) as [Hneg|Hpos].
  - assert (ty = -1) as -> by (unfold known, REPLY_STRING, REPLY_ARRAY, REPLY_INTEGER, REPLY_STATUS, REPLY_ERROR in Hk; lia).
    destruct d as [|c d]; [by rewrite skip_0|]. cbn [app]. destruct (type_of_byte c) as [t|] eqn:Et; [|done].
    destruct (type_of_byte_known _ _ Et) as [Hkt Ht]. rewrite parse_typed_app.
    destruct (parse_typed lvl t d) eqn:E; try done. destruct (parse_typed_more _ _ _ _ _ Hkt ltac:(lia) E) as [-> ->].
    cbn [skip Nat.add drop]. unfold parse_item. destruct (Z.ltb_spec t 0); [lia|]. done.
  - rewrite parse_typed_app. destruct (parse_typed lvl ty d) eqn:E; try done.
    destruct (parse_typed_more _ _ _ _ _ Hk ltac:(lia) E) as [-> ->]. rewrite skip_0, drop_0. unfold parse_item.
    destruct (Z.ltb_spec ty 0); [lia|]. done.
Qed.

(** What waits for more: an item whose type is known has consumed its first byte
    only, and is not an array that would be refused. *)
Definition ready (lvl : nat) (ty : Z) : Prop := known ty /\ ~ (ty = REPLY_ARRAY /\ lvl = 8%nat).

Lemma parse_typed_used lvl ty d : known ty -> ty <> -1 ->
  match parse_typed lvl ty d with
  | p_more ty' k => ready lvl ty' /\ k = 0%nat
  | p_leaf _ k | p_array _ k => (2 <= k <= length d)%nat
  | _ => True
  end.
Proof.
  intros Hk Hne. destruct (parse_typed lvl ty d) eqn:Ep; try done.
  - destruct (parse_typed_more _ _ _ _ _ Hk Hne Ep) as [-> ->]. split; [|done]. split; [done|]. intros [-> ->]. done.
  - unfold parse_typed, parse_line, parse_bulk, parse_multi in Ep.
    destruct (find_from crlf d) as [n|] eqn:E; [pose proof (find_crlf_length _ _ E)|]; repeat case_match; try done;
      injection Ep as <- <-; try lia. apply Z.leb_le in H5. unfold size in H5. apply Z.ltb_ge in H3. lia.
  - unfold parse_typed, parse_line, parse_bulk, parse_multi in Ep.
    destruct (find_from crlf d) as [n'|] eqn:E; [pose proof (find_crlf_length _ _ E)|]; repeat case_match; try done;
      injection Ep as <- <-; lia.
Qed.

Lemma parse_item_used lvl ty d : ready lvl ty ->
  match parse_item lvl ty d with
  | p_more ty' k => ready lvl ty' /\ (k <= length d)%nat
  | p_leaf _ k | p_array _ k => (1 <= k <= length d)%nat
  | _ => True
  end.
Proof.
  intros Hr. pose proof Hr as [Hk _]. unfold parse_item. destruct (Z.ltb_spec ty 0) as [Hneg|Hpos].
  - destruct d as [|c d]; [split; [done|lia]|]. destruct (type_of_byte c) as [t|] eqn:Et; [|done].
    destruct (type_of_byte_known _ _ Et) as [Hkt Ht]. pose proof (parse_typed_used lvl t d Hkt ltac:(lia)) as H.
    destruct (parse_typed lvl t d); cbn [skip length] in *; try done; [destruct H as [H ->]; split; [done|]|..]; lia.
  - pose proof (parse_typed_used lvl ty d Hk ltac:(lia)) as H. destruct (parse_typed lvl ty d); try done; [|lia..].
    destruct H as [H ->]. split; [done | lia].
Qed.

(** ** Composition *)

Lemma ready_any lvl : ready lvl (-1).
Proof. split; [by left|]. by intros [? _]. Qed.

Lemma parse_loop_fuel f1 : forall f2 ls ty d, ready (length ls) ty -> (length d < f1)%nat -> (length d < f2)%nat ->
  parse_loop f1 ls ty d = parse_loop f2 ls ty d.
Proof.
  induction f1 as [|f1 IH]; intros [|f2] ls ty d Hr H1 H2; [lia..|]. cbn [parse_loop].
  pose proof (parse_item_used _ _ d Hr) as Hu. destruct (parse_item (length ls) ty d); try done; destruct (room ls); try done.
  - destruct (close ls (leaf_value l)); [|done]. apply IH; [apply ready_any | rewrite length_drop; lia..].
  - apply IH; [apply ready_any | rewrite length_drop; lia..].
Qed.

Lemma parse_loop_parse fuel ls ty d : ready (length ls) ty -> (length d < fuel)%nat -> parse_loop fuel ls ty d = parse ls ty d.
Proof. intros Hr Hf. apply parse_loop_fuel; [done|done|lia]. Qed.

(** What follows an item. *)
Definition after (ls : list level) (p : parsed) (d : bytes) : outcome :=
  match p with
  | p_more ty' k => o_wait ls ty' (drop k d)
  | p_unknown _ | p_deep => o_protocol
  | p_overflow => o_undefined signed_overflow
  | p_leaf l k =>
      if room ls then
        match close ls (leaf_value l) with inl ls' => parse ls' (-1) (drop k d) | inr v => o_reply v (drop k d) end
      else o_undefined null_pointer
  | p_array n k =>
      if room ls then parse (mk_level (wrap32 n) [] :: ls) (-1) (drop k d) else o_undefined null_pointer
  end.

Lemma parse_eq ls ty d : ready (length ls) ty -> parse ls ty d = after ls (parse_item (length ls) ty d) d.
Proof.
  intros Hr. pose proof (parse_item_used _ _ d Hr) as Hu. unfold parse. cbn [parse_loop]. unfold after.
  destruct (parse_item (length ls) ty d); try done; destruct (room ls); try done.
  - destruct (close ls (leaf_value l)); [|done]. apply parse_loop_parse; [apply ready_any | rewrite length_drop; lia].
  - apply parse_loop_parse; [apply ready_any | rewrite length_drop; lia].
Qed.

Lemma after_skip ls p k d : after ls (skip k p) d = after ls p (drop k d).
Proof. destruct p; cbn; by rewrite ?drop_drop. Qed.

(** Induction on the bytes that are left. *)
Lemma parse_ind (P : list level -> Z -> bytes -> Prop) :
  (forall ls ty d, ready (length ls) ty ->
    (forall ls' d', (length d' < length d)%nat -> P ls' (-1) d') -> P ls ty d) ->
  forall ls ty d, ready (length ls) ty -> P ls ty d.
Proof.
  intros HP ls ty d. remember (length d) as n eqn:E. revert ls ty d E.
  induction n as [n IH] using lt_wf_ind. intros ls ty d -> Hr. apply HP; [done|].
  intros ls' d' Hd. eapply IH; [exact Hd | done | apply ready_any].
Qed.

(** A waiting state is ready for more, its input is a suffix. *)
Lemma parse_wait ls ty d ls' ty' d' :
  ready (length ls) ty -> parse ls ty d = o_wait ls' ty' d' -> ready (length ls') ty' /\ (length d' <= length d)%nat.
Proof.
  intros Hr. revert Hr. intros Hr. revert ls' ty' d'. pattern ls, ty, d. revert ls ty d Hr. apply parse_ind.
  intros ls ty d Hr IH ls' ty' d'. rewrite parse_eq by done. pose proof (parse_item_used _ _ d Hr) as Hu.
  destruct (parse_item (length ls) ty d) as [ty1 k| | | |l k|n k]; cbn [after]; try done.
  - intros [= <- <- <-]. destruct Hu as [Hu1 Hu2]. split; [done|]. rewrite length_drop. lia.
  - destruct (room ls); [|done]. destruct (close ls (leaf_value l)) as [ls1|v]; [|done].
    intros E. apply IH in E as [E1 E2]; rewrite length_drop in *; [split; [done|lia] | lia].
  - destruct (room ls); [|done]. intros E. apply IH in E as [E1 E2]; rewrite length_drop in *; [split; [done|lia] | lia].
Qed.

Lemma parse_app ls ty d x : ready (length ls) ty -> parse ls ty (d ++ x) = outcome_app (parse ls ty d) x.
Proof.
  intros Hr. pattern ls, ty, d. revert ls ty d Hr. apply parse_ind. intros ls ty d Hr IH.
  rewrite !(parse_eq ls ty) by done. rewrite (parse_item_app _ _ _ _ (proj1 Hr)).
  pose proof (parse_item_used _ _ d Hr) as Hu.
  destruct (parse_item (length ls) ty d) as [ty1 k| | | |l k|n k]; try done.
  - destruct Hu as [Hu1 Hu2]. rewrite after_skip, drop_app_le' by done. cbn [after outcome_app]. by rewrite parse_eq.
  - cbn [after]. destruct (room ls); [|done]. rewrite drop_app_le' by lia.
    destruct (close ls (leaf_value l)) as [ls1|v]; [|done]. apply IH. rewrite length_drop. lia.
  - cbn [after]. destruct (room ls); [|done]. rewrite drop_app_le' by lia. apply IH. rewrite length_drop. lia.
Qed.

(** ** Encoding *)

Definition type_byte (ty : Z) : byte := if ty =? REPLY_STATUS then "+"%byte else "-"%byte.

Fixpoint encode (v : value) : bytes :=
  match v with
  | V_string ty s => if ty =? REPLY_STRING then bulk s else type_byte ty :: s ++ crlf
  | V_integer z => ":"%byte :: to_string z ++ crlf
  | V_nil => str "$-1" ++ crlf
  | V_array n vs =>
      "*"%byte :: to_string n ++ crlf ++ concat (map (fun o => match o with Some v => encode v | None => [] end) vs)
  end.

Definition encodes (vs : list value) : bytes := concat (map encode vs).

(** The values a server sends, [lvl] arrays deep: a status or an error is one
    line, an array holds as many elements as it says. *)
Fixpoint sendable (lvl : nat) (v : value) : bool :=
  match v with
  | V_string ty s =>
      if ty =? REPLY_STRING then size s <=? INT_MAX
      else ((ty =? REPLY_STATUS) || (ty =? REPLY_ERROR)) && negb (mem CR s)
  | V_integer z => (LONG_MIN <? z) && (z <=? LONG_MAX)
  | V_nil => true
  | V_array n vs =>
      negb (Nat.eqb lvl 8) && (n =? size vs) && (n <=? INT_MAX) &&
      forallb (fun o => match o with Some v => sendable (S lvl) v | None => false end) vs
  end.

(** *** Numbers *)

Lemma isdigit_not_special c : isdigit c = true -> c <> CR /\ (c =c "-"%byte) = false /\ (c =c "+"%byte) = false /\
  schar c - 48 = digit_val c /\ 0 <= digit_val c < 10.
Proof.
  intros Hc. unfold digit_val. rewrite Hc. pose proof (isdigit_digit_of c Hc) as Hd. unfold is_digit_of, digit_val in Hd. rewrite Hc in Hd.
  apply Z.ltb_lt in Hd. unfold isdigit in Hc. apply andb_true_iff in Hc as [H1%Z.leb_le H2%Z.leb_le].
  assert (schar c = uchar c) as -> by (unfold schar; destruct (Z.ltb_spec (uchar c) 128); lia).
  split_and!; [intros -> | apply eqc_false; intros -> | apply eqc_false; intros -> | |  | ]; try lia; try (vm_compute in H1; by destruct H1).
Qed.

Lemma digits_value_read ds t : forall a, 0 <= a -> Forall (fun c => isdigit c = true) ds -> read_digits 10 ds a <= LONG_MAX ->
  digits_value (ds ++ CR :: t) a = Ok (Some (read_digits 10 ds a)).
Proof.
  induction ds as [|c ds IH]; intros a Ha Hd Hm; [done|]. apply Forall_cons_iff in Hd as [Hc Hd]. cbn [app digits_value read_digits] in *.
  rewrite isdigit_digit_of in * by done. destruct (isdigit_not_special c Hc) as (Hcr & _ & _ & -> & Hv).
  destruct (eqc_spec c CR); [done|]. destruct (Z.leb_spec 0 (digit_val c)); [|lia]. destruct (Z.ltb_spec (digit_val c) 10); [|lia].
  cbn [andb]. pose proof (read_digits_ge ds (a * 10 + digit_val c) Hd ltac:(lia)).
  destruct (Z.ltb_spec LONG_MAX (a * 10)); [lia|]. destruct (Z.ltb_spec LONG_MAX (a * 10 + digit_val c)); [lia|].
  cbn [orb]. apply IH; [lia|done|done].
Qed.

Lemma digits_value_to_string n t : 0 <= n <= LONG_MAX -> digits_value (to_string n ++ CR :: t) 0 = Ok (Some n).
Proof.
  intros Hn. destruct (to_string_decimal n ltac:(lia)) as [Hd _ Hv]. specialize (Hv [] 0). rewrite app_nil_r in Hv. cbn in Hv.
  rewrite digits_value_read; [by rewrite Hv | lia | done | lia].
Qed.

Lemma to_string_neg z : z < 0 -> to_string z = "-"%byte :: to_string (- z).
Proof.
  intros Hz. unfold to_string. destruct (Z.ltb_spec z 0); [|lia]. by destruct (Z.ltb_spec (- z) 0); [lia|].
Qed.

Lemma number_value_to_string z t : LONG_MIN < z <= LONG_MAX -> number_value (to_string z ++ crlf ++ t) = Ok z.
Proof.
  unfold LONG_MIN, LONG_MAX. intros Hz. destruct (Z.ltb_spec z 0) as [Hneg|Hpos].
  - rewrite to_string_neg by done. cbn [app number_value]. rewrite eqc_refl.
    change (crlf ++ t) with (CR :: NL :: t). rewrite digits_value_to_string by (unfold LONG_MAX; lia). cbn [mbind res_bind]. f_equal. lia.
  - pose proof (digits_value_to_string z (NL :: t) ltac:(unfold LONG_MAX; lia)) as E.
    destruct (to_string_decimal z Hpos) as [Hd (c & ds & Ec & _) _]. rewrite Ec in *. apply Forall_cons_iff in Hd as [Hc _].
    destruct (isdigit_not_special c Hc) as (_ & H1 & H2 & _). cbn [app number_value]. rewrite H1, H2.
    change (c :: ds ++ crlf ++ t) with ((c :: ds) ++ CR :: NL :: t). rewrite E. cbn [mbind res_bind]. f_equal. lia.
Qed.

Lemma to_string_no_cr z : CR ∉ to_string z.
Proof.
  destruct (Z.ltb_spec z 0) as [Hneg|Hpos]; [rewrite to_string_neg by done; apply not_elem_of_cons; split; [done|]|];
    apply to_string_avoids; [lia | done | lia | done].
Qed.

Lemma find_crlf_line a t : CR ∉ a -> find_from crlf (a ++ crlf ++ t) = Some (length a).
Proof. intros Ha. change (crlf ++ t) with (CR :: NL :: t). by rewrite find_crlf_skip. Qed.

(** *** Reading what was printed *)

Lemma parse_item_known lvl c t d : type_of_byte c = Some t -> parse_item lvl (-1) (c :: d) = skip 1 (parse_typed lvl t d).
Proof. intros E. unfold parse_item. cbn [Z.ltb Z.compare]. by rewrite E. Qed.

Lemma drop_line (a t : bytes) : drop (length a + 2) (a ++ crlf ++ t) = t.
Proof. rewrite app_assoc. apply drop_app_length'. by rewrite length_app. Qed.

Lemma to_string_line z t : LONG_MIN < z <= LONG_MAX ->
  find_from crlf (to_string z ++ crlf ++ t) = Some (length (to_string z)) /\ number_value (to_string z ++ crlf ++ t) = Ok z /\
  drop (length (to_string z) + 2) (to_string z ++ crlf ++ t) = t.
Proof. intros Hz. split_and!; [apply find_crlf_line, to_string_no_cr | by apply number_value_to_string | apply drop_line]. Qed.

(** What [parse] does after a leaf. *)
Definition finished (ls : list level) (v : value) (x : bytes) : outcome :=
  match close ls v with inl ls' => parse ls' (-1) x | inr v => o_reply v x end.

Lemma parse_leaf ls d l k x :
  room ls = true -> parse_item (length ls) (-1) d = p_leaf l k -> drop k d = x -> parse ls (-1) d = finished ls (leaf_value l) x.
Proof. intros Hr E <-. rewrite parse_eq by apply ready_any. rewrite E. cbn [after]. by rewrite Hr. Qed.

Lemma parse_string ls ty s x : room ls = true -> sendable (length ls) (V_string ty s) = true ->
  parse ls (-1) (encode (V_string ty s) ++ x) = finished ls (V_string ty s) x.
Proof.
  intros Hr. cbn [sendable encode]. destruct (Z.eqb_spec ty REPLY_STRING) as [->|Hne]; intros Hs.
  - apply Z.leb_le in Hs. unfold INT_MAX in Hs. pose proof (size_nonneg s).
    unfold bulk. rewrite <- app_comm_cons, <- !app_assoc.
    destruct (to_string_line (size s) (s ++ crlf ++ x)) as (E1 & E2 & E3); [unfold LONG_MIN, LONG_MAX; lia|].
    eapply (parse_leaf _ _ (leaf_string REPLY_STRING s) (1 + (length (to_string (size s)) + 2 + length s + 2))); [done| |].
    + rewrite (parse_item_known _ _ REPLY_STRING) by done. cbn [parse_typed Z.eqb orb]. unfold parse_typed, parse_bulk. cbn [Z.eqb orb].
      assert (((REPLY_STRING =? REPLY_ERROR) || (REPLY_STRING =? REPLY_STATUS) || (REPLY_STRING =? REPLY_INTEGER)) = false) as -> by done.
      rewrite Z.eqb_refl, E1, E2, E3.
      destruct (Z.ltb_spec (size s) 0); [lia|]. destruct (Z.ltb_spec LONG_MAX (size s + 2)); [unfold LONG_MAX in *; lia|].
      rewrite !size_app. change (size crlf) with 2. pose proof (size_nonneg x).
      destruct (Z.leb_spec (Z.of_nat (length (to_string (size s))) + 2 + size s + 2) (size (to_string (size s)) + (2 + (size s + (2 + size x)))));
        [|unfold size in *; lia].
      rewrite size_to_nat, take_app_length. done.
    + cbn [Nat.add drop].
      replace (length (to_string (size s)) + 2 + length s + 2)%nat with ((length (to_string (size s)) + 2) + (length s + 2))%nat by lia.
      rewrite <- drop_drop, E3. apply drop_line.
  - apply andb_true_iff in Hs as [Hty Hcr]. rewrite negb_true_iff, mem_false in Hcr.
    rewrite <- app_comm_cons, <- app_assoc.
    assert (type_of_byte (type_byte ty) = Some ty /\ ty <> REPLY_INTEGER /\ (ty = REPLY_ERROR \/ ty = REPLY_STATUS)) as (Ht & Hi & Htt).
    { apply orb_true_iff in Hty as [->%Z.eqb_eq| ->%Z.eqb_eq]; (split_and!; [done|done|auto]). }
    eapply (parse_leaf _ _ (leaf_string ty s) (1 + (length s + 2))); [done| |apply drop_line].
    rewrite (parse_item_known _ _ ty) by done. unfold parse_typed.
    assert (((ty =? REPLY_ERROR) || (ty =? REPLY_STATUS) || (ty =? REPLY_INTEGER)) = true) as -> by (by destruct Htt as [->| ->]).
    unfold parse_line. rewrite find_crlf_line by done. destruct (Z.eqb_spec ty REPLY_INTEGER); [done|]. by rewrite take_app_length.
Qed.

Lemma parse_integer ls z x : room ls = true -> sendable (length ls) (V_integer z) = true ->
  parse ls (-1) (encode (V_integer z) ++ x) = finished ls (V_integer z) x.
Proof.
  intros Hr [Hz1%Z.ltb_lt Hz2%Z.leb_le]%andb_true_iff. cbn [encode]. rewrite <- app_comm_cons, <- app_assoc.
  destruct (to_string_line z x) as (E1 & E2 & E3); [lia|].
  eapply (parse_leaf _ _ (leaf_integer z) (1 + (length (to_string z) + 2))); [done| |exact E3].
  rewrite (parse_item_known _ _ REPLY_INTEGER) by done. unfold parse_typed, parse_line.
  rewrite E1, E2. done.
Qed.

Lemma parse_nil ls x : room ls = true -> parse ls (-1) (encode V_nil ++ x) = finished ls V_nil x.
Proof.
  intros Hr. eapply (parse_leaf _ _ leaf_nil 5); [done| |done].
  change (encode V_nil ++ x) with ("$"%byte :: (str "-1" ++ crlf ++ x)). rewrite (parse_item_known _ _ REPLY_STRING) by done. reflexivity.
Qed.

Lemma parse_elements ls n x rest : forall dn,
  (forall v y dn, v ∈ rest -> parse (mk_level n dn :: ls) (-1) (encode v ++ y) = finished (mk_level n dn :: ls) v y) ->
  size dn + size rest = n -> rest <> [] ->
  parse (mk_level n dn :: ls) (-1) (encodes rest ++ x) = finished ls (V_array n (map Some (dn ++ rest))) x.
Proof.
  induction rest as [|v rest IH]; intros dn Hp Hn Hne; [done|]. unfold encodes. cbn [map concat]. rewrite <- app_assoc.
  rewrite Hp by (by left). rewrite size_cons in Hn. unfold finished at 1. cbn [close l_count l_done].
  destruct (Z.eqb_spec (size dn + 1) n) as [E|E].
  - assert (rest = []) as -> by (apply size_zero; lia). done.
  - fold (encodes rest). rewrite IH.
    + by rewrite <- app_assoc.
    + intros v' y dn' Hin. apply Hp. by right.
    + rewrite size_app, size_cons, size_nil. lia.
    + intros ->. rewrite size_nil in Hn. lia.
Qed.

Lemma sendable_elements lvl vs :
  forallb (fun o => match o with Some v => sendable lvl v | None => false end) vs = true ->
  exists us, vs = map Some us /\ forall v, v ∈ us -> sendable lvl v = true.
Proof.
  induction vs as [|[v|] vs IH]; cbn [forallb]; intros Hs; [|apply andb_true_iff in Hs as [Hv Hs]|done].
  - exists []. split; [done|]. intros v Hv. by apply elem_of_nil in Hv.
  - destruct (IH Hs) as (us & -> & Hus). exists (v :: us). split; [done|]. intros u Hu.
    apply elem_of_cons in Hu as [->|Hu]; [done | by apply Hus].
Qed.

Lemma encode_elements us : concat (map (fun o => match o with Some v => encode v | None => [] end) (map Some us)) = encodes us.
Proof. unfold encodes. by rewrite map_map. Qed.

Lemma parse_encode v : forall ls x, room ls = true -> sendable (length ls) v = true ->
  parse ls (-1) (encode v ++ x) = finished ls v x.
Proof.
  induction v as [ty s|z| |n vs IH] using value_rect_elements; intros ls x Hr Hs.
  - by apply parse_string.
  - by apply parse_integer.
  - by apply parse_nil.
  - cbn [sendable] in Hs. apply andb_true_iff in Hs as [[[H8 ->%Z.eqb_eq]%andb_true_iff Hmax%Z.leb_le]%andb_true_iff Hs].
    rewrite negb_true_iff, Nat.eqb_neq in H8. destruct (sendable_elements _ _ Hs) as (us & -> & Hus).
    assert (size (map Some us) = size us) as E by (unfold size; by rewrite length_map). rewrite E in *. unfold INT_MAX in Hmax.
    pose proof (size_nonneg us) as H0. cbn [encode]. rewrite encode_elements, <- app_comm_cons, <- !app_assoc.
    destruct (to_string_line (size us) (encodes us ++ x)) as (E1 & E2 & E3); [unfold LONG_MIN, LONG_MAX; lia|].
    assert (parse_item (length ls) (-1) ("*"%byte :: to_string (size us) ++ crlf ++ encodes us ++ x) =
      if 0 <? size us then p_array (size us) (1 + (length (to_string (size us)) + 2))
      else p_leaf (leaf_array (size us)) (1 + (length (to_string (size us)) + 2))) as Ep.
    { rewrite (parse_item_known _ _ REPLY_ARRAY) by done. unfold parse_typed. cbn [Z.eqb orb].
      assert (((REPLY_ARRAY =? REPLY_ERROR) || (REPLY_ARRAY =? REPLY_STATUS) || (REPLY_ARRAY =? REPLY_INTEGER)) = false) as -> by done.
      assert ((REPLY_ARRAY =? REPLY_STRING) = false) as -> by done. unfold parse_multi.
      destruct (Nat.eqb_spec (length ls) 8); [done|]. rewrite E1, E2. destruct (Z.eqb_spec (size us) (-1)); [lia|].
      by destruct (0 <? size us). }
    destruct (Z.ltb_spec 0 (size us)) as [Hpos|Hz].
    + rewrite parse_eq by apply ready_any. rewrite Ep. cbn [after Nat.add drop]. rewrite Hr, E3.
      rewrite wrap32_id by (unfold INT_MAX; lia). rewrite parse_elements.
      * done.
      * intros v y dn Hin. apply (IH v); [by apply list_elem_of_fmap_2 | cbn; by apply Z.ltb_lt | by apply Hus].
      * rewrite size_nil. lia.
      * intros ->. vm_compute in Hpos. discriminate.
    + assert (us = []) as -> by (apply size_zero; lia). exact (parse_leaf ls _ (leaf_array 0) _ _ Hr Ep E3).
Qed.
