(* ===== verification/HiredisReaderRefine.v ===== *)
(** * The reply reader refines the protocol machine.

    The arrays open in the reader are the levels of the machine ([levels]), a
    finished tree of objects is a value ([tree_value]).  [redisReaderGetReply]
    computes what [parse] says of the unread bytes, up to refused allocations. *)
From S2P Require Import Prelude CxxString Sds SdsRefine SdsText HiredisFormat HiredisReply HiredisReader HiredisReaderInput HiredisReplyTree HiredisReaderSpec HiredisProtocol.

(** ** Replies as values *)

(** The value of an object, given its elements. *)
Definition reply_of (r : redisReply) (kids : list (option value)) : value :=
  if r.(r_type) =? REPLY_ARRAY then V_array r.(r_elements) kids
  else if r.(r_type) =? REPLY_INTEGER then V_integer r.(r_integer)
  else if r.(r_type) =? REPLY_NIL then V_nil
  else V_string r.(r_type) (default [] r.(r_str)).

Fixpoint tree_value (t : rtree) : value :=
  match t with rnode _ r kids => reply_of r (map (fun o => match o with Some t => Some (tree_value t) | None => None end) kids) end.

(** Reading a reply through its pointers, [fuel] arrays deep. *)
Fixpoint read_reply (fuel : nat) (h : heap) (p : nat) : option value :=
  match fuel with
  | O => None
  | S fuel' =>
      match h !! p with
      | Some (Some r) =>
          (fun vs => reply_of r vs) <$>
            mapM (fun o => match o with None => Some None | Some q => Some <$> read_reply fuel' h q end) (default [] r.(r_element))
      | _ => None
      end
  end.

Lemma read_tree t : forall fuel h, heap_has h t -> (length (nodes t) <= fuel)%nat -> read_reply fuel h (root t) = Some (tree_value t).
Proof.
  induction t as [p r kids IH] using rtree_rect_kids. intros [|fuel] h Hh Hf; [cbn in Hf; lia|].
  inversion Hh as [? ? ? Hp Hs Hk]; subst. cbn [root read_reply tree_value]. rewrite Hp.
  assert (default [] r.(r_element) = map (fmap root) kids) as ->.
  { unfold shape in Hs. destruct (r_element r); [by destruct Hs as (_ & _ & ->) | by destruct Hs as [-> _]]. }
  enough (mapM (fun o => match o with None => Some None | Some q => Some <$> read_reply fuel h q end) (map (fmap root) kids) =
    Some (map (fun o => match o with Some t => Some (tree_value t) | None => None end) kids)) as -> by done.
  assert (forall t, Some t ∈ kids -> read_reply fuel h (root t) = Some (tree_value t)) as Hkid.
  { intros t Ht. apply IH; [done | by apply Hk|]. pose proof (nodes_length p r kids t Ht). lia. }
  clear -Hkid. induction kids as [|o kids IHk]; [done|]. cbn [map].
  cbn [mapM]. rewrite IHk by (intros t Ht; apply Hkid; by right).
  destruct o as [t|]; [|done]. cbn [fmap option_fmap option_map]. rewrite Hkid by (by left). done.
Qed.

Lemma nodes_heap_length h t : heap_has h t -> NoDup (nodes t) -> (length (nodes t) <= length h)%nat.
Proof.
  intros Hh Hnd. rewrite <- (length_seq (length h) 0). apply submseteq_length, NoDup_submseteq; [done|].
  intros q Hq. apply elem_of_seq. pose proof (heap_has_lt _ _ _ Hh Hq). lia.
Qed.

(** ** Frames as levels *)

Definition frame_level (f : frame) (l : level) : Prop :=
  l.(l_done) = map tree_value f.(f_done) /\
  match f.(f_r).(r_element) with
  | None => l.(l_count) <= 0
  | Some _ => 0 < l.(l_count) /\ f.(f_r).(r_elements) = l.(l_count)
  end.

Definition levels (fs : list frame) (ls : list level) : Prop := Forall2 frame_level fs ls.

Lemma levels_length fs ls : levels fs ls -> length ls = length fs.
Proof. intros H. symmetry. by eapply Forall2_length. Qed.

Lemma levels_fill fs ls q : levels fs ls -> levels (fill_top fs q) ls.
Proof.
  intros H. destruct H as [|f l fs ls [H1 H2] H]; [constructor|]. constructor; [|done]. split; [by rewrite fill_done|].
  unfold fill. destruct (r_element (f_r f)) eqn:E; cbn; [done | by rewrite E].
Qed.

Lemma levels_room fs ls : levels fs ls -> (fillable fs <-> room ls = true).
Proof.
  intros H. destruct H as [|f l fs ls [H1 H2] H]; [done|]. cbn. destruct (r_element (f_r f)).
  - destruct (Z.ltb_spec 0 (l_count l)); [done | lia].
  - destruct (Z.ltb_spec 0 (l_count l)); [lia | done].
Qed.

Lemma tree_value_array p r ts : r.(r_type) = REPLY_ARRAY ->
  tree_value (rnode p r (map Some ts)) = V_array r.(r_elements) (map Some (map tree_value ts)).
Proof. intros E. cbn [tree_value]. unfold reply_of. rewrite E, Z.eqb_refl. by rewrite !map_map. Qed.

(** An array that can take elements. *)
Definition has_room (f : frame) : Prop := f.(f_r).(r_type) = REPLY_ARRAY /\ f.(f_r).(r_element) <> None.

Lemma ctx_has_room h fs q : ctx_has h fs (Some q) -> Forall has_room fs.
Proof.
  revert q. induction fs as [|f fs IH]; intros q Hc; [constructor|]. destruct Hc as (_ & [Hty Hsh] & _ & Hctx).
  constructor; [|by eapply IH]. split; [done|]. intros E. rewrite E in Hsh. by destruct Hsh.
Qed.

Lemma hole_has_room h fs q : hole h fs -> fillable fs -> Forall has_room (fill_top fs q).
Proof.
  intros [Hc _] Hf. destruct fs as [|f fs]; [constructor|]. destruct Hc as (_ & [Hty _] & _ & Hctx). cbn in Hf.
  constructor; [|by eapply ctx_has_room]. unfold has_room, fill. by destruct (r_element (f_r f)) eqn:E; cbn; rewrite ?E.
Qed.

Lemma close_settle fs : forall ls t, Forall has_room fs -> levels fs ls ->
  match settle fs t with
  | inl fs' => exists ls', close ls (tree_value t) = inl ls' /\ levels fs' ls'
  | inr t' => close ls (tree_value t) = inr (tree_value t')
  end.
Proof.
  induction fs as [|f fs IH]; intros ls t Hc Hl; inversion Hl as [|? l ? ls' [H1 H2] Hls]; subst; [done|].
  apply Forall_cons_iff in Hc as [[Hty Hne] Hctx]. cbn [settle close].
  destruct (r_element (f_r f)) as [v|] eqn:E; [|done]. destruct H2 as [H2 H3].
  assert (size (l_done l) = size (f_done f)) as -> by (rewrite H1; unfold size; by rewrite length_map).
  rewrite H3. destruct (Z.eqb_spec (size (f_done f) + 1) (l_count l)) as [Elast|Emore].
  - specialize (IH ls' (rnode (f_p f) (f_r f) (map Some (f_done f ++ [t]))) Hctx Hls).
    rewrite tree_value_array, (map_app tree_value), <- H1, H3 in IH by done. exact IH.
  - eexists. split; [reflexivity|]. constructor; [|done]. split; cbn; [by rewrite map_app, H1|]. by rewrite E.
Qed.

(** ** Items as values *)

Lemma parse_typed_leaf lvl ty d ty' s k : known ty -> parse_typed lvl ty d = p_leaf (leaf_string ty' s) k ->
  ty' = REPLY_STRING \/ ty' = REPLY_ERROR \/ ty' = REPLY_STATUS.
Proof.
  intros Hk. unfold parse_typed, parse_line, parse_bulk, parse_multi.
  destruct Hk as [->|[->|[->|[->|[->| ->]]]]]; cbn [Z.eqb orb]; repeat case_match; try done; intros [= <- <- <-]; auto.
Qed.

Lemma leaf_tree lvl ty d l k q : known ty -> parse_item lvl ty d = p_leaf l k ->
  tree_value (rnode q (leaf_reply l) (replicate (leaf_slots l) None)) = leaf_value l.
Proof.
  intros Hk Hp. destruct l as [ty' s|z| |n]; [|done|done|].
  - assert (ty' = REPLY_STRING \/ ty' = REPLY_ERROR \/ ty' = REPLY_STATUS) as [->|[->| ->]]; [|done..].
    unfold parse_item in Hp. destruct (ty <? 0); [|by eapply parse_typed_leaf].
    destruct d as [|c d]; [done|]. destruct (type_of_byte c) as [t|] eqn:Et; [|done].
    destruct (parse_typed lvl t d) eqn:Ept; cbn [skip] in Hp; try done. injection Hp as -> <-.
    eapply parse_typed_leaf; [|exact Ept]. by apply type_of_byte_known in Et as [? _].
  - cbn. unfold reply_of. cbn. f_equal. induction (Z.to_nat (wrap32 n)) as [|m IH]; [done|]. cbn. by rewrite IH.
Qed.

Lemma push_levels fs ls q n : levels fs ls ->
  levels (mk_frame q (array_reply (wrap32 n)) [] :: fill_top fs q) (mk_level (wrap32 n) [] :: ls).
Proof.
  intros H. constructor; [|by apply levels_fill]. split; [done|]. cbn. pose proof (wrap32_max n) as Hm. unfold INT_MAX in Hm.
  destruct (Z.ltb_spec 0 (wrap32 n)); [|done]. split; [done|]. by rewrite wrap64_id by lia.
Qed.

(** ** The loop *)

Section Refine.
Context `{Allocator}.

(** What a run of items leaves, for each outcome of the machine. *)
Definition ran (r : reader) (o : outcome) (m : res reader) : Prop :=
  match o with
  | o_wait ls ty d =>
      exists r' fs, m = Ok r' /\ holding r' fs ty /\ levels fs ls /\ unread r' d /\ same_buffer r r'
  | o_reply v d =>
      exists r' t, m = Ok r' /\ delivers r' t /\ tree_value t = v /\ unread r' d /\ same_buffer r r'
  | o_protocol => exists r', m = Ok r' /\ failed r' REDIS_ERR_PROTOCOL
  | o_undefined u => m = UB u
  end \/ (refused /\ exists r', m = Ok r' /\ failed r' REDIS_ERR_OOM).

Lemma ran_from r r' o m : same_buffer r r' -> ran r' o m -> ran r o m.
Proof.
  intros B [Hm|Hm]; [left | by right]. destruct o; try done.
  - destruct Hm as (r2 & fs & E & H1 & H2 & H3 & H4). exists r2, fs. eauto 6 using same_buffer_trans.
  - destruct Hm as (r2 & t & E & H1 & H2 & H3 & H4). exists r2, t. eauto 6 using same_buffer_trans.
Qed.

Lemma process_loop_spec fuel : forall f2 r fs ls ty d,
  holding r fs ty -> levels fs ls -> ready (length ls) ty -> unread r d -> (length d < fuel)%nat -> (length d < f2)%nat ->
  ran r (parse_loop f2 ls ty d) (process_loop fuel r).
Proof.
  induction fuel as [|fuel IH]; intros [|f2] r fs ls ty d Hr Hls Hready Hu Hf1 Hf2; [lia..|].
  cbn [process_loop parse_loop]. pose proof Hr as (_ & _ & (_ & Hridx & _) & _ & Hh & _).
  destruct (Z.leb_spec 0 (rd_ridx r)); [|lia]. pose proof Hready as [Hk _].
  pose proof (processItem_spec r fs ty d Hr Hu Hk) as Hitem. pose proof (parse_item_used _ _ d Hready) as Hused.
  pose proof (levels_length _ _ Hls) as Hlen. rewrite <- Hlen in Hitem.
  destruct (parse_item (length ls) ty d) as [ty1 k|c| | |l k|n k] eqn:Ep; cbn [item_outcome] in Hitem.
  - destruct Hitem as (r' & -> & H1 & H2 & H3). cbn [mbind res_bind]. left. exists r', fs. done.
  - destruct Hitem as (r' & -> & Hfail). left. by exists r'.
  - destruct Hitem as (r' & -> & Hfail). left. by exists r'.
  - rewrite Hitem. by left.
  - destruct Hitem as [(Hfill & r' & -> & [Hs Hu'] & B)|[(Href & r' & -> & Hfail)|[Hfill ->]]].
    + cbn [mbind res_bind]. rewrite (proj1 (levels_room _ _ Hls) Hfill). rewrite Z.eqb_refl.
      pose proof (close_settle _ ls (rnode (length (rd_heap r)) (leaf_reply l) (replicate (leaf_slots l) None))
        (hole_has_room _ _ (length (rd_heap r)) Hh Hfill) (levels_fill _ _ (length (rd_heap r)) Hls)) as Hclose.
      rewrite (leaf_tree (length ls) ty d l k) in Hclose by done. destruct (settle _ _) as [fs'|t].
      * destruct Hclose as (ls' & -> & Hls'). eapply ran_from; [exact B|].
        eapply IH; [exact Hs | done | apply ready_any | done | |]; rewrite length_drop; lia.
      * rewrite Hclose. left. exists r', t. split_and!; try done. destruct fuel as [|fuel]; [lia|]. cbn [process_loop].
        destruct Hs as (_ & _ & _ & -> & _). done.
    + right. split; [done|]. by exists r'.
    + destruct (room ls) eqn:Er; [by destruct Hfill; apply (levels_room _ _ Hls)|]. by left.
  - destruct Hitem as [(Hfill & r' & -> & [Hs Hu'] & B)|[(Href & r' & -> & Hfail)|[Hfill ->]]].
    + cbn [mbind res_bind]. rewrite (proj1 (levels_room _ _ Hls) Hfill). rewrite Z.eqb_refl.
      eapply ran_from; [exact B|]. eapply IH; [exact Hs | by apply push_levels | apply ready_any | done | |]; rewrite length_drop; lia.
    + right. split; [done|]. by exists r'.
    + destruct (room ls) eqn:Er; [by destruct Hfill; apply (levels_room _ _ Hls)|]. by left.
Qed.

(** ** Between calls *)

Definition idle (r : reader) : Prop :=
  r.(rd_err) = 0 /\ r.(rd_fn) = true /\ length r.(rd_rstack) = 9%nat /\ r.(rd_ridx) = -1 /\ r.(rd_reply) = None.

(** The reader is where the machine is: [ls] and [ty] of the partial reply, the
    unread bytes [d]. *)
Definition state (r : reader) (ls : list level) (ty : Z) (d : bytes) : Prop :=
  unread r d /\ ready (length ls) ty /\
  ((exists fs, holding r fs ty /\ levels fs ls) \/ (idle r /\ ls = [] /\ ty = -1)).

Lemma state_ready r ls ty d : state r ls ty d -> ready (length ls) ty.
Proof using. by intros (_ & ? & _). Qed.

Lemma state_err r ls ty d : state r ls ty d -> r.(rd_err) = 0 /\ r.(rd_fn) = true.
Proof using. intros (_ & _ & [(fs & (He & Hfn & _) & _)|[(He & Hfn & _) _]]); done. Qed.

(** Only the input changes. *)
Lemma state_input r ls ty d b pos len s p d' :
  state r ls ty d -> b = Some s -> repr s (p ++ d') -> pos = size p -> len = size (p ++ d') -> state (set_input r b pos len) ls ty d'.
Proof using.
  intros (_ & Hr & Hs) -> Hrep -> ->. split; [by exists s, p|]. split; [done|]. exact Hs.
Qed.

Lemma start_holding r : idle r -> holding (set_stack r (<[0%nat := root_task]> r.(rd_rstack)) 0) [] (-1).
Proof using.
  intros (He & Hfn & H9 & Hr & Hrep). split_and!; [done|done| | |by split; [|constructor]|done].
  - split_and!; [cbn; by rewrite length_insert | done | cbn; lia | |done]. exists root_task. cbn. by rewrite list_lookup_insert_eq by lia.
  - exists root_task. cbn. by rewrite list_lookup_insert_eq by lia.
Qed.

Lemma parse_empty ls ty : ready (length ls) ty -> parse ls ty [] = o_wait ls ty [].
Proof using.
  intros Hr. rewrite parse_eq by done. destruct Hr as [Hk H8].
  assert (parse_item (length ls) ty [] = p_more ty 0) as ->; [|done].
  unfold parse_item. destruct (ty <? 0) eqn:E; [done|]. unfold parse_typed, parse_line, parse_bulk, parse_multi.
  destruct Hk as [->|[->|[->|[->|[->| ->]]]]]; try done. cbn [Z.eqb orb].
  destruct (Nat.eqb_spec (length ls) 8); [by destruct H8 | done].
Qed.

(** *** [redisReaderGetReply] *)

(** [sdsrange(s, n, -1)] drops [n] bytes. *)
Lemma range_of_end p d : range_of (p ++ d) (size p) (-1) = d.
Proof using.
  unfold range_of, clip. rewrite size_app. pose proof (size_nonneg p). pose proof (size_nonneg d).
  destruct (Z.ltb_spec (size p) 0); [lia|]. cbn [Z.ltb Z.compare].
  destruct d as [|c d].
  - change (size (@nil byte)) with 0. destruct (Z.ltb_spec (Z.min (Z.max 0 (size p + 0 + -1)) (size p + 0 - 1)) (size p)); [done|lia].
  - rewrite size_cons in *. pose proof (size_nonneg d).
    destruct (Z.ltb_spec (Z.min (Z.max 0 (size p + (1 + size d) + -1)) (size p + (1 + size d) - 1)) (size p)); [lia|].
    rewrite size_to_nat, drop_app_length. apply take_ge. cbn [length]. unfold size in *. lia.
Qed.

(** The trimming of the buffer. *)
Lemma trim_spec r d : unread r d -> r.(rd_len) <= 2 ^ 29 ->
  exists b pos len, (if 1024 <=? r.(rd_pos) then
      let* s := live r.(rd_buf) in
      let* s := sdsrange s (wrap32 r.(rd_pos)) (-1) in
      Ok (set_input r (Some s) 0 (sdslen s))
    else Ok r) = Ok (set_input r b pos len) /\ (exists s p, b = Some s /\ repr s (p ++ d) /\ pos = size p /\ len = size (p ++ d)) /\
    len <= r.(rd_len).
Proof using.
  intros Hu Hlen. pose proof Hu as (s & p & E & Hr & Hp & Hl). destruct (Z.leb_spec 1024 (rd_pos r)) as [Hpos|Hpos].
  - rewrite E. cbn [live mbind res_bind]. rewrite Hl, size_app in Hlen. pose proof (size_nonneg p). pose proof (size_nonneg d).
    rewrite Hp, wrap32_id by (unfold INT_MAX; lia).
    destruct (sdsrange_spec s (p ++ d) (size p) (-1) Hr) as (s' & -> & Hr'); [unfold INT_MAX; lia..|].
    rewrite range_of_end in Hr'. cbn [mbind res_bind]. exists (Some s'), 0, (sdslen s'). rewrite (repr_sdslen _ _ Hr'). split; [done|].
    split; [by exists s', []|]. rewrite Hl, size_app. lia.
  - exists r.(rd_buf), r.(rd_pos), r.(rd_len). split; [by destruct r|]. split; [by exists s, p | lia].
Qed.

(** What a call returns and leaves, for each outcome of the machine. *)
Definition returns (r : reader) (o : outcome) (m : res (Z * option obj * reader)) : Prop :=
  match o with
  | o_wait ls ty d => exists r', m = Ok (REDIS_OK, None, r') /\ state r' ls ty d /\ r'.(rd_len) <= r.(rd_len)
  | o_reply v d => exists r' t, m = Ok (REDIS_OK, Some (obj_reply (root t)), r') /\ state r' [] (-1) d /\
      r'.(rd_len) <= r.(rd_len) /\ heap_has r'.(rd_heap) t /\ NoDup (nodes t) /\ tree_value t = v /\ r'.(rd_ridx) = -1
  | o_protocol => exists r', m = Ok (REDIS_ERR, None, r') /\ failed r' REDIS_ERR_PROTOCOL
  | o_undefined u => m = UB u
  end \/ (refused /\ exists r', m = Ok (REDIS_ERR, None, r') /\ failed r' REDIS_ERR_OOM).

Lemma getReply_spec r ls ty d : state r ls ty d -> r.(rd_len) <= 2 ^ 29 ->
  returns r (parse ls ty d) (redisReaderGetReply r).
Proof.
  intros Hs Hlen. destruct (state_err _ _ _ _ Hs) as [He Hfn]. unfold redisReaderGetReply. rewrite He. cbn [Z.eqb negb].
  destruct Hs as (Hu & Hready & Hs). pose proof Hu as (s & p & Eb & Hrep & Hp & Hl).
  destruct (Z.eqb_spec (rd_len r) 0) as [E0|E0].
  { assert (d = []) as ->. { apply size_zero. rewrite Hl, size_app in E0. pose proof (size_nonneg p). pose proof (size_nonneg d). lia. }
    rewrite parse_empty by done. left. exists r. split_and!; [done| |lia]. by split_and!. }
  set (r1 := if rd_ridx r =? -1 then _ else r).
  assert (exists fs, holding r1 fs ty /\ levels fs ls /\ same_buffer r r1 /\ unread r1 d) as (fs & Hh & Hls & B & Hu1).
  { unfold r1. destruct Hs as [(fs & Hh & Hls)|(Hi & -> & ->)].
    - pose proof Hh as (_ & _ & (_ & Hr & _) & _). destruct (Z.eqb_spec (rd_ridx r) (-1)); [lia|]. exists fs. done.
    - pose proof Hi as (_ & _ & _ & Hr & _). rewrite Hr. exists []. split_and!; [by apply start_holding | constructor | done..]. }
  assert (rd_len r1 = rd_len r) as El by apply B. assert (length d <= Z.to_nat (rd_len r1))%nat as Hfuel.
  { rewrite El, Hl, size_app. unfold size. lia. }
  pose proof (process_loop_spec (S (Z.to_nat (rd_len r1))) (S (length d)) r1 fs ls ty d Hh Hls Hready Hu1 ltac:(lia) ltac:(lia)) as Hran.
  fold (parse ls ty d) in Hran. set (m := process_loop _ r1) in *. clearbody m r1.
  assert (forall r2 code, failed r2 code -> code <> 0 ->
    (let* r := Ok r2 in if negb (rd_err r =? 0) then Ok (REDIS_ERR, None, r) else
      let* r := (if 1024 <=? rd_pos r then
          let* s := live (rd_buf r) in let* s := sdsrange s (wrap32 (rd_pos r)) (-1) in Ok (set_input r (Some s) 0 (sdslen s)) else Ok r) in
      if rd_ridx r =? -1 then Ok (REDIS_OK, rd_reply r, set_reply r None) else Ok (REDIS_OK, None, r)) = Ok (REDIS_ERR, None, r2)) as Hfailed.
  { intros r2 code (Hc & _) Hne. cbn [mbind res_bind]. rewrite Hc. by destruct (Z.eqb_spec code 0). }
  destruct Hran as [Hran|(Href & r2 & -> & Hf)]; [|right; split; [done|]; exists r2; split; [by eapply Hfailed|done]].
  left. destruct (parse ls ty d) as [ls' ty' d'|v d'| |u] eqn:Ep.
  - destruct Hran as (r2 & fs' & -> & Hh2 & Hls2 & Hu2 & B2 & B3 & B4). cbn [mbind res_bind].
    pose proof Hh2 as (-> & _ & (_ & Hr2 & _) & _). cbn [Z.eqb negb].
    destruct (trim_spec r2 d' Hu2) as (b & pos & len & -> & (s' & p' & -> & Hrep' & -> & ->) & Hle); [lia|]. cbn [mbind res_bind].
    change (rd_ridx (set_input r2 (Some s') (size p') (size (p' ++ d')))) with (rd_ridx r2).
    destruct (Z.eqb_spec (rd_ridx r2) (-1)); [lia|]. eexists. split_and!; [reflexivity| |cbn; lia].
    apply parse_wait in Ep as [Hready' _]; [|done]. split; [by exists s', p'|]. split; [done|]. left. by exists fs'.
  - destruct Hran as (r2 & t & -> & Hd2 & Hv & Hu2 & B2 & B3 & B4). cbn [mbind res_bind].
    destruct Hd2 as (H1 & H2 & H3 & H4 & H5 & H6 & H7). rewrite H1. cbn [Z.eqb negb].
    destruct (trim_spec r2 d' Hu2) as (b & pos & len & -> & (s' & p' & -> & Hrep' & -> & ->) & Hle); [lia|]. cbn [mbind res_bind].
    change (rd_ridx (set_input r2 (Some s') (size p') (size (p' ++ d')))) with (rd_ridx r2). rewrite H4. cbn [Z.eqb].
    eexists _, t. split; [by rewrite <- H7|]. split_and!; [|cbn; lia|done|done|done|done].
    split; [by exists s', p'|]. split; [apply ready_any|]. right. by split_and!.
  - destruct Hran as (r2 & -> & Hf). exists r2. split; [by eapply Hfailed|done].
  - by rewrite Hran.
Qed.

End Refine.
