(* ===== verification/HiredisStream.v ===== *)
(** * Streams of replies.

    A client feeds the reader what arrives and takes the replies that are
    complete, until there is none.  However the stream is cut, the client gets
    the replies that were sent, in order; whatever bytes arrive, the reader keeps
    its memory intact. *)
From S2P Require Import Prelude CxxString Sds SdsRefine SdsText HiredisFormat HiredisReply HiredisReader HiredisReaderInput HiredisReplyTree HiredisReaderSpec HiredisProtocol HiredisReaderRefine.

(** ** The client *)

Section Client.
Context `{Allocator}.

(** Takes replies until there is none: each is read and freed. *)
Fixpoint take_replies (fuel : nat) (r : reader) : res (list value * reader) :=
  match fuel with
  | O => UB no_fuel
  | S fuel' =>
      let* (c, o, r) := redisReaderGetReply r in
      match o with
      | None => Ok ([], r)
      | Some (obj_const _) => UB dangling_pointer
      | Some (obj_reply p) =>
          match read_reply (S (length r.(rd_heap))) r.(rd_heap) p with
          | None => UB dangling_pointer
          | Some v =>
              let* h := freeReplyObject (S (length r.(rd_heap))) r.(rd_heap) p in
              let* (vs, r) := take_replies fuel' (set_heap r h) in Ok (v :: vs, r)
          end
      end
  end.

(** The replies of the stream that arrives as [chunks]. *)
Fixpoint drive (r : reader) (chunks : list bytes) : res (list value * reader) :=
  match chunks with
  | [] => Ok ([], r)
  | x :: chunks' =>
      let* (c, r) := redisReaderFeed r x in
      let* (vs, r) := take_replies (S (Z.to_nat r.(rd_len))) r in
      let* (ws, r) := drive r chunks' in Ok (vs ++ ws, r)
  end.

(** From the creation of the reader to its end. *)
Definition session (chunks : list bytes) : res (option (list value * Z * heap)) :=
  let* o := redisReaderCreate [] in
  match o with
  | None => Ok None
  | Some r => let* (vs, r) := drive r chunks in let* h := redisReaderFree r in Ok (Some (vs, r.(rd_err), h))
  end.
End Client.

(** ** All the replies of some bytes *)

Fixpoint parse_all_loop (fuel : nat) (ls : list level) (ty : Z) (d : bytes) : list value * outcome :=
  match fuel with
  | O => ([], o_undefined no_fuel)
  | S fuel' =>
      match parse ls ty d with
      | o_reply v d' => let '(vs, o) := parse_all_loop fuel' [] (-1) d' in (v :: vs, o)
      | o => ([], o)
      end
  end.

Definition parse_all (ls : list level) (ty : Z) (d : bytes) : list value * outcome := parse_all_loop (S (length d)) ls ty d.

Lemma parse_reply ls ty d v d' : ready (length ls) ty -> parse ls ty d = o_reply v d' -> (length d' < length d)%nat.
Proof.
  intros Hr. revert v d'. pattern ls, ty, d. revert ls ty d Hr. apply parse_ind.
  intros ls ty d Hr IH v d'. rewrite parse_eq by done. pose proof (parse_item_used _ _ d Hr) as Hu.
  destruct (parse_item (length ls) ty d) as [ty1 k| | | |l k|n k]; cbn [after]; try done.
  - destruct (room ls); [|done]. destruct (close ls (leaf_value l)) as [ls1|v1].
    + intros E. apply IH in E; rewrite length_drop in *; lia.
    + intros [= <- <-]. rewrite length_drop. lia.
  - destruct (room ls); [|done]. intros E. apply IH in E; rewrite length_drop in *; lia.
Qed.

Lemma parse_all_fuel f1 : forall f2 ls ty d, ready (length ls) ty -> (length d < f1)%nat -> (length d < f2)%nat ->
  parse_all_loop f1 ls ty d = parse_all_loop f2 ls ty d.
Proof.
  induction f1 as [|f1 IH]; intros [|f2] ls ty d Hr H1 H2; [lia..|]. cbn [parse_all_loop].
  destruct (parse ls ty d) as [| v d' | |] eqn:E; try done. apply parse_reply in E; [|done].
  rewrite (IH f2 [] (-1) d'); [done | apply ready_any | lia | lia].
Qed.

Lemma parse_all_eq ls ty d : ready (length ls) ty ->
  parse_all ls ty d = match parse ls ty d with
    | o_reply v d' => let '(vs, o) := parse_all [] (-1) d' in (v :: vs, o) | o => ([], o) end.
Proof.
  intros Hr. unfold parse_all. cbn [parse_all_loop]. destruct (parse ls ty d) as [| v d' | |] eqn:E; try done.
  apply parse_reply in E; [|done]. by rewrite (parse_all_fuel (length d) (S (length d')) [] (-1) d') by (try apply ready_any; lia).
Qed.

(** More bytes after some. *)
Definition all_app (p : list value * outcome) (x : bytes) : list value * outcome :=
  match p.2 with
  | o_wait ls ty d => let '(ws, o) := parse_all ls ty (d ++ x) in (p.1 ++ ws, o)
  | o => (p.1, o)
  end.

Lemma parse_all_app ls ty d x : ready (length ls) ty -> parse_all ls ty (d ++ x) = all_app (parse_all ls ty d) x.
Proof.
  remember (length d) as n eqn:En. revert ls ty d En. induction n as [n IH] using lt_wf_ind. intros ls ty d -> Hr.
  rewrite !(parse_all_eq ls ty) by done. rewrite parse_app by done. destruct (parse ls ty d) as [ls' ty' d'|v d'| |u] eqn:E; try done.
  - cbn [outcome_app]. apply parse_wait in E as [Hr' _]; [|done]. unfold all_app. cbn [fst snd app].
    rewrite (parse_all_eq ls' ty') by done. by destruct (parse ls' ty' (d' ++ x)) as [| ? ? | |]; [|destruct (parse_all _ _ _)|..].
  - cbn [outcome_app]. apply parse_reply in E; [|done]. rewrite (IH (length d')) by (try apply ready_any; lia).
    destruct (parse_all [] (-1) d') as [vs o]. unfold all_app. cbn [fst snd]. destruct o; try done.
    by destruct (parse_all ls0 ty0 (d0 ++ x)).
Qed.

Lemma parse_all_wait ls ty d vs ls' ty' d' : ready (length ls) ty -> parse_all ls ty d = (vs, o_wait ls' ty' d') -> ready (length ls') ty'.
Proof.
  remember (length d) as n eqn:En. revert ls ty d vs En. induction n as [n IH] using lt_wf_ind. intros ls ty d vs -> Hr.
  rewrite parse_all_eq by done. destruct (parse ls ty d) as [ls1 ty1 d1|v d1| |u] eqn:E; try done.
  - intros [= <- <- <- <-]. by apply parse_wait in E as [? _].
  - apply parse_reply in E; [|done]. destruct (parse_all [] (-1) d1) as [ws o] eqn:E1. intros [= <- ->].
    eapply (IH (length d1)); [lia | done | apply ready_any | exact E1].
Qed.

Lemma parse_all_encodes vs : Forall (fun v => sendable 0 v = true) vs -> parse_all [] (-1) (encodes vs) = (vs, o_wait [] (-1) []).
Proof.
  induction 1 as [|v vs Hv Hvs IH]; [done|]. rewrite parse_all_eq by apply ready_any.
  unfold encodes. cbn [map concat]. rewrite parse_encode by done. unfold finished. cbn [close]. fold (encodes vs). by rewrite IH.
Qed.

Lemma parse_undefined ls ty d u : ready (length ls) ty -> parse ls ty d = o_undefined u -> u = signed_overflow \/ u = null_pointer.
Proof.
  intros Hr. revert u. pattern ls, ty, d. revert ls ty d Hr. apply parse_ind.
  intros ls ty d Hr IH u. rewrite parse_eq by done. pose proof (parse_item_used _ _ d Hr) as Hu.
  destruct (parse_item (length ls) ty d) as [ty1 k| | | |l k|n k]; cbn [after]; try done.
  - intros [= <-]. by left.
  - destruct (room ls); [|intros [= <-]; by right]. destruct (close ls (leaf_value l)) as [ls1|v]; [|done].
    apply IH. rewrite length_drop. lia.
  - destruct (room ls); [|intros [= <-]; by right]. apply IH. rewrite length_drop. lia.
Qed.

Lemma parse_all_outcome ls ty d : ready (length ls) ty ->
  match (parse_all ls ty d).2 with
  | o_reply _ _ => False
  | o_undefined u => u = signed_overflow \/ u = null_pointer
  | _ => True
  end.
Proof.
  remember (length d) as n eqn:En. revert ls ty d En. induction n as [n IH] using lt_wf_ind. intros ls ty d -> Hr.
  rewrite parse_all_eq by done. destruct (parse ls ty d) as [ls1 ty1 d1|v d1| |u] eqn:E; try done.
  - apply parse_reply in E; [|done]. specialize (IH (length d1) E [] (-1) d1 eq_refl (ready_any _)). by destruct (parse_all [] (-1) d1).
  - by eapply parse_undefined.
Qed.

(** ** The reader and the client *)

Section Stream.
Context `{Allocator}.

Lemma free_state r t d : state r [] (-1) d -> r.(rd_ridx) = -1 -> heap_has r.(rd_heap) t -> NoDup (nodes t) ->
  exists h, freeReplyObject (S (length r.(rd_heap))) r.(rd_heap) (root t) = Ok h /\ state (set_heap r h) [] (-1) d.
Proof using.
  intros (Hu & Hr & Hs) Hi Ht Hnd. destruct (free_tree_heap t _ Ht Hnd) as (h & E & _). exists h. split; [done|].
  split; [done|]. split; [done|]. right. destruct Hs as [(fs & (_ & _ & (_ & Hr' & _) & _) & _)|Hs]; [lia | done].
Qed.

Lemma create_state h : redisReaderCreate h = Ok None /\ refused \/
  exists r, redisReaderCreate h = Ok (Some r) /\ state r [] (-1) [] /\ r.(rd_len) = 0.
Proof.
  unfold redisReaderCreate, redisReaderCreateWithFunctions. destruct (alloc_ok reader_size) eqn:A; cbn [negb].
  - pose proof (sdsnewlen_spec [] ltac:(by rewrite size_nil)) as Hp. unfold post in Hp.
    change (sdsnewlen (Some []) (size [])) with sdsempty in Hp. destruct sdsempty as [[s|]| |]; cbn [mbind res_bind]; try done.
    + right. eexists. split; [reflexivity|]. split; [|done]. split; [by exists s, []|]. split; [apply ready_any|]. right. by split_and!.
    + left. split; [done|]. destruct Hp as (n & Hn). by exists n.
  - left. split; [done|]. by exists reader_size.
Qed.

(** An error in a state leaves nothing behind. *)
Lemma state_error r ls ty d code msg : state r ls ty d -> exists r', redisReaderSetError r code msg = Ok r' /\ failed r' code.
Proof using.
  intros (_ & _ & [(fs & (He & Hfn & (H9 & _) & _ & Hh & Hrep) & _)|[(He & Hfn & H9 & _ & Hrep) _]]).
  - by eapply redisReaderSetError_spec.
  - apply (redisReaderSetError_spec r []); [by split; [|constructor]|done..].
Qed.

Lemma free_reader r ls ty d : state r ls ty d -> exists h, redisReaderFree r = Ok h.
Proof using.
  intros (_ & _ & [(fs & (He & Hfn & _ & _ & [Hc Hnd] & Hrep) & _)|[(He & Hfn & H9 & _ & Hrep) _]]); unfold redisReaderFree; rewrite Hrep; [|by eexists].
  pose proof (plug_spec r.(rd_heap) fs None Hc ltac:(done) Hnd) as Hp. pose proof (plug_root fs None) as Hroot.
  destruct (base fs) as [p|]; [|by eexists]. cbn [fmap option_fmap option_map] in *. rewrite Hfn.
  destruct (plug fs None) as [t|]; [|done]. injection Hroot as <-. destruct Hp as [Ht Hnt].
  destruct (free_tree_heap t _ Ht Hnt) as (h & -> & _). by eexists.
Qed.

(** *** [redisReaderFeed] *)

Definition fed (r : reader) (ls : list level) (ty : Z) (d x : bytes) (m : res (Z * reader)) : Prop :=
  (exists r', m = Ok (REDIS_OK, r') /\ state r' ls ty (d ++ x) /\ r'.(rd_len) <= r.(rd_len) + size x) \/
  (refused /\ ((exists r', m = Ok (REDIS_ERR, r') /\ failed r' REDIS_ERR_OOM) \/ m = UB assertion_failed)).

Lemma cat_spec r ls ty d x bound : state r ls ty d -> r.(rd_len) <= bound -> bound + size x <= 2 ^ 29 ->
  let m := (let* s := live r.(rd_buf) in
    let* o := sdscatlen s x in
    match o with
    | None => let* r := redisReaderSetErrorOOM r in Ok (REDIS_ERR, r)
    | Some s => Ok (REDIS_OK, set_input r (Some s) r.(rd_pos) (sdslen s))
    end) in
  (exists r', m = Ok (REDIS_OK, r') /\ state r' ls ty (d ++ x) /\ r'.(rd_len) <= bound + size x) \/
  (refused /\ exists r', m = Ok (REDIS_ERR, r') /\ failed r' REDIS_ERR_OOM).
Proof.
  intros Hs Hb Hsz. pose proof Hs as ((s & p & Eb & Hr & Hp & Hl) & _). rewrite Eb. cbn [live mbind res_bind].
  pose proof (sdscatlen_spec s (p ++ d) x Hr ltac:(lia)) as Hc. unfold post in Hc.
  destruct (sdscatlen s x) as [[s'|]| |]; cbn [mbind res_bind]; try done.
  - left. eexists. split; [reflexivity|]. rewrite (repr_sdslen _ _ Hc), <- app_assoc, Hp. split.
    + eapply state_input; [done | done | by rewrite <- app_assoc in Hc | done | done].
    + cbn. rewrite Hl in Hb. rewrite !size_app in *. lia.
  - right. split; [by destruct Hc as (n & Hn); exists n|]. unfold redisReaderSetErrorOOM.
    destruct (state_error r ls ty d REDIS_ERR_OOM (str "Out of memory") Hs) as (r' & -> & Hf). by exists r'.
Qed.

Lemma feed_spec r ls ty d x : state r ls ty d -> r.(rd_len) + size x <= 2 ^ 29 -> fed r ls ty d x (redisReaderFeed r x).
Proof.
  intros Hs Hsz. destruct (state_err _ _ _ _ Hs) as [He Hfn]. unfold redisReaderFeed. rewrite He. cbn [Z.eqb negb].
  destruct (Z.leb_spec 1 (size x)) as [Hx|Hx].
  - pose proof Hs as ((s & p & Eb & Hr & Hp & Hl) & _). rewrite Eb at 1. cbn [live mbind res_bind].
    destruct ((rd_len r =? 0) && negb (rd_maxbuf r =? 0) && (rd_maxbuf r <? sdsavail s)) eqn:Ereset.
    + apply andb_true_iff in Ereset as [[E0%Z.eqb_eq _]%andb_true_iff _].
      assert (d = []) as ->.
      { apply size_zero. rewrite Hl, size_app in E0. pose proof (size_nonneg p). pose proof (size_nonneg d). lia. }
      pose proof (sdsnewlen_spec [] ltac:(by rewrite size_nil)) as Hnew. unfold post in Hnew.
      change (sdsnewlen (Some []) (size [])) with sdsempty in Hnew. destruct sdsempty as [[s'|]| |]; cbn [mbind res_bind]; try done.
      * assert (state (set_input r (Some s') 0 (rd_len r)) ls ty []) as Hs' by by eapply (state_input _ _ _ _ _ _ _ s' []).
        destruct (cat_spec _ ls ty [] x (rd_len r) Hs') as [Hc|[Hc1 Hc2]]; [cbn; lia|lia|by left|right; split; [done | by left]].
      * right. split; [by destruct Hnew as (n & Hn); exists n | by right].
    + destruct (cat_spec r ls ty d x (rd_len r) Hs) as [Hc|[Hc1 Hc2]]; [lia|lia|by left|right; split; [done | by left]].
  - left. exists r. split; [done|]. assert (x = []) as -> by (apply size_zero; pose proof (size_nonneg x); lia).
    rewrite app_nil_r. split; [done|]. change (size (@nil byte)) with 0. lia.
Qed.

(** *** The client *)

Definition ends (bound : Z) (p : list value * outcome) (m : res (list value * reader)) : Prop :=
  match p.2 with
  | o_wait ls ty d => exists r', m = Ok (p.1, r') /\ state r' ls ty d /\ r'.(rd_len) <= bound
  | o_protocol => exists r', m = Ok (p.1, r') /\ failed r' REDIS_ERR_PROTOCOL
  | o_undefined u => m = UB u
  | o_reply _ _ => False
  end \/ (refused /\ ((exists vs r', m = Ok (vs, r') /\ failed r' REDIS_ERR_OOM) \/ m = UB assertion_failed)).

Lemma ends_prefix bound us vs o m : ends bound (vs, o) m -> ends bound (us ++ vs, o) (let* (ws, r) := m in Ok (us ++ ws, r)).
Proof.
  intros [Hm|[Href Hm]]; [left | right; split; [done|]]; cbn [fst snd] in *.
  - destruct o; try done.
    + destruct Hm as (r' & -> & Hs). by exists r'.
    + destruct Hm as (r' & -> & Hs). by exists r'.
    + by rewrite Hm.
  - destruct Hm as [(ws & r' & -> & Hf)| ->]; [left; cbn; eauto | by right].
Qed.

Lemma take_replies_spec fuel : forall r ls ty d, state r ls ty d -> r.(rd_len) <= 2 ^ 29 -> (length d < fuel)%nat ->
  ends r.(rd_len) (parse_all ls ty d) (take_replies fuel r).
Proof.
  induction fuel as [|fuel IH]; intros r ls ty d Hs Hlen Hf; [lia|]. cbn [take_replies].
  pose proof (state_ready _ _ _ _ Hs) as Hready. rewrite parse_all_eq by done.
  destruct (getReply_spec r ls ty d Hs Hlen) as [Hg|(Href & r' & -> & Hg)]; [|right; split; [done|]; left; by exists [], r'].
  destruct (parse ls ty d) as [ls' ty' d'|v d'| |u] eqn:Ep.
  - destruct Hg as (r' & -> & Hs' & Hle). left. by exists r'.
  - destruct Hg as (r' & t & -> & Hs' & Hle & Ht & Hnd & Hv & Hi). cbn [mbind res_bind].
    rewrite (read_tree t) by (try done; pose proof (nodes_heap_length _ _ Ht Hnd); lia). rewrite Hv.
    destruct (free_state r' t d' Hs' Hi Ht Hnd) as (h & -> & Hs2). cbn [mbind res_bind].
    apply parse_reply in Ep; [|done]. specialize (IH (set_heap r' h) [] (-1) d' Hs2 ltac:(cbn; lia) ltac:(lia)).
    destruct (parse_all [] (-1) d') as [vs o]. apply (ends_prefix _ [v]) in IH. cbn [app] in IH.
    destruct IH as [IH|IH]; [left | by right]. cbn [fst snd] in *. destruct o; try done.
    destruct IH as (r2 & E & H1 & H2). exists r2. split_and!; [done|done|cbn in H2; lia].
  - destruct Hg as (r' & -> & Hf'). left. by exists r'.
  - rewrite Hg. by left.
Qed.

Lemma failed_drive r code chunks : failed r code -> code <> 0 -> drive r chunks = Ok ([], r).
Proof using.
  intros (He & _) Hc. induction chunks as [|x chunks IH]; [done|]. cbn [drive]. unfold redisReaderFeed. rewrite He.
  destruct (Z.eqb_spec code 0); [done|]. cbn [negb mbind res_bind take_replies]. unfold redisReaderGetReply. rewrite He.
  destruct (Z.eqb_spec code 0); [done|]. cbn [negb mbind res_bind]. by rewrite IH.
Qed.

Lemma state_size r ls ty d : state r ls ty d -> size d <= r.(rd_len).
Proof using. intros ((s & p & _ & _ & _ & ->) & _). rewrite size_app. pose proof (size_nonneg p). lia. Qed.

(** Nothing more to take. *)
Definition drained (ls : list level) (ty : Z) (d : bytes) : Prop := parse_all ls ty d = ([], o_wait ls ty d).

Lemma wait_drained ls ty d vs ls' ty' d' : ready (length ls) ty -> parse_all ls ty d = (vs, o_wait ls' ty' d') -> drained ls' ty' d'.
Proof using.
  intros Hr E. pose proof (parse_all_app ls ty d [] Hr) as H0. rewrite app_nil_r, E in H0. unfold all_app in H0. cbn [fst snd] in H0.
  unfold drained. rewrite app_nil_r in H0. destruct (parse_all ls' ty' d') as [ws o]. injection H0 as E1 <-.
  rewrite <- (app_nil_r vs) in E1 at 1. by apply app_inv_head in E1 as <-.
Qed.

Lemma drive_spec chunks : forall r ls ty d,
  state r ls ty d -> drained ls ty d -> r.(rd_len) + size (concat chunks) <= 2 ^ 29 ->
  ends (r.(rd_len) + size (concat chunks)) (parse_all ls ty (d ++ concat chunks)) (drive r chunks).
Proof.
  induction chunks as [|x chunks IH]; intros r ls ty d Hs Hdr Hlen; cbn [concat drive] in *.
  - rewrite app_nil_r, Hdr. left. exists r. split_and!; [done|done|]. change (size (@nil byte)) with 0. lia.
  - rewrite size_app in *. pose proof (size_nonneg (concat chunks)). pose proof (state_ready _ _ _ _ Hs) as Hready.
    destruct (feed_spec r ls ty d x Hs ltac:(lia)) as [(r1 & -> & Hs1 & Hle1)|[Href [(r1 & -> & Hf)| ->]]]; cbn [mbind res_bind].
    + rewrite app_assoc, parse_all_app by done. pose proof (state_size _ _ _ _ Hs1) as Hd1.
      pose proof (take_replies_spec (S (Z.to_nat (rd_len r1))) r1 ls ty (d ++ x) Hs1 ltac:(lia) ltac:(unfold size in Hd1; lia)) as Ht.
      destruct (parse_all ls ty (d ++ x)) as [vs o] eqn:Ep. unfold all_app. cbn [fst snd].
      destruct Ht as [Ht|[Href [(ws & r2 & -> & Hf)| ->]]]; cbn [fst snd mbind res_bind] in *.
      * destruct o as [ls' ty' d'| | |u]; try done.
        -- destruct Ht as (r2 & -> & Hs2 & Hle2). cbn [mbind res_bind].
           specialize (IH r2 ls' ty' d' Hs2 (wait_drained _ _ _ _ _ _ _ Hready Ep) ltac:(lia)).
           destruct (parse_all ls' ty' (d' ++ concat chunks)) as [ws o]. apply (ends_prefix _ vs) in IH.
           destruct IH as [IH|IH]; [left | by right]. cbn [fst snd] in *. destruct o; try done.
           destruct IH as (r3 & E & H1 & H2). exists r3. split_and!; [done|done|lia].
        -- destruct Ht as (r2 & -> & Hf). cbn [mbind res_bind]. rewrite (failed_drive _ _ _ Hf) by done.
           left. cbn. rewrite app_nil_r. by exists r2.
        -- rewrite Ht. by left.
      * right. split; [done|]. left. rewrite (failed_drive _ _ _ Hf) by done. cbn. by eexists _, r2.
      * right. split; [done | by right].
    + right. split; [done|]. left. destruct (failed_drive r1 REDIS_ERR_OOM (x :: chunks) Hf ltac:(done)) as [].
      cbn [take_replies]. unfold redisReaderGetReply. destruct Hf as (He & Hf). rewrite He. cbn [Z.eqb negb mbind res_bind REDIS_ERR_OOM].
      rewrite (failed_drive r1 REDIS_ERR_OOM) by done. cbn. by exists [], r1.
    + right. split; [done | by right].
Qed.

(** The whole session, whatever the bytes and the allocator. *)
Lemma session_spec chunks : size (concat chunks) <= 2 ^ 29 ->
  let '(vs, o) := parse_all [] (-1) (concat chunks) in
  (match o with
   | o_wait _ _ _ => exists h, session chunks = Ok (Some (vs, 0, h))
   | o_protocol => exists h, session chunks = Ok (Some (vs, REDIS_ERR_PROTOCOL, h))
   | o_undefined u => session chunks = UB u /\ (u = signed_overflow \/ u = null_pointer)
   | o_reply _ _ => False
   end) \/
  (refused /\ (session chunks = Ok None \/ session chunks = UB assertion_failed \/
     exists vs h, session chunks = Ok (Some (vs, REDIS_ERR_OOM, h)))).
Proof.
  intros Hsz. unfold session. pose proof (parse_all_outcome [] (-1) (concat chunks) (ready_any _)) as Ho.
  destruct (create_state []) as [[-> Href]|(r & -> & Hs & Hl)]; cbn [mbind res_bind].
  { destruct (parse_all _ _ _). right. split; [done | by left]. }
  pose proof (drive_spec chunks r [] (-1) [] Hs eq_refl ltac:(lia)) as Hd. cbn [app] in Hd.
  destruct (parse_all [] (-1) (concat chunks)) as [vs o]. cbn [fst snd] in *.
  assert (forall r' code, failed r' code -> redisReaderFree r' = Ok r'.(rd_heap) /\ rd_err r' = code) as Hfree.
  { intros r' code (He & _ & _ & _ & Hr & _). unfold redisReaderFree. by rewrite Hr. }
  destruct Hd as [Hd|[Href [(ws & r' & -> & Hf)| ->]]]; [left | right | right]; cbn [fst snd] in *.
  - destruct o; try done.
    + destruct Hd as (r' & -> & Hs' & _). cbn [mbind res_bind]. destruct (free_reader _ _ _ _ Hs') as (h & ->).
      destruct (state_err _ _ _ _ Hs') as [-> _]. by exists h.
    + destruct Hd as (r' & -> & Hf). cbn [mbind res_bind]. destruct (Hfree _ _ Hf) as [-> ->]. by eexists.
    + by rewrite Hd.
  - split; [done|]. right; right. cbn [mbind res_bind]. destruct (Hfree _ _ Hf) as [-> ->]. by eexists _, _.
  - split; [done|]. by right; left.
Qed.
End Stream.

(** ** Properties *)

(** C1: A server sends the replies [vs] - bulk strings, statuses, errors, integers,
    nil and arrays nested at most eight deep - in the protocol's encoding, and the
    bytes arrive in pieces cut anywhere.  The client that feeds each piece to the
    reader and takes the complete replies gets exactly [vs], in order, with the
    contents they had, and the reader ends without an error. *)
Theorem stream_delivered `{Allocator} vs chunks :
  granted -> forallb (sendable 0) vs = true -> concat chunks = encodes vs -> size (encodes vs) <= 2 ^ 29 ->
  exists h, session chunks = Ok (Some (vs, 0, h)).
Proof.
  intros Hg Hvs E Hsz. pose proof (session_spec chunks ltac:(by rewrite E)) as Hs. rewrite E, parse_all_encodes in Hs.
  - destruct Hs as [Hs|[Href _]]; [done | by destruct (granted_not_refused Hg)].
  - apply Forall_forall. intros v Hv. rewrite forallb_forall in Hvs. apply Hvs. by apply list_elem_of_In.
Qed.

Lemma stream_delivered_witness :
  exists h, session (H := fun _ => true) [str "*3"; crlf ++ str ":-12" ++ [CR]; NL :: str "$5" ++ crlf ++ str "he";
      str "llo" ++ crlf ++ str "*1" ++ crlf ++ str "$-1" ++ crlf ++ str "+OK"; crlf] =
    Ok (Some ([V_array 3 [Some (V_integer (-12)); Some (V_string REPLY_STRING (str "hello")); Some (V_array 1 [Some V_nil])];
      V_string REPLY_STATUS (str "OK")], 0, h)).
Proof. apply (stream_delivered (H := fun _ => true)); [done | by vm_compute | by vm_compute | by vm_compute]. Defined.

(** C3: The reader computes the protocol machine: for any bytes that arrive in any
    pieces, the client gets the replies that [parse_all] reads from the bytes taken
    together, and the reader waits, reports a protocol error, or runs into the
    undefined behaviour that [parse_all] predicts.  In particular the result does
    not depend on how the input was cut. *)
Theorem reader_refines_protocol `{Allocator} chunks :
  granted -> size (concat chunks) <= 2 ^ 29 ->
  let '(vs, o) := parse_all [] (-1) (concat chunks) in
  match o with
  | o_wait _ _ _ => exists h, session chunks = Ok (Some (vs, 0, h))
  | o_protocol => exists h, session chunks = Ok (Some (vs, REDIS_ERR_PROTOCOL, h))
  | o_undefined u => session chunks = UB u
  | o_reply _ _ => False
  end.
Proof.
  intros Hg Hsz. pose proof (session_spec chunks Hsz) as Hs. destruct (parse_all [] (-1) (concat chunks)) as [vs o].
  destruct Hs as [Hs|[Href _]]; [|by destruct (granted_not_refused Hg)]. destruct o; try done. by destruct Hs.
Qed.

Lemma reader_refines_protocol_witness :
  exists h, session (H := fun _ => true) [str "+OK" ++ crlf ++ str "!"; str "x"] =
    Ok (Some ([V_string REPLY_STATUS (str "OK")], REDIS_ERR_PROTOCOL, h)).
Proof.
  pose proof (reader_refines_protocol (H := fun _ => true) [str "+OK" ++ crlf ++ str "!"; str "x"] ltac:(done) ltac:(by vm_compute)) as Hs.
  vm_compute in Hs. exact Hs.
Defined.



Lemma digits_overflow ds t : forall a, 0 <= a <= LONG_MAX -> Forall (fun c => isdigit c = true) ds -> LONG_MAX < read_digits 10 ds a ->
  digits_value (ds ++ CR :: t) a = UB signed_overflow.
Proof.
  induction ds as [|c ds IH]; intros a Ha Hd Hm; [cbn in Hm; lia|]. apply Forall_cons_iff in Hd as [Hc Hd]. cbn [app digits_value read_digits] in *.
  rewrite isdigit_digit_of in * by done. destruct (isdigit_not_special c Hc) as (Hcr & _ & _ & -> & Hv).
  destruct (eqc_spec c CR); [done|]. destruct (Z.leb_spec 0 (digit_val c)); [|lia]. destruct (Z.ltb_spec (digit_val c) 10); [|lia].
  cbn [andb]. destruct (Z.ltb_spec LONG_MAX (a * 10)); [done|]. destruct (Z.ltb_spec LONG_MAX (a * 10 + digit_val c)); [done|].
  cbn [orb]. apply IH; [lia|done|done].
Qed.

Lemma number_overflow z t : z <= LONG_MIN \/ LONG_MAX < z -> number_value (to_string z ++ crlf ++ t) = UB signed_overflow.
Proof.
  unfold LONG_MIN, LONG_MAX. change (crlf ++ t) with (CR :: NL :: t).
  assert (forall n, LONG_MAX < n -> digits_value (to_string n ++ CR :: NL :: t) 0 = UB signed_overflow) as Hd.
  { intros n Hn. unfold LONG_MAX in Hn. destruct (to_string_decimal n ltac:(lia)) as [Hd _ Hv]. specialize (Hv [] 0). rewrite app_nil_r in Hv. cbn in Hv.
    apply digits_overflow; [unfold LONG_MAX; lia | done|]. rewrite Hv. unfold LONG_MAX. lia. }
  intros [Hz|Hz].
  - rewrite to_string_neg by lia. cbn [app number_value]. rewrite eqc_refl, Hd by (unfold LONG_MAX; lia). done.
  - pose proof (Hd z Hz) as E. destruct (to_string_decimal z ltac:(lia)) as [Hf (c & ds & Ec & _) _]. rewrite Ec in *.
    apply Forall_cons_iff in Hf as [Hc _]. destruct (isdigit_not_special c Hc) as (_ & H1 & H2 & _).
    cbn [app number_value]. rewrite H1, H2. change (c :: ds ++ CR :: NL :: t) with ((c :: ds) ++ CR :: NL :: t). by rewrite E.
Qed.

(** The integer replies the reader can deliver: every decimal number from
    -2^63+1 to 2^63-1 is delivered as it is, every number outside overflows a
    [long long] - so does -2^63, though it has a [long long]. *)
Theorem integer_reply_bounds `{Allocator} z chunks :
  granted -> concat chunks = ":"%byte :: to_string z ++ crlf -> size (concat chunks) <= 2 ^ 29 ->
  if (LONG_MIN <? z) && (z <=? LONG_MAX) then exists h, session chunks = Ok (Some ([V_integer z], 0, h))
  else session chunks = UB signed_overflow.
Proof.
  intros Hg E Hsz. pose proof (session_spec chunks Hsz) as Hs. rewrite E in Hs.
  destruct ((LONG_MIN <? z) && (z <=? LONG_MAX)) eqn:Hz.
  - pose proof (parse_all_encodes [V_integer z]) as Hp. unfold encodes in Hp. cbn [map concat encode] in Hp. rewrite app_nil_r in Hp.
    rewrite Hp in Hs by (constructor; [done | constructor]).
    destruct Hs as [Hs|[Href _]]; [done | by destruct (granted_not_refused Hg)].
  - assert (parse_all [] (-1) (":"%byte :: to_string z ++ crlf) = ([], o_undefined signed_overflow)) as Hp.
    { rewrite parse_all_eq, parse_eq by apply ready_any. rewrite (parse_item_known _ _ REPLY_INTEGER) by done.
      unfold parse_typed, parse_line. cbn [Z.eqb orb]. rewrite <- (app_nil_r crlf), find_crlf_line by apply to_string_no_cr.
      rewrite number_overflow; [done|]. apply andb_false_iff in Hz as [Hz%Z.ltb_ge|Hz%Z.leb_gt]; lia. }
    rewrite Hp in Hs. destruct Hs as [[Hs _]|[Href _]]; [done | by destruct (granted_not_refused Hg)].
Qed.

Lemma integer_reply_bounds_witness :
  session (H := fun _ => true) [str ":-92233720"; str "36854775808" ++ crlf] = UB signed_overflow.
Proof.
  apply (integer_reply_bounds (H := fun _ => true) LONG_MIN [str ":-92233720"; str "36854775808" ++ crlf]); [done | by vm_compute | by vm_compute].
Defined.

(** An array count that does not fit an [int] is truncated: the elements of an
    array of 2^32 go nowhere. *)
Example count_truncated :
  session (H := fun _ => true) [str "*4294967296" ++ crlf ++ str ":1" ++ crlf] = UB null_pointer.
Proof. by vm_compute. Qed.

(** A negative count other than -1 gives an array object without elements whose
    length is huge. *)
Example count_negative : exists h,
  session (H := fun _ => true) [str "*-2" ++ crlf] = Ok (Some ([V_array (2 ^ 64 - 2) []], 0, h)).
Proof. eexists. by vm_compute. Qed.
