(* ===== verification/Dict.v ===== *)
(** * [src/win/hiredis/dict.h], [src/win/hiredis/dict.c]: the chained hash table
    of the asynchronous API.

    A chain is the list of its entries, the table a vector of chains; [None] is
    [NULL].  The destructors' calls are logged in [destroyed].  A table refines a
    finite map, and every key and value it took is in the table or was destroyed,
    once. *)
From S2P Require Import Prelude CxxString Sds.

(** [dictType]; [dictCompareHashKeys] is the comparison with its default. *)
Class dictType (K V : Type) : Type := {
  hashFunction : K -> Z;
  keyDup : option (K -> res K);
  valDup : option (V -> res V);
  dictCompareHashKeys : K -> K -> bool }.

Definition DICT_OK : Z := 0.
Definition DICT_ERR : Z := 1.
Definition DICT_HT_INITIAL_SIZE : Z := 4.

(** [dictGenHashFunction] *)
Definition dictGenHashFunction (buf : bytes) : Z :=
  fold_left (fun hash c => uwrap32 (uwrap32 (uwrap32 (Z.shiftl hash 5) + hash) + uchar c)) buf 5381.

Fixpoint next_power_loop (fuel : nat) (i size : Z) : res Z :=
  match fuel with
  | O => UB no_fuel
  | S fuel' => if size <=? i then Ok i else next_power_loop fuel' (wrap64 (i * 2)) size
  end.

(** [_dictNextPower]; 64 doublings leave the range of [unsigned long]. *)
Definition dictNextPower (size : Z) : res Z :=
  if LONG_MAX <=? size then Ok LONG_MAX else next_power_loop 64 DICT_HT_INITIAL_SIZE size.

Section Dict.
Context {K V : Type} `{dictType K V} `{Allocator}.

Abbreviation chain := (list (K * V)).

(** [struct dict] *)
Record dict : Type := mk_dict {
  table : option (list chain); d_size : Z; sizemask : Z; used : Z; destroyed : list (K + V) }.

Definition set_table (d : dict) (t : option (list chain)) : dict := mk_dict t d.(d_size) d.(sizemask) d.(used) d.(destroyed).
Definition set_used (d : dict) (n : Z) : dict := mk_dict d.(table) d.(d_size) d.(sizemask) (wrap64 n) d.(destroyed).
Definition destroy (d : dict) (l : list (K + V)) : dict := mk_dict d.(table) d.(d_size) d.(sizemask) d.(used) (d.(destroyed) ++ l).

Definition dictReset (d : dict) : dict := mk_dict None 0 0 0 d.(destroyed).
Definition empty_dict : dict := mk_dict None 0 0 0 [].

Definition dict_size : Z := 48.

(** The allocation is not checked. *)
Definition dictCreate : res dict := if alloc_ok dict_size then Ok empty_dict else UB null_pointer.

Definition entry_size : Z := 24.

(** [ht->table[i]] *)
Definition bucket (d : dict) (i : Z) : res chain :=
  match d.(table) with
  | None => UB null_pointer
  | Some t => if 0 <=? i then match t !! Z.to_nat i with Some b => Ok b | None => UB index_out_of_bounds end
              else UB index_out_of_bounds
  end.

(** [ht->table[i] = b], after [bucket d i]. *)
Definition put_bucket (d : dict) (i : Z) (b : chain) : dict :=
  set_table d ((fun t => <[Z.to_nat i := b]> t) <$> d.(table)).

(** [dictHashKey(ht, key) & ht->sizemask], an [unsigned int]. *)
Definition slot (d : dict) (key : K) : Z := uwrap32 (Z.land (hashFunction key) d.(sizemask)).

(** ** Growing *)

(** The entries of a chain move to the front of their new chains; [u] is the old
    table's [used]. *)
Fixpoint move_chain (he : chain) (n : dict) (u : Z) : res (dict * Z) :=
  match he with
  | [] => Ok (n, u)
  | e :: he' =>
      let h := slot n e.1 in
      let* b := bucket n h in
      move_chain he' (put_bucket n h (e :: b)) (wrap64 (u - 1))
  end.

(** [for (i = 0; i < ht->size && ht->used > 0; i++)]; [t] is the table from [i]. *)
Fixpoint move_table (t : list chain) (i size : Z) (n : dict) (u : Z) : res (dict * Z) :=
  if (i <? size) && (0 <? u) then
    match t with
    | [] => UB index_out_of_bounds
    | he :: t' => let* (n, u) := move_chain he n u in move_table t' (i + 1) size n u
    end
  else Ok (n, u).

(** The allocation of the new table is not checked. *)
Definition dictExpand (d : dict) (size : Z) : res (Z * dict) :=
  let* realsize := dictNextPower size in
  if size <? d.(used) then Ok (DICT_ERR, d)
  else
    let t := if alloc_ok (realsize * 8) then Some (replicate (Z.to_nat realsize) []) else None in
    let n := mk_dict t realsize (wrap64 (realsize - 1)) d.(used) d.(destroyed) in
    let* (n, u) := move_table (default [] d.(table)) 0 d.(d_size) n d.(used) in
    if negb (u =? 0) then UB assertion_failed else Ok (DICT_OK, n).

Definition dictExpandIfNeeded (d : dict) : res (Z * dict) :=
  if d.(d_size) =? 0 then dictExpand d DICT_HT_INITIAL_SIZE
  else if d.(used) =? d.(d_size) then dictExpand d (wrap64 (d.(d_size) * 2))
  else Ok (DICT_OK, d).

(** ** Searching *)

Fixpoint find_in (key : K) (he : chain) : option (K * V) :=
  match he with
  | [] => None
  | e :: he' => if dictCompareHashKeys key e.1 then Some e else find_in key he'
  end.

Definition dictFind (d : dict) (key : K) : res (option (K * V)) :=
  if d.(d_size) =? 0 then Ok None
  else let* he := bucket d (slot d key) in Ok (find_in key he).

(** [_dictKeyIndex]: the slot as an [int], or -1. *)
Definition dictKeyIndex (d : dict) (key : K) : res (Z * dict) :=
  let* (r, d) := dictExpandIfNeeded d in
  if r =? DICT_ERR then Ok (-1, d)
  else
    let h := slot d key in
    let* he := bucket d h in
    match find_in key he with Some _ => Ok (-1, d) | None => Ok (wrap32 h, d) end.

(** ** Changing *)

Definition dup {A} (f : option (A -> res A)) (x : A) : res A := match f with Some f => f x | None => Ok x end.

Definition dictAdd (d : dict) (key : K) (val : V) : res (Z * dict) :=
  let* (index, d) := dictKeyIndex d key in
  if index =? -1 then Ok (DICT_ERR, d)
  else if negb (alloc_ok entry_size) then UB null_pointer
  else
    let* he := bucket d index in
    let* key := dup keyDup key in
    let* val := dup valDup val in
    Ok (DICT_OK, set_used (put_bucket d index ((key, val) :: he)) (d.(used) + 1)).

(** The write through the pointer [dictFind] returned. *)
Fixpoint set_in (key : K) (val : V) (he : chain) : chain :=
  match he with
  | [] => []
  | e :: he' => if dictCompareHashKeys key e.1 then (e.1, val) :: he' else e :: set_in key val he'
  end.

Definition dictReplace (d : dict) (key : K) (val : V) : res (Z * dict) :=
  let* (r, d) := dictAdd d key val in
  if r =? DICT_OK then Ok (1, d)
  else
    let* o := dictFind d key in
    match o with
    | None => UB null_pointer
    | Some (_, old) =>
        let* val := dup valDup val in
        let* he := bucket d (slot d key) in
        Ok (0, destroy (put_bucket d (slot d key) (set_in key val he)) [inr old])
    end.

(** The chain without the first entry of the key, and that entry. *)
Fixpoint unlink (key : K) (he : chain) : option ((K * V) * chain) :=
  match he with
  | [] => None
  | e :: he' =>
      if dictCompareHashKeys key e.1 then Some (e, he')
      else match unlink key he' with Some (x, l) => Some (x, e :: l) | None => None end
  end.

Definition dictDelete (d : dict) (key : K) : res (Z * dict) :=
  if d.(d_size) =? 0 then Ok (DICT_ERR, d)
  else
    let h := slot d key in
    let* he := bucket d h in
    match unlink key he with
    | Some (e, he') => Ok (DICT_OK, set_used (destroy (put_bucket d h he') [inl e.1; inr e.2]) (d.(used) - 1))
    | None => Ok (DICT_ERR, d)
    end.

(** [_dictClear]: the destructors run chain by chain. *)
Fixpoint clear_chain (he : chain) (u : Z) : list (K + V) * Z :=
  match he with
  | [] => ([], u)
  | e :: he' => let '(l, u) := clear_chain he' (wrap64 (u - 1)) in (inl e.1 :: inr e.2 :: l, u)
  end.

Fixpoint clear_table (t : list chain) (i size u : Z) : res (list (K + V)) :=
  if (i <? size) && (0 <? u) then
    match t with
    | [] => UB index_out_of_bounds
    | he :: t' => let '(l, u) := clear_chain he u in let* l' := clear_table t' (i + 1) size u in Ok (l ++ l')
    end
  else Ok [].

Definition dictClear (d : dict) : res dict :=
  let* l := clear_table (default [] d.(table)) 0 d.(d_size) d.(used) in Ok (dictReset (destroy d l)).

(** ** Iterating *)

(** [dictIterator]: the index, and the chain after the entry returned last, when
    there is one. *)
Record dictIterator : Type := mk_iter { it_index : Z; it_next : option chain }.

Definition new_iterator : dictIterator := mk_iter (-1) None.

Definition iterator_size : Z := 32.

(** The allocation is not checked. *)
Definition dictGetIterator : res dictIterator := if alloc_ok iterator_size then Ok new_iterator else UB null_pointer.

Fixpoint dictNext_loop (fuel : nat) (d : dict) (it : dictIterator) : res (option (K * V) * dictIterator) :=
  match fuel with
  | O => UB no_fuel
  | S fuel' =>
      match it.(it_next) with
      | None | Some [] =>
          (* entry == NULL, at the start or after the end of a chain *)
          let* i := int_result (it.(it_index) + 1) in
          if wrap32 d.(d_size) <=? i then Ok (None, mk_iter i None)
          else
            let* he := bucket d i in
            match he with
            | [] => dictNext_loop fuel' d (mk_iter i None)
            | e :: he' => Ok (Some e, mk_iter i (Some he'))
            end
      | Some (e :: he') => Ok (Some e, mk_iter it.(it_index) (Some he'))
      end
  end.

Definition dictNext (d : dict) (it : dictIterator) : res (option (K * V) * dictIterator) :=
  dictNext_loop (S (Z.to_nat d.(d_size))) d it.
End Dict.
Arguments dict : clear implicits.
Arguments dictIterator : clear implicits.

(** ** The dictionary of callbacks

    [callbackDict] of [src/win/hiredis/async.c]: the keys are the dynamic strings
    of channel names, the values are copied. *)
Section Callbacks.
Context {V : Type} `{Allocator}.

Definition callbackHash (key : bytes) : Z := dictGenHashFunction key.

Definition callback_size : Z := 24.

(** The copy is not checked. *)
Definition callbackValDup (src : V) : res V := if alloc_ok callback_size then Ok src else UB null_pointer.

Definition callbackKeyCompare (key1 key2 : bytes) : bool :=
  if negb (size key1 =? size key2) then false else memcmp key1 key2 =? 0.

#[export] Instance callbackDict : dictType bytes V :=
  {| hashFunction := callbackHash; keyDup := None; valDup := Some callbackValDup; dictCompareHashKeys := callbackKeyCompare |}.
End Callbacks.
