(* ===== verification/DictSpec.v ===== *)
(** * The hash table as a finite map.

    [wf] is the invariant of a table: a power of two of chains, each entry in the
    chain of its hash, no key twice, [used] entries.  [represents d m] says that
    the table holds the map [m]; every operation is the map operation, and the
    destructors get exactly what leaves the table. *)
From S2P Require Import Prelude CxxString Sds Dict.

(** What the callbacks of a dictionary promise: comparing is equality, a hash is
    an [unsigned int], copies are equal to what they copy. *)
Class LawfulDict (K V : Type) `{EqDecision K} `{!dictType K V} : Prop := {
  compare_eq : forall a b : K, dictCompareHashKeys a b = bool_decide (a = b);
  hash_range : forall k : K, 0 <= hashFunction k < 2 ^ 32;
  key_dup : forall k : K, dup keyDup k = Ok k;
  val_dup : forall v : V, dup valDup v = Ok v }.

(** ** Powers of two *)

Lemma next_power_loop_spec fuel : forall n size, 2 <= n -> size <= 2 ^ 62 -> n <= 63 -> (Z.to_nat (63 - n) < fuel)%nat ->
  (n = 2 \/ 2 ^ (n - 1) < size) ->
  exists k, next_power_loop fuel (2 ^ n) size = Ok (2 ^ k) /\ 2 <= k <= 62 /\ size <= 2 ^ k /\ (k = 2 \/ 2 ^ (k - 1) < size).
Proof.
  induction fuel as [|fuel IH]; intros n size Hn Hs Hn2 Hf Hlow; [lia|]. cbn [next_power_loop].
  destruct (Z.leb_spec size (2 ^ n)) as [Hle|Hgt].
  - exists n. split_and!; try done. destruct Hlow as [->|Hlow]; [lia|].
    assert (2 ^ (n - 1) < 2 ^ 62) as Hp by lia. apply Z.pow_lt_mono_r_iff in Hp; lia.
  - assert (2 ^ n < 2 ^ 62) as Hp by lia. apply Z.pow_lt_mono_r_iff in Hp; [|lia|lia].
    assert (wrap64 (2 ^ n * 2) = 2 ^ (n + 1)) as ->.
    { rewrite Z.pow_add_r by lia. change (2 ^ 1) with 2. apply wrap64_id. lia. }
    apply IH; [lia|lia|lia|lia|]. right. by replace (n + 1 - 1) with n by lia.
Qed.

(** The capacity is the smallest power of two, at least 4, that is large enough. *)
Lemma dictNextPower_spec size : size <= 2 ^ 62 ->
  exists k, dictNextPower size = Ok (2 ^ k) /\ 2 <= k <= 62 /\ size <= 2 ^ k /\ (k = 2 \/ 2 ^ (k - 1) < size).
Proof.
  intros Hs. unfold dictNextPower. destruct (Z.leb_spec LONG_MAX size) as [Hl|_]; [unfold LONG_MAX in Hl; lia|].
  change DICT_HT_INITIAL_SIZE with (2 ^ 2). apply next_power_loop_spec; [lia|done|lia|lia|by left].
Qed.

Lemma dictNextPower_pow k : 2 <= k <= 62 -> dictNextPower (2 ^ k) = Ok (2 ^ k).
Proof.
  intros Hk. destruct (dictNextPower_spec (2 ^ k)) as (j & -> & Hj & Hle & Hlow); [apply Z.pow_le_mono_r; lia|].
  do 2 f_equal. destruct Hlow as [->|Hlow].
  - assert (k <= 2) by (apply (Z.pow_le_mono_r_iff 2); lia). lia.
  - apply Z.pow_le_mono_r_iff in Hle; [|lia|lia]. apply Z.pow_lt_mono_r_iff in Hlow; lia.
Qed.

Lemma perm_drop {A} (x a b y : list A) e : x ++ (a ++ e :: b) ++ y ≡ₚ e :: x ++ (a ++ b) ++ y.
Proof. rewrite <- !app_assoc. cbn [app]. rewrite (app_assoc x a), <- Permutation_middle. by rewrite <- !app_assoc. Qed.

Section Spec.
Context {K V : Type} `{Countable K} `{!dictType K V} `{!LawfulDict K V} `{Allocator}.
Implicit Types (d : dict K V) (t : list (list (K * V))) (he : list (K * V)).

(** ** Tables *)

Definition entries d : list (K * V) := concat (default [] d.(table)).

(** The slot of a key under a mask of [k] bits. *)
Definition slot_of (k : Z) (key : K) : Z := hashFunction key mod 2 ^ k.

Definition hashed (k : Z) t : Prop := forall i he e, t !! i = Some he -> e ∈ he -> slot_of k e.1 = Z.of_nat i.

(** A vector of [2 ^ k] chains, each with the entries of its hash. *)
Definition buckets (k : Z) d : Prop :=
  2 <= k <= 30 /\ d.(d_size) = 2 ^ k /\ d.(sizemask) = 2 ^ k - 1 /\
  exists t, d.(table) = Some t /\ size t = 2 ^ k /\ hashed k t.

Definition wf d : Prop :=
  NoDup (entries d).*1 /\ d.(used) = size (entries d) /\ d.(used) <= d.(d_size) /\
  (d.(table) = None /\ d.(d_size) = 0 \/ exists k, buckets k d).

Lemma slot_of_range k key : 0 <= k -> 0 <= slot_of k key < 2 ^ k.
Proof. intros Hk. apply Z.mod_pos_bound. lia. Qed.

Lemma slot_spec k d key : buckets k d -> slot d key = slot_of k key.
Proof.
  intros (Hk & _ & Hm & _). unfold slot. rewrite Hm.
  replace (2 ^ k - 1) with (Z.ones k) by (rewrite Z.ones_equiv; lia). rewrite Z.land_ones by lia.
  fold (slot_of k key). apply Z.mod_small. pose proof (slot_of_range k key ltac:(lia)).
  assert (2 ^ k <= 2 ^ 31) by (apply Z.pow_le_mono_r; lia). lia.
Qed.

Lemma bucket_spec k d key : buckets k d ->
  exists t he, d.(table) = Some t /\ t !! Z.to_nat (slot d key) = Some he /\ bucket d (slot d key) = Ok he /\ 0 <= slot d key < 2 ^ k.
Proof.
  intros Hb. rewrite (slot_spec k) by done. destruct Hb as (Hk & _ & _ & t & Ht & Hl & Hh).
  pose proof (slot_of_range k key ltac:(lia)) as Hr. destruct (lookup_lt_is_Some_2 t (Z.to_nat (slot_of k key))) as [he He].
  { unfold size in Hl. lia. }
  exists t, he. split_and!; try done; try lia. unfold bucket. rewrite Ht. destruct (Z.leb_spec 0 (slot_of k key)); [|lia]. by rewrite He.
Qed.

(** Replacing a chain. *)
Lemma concat_insert t i he he' : t !! i = Some he ->
  exists l1 l2, concat t = l1 ++ he ++ l2 /\ concat (<[i := he']> t) = l1 ++ he' ++ l2.
Proof using.
  intros E. exists (concat (take i t)), (concat (drop (S i) t)).
  assert (i < length t)%nat as Hi by by eapply lookup_lt_Some.
  rewrite insert_take_drop by done. rewrite <- (take_drop_middle t i he E) at 1.
  rewrite !concat_app. done.
Qed.

Lemma put_bucket_spec k d i he he' t : buckets k d -> d.(table) = Some t -> t !! Z.to_nat i = Some he -> 0 <= i ->
  (forall e, e ∈ he' -> slot_of k e.1 = i) ->
  buckets k (put_bucket d i he') /\
  exists l1 l2, entries d = l1 ++ he ++ l2 /\ entries (put_bucket d i he') = l1 ++ he' ++ l2.
Proof.
  intros (Hk & Hs & Hm & t0 & Ht & Hl & Hh) Ht' E Hi Hslot. rewrite Ht in Ht'. injection Ht' as ->. split.
  - split_and!; [lia|lia|done|done|]. exists (<[Z.to_nat i := he']> t). cbn. rewrite Ht. split_and!; [done| |].
    + unfold size. by rewrite length_insert.
    + intros j hj e Hj He. destruct (decide (j = Z.to_nat i)) as [->|Hne].
      * rewrite list_lookup_insert_eq in Hj by by eapply lookup_lt_Some. injection Hj as <-. rewrite Hslot by done. lia.
      * rewrite list_lookup_insert_ne in Hj by done. by eapply Hh.
  - unfold entries. cbn. rewrite Ht. cbn. by apply concat_insert.
Qed.

(** ** Growing *)

Lemma move_chain_spec k he : forall (n : dict K V) u, buckets k n -> size he <= u < 2 ^ 64 ->
  exists n', move_chain he n u = Ok (n', u - size he) /\ buckets k n' /\ entries n' ≡ₚ entries n ++ he /\
    n'.(used) = n.(used) /\ n'.(destroyed) = n.(destroyed).
Proof using Type*.
  induction he as [|e he IH]; intros n u Hb Hu; cbn [move_chain].
  - exists n. change (size (@nil (K * V))) with 0. rewrite Z.sub_0_r, app_nil_r. by split_and!.
  - destruct (bucket_spec k n e.1 Hb) as (t & b & Ht & Eb & -> & Hr). cbn [mbind res_bind].
    rewrite size_cons in *. pose proof (size_nonneg he).
    destruct (put_bucket_spec k n (slot n e.1) b (e :: b) t Hb Ht Eb ltac:(lia)) as (Hb' & l1 & l2 & E1 & E2).
    { intros x Hx. pose proof (slot_spec k n e.1 Hb) as Hslot. apply elem_of_cons in Hx as [->|Hx]; [done|].
      destruct Hb as (_ & _ & _ & t' & Ht' & _ & Hh). rewrite Ht in Ht'. injection Ht' as <-.
      rewrite (Hh _ _ _ Eb Hx), Z2Nat.id by lia. done. }
    rewrite wrap64_id by lia. destruct (IH _ (u - 1) Hb' ltac:(lia)) as (n' & -> & Hn & Hp & Hu' & Hd).
    exists n'. split_and!; [do 2 f_equal; lia | done | | done | done].
    rewrite Hp, E2, E1, <- !app_assoc. apply Permutation_app_head. cbn [app]. rewrite !app_assoc. by rewrite <- Permutation_middle.
Qed.

Lemma move_table_spec k t : forall i sz (n : dict K V) u,
  buckets k n -> size (concat t) = u -> u < 2 ^ 64 -> i + size t = sz ->
  exists n', move_table t i sz n u = Ok (n', 0) /\ buckets k n' /\ entries n' ≡ₚ entries n ++ concat t /\
    n'.(used) = n.(used) /\ n'.(destroyed) = n.(destroyed).
Proof using Type*.
  induction t as [|he t IH]; intros i sz n u Hb Hu Hmax Hi; cbn [move_table concat] in *.
  - change (size (@nil (list (K * V)))) with 0 in Hi. change (size (@nil (K * V))) with 0 in Hu.
    destruct (Z.ltb_spec i sz); [lia|]. cbn [andb]. exists n. rewrite app_nil_r, <- Hu. by split_and!.
  - rewrite size_cons in Hi. rewrite size_app in Hu. pose proof (size_nonneg he). pose proof (size_nonneg (concat t)). pose proof (size_nonneg t).
    destruct (Z.ltb_spec i sz); [|lia]. destruct (Z.ltb_spec 0 u) as [Hpos|Hz]; cbn [andb].
    + destruct (move_chain_spec k he n u Hb ltac:(lia)) as (n1 & -> & Hb1 & Hp1 & Hu1 & Hd1). cbn [mbind res_bind].
      destruct (IH (i + 1) sz n1 (u - size he) Hb1 ltac:(lia) ltac:(lia) ltac:(lia)) as (n2 & -> & Hb2 & Hp2 & Hu2 & Hd2).
      exists n2. split_and!; [done|done| |congruence|congruence]. by rewrite Hp2, Hp1, app_assoc.
    + assert (he = []) as -> by (apply size_zero; lia). assert (concat t = []) as -> by (apply size_zero; lia).
      exists n. rewrite app_nil_r. split_and!; [do 2 f_equal; lia|done..].
Qed.

Lemma entries_empty k (d : dict K V) : d.(table) = Some (replicate (Z.to_nat (2 ^ k)) []) -> entries d = [].
Proof using. intros E. unfold entries. rewrite E. clear E. cbn. by induction (Z.to_nat (2 ^ k)). Qed.

(** Room for more without a change of the entries. *)
Lemma dictExpand_spec d k : granted -> wf d -> 2 <= k <= 30 -> d.(used) <= 2 ^ k -> d.(used) < 2 ^ 32 ->
  exists d', dictExpand d (2 ^ k) = Ok (DICT_OK, d') /\ wf d' /\ entries d' ≡ₚ entries d /\ buckets k d' /\ d'.(destroyed) = d.(destroyed).
Proof using Type*.
  intros Hg (Hnd & Hu & Hle & Ht) Hk Hroom Hmax. unfold dictExpand. rewrite dictNextPower_pow by lia. cbn [mbind res_bind].
  destruct (Z.ltb_spec (2 ^ k) (used d)); [lia|]. rewrite Hg.
  assert (2 ^ k <= 2 ^ 31) as Hpow by (apply Z.pow_le_mono_r; lia). assert (0 < 2 ^ k) by lia.
  set (n := mk_dict _ _ _ _ _).
  assert (buckets k n) as Hb.
  { split_and!; [lia|lia|done| |]; [cbn; apply wrap64_id; lia|]. eexists. split; [reflexivity|]. split.
    - unfold size. rewrite length_replicate. lia.
    - intros i he e Hi He. apply lookup_replicate in Hi as [-> _]. by apply elem_of_nil in He. }
  pose proof (entries_empty k n eq_refl) as En.
  assert (size (concat (default [] (table d))) = used d) as Hsz by done.
  assert (0 + size (default [] (table d)) = d_size d) as Hl.
  { destruct Ht as [[-> ->]|(j & _ & Hs & _ & t & -> & Hl & _)]; [done|]. cbn. lia. }
  destruct (move_table_spec k _ 0 (d_size d) n (used d) Hb Hsz ltac:(lia) Hl) as (n' & -> & Hb' & Hp & Hu' & Hd').
  cbn [mbind res_bind]. rewrite Z.eqb_refl. cbn [negb]. rewrite En in Hp. cbn [app] in Hp. fold (entries d) in Hp.
  exists n'. split_and!; [done| |done|done|done]. split_and!.
  - by rewrite Hp.
  - rewrite Hu'. cbn. rewrite Hu. unfold size. by rewrite Hp.
  - rewrite Hu'. destruct Hb' as (_ & -> & _). done.
  - right. by exists k.
Qed.

(** Before an insertion there is a free slot. *)
Lemma expandIfNeeded_spec d : granted -> wf d -> d.(used) < 2 ^ 30 ->
  exists k d', dictExpandIfNeeded d = Ok (DICT_OK, d') /\ wf d' /\ entries d' ≡ₚ entries d /\ buckets k d' /\
    d'.(used) < d'.(d_size) /\ d'.(destroyed) = d.(destroyed).
Proof using Type*.
  intros Hg Hwf Hmax. pose proof Hwf as (Hnd & Hu & Hle & Ht). unfold dictExpandIfNeeded.
  destruct Ht as [[Ht Hs]|(k & Hb)].
  - rewrite Hs. cbn [Z.eqb]. change DICT_HT_INITIAL_SIZE with (2 ^ 2).
    destruct (dictExpand_spec d 2 Hg Hwf) as (d' & -> & Hwf' & Hp & Hb' & Hd'); [lia|lia|lia|].
    exists 2, d'. split_and!; try done. pose proof Hwf' as (_ & Hu' & _). destruct Hb' as (_ & -> & _).
    assert (size (entries d') = size (entries d)) as E by (unfold size; by rewrite Hp). lia.
  - pose proof Hb as (Hk & Hs & _). assert (0 < 2 ^ k) by lia. destruct (Z.eqb_spec (d_size d) 0); [lia|].
    destruct (Z.eqb_spec (used d) (d_size d)) as [Hfull|Hfree].
    + rewrite Hs. assert (k < 30) as Hk30 by (apply (Z.pow_lt_mono_r_iff 2); lia).
      assert (2 ^ (k + 1) <= 2 ^ 31) by (apply Z.pow_le_mono_r; lia).
      assert (2 ^ (k + 1) = 2 ^ k * 2) as Ek by (rewrite Z.pow_add_r by lia; done).
      rewrite wrap64_id by lia. rewrite <- Ek.
      destruct (dictExpand_spec d (k + 1) Hg Hwf) as (d' & -> & Hwf' & Hp & Hb' & Hd'); [lia|lia|lia|].
      exists (k + 1), d'. split_and!; try done. pose proof Hwf' as (_ & Hu' & _). destruct Hb' as (_ & -> & _).
      assert (size (entries d') = size (entries d)) as E by (unfold size; by rewrite Hp). lia.
    + exists k, d. split_and!; try done. lia.
Qed.

(** ** Searching *)

(** What the entries say of a key. *)
Definition value_of (l : list (K * V)) (key : K) : option V := (list_to_map l : gmap K V) !! key.

Lemma find_in_spec key he : NoDup he.*1 -> find_in key he = (fun v => (key, v)) <$> value_of he key.
Proof using Type*.
  unfold value_of. induction he as [|[a v] he IH]; intros Hnd; [done|]. cbn [find_in list_to_map foldr fst].
  cbn [fmap list_fmap fst] in Hnd. apply NoDup_cons in Hnd as [Ha Hnd]. rewrite compare_eq. destruct (bool_decide_reflect (key = a)) as [->|Hne].
  - by rewrite lookup_insert_eq.
  - rewrite IH by done. by rewrite lookup_insert_ne by done.
Qed.

Lemma nodup_middle (l1 he l2 : list (K * V)) : NoDup (l1 ++ he ++ l2).*1 -> NoDup he.*1.
Proof using. rewrite !fmap_app. intros Hn. apply NoDup_app in Hn as (_ & _ & Hn). by apply NoDup_app in Hn as (Hn & _). Qed.

(** Every entry of a key is in the chain of its slot. *)
Lemma chain_of k d key t he : wf d -> buckets k d -> d.(table) = Some t -> t !! Z.to_nat (slot d key) = Some he -> 0 <= slot d key ->
  value_of (entries d) key = value_of he key /\ NoDup he.*1.
Proof using Type*.
  intros (Hnd & _) Hb Ht E Hr. pose proof (slot_spec k d key Hb) as Hs. destruct Hb as (_ & _ & _ & t' & Ht' & _ & Hh).
  rewrite Ht in Ht'. injection Ht' as <-. unfold entries in *. rewrite Ht in *. cbn in *.
  destruct (concat_insert t _ he he E) as (l1 & l2 & Ec & _). rewrite Ec in Hnd. split; [|by apply nodup_middle in Hnd].
  pose proof (nodup_middle _ _ _ Hnd) as Hnd'. apply option_eq. intros v. unfold value_of.
  rewrite <- !elem_of_list_to_map by (rewrite ?Ec; done). rewrite Ec. split; [|intros Hin; apply elem_of_app; right; apply elem_of_app; by left].
  intros Hin. rewrite <- Ec in Hin. apply list_elem_of_In, in_concat in Hin as (b & Hb & Hin). apply list_elem_of_In in Hin, Hb.
  apply list_elem_of_lookup in Hb as [i Hi]. pose proof (Hh i b (key, v) Hi Hin) as Hi'. cbn in Hi'.
  assert (i = Z.to_nat (slot d key)) as -> by lia. rewrite E in Hi. by injection Hi as ->.
Qed.

Lemma bucket_find k d key : wf d -> buckets k d ->
  exists t he, d.(table) = Some t /\ t !! Z.to_nat (slot d key) = Some he /\ bucket d (slot d key) = Ok he /\ 0 <= slot d key < 2 ^ k /\
    find_in key he = (fun v => (key, v)) <$> value_of (entries d) key /\ NoDup he.*1.
Proof using Type*.
  intros Hwf Hb. destruct (bucket_spec k d key Hb) as (t & he & Ht & E & Eb & Hr).
  destruct (chain_of k d key t he Hwf Hb Ht E ltac:(lia)) as [Hv Hnd]. exists t, he. split_and!; try done; try lia.
  rewrite Hv. by apply find_in_spec.
Qed.

Lemma dictFind_spec d key : wf d -> dictFind d key = Ok ((fun v => (key, v)) <$> value_of (entries d) key).
Proof using Type*.
  intros Hwf. pose proof Hwf as (_ & _ & _ & Ht). unfold dictFind. destruct Ht as [[Ht ->]|(k & Hb)].
  - unfold entries. by rewrite Ht.
  - pose proof Hb as (Hk & Hs & _). assert (0 < 2 ^ k) by lia. destruct (Z.eqb_spec (d_size d) 0); [lia|].
    destruct (bucket_find k d key Hwf Hb) as (t & he & _ & _ & -> & _ & E & _). cbn [mbind res_bind]. by rewrite E.
Qed.

(** ** Changing a chain *)

(** The table after one chain changed from [he] to [he'] and the count with it. *)
Lemma put_wf k d key he he' t c : wf d -> buckets k d -> d.(table) = Some t -> t !! Z.to_nat (slot d key) = Some he -> 0 <= slot d key ->
  (forall e, e ∈ he' -> e ∈ he \/ e.1 = key) ->
  c = d.(used) + size he' - size he -> 0 <= c <= d.(d_size) ->
  (forall l1 l2, entries d = l1 ++ he ++ l2 -> NoDup (l1 ++ he ++ l2).*1 -> NoDup (l1 ++ he' ++ l2).*1) ->
  wf (set_used (put_bucket d (slot d key) he') c) /\
  exists l1 l2, entries d = l1 ++ he ++ l2 /\ entries (set_used (put_bucket d (slot d key) he') c) = l1 ++ he' ++ l2.
Proof using Type*.
  intros (Hnd & Hu & Hle & _) Hb Ht E Hr Hin Hc Hcs Hkeys. pose proof (slot_spec k d key Hb) as Hslot.
  destruct (put_bucket_spec k d (slot d key) he he' t Hb Ht E Hr) as (Hb' & l1 & l2 & E1 & E2).
  { intros e He. destruct (Hin e He) as [He'| ->]; [|done]. destruct Hb as (_ & _ & _ & t' & Ht' & _ & Hh).
    rewrite Ht in Ht'. injection Ht' as <-. rewrite (Hh _ _ _ E He'). lia. }
  split; [|exists l1, l2; done]. change (entries (set_used (put_bucket d (slot d key) he') c)) with (entries (put_bucket d (slot d key) he')).
  assert (d_size d <= 2 ^ 31) as Hmax by (destruct Hb as (Hk & -> & _); apply Z.pow_le_mono_r; lia).
  unfold wf. change (entries (set_used (put_bucket d (slot d key) he') c)) with (entries (put_bucket d (slot d key) he')).
  rewrite E2. rewrite E1 in Hnd, Hu. cbn [used set_used d_size put_bucket set_table]. rewrite wrap64_id by lia.
  rewrite !size_app in *. split_and!; [by apply Hkeys; [exact E1|]|lia|lia|]. right. by exists k.
Qed.

Lemma value_none he key : value_of he key = None <-> key ∉ he.*1.
Proof using. unfold value_of. rewrite not_elem_of_list_to_map. done. Qed.

(** [_dictKeyIndex] finds room, or the key. *)
Lemma dictKeyIndex_spec d key : granted -> wf d -> d.(used) < 2 ^ 30 ->
  exists k d', wf d' /\ entries d' ≡ₚ entries d /\ buckets k d' /\ d'.(used) < d'.(d_size) /\ d'.(destroyed) = d.(destroyed) /\
    dictKeyIndex d key = Ok (if value_of (entries d') key then -1 else slot d' key, d').
Proof using Type*.
  intros Hg Hwf Hmax. unfold dictKeyIndex. destruct (expandIfNeeded_spec d Hg Hwf Hmax) as (k & d' & -> & Hwf' & Hp & Hb & Hroom & Hd).
  exists k, d'. split_and!; try done. cbn [mbind res_bind]. change (DICT_OK =? DICT_ERR) with false. cbn beta iota.
  destruct (bucket_find k d' key Hwf' Hb) as (t & he & _ & _ & -> & Hr & Hfind & _). cbn [mbind res_bind]. rewrite Hfind.
  destruct (value_of (entries d') key); [done|]. cbn. rewrite wrap32_id; [done|]. pose proof Hb as (Hk & _).
  assert (2 ^ k <= 2 ^ 31) by (apply Z.pow_le_mono_r; lia). unfold INT_MAX. lia.
Qed.

Lemma dictAdd_spec d key val : granted -> wf d -> d.(used) < 2 ^ 30 ->
  exists d', wf d' /\ d'.(destroyed) = d.(destroyed) /\
    match value_of (entries d) key with
    | Some _ => dictAdd d key val = Ok (DICT_ERR, d') /\ entries d' ≡ₚ entries d
    | None => dictAdd d key val = Ok (DICT_OK, d') /\ entries d' ≡ₚ (key, val) :: entries d
    end.
Proof using Type*.
  intros Hg Hwf Hmax. unfold dictAdd.
  destruct (dictKeyIndex_spec d key Hg Hwf Hmax) as (k & d1 & Hwf1 & Hp1 & Hb & Hroom & Hd1 & ->). cbn [mbind res_bind].
  assert (value_of (entries d1) key = value_of (entries d) key) as Ev.
  { unfold value_of. f_equal. apply list_to_map_proper; [apply Hwf1 | done]. }
  rewrite <- Ev. destruct (value_of (entries d1) key) as [v|] eqn:Eval; [exists d1; by split_and!|].
  destruct (bucket_find k d1 key Hwf1 Hb) as (t & he & Ht & E & Eb & Hr & Hfind & Hndh).
  destruct (Z.eqb_spec (slot d1 key) (-1)); [lia|]. rewrite Hg, Eb. cbn [negb mbind res_bind]. rewrite key_dup, val_dup. cbn [mbind res_bind].
  destruct (put_wf k d1 key he ((key, val) :: he) t (used d1 + 1) Hwf1 Hb Ht E ltac:(lia)) as (Hwf2 & l1 & l2 & E1 & E2).
  - intros e He. apply elem_of_cons in He as [->|He]; [by right | by left].
  - rewrite size_cons. lia.
  - pose proof Hwf1 as (_ & Hu & _). pose proof (size_nonneg (entries d1)). lia.
  - intros a b Eab Hn. apply value_none in Eval. rewrite Eab in Eval. cbn [app]. rewrite fmap_app in Hn, Eval |- *. cbn [fmap list_fmap fst].
    rewrite <- Permutation_middle. constructor; [exact Eval | exact Hn].
  - eexists. split; [exact Hwf2|]. split; [done|]. split; [done|]. rewrite E2, <- Hp1, E1. cbn [app]. by rewrite <- Permutation_middle.
Qed.


(** Overwriting a value keeps the keys and the other entries. *)
Lemma set_in_spec key val he old : value_of he key = Some old ->
  exists l1 l2 , he = l1 ++ (key, old) :: l2 /\ set_in key val he = l1 ++ (key, val) :: l2.
Proof using Type*.
  unfold value_of. induction he as [|[a v] he IH]; [done|]. cbn [list_to_map foldr fst snd set_in]. rewrite compare_eq.
  destruct (bool_decide_reflect (key = a)) as [->|Hne].
  - rewrite lookup_insert_eq. intros [= ->]. by exists [], he.
  - rewrite lookup_insert_ne by done. intros E. destruct (IH E) as (l1 & l2 & -> & ->). by exists ((a, v) :: l1), l2.
Qed.

Lemma unlink_spec key he : 
  match value_of he key with
  | None => unlink key he = None
  | Some v => exists l1 l2, he = l1 ++ (key, v) :: l2 /\ unlink key he = Some ((key, v), l1 ++ l2)
  end.
Proof using Type*.
  unfold value_of. induction he as [|[a v] he IH]; [done|]. cbn [list_to_map foldr fst snd unlink]. rewrite compare_eq.
  destruct (bool_decide_reflect (key = a)) as [->|Hne].
  - rewrite lookup_insert_eq. by exists [], he.
  - rewrite lookup_insert_ne by done. destruct ((list_to_map he : gmap K V) !! key) as [w|].
    + destruct IH as (l1 & l2 & -> & E). exists ((a, v) :: l1), l2. split; [done|]. cbn [app unlink] in *. by rewrite E.
    + by rewrite IH.
Qed.

Lemma dictDelete_spec d key : wf d ->
  match value_of (entries d) key with
  | None => dictDelete d key = Ok (DICT_ERR, d)
  | Some v => exists d', dictDelete d key = Ok (DICT_OK, d') /\ wf d' /\ entries d ≡ₚ (key, v) :: entries d' /\
      d'.(destroyed) = d.(destroyed) ++ [inl key; inr v]
  end.
Proof using Type*.
  intros Hwf. pose proof Hwf as (_ & Hu & Hle & Ht). unfold dictDelete. destruct Ht as [[Ht ->]|(k & Hb)].
  { unfold entries. by rewrite Ht. }
  pose proof Hb as (Hk & Hs & _). assert (0 < 2 ^ k) by lia. destruct (Z.eqb_spec (d_size d) 0); [lia|].
  destruct (bucket_find k d key Hwf Hb) as (t & he & Ht' & E & -> & Hr & Hfind & Hnd). cbn [mbind res_bind].
  destruct (chain_of k d key t he Hwf Hb Ht' E ltac:(lia)) as [Hv _]. rewrite Hv. pose proof (unlink_spec key he) as Hun.
  destruct (value_of he key) as [v|]; [|by rewrite Hun]. destruct Hun as (a & b & Ehe & ->).
  destruct (put_wf k d key he (a ++ b) t (used d - 1) Hwf Hb Ht' E ltac:(lia)) as (Hwf' & l1 & l2 & E1 & E2).
  - intros e He. left. rewrite Ehe. apply elem_of_app in He as [He|He]; apply elem_of_app; [by left | right; by right].
  - rewrite Ehe, !size_app, size_cons. lia.
  - pose proof (size_nonneg (entries d)). assert (entries d <> []) as Hne.
    { intros En. rewrite En in Hv. unfold value_of in Hv at 1. cbn in Hv. by rewrite lookup_empty in Hv. }
    assert (size (entries d) <> 0) by (rewrite size_zero; done). lia.
  - intros x y _ Hn. rewrite Ehe, (fmap_Permutation _ _ _ (perm_drop x a b y (key, v))) in Hn. by apply NoDup_cons in Hn as [_ Hn].
  - eexists. split; [reflexivity|]. split; [exact Hwf'|]. split; [|done].
    change (entries (set_used (destroy (put_bucket d (slot d key) (a ++ b)) [inl (key, v).1; inr (key, v).2]) (used d - 1)))
      with (entries (set_used (put_bucket d (slot d key) (a ++ b)) (used d - 1))).
    rewrite E2, E1, Ehe. apply perm_drop.
Qed.

Lemma dictReplace_spec d key val : granted -> wf d -> d.(used) < 2 ^ 30 ->
  match value_of (entries d) key with
  | None => exists d', dictReplace d key val = Ok (1, d') /\ wf d' /\ entries d' ≡ₚ (key, val) :: entries d /\
      d'.(destroyed) = d.(destroyed)
  | Some old => exists d' l, dictReplace d key val = Ok (0, d') /\ wf d' /\ entries d ≡ₚ (key, old) :: l /\
      entries d' ≡ₚ (key, val) :: l /\ d'.(destroyed) = d.(destroyed) ++ [inr old]
  end.
Proof using Type*.
  intros Hg Hwf Hmax. unfold dictReplace. destruct (dictAdd_spec d key val Hg Hwf Hmax) as (d1 & Hwf1 & Hd1 & Hadd).
  destruct (value_of (entries d) key) as [old|] eqn:Ev; destruct Hadd as [-> Hp]; cbn [mbind res_bind Z.eqb DICT_ERR DICT_OK].
  - rewrite dictFind_spec by done. assert (value_of (entries d1) key = Some old) as Ev1.
    { rewrite <- Ev. unfold value_of. f_equal. apply list_to_map_proper; [apply Hwf1 | done]. }
    rewrite Ev1. cbn [fmap option_fmap option_map mbind res_bind]. rewrite val_dup. cbn [mbind res_bind].
    pose proof Hwf1 as (_ & Hu & Hle & [[Ht _]|(k & Hb)]); [unfold entries in Ev1; by rewrite Ht in Ev1|].
    destruct (bucket_find k d1 key Hwf1 Hb) as (t & he & Ht' & E & -> & Hr & Hfind & Hnd). cbn [mbind res_bind].
    destruct (chain_of k d1 key t he Hwf1 Hb Ht' E ltac:(lia)) as [Hv _]. rewrite Ev1 in Hv. symmetry in Hv.
    destruct (set_in_spec key val he old Hv) as (a & b & Ehe & Eset).
    destruct (put_wf k d1 key he (set_in key val he) t (used d1) Hwf1 Hb Ht' E ltac:(lia)) as (Hwf2 & l1 & l2 & E1 & E2).
    + intros e He. rewrite Eset in He. rewrite Ehe. apply elem_of_app in He as [He|He]; [left; apply elem_of_app; by left|].
      apply elem_of_cons in He as [->|He]; [by right|]. left. apply elem_of_app. right. by right.
    + rewrite Eset, Ehe, !size_app, !size_cons. lia.
    + pose proof (size_nonneg (entries d1)). lia.
    + intros x y _ Hn. rewrite Eset. rewrite Ehe, (fmap_Permutation _ _ _ (perm_drop x a b y (key, old))) in Hn.
      rewrite (fmap_Permutation _ _ _ (perm_drop x a b y (key, val))). exact Hn.
    + assert (set_used (put_bucket d1 (slot d1 key) (set_in key val he)) (used d1) = put_bucket d1 (slot d1 key) (set_in key val he)) as Esame.
      { unfold set_used, put_bucket, set_table. cbn. f_equal. apply wrap64_id.
        assert (d_size d1 <= 2 ^ 31) by (destruct Hb as (Hk & -> & _); apply Z.pow_le_mono_r; lia).
        pose proof (size_nonneg (entries d1)). lia. }
      rewrite Esame in Hwf2, E2. exists (destroy (put_bucket d1 (slot d1 key) (set_in key val he)) [inr old]), (l1 ++ (a ++ b) ++ l2).
      split_and!; [done|exact Hwf2| | |cbn; by rewrite Hd1].
      * rewrite <- Hp, E1, Ehe. apply perm_drop.
      * change (entries (destroy (put_bucket d1 (slot d1 key) (set_in key val he)) [inr old])) with (entries (put_bucket d1 (slot d1 key) (set_in key val he))).
        rewrite E2, Eset. apply perm_drop.
  - exists d1. by split_and!.
Qed.

(** ** Emptying *)

Definition dtors (l : list (K * V)) : list (K + V) := concat (map (fun e => [inl e.1; inr e.2]) l).

#[export] Instance dtors_perm : Proper ((≡ₚ) ==> (≡ₚ)) dtors.
Proof using.
  intros l l' Hp. unfold dtors. induction Hp as [|e l l' Hp IH|e f l|l l' l'' H1 IH1 H2 IH2]; [done| | |by etransitivity].
  - cbn [map concat]. by rewrite IH.
  - cbn [map concat]. rewrite !app_assoc. apply Permutation_app_tail, Permutation_app_comm.
Qed.

Lemma clear_chain_spec he : forall u, size he <= u < 2 ^ 64 -> clear_chain he u = (dtors he, u - size he).
Proof using.
  induction he as [|e he IH]; intros u Hu; [cbn; f_equal; change (size (@nil (K * V))) with 0; lia|]. cbn [clear_chain].
  rewrite size_cons in *. pose proof (size_nonneg he). rewrite wrap64_id, IH by lia. f_equal. lia.
Qed.

Lemma clear_table_spec t : forall i sz u, size (concat t) = u -> u < 2 ^ 64 -> i + size t = sz -> clear_table t i sz u = Ok (dtors (concat t)).
Proof using.
  induction t as [|he t IH]; intros i sz u Hu Hmax Hi; cbn [clear_table concat] in *.
  - change (size (@nil (list (K * V)))) with 0 in Hi. destruct (Z.ltb_spec i sz); [lia|]. done.
  - rewrite size_cons in Hi. rewrite size_app in Hu. pose proof (size_nonneg he). pose proof (size_nonneg (concat t)). pose proof (size_nonneg t).
    destruct (Z.ltb_spec i sz); [|lia]. destruct (Z.ltb_spec 0 u) as [Hpos|Hz]; cbn [andb].
    + rewrite clear_chain_spec by lia. rewrite (IH (i + 1) sz (u - size he)) by lia. cbn [mbind res_bind].
      unfold dtors. by rewrite map_app, concat_app.
    + assert (he = []) as -> by (apply size_zero; lia). assert (concat t = []) as -> by (apply size_zero; lia). done.
Qed.

Lemma dictClear_spec d : wf d -> exists d', dictClear d = Ok d' /\ wf d' /\ entries d' = [] /\
  d'.(destroyed) = d.(destroyed) ++ dtors (entries d).
Proof using Type*.
  intros (Hnd & Hu & Hle & Ht). unfold dictClear. rewrite (clear_table_spec _ 0 (d_size d) (used d)).
  - cbn [mbind res_bind]. eexists. split; [reflexivity|]. split; [|by split]. split; [constructor|]. split; [done|]. split; [done|]. by left.
  - done.
  - destruct Ht as [[_ Hs]|(k & Hk & Hs & _)]; [lia|]. assert (2 ^ k <= 2 ^ 31) by (apply Z.pow_le_mono_r; lia). lia.
  - destruct Ht as [[-> ->]|(j & _ & Hs & _ & t & -> & Hl & _)]; [done|]. cbn. lia.
Qed.


(** ** Iterating *)

(** [while ((de = dictNext(it)) != NULL)]: the entries in order. *)
Fixpoint iterate (fuel : nat) d (it : dictIterator K V) : res (list (K * V)) :=
  match fuel with
  | O => UB no_fuel
  | S fuel' =>
      let* (o, it) := dictNext d it in
      match o with None => Ok [] | Some e => let* l := iterate fuel' d it in Ok (e :: l) end
  end.

(** What is left to iterate. *)
Definition left_of t (it : dictIterator K V) : list (K * V) := default [] it.(it_next) ++ concat (drop (Z.to_nat (it.(it_index) + 1)) t).

Lemma bucket_lookup d t i he : d.(table) = Some t -> t !! i = Some he -> bucket d (Z.of_nat i) = Ok he.
Proof using. intros E Hi. unfold bucket. rewrite E. destruct (Z.leb_spec 0 (Z.of_nat i)); [|lia]. by rewrite Nat2Z.id, Hi. Qed.

Lemma dictNext_loop_spec d t fuel : d.(table) = Some t -> size t = d.(d_size) -> d.(d_size) <= 2 ^ 30 ->
  forall it, -1 <= it.(it_index) < d.(d_size) -> d.(d_size) - it.(it_index) <= Z.of_nat fuel ->
  match left_of t it with
  | [] => exists it', dictNext_loop fuel d it = Ok (None, it')
  | e :: l => exists it', dictNext_loop fuel d it = Ok (Some e, it') /\ left_of t it' = l /\ -1 <= it'.(it_index) < d.(d_size)
  end.
Proof using.
  intros Ht Hs Hmax. induction fuel as [|fuel IH]; intros [i nx] Hi Hf; cbn [it_index it_next] in *; [lia|].
  unfold left_of in *. cbn [it_index it_next dictNext_loop] in *.
  destruct nx as [[|e he]|]; cbn [default app].
  2: { exists (mk_iter i (Some he)). split_and!; [done|done|cbn; lia|cbn; lia]. }
  all: rewrite int_result_ok by (unfold INT_MAX; lia); cbn [mbind res_bind]; rewrite wrap32_id by (unfold INT_MAX; lia).
  all: destruct (Z.leb_spec (d_size d) (i + 1)) as [Hend|Hmore];
    [rewrite drop_ge by (unfold size in Hs; lia); by eexists|].
  all: destruct (lookup_lt_is_Some_2 t (Z.to_nat (i + 1))) as [he He]; [unfold size in Hs; lia|].
  all: pose proof (bucket_lookup d t _ he Ht He) as Hb; rewrite Z2Nat.id in Hb by lia; rewrite Hb; cbn [mbind res_bind].
  all: rewrite (drop_S t he _ He); cbn [concat]; destruct he as [|e he]; cbn [app].
  1,3: specialize (IH (mk_iter (i + 1) None)); cbn [it_index it_next default app] in IH;
    replace (Z.to_nat (i + 1 + 1)) with (S (Z.to_nat (i + 1))) in IH by lia; apply IH; lia.
  all: exists (mk_iter (i + 1) (Some he)); cbn [it_index it_next default];
    split_and!; [done | by replace (Z.to_nat (i + 1 + 1)) with (S (Z.to_nat (i + 1))) by lia | lia | lia].
Qed.

Lemma iterate_spec d t : d.(table) = Some t -> size t = d.(d_size) -> d.(d_size) <= 2 ^ 30 ->
  forall l fuel it, left_of t it = l -> -1 <= it.(it_index) < d.(d_size) -> (length l < fuel)%nat -> iterate fuel d it = Ok l.
Proof using.
  intros Ht Hs Hmax l. induction l as [|e l IH]; intros [|fuel] it Hl Hi Hf; [cbn in Hf; lia| |cbn in Hf; lia|]; cbn [iterate]; unfold dictNext.
  all: pose proof (dictNext_loop_spec d t (S (Z.to_nat (d_size d))) Ht Hs Hmax it Hi ltac:(lia)) as Hn; rewrite Hl in Hn.
  - destruct Hn as (it' & ->). done.
  - destruct Hn as (it' & -> & Hl' & Hi'). cbn [mbind res_bind]. rewrite (IH fuel it'); [done|done|done|cbn in Hf; lia].
Qed.

(** Every entry comes once. *)
Lemma iterate_all d : wf d -> iterate (S (length (entries d))) d new_iterator = Ok (entries d).
Proof using Type*.
  intros (_ & _ & _ & [[Ht Hs]|(k & Hk & Hs & _ & t & Ht & Hl & _)]).
  - unfold entries. rewrite Ht. cbn [default concat length iterate]. unfold dictNext. rewrite Hs. cbn. by rewrite Hs.
  - assert (2 ^ k <= 2 ^ 30) by (apply Z.pow_le_mono_r; lia). assert (0 < 2 ^ k) by lia.
    apply (iterate_spec d t); [done|lia|lia| |cbn; lia|lia]. unfold left_of, entries. rewrite Ht. done.
Qed.
End Spec.

(** ** Runs *)

(** A use of the table by its owner. *)
Inductive dict_op (K V : Type) : Type :=
  | op_add (k : K) (v : V) | op_replace (k : K) (v : V) | op_delete (k : K) | op_find (k : K) | op_clear.
Arguments op_add {K V} k v.
Arguments op_replace {K V} k v.
Arguments op_delete {K V} k.
Arguments op_find {K V} k.
Arguments op_clear {K V}.

Inductive dict_answer (V : Type) : Type := code (z : Z) | found (o : option V).
Arguments code {V} z.
Arguments found {V} o.

Section Runs.
Context {K V : Type} `{Countable K} `{!dictType K V} `{Allocator}.

(** What the operations promise, on a map. *)
Definition map_op (o : dict_op K V) (m : gmap K V) : dict_answer V * gmap K V :=
  match o with
  | op_add k v => match m !! k with Some _ => (code DICT_ERR, m) | None => (code DICT_OK, <[k := v]> m) end
  | op_replace k v => (code (match m !! k with Some _ => 0 | None => 1 end), <[k := v]> m)
  | op_delete k => match m !! k with Some _ => (code DICT_OK, base.delete k m) | None => (code DICT_ERR, m) end
  | op_find k => (found (m !! k), m)
  | op_clear => (code DICT_OK, ∅)
  end.

(** The destructors that an operation owes for the map it finds. *)
Definition owed (o : dict_op K V) (m : gmap K V) : list (K + V) :=
  match o with
  | op_replace k _ => match m !! k with Some v => [inr v] | None => [] end
  | op_delete k => match m !! k with Some v => [inl k; inr v] | None => [] end
  | op_clear => dtors (map_to_list m)
  | _ => []
  end.

Definition dict_step (o : dict_op K V) (d : dict K V) : res (dict_answer V * dict K V) :=
  match o with
  | op_add k v => let* (r, d) := dictAdd d k v in Ok (code r, d)
  | op_replace k v => let* (r, d) := dictReplace d k v in Ok (code r, d)
  | op_delete k => let* (r, d) := dictDelete d k in Ok (code r, d)
  | op_find k => let* e := dictFind d k in Ok (found (snd <$> e), d)
  | op_clear => let* d := dictClear d in Ok (code DICT_OK, d)
  end.

Fixpoint run_map (os : list (dict_op K V)) (m : gmap K V) : list (dict_answer V) * gmap K V * list (K + V) :=
  match os with
  | [] => ([], m, [])
  | o :: os' =>
      let '(a, m') := map_op o m in
      let '(l, m'', w) := run_map os' m' in (a :: l, m'', owed o m ++ w)
  end.

Fixpoint run_dict (os : list (dict_op K V)) (d : dict K V) : res (list (dict_answer V) * dict K V) :=
  match os with
  | [] => Ok ([], d)
  | o :: os' => let* (a, d) := dict_step o d in let* (l, d) := run_dict os' d in Ok (a :: l, d)
  end.

Definition represents (d : dict K V) (m : gmap K V) : Prop := wf d /\ list_to_map (entries d) = m.

Context `{!LawfulDict K V}.

Lemma represents_perm d d' m : represents d m -> wf d' -> entries d' ≡ₚ entries d -> represents d' m.
Proof using. intros [Hwf <-] Hwf' Hp. split; [done|]. apply list_to_map_proper; [apply Hwf' | done]. Qed.

Lemma represents_cons d m k v : wf d -> forall l, entries d ≡ₚ (k, v) :: l -> list_to_map l = m -> represents d (<[k := v]> m).
Proof using. intros Hwf l Hp <-. split; [done|]. change (<[k := v]> (list_to_map l)) with (list_to_map (M := gmap K V) ((k, v) :: l)). apply list_to_map_proper; [apply Hwf | done]. Qed.

Lemma dict_step_spec o d m : granted -> represents d m -> d.(used) < 2 ^ 30 ->
  let '(a, m') := map_op o m in
  exists d', dict_step o d = Ok (a, d') /\ represents d' m' /\ d'.(destroyed) ≡ₚ d.(destroyed) ++ owed o m /\ d'.(used) <= d.(used) + 1.
Proof using Type*.
  intros Hg [Hwf Hm] Hu. pose proof Hwf as (Hnd & Hused & _). subst m. 
  assert (forall d' n, wf d' -> (length (entries d') <= n)%nat -> used d' <= Z.of_nat n) as Hcount.
  { intros d' n (_ & -> & _) Hn. unfold size. lia. }
  destruct o as [k v|k v|k|k|]; cbn [map_op dict_step owed].
  - destruct (dictAdd_spec d k v Hg Hwf Hu) as (d' & Hwf' & Hd & Ha). unfold value_of in Ha.
    destruct (list_to_map (entries d) !! k) eqn:E; destruct Ha as [-> Hp]; exists d'; rewrite app_nil_r, Hd.
    + split_and!; [done|by apply (represents_perm d)|done|]. pose proof (Hcount d' _ Hwf' (Nat.eq_le_incl _ _ (Permutation_length Hp))). unfold size in Hused. lia.
    + split_and!; [done|by eapply represents_cons|done|]. pose proof (Hcount d' _ Hwf' (Nat.eq_le_incl _ _ (Permutation_length Hp))) as Hc. cbn [length] in Hc. unfold size in Hused. lia.
  - pose proof (dictReplace_spec d k v Hg Hwf Hu) as Hr. unfold value_of in Hr.
    destruct (list_to_map (entries d) !! k) as [old|] eqn:E.
    + destruct Hr as (d' & l & -> & Hwf' & Hp & Hp' & Hd). exists d'. rewrite Hd. split_and!; [done| |done|].
      * assert (<[k := v]> (list_to_map (entries d)) = <[k := v]> (list_to_map l) :> gmap K V) as ->; [|by eapply represents_cons].
        rewrite (list_to_map_proper _ _ Hnd Hp). cbn. by rewrite insert_insert_eq.
      * pose proof (Hcount d' _ Hwf' (Nat.eq_le_incl _ _ (Permutation_length Hp'))) as Hc. apply Permutation_length in Hp. cbn [length] in *. unfold size in Hused. lia.
    + destruct Hr as (d' & -> & Hwf' & Hp & Hd). exists d'. rewrite Hd, app_nil_r. split_and!; [done|by eapply represents_cons|done|].
      pose proof (Hcount d' _ Hwf' (Nat.eq_le_incl _ _ (Permutation_length Hp))) as Hc. cbn [length] in Hc. unfold size in Hused. lia.
  - pose proof (dictDelete_spec d k Hwf) as Hr. unfold value_of in Hr. destruct (list_to_map (entries d) !! k) as [v|] eqn:E.
    + destruct Hr as (d' & -> & Hwf' & Hp & Hd). exists d'. rewrite Hd. split_and!; [done| |done|].
      * split; [done|]. rewrite (list_to_map_proper _ _ Hnd Hp). cbn. rewrite delete_insert_eq. symmetry. apply delete_id.
        apply not_elem_of_list_to_map. rewrite (fmap_Permutation fst _ _ Hp) in Hnd. by apply NoDup_cons in Hnd as [? _].
      * apply Permutation_length in Hp. pose proof (Hcount d' _ Hwf' (le_n _)) as Hc. cbn [length] in *. unfold size in Hused. lia.
    + rewrite Hr. exists d. rewrite app_nil_r. split_and!; [done|by split|done|lia].
  - rewrite (dictFind_spec d k Hwf). exists d. rewrite app_nil_r. split_and!; [|by split|done|lia].
    cbn [mbind res_bind]. unfold value_of. by destruct (list_to_map (entries d) !! k).
  - destruct (dictClear_spec d Hwf) as (d' & -> & Hwf' & He & Hd). exists d'. rewrite Hd. split_and!; [done| | |].
    + split; [done|]. by rewrite He.
    + by rewrite map_to_list_to_map.
    + pose proof (Hcount d' 0%nat Hwf' ltac:(by rewrite He)). pose proof (size_nonneg (entries d)). lia.
Qed.

Lemma run_dict_spec os : forall d m, granted -> represents d m -> d.(used) + size os < 2 ^ 30 ->
  let '(l, m', w) := run_map os m in
  exists d', run_dict os d = Ok (l, d') /\ represents d' m' /\ d'.(destroyed) ≡ₚ d.(destroyed) ++ w.
Proof using Type*.
  induction os as [|o os IH]; intros d m Hg Hr Hu; cbn [run_map run_dict].
  - exists d. rewrite app_nil_r. by split_and!.
  - rewrite size_cons in Hu. pose proof (size_nonneg os). pose proof (dict_step_spec o d m Hg Hr ltac:(lia)) as Hs.
    destruct (map_op o m) as [a m1]. destruct Hs as (d1 & -> & Hr1 & Hd1 & Hu1). cbn [mbind res_bind].
    specialize (IH d1 m1 Hg Hr1 ltac:(lia)). destruct (run_map os m1) as [[l m2] w]. destruct IH as (d2 & -> & Hr2 & Hd2).
    exists d2. split_and!; [done|done|]. by rewrite Hd2, Hd1, app_assoc.
Qed.

(** C35: The hash table is a finite map.  Any sequence of fewer than 2^30 additions,
    replacements, deletions, searches and clearings of a new table answers what
    the map answers, growing on the way as often as it must; afterwards an
    iterator gives every entry of the map once; and the destructors were called
    on exactly the keys and values that left the table, each once. *)
Theorem dict_refines os :
  granted -> size os < 2 ^ 30 ->
  let '(l, m, w) := run_map os ∅ in
  exists d es, (let* d := dictCreate in run_dict os d) = Ok (l, d) /\
    (let* it := dictGetIterator in iterate (S (length es)) d it) = Ok es /\
    es ≡ₚ map_to_list m /\ d.(destroyed) ≡ₚ w.
Proof using Type*.
  intros Hg Hs. unfold dictCreate, dictGetIterator. rewrite !Hg. cbn [mbind res_bind]. assert (represents empty_dict ∅) as Hnew.
  { split; [|done]. split; [constructor|]. split; [done|]. split; [done|]. by left. }
  pose proof (run_dict_spec os empty_dict ∅ Hg Hnew ltac:(cbn; lia)) as Hr. destruct (run_map os ∅) as [[l m] w].
  destruct Hr as (d & E & [Hwf Hm] & Hd). exists d, (entries d). split_and!; [done|by apply iterate_all| |done].
  rewrite <- Hm. symmetry. apply map_to_list_to_map. apply Hwf.
Qed.
End Runs.

(** ** The dictionary of callbacks is lawful *)

Lemma memcmp_eq a : forall b, length a = length b -> (memcmp a b =? 0) = bool_decide (a = b).
Proof.
  induction a as [|x a IH]; intros [|y b] Hl; try done. cbn [memcmp]. injection Hl as Hl.
  destruct (Z.ltb_spec (uchar x) (uchar y)); [|destruct (Z.ltb_spec (uchar y) (uchar x))].
  - symmetry. apply bool_decide_eq_false. intros [= -> _]. lia.
  - symmetry. apply bool_decide_eq_false. intros [= -> _]. lia.
  - assert (x = y) as -> by (apply uchar_inj; lia). rewrite IH by done. apply bool_decide_ext. split; [by intros ->|by intros [= ->]].
Qed.

Lemma hash_fold_range buf : forall h, 0 <= h < 2 ^ 32 ->
  0 <= fold_left (fun hash c => uwrap32 (uwrap32 (uwrap32 (Z.shiftl hash 5) + hash) + uchar c)) buf h < 2 ^ 32.
Proof. induction buf as [|c buf IH]; intros h Hh; [done|]. cbn [fold_left]. apply IH. apply Z.mod_pos_bound. lia. Qed.

Lemma callbackDict_lawful {V} `{Allocator} : granted -> LawfulDict bytes V.
Proof.
  intros Hg. constructor.
  - intros a b. cbn. unfold callbackKeyCompare. destruct (Z.eqb_spec (size a) (size b)) as [E|E]; cbn [negb].
    + apply memcmp_eq. unfold size in E. lia.
    + symmetry. apply bool_decide_eq_false. by intros ->.
  - intros k. apply hash_fold_range. lia.
  - done.
  - intros v. cbn. unfold callbackValDup. by rewrite Hg.
Qed.

Definition sample_ops : list (dict_op bytes Z) :=
  map (fun i => op_add (to_string i) i) [1; 2; 3; 4; 5; 6; 7; 8; 9; 3] ++
  [op_replace (str "7") 70; op_replace (str "x") 24; op_delete (str "2"); op_delete (str "2"); op_find (str "7"); op_find (str "2")].

Lemma dict_refines_witness :
  exists d es, (let* d := dictCreate (H0 := fun _ => true) in
      run_dict (H0 := fun _ => true) (dictType0 := callbackDict (H := fun _ => true)) sample_ops d) = Ok
    ([code 0; code 0; code 0; code 0; code 0; code 0; code 0; code 0; code 0; code 1; code 0; code 1; code 0; code 1; found (Some 70); found None], d) /\
    (let* it := dictGetIterator (H0 := fun _ => true) in iterate (S (length es)) d it) = Ok es /\ length es = 9%nat /\ d.(destroyed) ≡ₚ [inr 7; inl (str "2"); inr 2].
Proof.
  pose proof (dict_refines (H0 := fun _ => true) (dictType0 := callbackDict (H := fun _ => true))
    (LawfulDict0 := callbackDict_lawful (fun _ => eq_refl)) sample_ops (fun _ => eq_refl) ltac:(by vm_compute)) as Hr.
  destruct (run_map sample_ops ∅) as [[l m] w] eqn:E.
  assert (l = (run_map (V := Z) sample_ops ∅).1.1 /\ w = (run_map (V := Z) sample_ops ∅).2 /\ base.size m = base.size (run_map (V := Z) sample_ops ∅).1.2)
    as (-> & -> & Hm) by (rewrite E; done).
  destruct Hr as (d & es & E1 & E2 & E3 & E4). exists d, es. split_and!; [by vm_compute in E1|exact E2| |by vm_compute in E4].
  apply Permutation_length in E3. rewrite E3, length_map_to_list, Hm. by vm_compute.
Defined.
