(* ===== verification/HiredisContext.v ===== *)
(** * [src/win/hiredis/hiredis.h], [src/win/hiredis/hiredis.c]: connections.

    A context has an output buffer of commands and a reader of replies.  The
    socket is a [world]: what the next reads and writes of the descriptor return,
    what was written, which descriptors were closed.  A call that has to wait for
    more than the world holds is [None].  Here a context comes from a
    descriptor ([redisConnectFd]); [Net] connects one. *)
From S2P Require Import Prelude CxxString Sds SdsText HiredisFormat HiredisReply HiredisReader.

Definition REDIS_ERR_IO : Z := 1.
Definition REDIS_ERR_OTHER : Z := 2.
Definition REDIS_ERR_EOF : Z := 3.
Definition REDIS_BLOCK : Z := 1.
Definition REDIS_CONNECTED : Z := 2.

(** ** The system *)

Inductive errno : Type := EAGAIN | EINTR | errno_other (n : Z).

(** [strerror_r] *)
Class Strerror : Type := strerror : errno -> bytes.

(** Data that arrives, the end of the stream or a failure; a write that takes at
    most [n] bytes or a failure. *)
Inductive in_event : Type := in_data (d : bytes) | in_eof | in_errno (e : errno).
Inductive out_event : Type := out_taken (n : nat) | out_errno (e : errno).

Record world : Type := mk_world {
  w_in : list in_event; w_out : list out_event; w_sent : bytes; w_closed : list Z }.

Definition set_in (w : world) (l : list in_event) : world := mk_world l w.(w_out) w.(w_sent) w.(w_closed).

Definition read_size : nat := 1024 * 16.

(** [read(fd, buf, sizeof(buf))]: the bytes, none at the end of the stream. *)
Definition sys_read (w : world) : option ((bytes + errno) * world) :=
  match w.(w_in) with
  | [] => None
  | in_eof :: l => Some (inl [], set_in w l)
  | in_errno e :: l => Some (inr e, set_in w l)
  | in_data d :: l =>
      Some (inl (take read_size d), set_in w (if Nat.leb (length d) read_size then l else in_data (drop read_size d) :: l))
  end.

(** [write(fd, d, size d)]: the number of bytes taken. *)
Definition sys_write (w : world) (d : bytes) : option ((nat + errno) * world) :=
  match w.(w_out) with
  | [] => None
  | out_errno e :: l => Some (inr e, mk_world w.(w_in) l w.(w_sent) w.(w_closed))
  | out_taken n :: l =>
      let n := Nat.min n (length d) in Some (inl n, mk_world w.(w_in) l (w.(w_sent) ++ take n d) w.(w_closed))
  end.

Definition sys_close (w : world) (fd : Z) : world := mk_world w.(w_in) w.(w_out) w.(w_sent) (w.(w_closed) ++ [fd]).

(** A computation with the system; [None] waits. *)
Definition io (A : Type) : Type := world -> res (option (A * world)).

Definition done {A} (a : A) : io A := fun w => Ok (Some (a, w)).
Definition lift {A} (m : res A) : io A := fun w => let* a := m in Ok (Some (a, w)).
Definition io_bind {A B} (m : io A) (f : A -> io B) : io B := fun w =>
  let* o := m w in match o with None => Ok None | Some (a, w) => f a w end.
(** A system call; it waits when the world has no answer. *)
Definition sys {A} (f : world -> option (A * world)) : io A := fun w => Ok (f w).

Notation "'io*' x ':=' m 'in' k" := (io_bind m (fun x => k))
  (at level 10, x pattern, m at level 100, k at level 200) : cxx_scope.

(** ** Contexts *)

(** [struct redisContext], without what only [net.c] uses. *)
Record redisContext : Type := mk_context {
  c_err : Z; c_errstr : bytes; c_fd : Z; c_flags : Z; c_obuf : option sds; c_reader : option reader }.

Definition set_obuf (c : redisContext) (s : option sds) : redisContext :=
  mk_context c.(c_err) c.(c_errstr) c.(c_fd) c.(c_flags) s c.(c_reader).
Definition set_reader (c : redisContext) (r : reader) : redisContext :=
  mk_context c.(c_err) c.(c_errstr) c.(c_fd) c.(c_flags) c.(c_obuf) (Some r).

Definition blocking (c : redisContext) : bool := Z.testbit c.(c_flags) 0.

Section Context_.
Context `{Allocator} `{Strerror} `{Printf}.

(** [__redisSetError]; without a description it is the one of [errno]. *)
Definition redisSetError (c : redisContext) (type : Z) (msg : option bytes) (e : errno) : res redisContext :=
  let text t := mk_context type (take 127 (c_str t)) c.(c_fd) c.(c_flags) c.(c_obuf) c.(c_reader) in
  match msg with
  | Some m => Ok (text m)
  | None => if negb (type =? REDIS_ERR_IO) then UB assertion_failed else Ok (text (strerror e))
  end.

Definition no_errno : errno := errno_other 0.

(** The reader's heap, which its replies stay in, and the world. *)
Definition redisFree (c : redisContext) : io heap :=
  fun w =>
    let w := if 0 <? c.(c_fd) then sys_close w c.(c_fd) else w in
    let* h := (match c.(c_reader) with Some r => redisReaderFree r | None => Ok [] end) in
    Ok (Some (h, w)).

Definition redisFreeKeepFd (c : redisContext) : io (Z * heap) :=
  io* h := redisFree (mk_context c.(c_err) c.(c_errstr) (-1) c.(c_flags) c.(c_obuf) c.(c_reader)) in done (c.(c_fd), h).

Definition context_size : Z := 208.

Definition redisContextInit : io (option redisContext) :=
  if negb (alloc_ok context_size) then done None
  else
    io* obuf := lift sdsempty in
    io* r := lift (redisReaderCreate []) in
    let c := mk_context 0 [] 0 0 obuf r in
    match obuf, r with
    | Some _, Some _ => done (Some c)
    | _, _ => io* _ := redisFree c in done None
    end.

Definition redisConnectFd (fd : Z) : io (option redisContext) :=
  io* o := redisContextInit in
  match o with
  | None => done None
  | Some c => done (Some (mk_context c.(c_err) c.(c_errstr) fd (Z.lor c.(c_flags) (Z.lor REDIS_BLOCK REDIS_CONNECTED)) c.(c_obuf) c.(c_reader)))
  end.

(** ** Buffers *)

(** [(errno == EAGAIN && !(c->flags & REDIS_BLOCK)) || (errno == EINTR)] *)
Definition try_again (c : redisContext) (e : errno) : bool :=
  match e with EAGAIN => negb (blocking c) | EINTR => true | errno_other _ => false end.

Definition redisBufferRead (c : redisContext) : io (Z * redisContext) :=
  if negb (c.(c_err) =? 0) then done (REDIS_ERR, c)
  else
    io* nread := sys sys_read in
    match nread with
    | inr e =>
        if try_again c e then done (REDIS_OK, c)
        else io* c := lift (redisSetError c REDIS_ERR_IO None e) in done (REDIS_ERR, c)
    | inl [] => io* c := lift (redisSetError c REDIS_ERR_EOF (Some (str "Server closed the connection")) no_errno) in done (REDIS_ERR, c)
    | inl d =>
        io* r := lift (live c.(c_reader)) in
        io* (k, r) := lift (redisReaderFeed r d) in
        let c := set_reader c r in
        if negb (k =? REDIS_OK) then
          io* c := lift (redisSetError c r.(rd_err) (Some r.(rd_errstr)) no_errno) in done (REDIS_ERR, c)
        else done (REDIS_OK, c)
    end.

(** The return value and [*done]. *)
Definition redisBufferWrite (c : redisContext) : io (Z * bool * redisContext) :=
  if negb (c.(c_err) =? 0) then done (REDIS_ERR, false, c)
  else
    io* s := lift (live c.(c_obuf)) in
    io* (k, c) := (if 0 <? sdslen s then
        io* d := lift (sds_bytes s) in
        io* nwritten := sys (fun w => sys_write w d) in
        match nwritten with
        | inr e =>
            if try_again c e then done (REDIS_OK, c)
            else io* c := lift (redisSetError c REDIS_ERR_IO None e) in done (REDIS_ERR, c)
        | inl n =>
            let n := Z.of_nat n in
            if 0 <? n then
              if n =? wrap32 (sdslen s) then io* o := lift sdsempty in done (REDIS_OK, set_obuf c o)
              else io* s := lift (sdsrange s n (-1)) in done (REDIS_OK, set_obuf c (Some s))
            else done (REDIS_OK, c)
        end
      else done (REDIS_OK, c)) in
    if k =? REDIS_ERR then done (REDIS_ERR, false, c)
    else io* s := lift (live c.(c_obuf)) in done (REDIS_OK, sdslen s =? 0, c).

(** ** Replies *)

Definition redisGetReplyFromReader (c : redisContext) : res (Z * option obj * redisContext) :=
  let* r := live c.(c_reader) in
  let* (k, o, r) := redisReaderGetReply r in
  let c := set_reader c r in
  if k =? REDIS_ERR then
    let* c := redisSetError c r.(rd_err) (Some r.(rd_errstr)) no_errno in Ok (REDIS_ERR, o, c)
  else Ok (REDIS_OK, o, c).

(** [do { redisBufferWrite(c,&wdone) } while (!wdone);] *)
Fixpoint write_loop (fuel : nat) (c : redisContext) : io (Z * redisContext) :=
  match fuel with
  | O => lift (UB no_fuel)
  | S fuel' =>
      io* (k, wdone, c) := redisBufferWrite c in
      if k =? REDIS_ERR then done (REDIS_ERR, c)
      else if wdone : bool then done (REDIS_OK, c) else write_loop fuel' c
  end.

(** [do { redisBufferRead(c); redisGetReplyFromReader(c,&aux) } while (aux == NULL);] *)
Fixpoint read_loop (fuel : nat) (c : redisContext) : io (Z * option obj * redisContext) :=
  match fuel with
  | O => lift (UB no_fuel)
  | S fuel' =>
      io* (k, c) := redisBufferRead c in
      if k =? REDIS_ERR then done (REDIS_ERR, None, c)
      else
        io* (k, aux, c) := lift (redisGetReplyFromReader c) in
        if k =? REDIS_ERR then done (REDIS_ERR, None, c)
        else match aux with Some _ => done (REDIS_OK, aux, c) | None => read_loop fuel' c end
  end.

(** Every turn of the loops takes an answer, or a byte, of the world. *)
Definition in_weight (l : list in_event) : nat :=
  fold_right (fun e n => match e with in_data d => S (length d) + n | _ => S n end)%nat 1%nat l.

(** The return value and [*reply] ([None] when it is not set). *)
Definition redisGetReply (c : redisContext) : io (Z * option obj * redisContext) := fun w =>
  let* (k, aux, c) := redisGetReplyFromReader c in
  if k =? REDIS_ERR then done (REDIS_ERR, None, c) w
  else
    match aux with
    | Some _ => done (REDIS_OK, aux, c) w
    | None =>
        if blocking c then
          (io* (k, c) := write_loop (S (S (length w.(w_out)))) c in
           if k =? REDIS_ERR then done (REDIS_ERR, None, c)
           else fun w => read_loop (in_weight w.(w_in)) c w) w
        else done (REDIS_OK, None, c) w
    end.

(** ** Commands *)

Definition redisAppend (c : redisContext) (cmd : bytes) : res (Z * redisContext) :=
  let* s := live c.(c_obuf) in
  let* o := sdscatlen s cmd in
  match o with
  | None => let* c := redisSetError c REDIS_ERR_OOM (Some (str "Out of memory")) no_errno in Ok (REDIS_ERR, c)
  | Some s => Ok (REDIS_OK, set_obuf c (Some s))
  end.

Definition redisAppendFormattedCommand (c : redisContext) (cmd : bytes) : res (Z * redisContext) :=
  let* (k, c) := redisAppend c cmd in
  if negb (k =? REDIS_OK) then Ok (REDIS_ERR, c) else Ok (REDIS_OK, c).

Definition redisvAppendCommand (c : redisContext) (format : bytes) (ap : list va) : res (Z * redisContext) :=
  let* (len, target) := redisvFormatCommand format ap in
  if len =? -1 then
    let* c := redisSetError c REDIS_ERR_OOM (Some (str "Out of memory")) no_errno in Ok (REDIS_ERR, c)
  else if len =? -2 then
    let* c := redisSetError c REDIS_ERR_OTHER (Some (str "Invalid format string")) no_errno in Ok (REDIS_ERR, c)
  else
    let* m := live target in
    let* cmd := mem_read m 0 (wrap64 len) in
    let* (k, c) := redisAppend c cmd in
    if negb (k =? REDIS_OK) then Ok (REDIS_ERR, c) else Ok (REDIS_OK, c).

Definition redisAppendCommandArgv (c : redisContext) (argv : list bytes) (argvlen : option (list Z)) : res (Z * redisContext) :=
  let* (len, target) := redisFormatSdsCommandArgv argv argvlen in
  if len =? -1 then
    let* c := redisSetError c REDIS_ERR_OOM (Some (str "Out of memory")) no_errno in Ok (REDIS_ERR, c)
  else
    let* s := live target in
    let* cmd := mem_read s.(sds_buf) 0 (wrap64 len) in
    let* (k, c) := redisAppend c cmd in
    if negb (k =? REDIS_OK) then Ok (REDIS_ERR, c) else Ok (REDIS_OK, c).

(** [__redisBlockForReply]: the reply, or [NULL]. *)
Definition redisBlockForReply (c : redisContext) : io (option obj * redisContext) :=
  if blocking c then
    io* (k, o, c) := redisGetReply c in
    done (if negb (k =? REDIS_OK) then None else o, c)
  else done (None, c).

Definition redisvCommand (c : redisContext) (format : bytes) (ap : list va) : io (option obj * redisContext) :=
  io* (k, c) := lift (redisvAppendCommand c format ap) in
  if negb (k =? REDIS_OK) then done (None, c) else redisBlockForReply c.

(** The variadic functions. *)
Definition redisAppendCommand (c : redisContext) (format : bytes) (ap : list va) : res (Z * redisContext) :=
  let* (ret, c) := redisvAppendCommand c format ap in Ok (ret, c).

Definition redisCommand (c : redisContext) (format : bytes) (ap : list va) : io (option obj * redisContext) :=
  io* (reply, c) := redisvCommand c format ap in done (reply, c).

Definition redisCommandArgv (c : redisContext) (argv : list bytes) (argvlen : option (list Z)) : io (option obj * redisContext) :=
  io* (k, c) := lift (redisAppendCommandArgv c argv argvlen) in
  if negb (k =? REDIS_OK) then done (None, c) else redisBlockForReply c.
End Context_.
