(* ===== verification/HiredisPipeline.v ===== *)
(** * A pipeline over a blocking connection.

    However the system cuts reads and writes, and however often it interrupts
    them, the commands of a blocking context reach the socket whole and in order,
    and the replies come back whole and in order. *)
From S2P Require Import Prelude CxxString Sds SdsRefine SdsText HiredisFormat HiredisReply HiredisReader HiredisReaderInput HiredisReplyTree HiredisReaderSpec HiredisProtocol HiredisReaderRefine HiredisStream HiredisContext.

(** ** What the system does *)

(** The bytes that arrive, when there are only data and interrupted calls. *)
Fixpoint arriving (l : list in_event) : option bytes :=
  match l with
  | [] => Some []
  | in_data [] :: _ | in_eof :: _ => None
  | in_data d :: l' => (fun x => d ++ x) <$> arriving l'
  | in_errno EINTR :: l' => arriving l'
  | in_errno _ :: _ => None
  end.

(** The events that are left when [n] bytes have been taken; [None] when they
    would not all be, or the connection failed. *)
Fixpoint drain (l : list out_event) (n : nat) : option (list out_event) :=
  match n with
  | O => Some l
  | _ =>
      match l with
      | [] => None
      | out_taken k :: l' => drain l' (n - k)
      | out_errno EINTR :: l' => drain l' n
      | out_errno _ :: _ => None
      end
  end.

(** The write events are enough for writes of these sizes, one loop each. *)
Fixpoint drains (l : list out_event) (ns : list nat) : option (list out_event) :=
  match ns with [] => Some l | n :: ns => match drain l n with None => None | Some l => drains l ns end end.

Lemma arriving_app l k x y : arriving l = Some x -> arriving k = Some y -> arriving (l ++ k) = Some (x ++ y).
Proof.
  revert x. induction l as [|e l IH]; intros x Hx Hy; cbn [app arriving] in *; [by injection Hx as <-|].
  destruct e as [[|b d]| |[| |z]]; try done; [|by apply IH]. destruct (arriving l) as [x'|]; [|done].
  apply (inj Some) in Hx. subst x. rewrite (IH x' eq_refl Hy). by rewrite <- app_assoc.
Qed.

Lemma drain_0 l : drain l 0 = Some l.
Proof. by destruct l. Qed.

Section Pipeline.
Context `{Allocator} `{Strerror}.
Hypothesis Hg : granted.
Variable fd : Z.

(** A healthy blocking context: [o] waits to be written, the reader is in the
    state [ls], [ty] with [d] unread. *)
Definition conn (c : redisContext) (o : bytes) (ls : list level) (ty : Z) (d : bytes) (n : Z) : Prop :=
  c.(c_err) = 0 /\ (blocking c = true /\ c.(c_fd) = fd) /\
  (exists s, c.(c_obuf) = Some s /\ repr s o) /\
  (exists r, c.(c_reader) = Some r /\ state r ls ty d /\ r.(rd_len) <= n).

Lemma not_refused : ~ refused.
Proof using Hg. by apply granted_not_refused. Qed.

Lemma io_bind_done {A B} (m : io A) (f : A -> io B) a w w' : m w = Ok (Some (a, w')) -> io_bind m f w = f a w'.
Proof using. intros E. unfold io_bind. by rewrite E. Qed.

(** *** Writing *)

Definition with_out (w : world) (l : list out_event) (d : bytes) : world := mk_world w.(w_in) l (w.(w_sent) ++ d) w.(w_closed).

Lemma size_take_min {A} k (o : list A) : size (take k o) = Z.of_nat (Nat.min k (length o)).
Proof using. unfold size. by rewrite length_take. Qed.

(** A write that takes some of the buffer. *)
Lemma write_some c o ls ty d n w k l : conn c o ls ty d n -> 0 < size o <= 2 ^ 29 -> w.(w_out) = out_taken k :: l ->
  exists c', redisBufferWrite c w = Ok (Some ((REDIS_OK, bool_decide (length o <= k)%nat, c'), with_out w l (take k o))) /\
    conn c' (drop k o) ls ty d n.
Proof using Hg.
  intros (He & Hbl & (s & Es & Hs) & Hr) Hsz Hw. unfold redisBufferWrite. rewrite He, Es. cbn [Z.eqb negb live].
  rewrite (io_bind_done _ _ s w w eq_refl), (repr_sdslen _ _ Hs). destruct (Z.ltb_spec 0 (size o)); [|lia].
  unfold io_bind, lift, sys. rewrite (sds_bytes_repr _ _ Hs). cbn [mbind res_bind]. unfold sys_write. rewrite Hw. cbn [mbind res_bind].
  fold (with_out w l (take (Nat.min k (length o)) o)). unfold size in Hsz.
  destruct (Z.ltb_spec 0 (Z.of_nat (Nat.min k (length o)))) as [Hk|Hk]; cbn [mbind res_bind].
  - destruct (Z.eqb_spec (Z.of_nat (Nat.min k (length o))) (wrap32 (size o))) as [Efull|Epart].
    + rewrite wrap32_id in Efull by (unfold INT_MAX, size; lia). unfold size in Efull.
      pose proof (sdsnewlen_spec [] ltac:(by rewrite size_nil)) as Hp. unfold post in Hp.
      change (sdsnewlen (Some []) (size [])) with sdsempty in Hp. destruct sdsempty as [[s'|]| |]; cbn [mbind res_bind]; try done;
        [|by destruct not_refused].
      cbn [set_obuf c_obuf live mbind res_bind done REDIS_OK REDIS_ERR Z.eqb Pos.eqb]. rewrite (repr_sdslen _ _ Hp). change (size (@nil byte)) with 0.
      rewrite bool_decide_eq_true_2 by lia. eexists. split; [by rewrite !(take_ge o) by lia|].
      rewrite (drop_ge o) by lia. split; [done|]. split; [done|]. split; [by exists s'|done].
    + rewrite wrap32_id in Epart by (unfold INT_MAX, size; lia). unfold size in Epart.
      destruct (sdsrange_spec s o (Z.of_nat (Nat.min k (length o))) (-1) Hs) as (s' & -> & Hs'); [unfold INT_MAX; lia..|].
      assert (range_of o (Z.of_nat (Nat.min k (length o))) (-1) = drop k o) as Ed.
      { rewrite <- size_take_min. rewrite <- (take_drop k o) at 1. apply range_of_end. }
      rewrite Ed in Hs'. cbn [set_obuf c_obuf live mbind res_bind done REDIS_OK REDIS_ERR Z.eqb Pos.eqb]. rewrite (repr_sdslen _ _ Hs').
      assert (size (drop k o) =? 0 = false) as -> by (apply Z.eqb_neq; unfold size; rewrite length_drop; lia).
      rewrite bool_decide_eq_false_2 by lia. eexists. split; [by rewrite Nat.min_l by lia|].
      split; [done|]. split; [done|]. split; [by exists s'|done].
  - assert (k = 0%nat) as -> by lia. unfold done. cbn. rewrite Es. cbn. rewrite (repr_sdslen _ _ Hs).
    assert (size o =? 0 = false) as -> by (apply Z.eqb_neq; unfold size; lia).
    rewrite bool_decide_eq_false_2 by lia. eexists. split; [done|].
    rewrite drop_0. split; [done|]. split; [done|]. split; [by exists s|done].
Qed.

(** An interrupted write takes nothing. *)
Lemma write_interrupted c o ls ty d n w l : conn c o ls ty d n -> 0 < size o -> w.(w_out) = out_errno EINTR :: l ->
  redisBufferWrite c w = Ok (Some ((REDIS_OK, false, c), with_out w l [])).
Proof using.
  intros (He & Hbl & (s & Es & Hs) & Hr) Hsz Hw. unfold redisBufferWrite. rewrite He, Es. cbn [Z.eqb negb live].
  rewrite (io_bind_done _ _ s w w eq_refl), (repr_sdslen _ _ Hs). destruct (Z.ltb_spec 0 (size o)); [|lia].
  unfold io_bind, lift, sys. rewrite (sds_bytes_repr _ _ Hs). cbn [mbind res_bind]. unfold sys_write. rewrite Hw. cbn. rewrite Es. cbn. rewrite (repr_sdslen _ _ Hs).
  assert (size o =? 0 = false) as -> by (apply Z.eqb_neq; lia). unfold with_out. by rewrite app_nil_r.
Qed.

(** An empty buffer is written at once. *)
Lemma write_nothing c ls ty d n w : conn c [] ls ty d n -> redisBufferWrite c w = Ok (Some ((REDIS_OK, true, c), w)).
Proof using.
  intros (He & Hbl & (s & Es & Hs) & Hr). unfold redisBufferWrite. rewrite He, Es. cbn [Z.eqb negb live].
  rewrite (io_bind_done _ _ s w w eq_refl), (repr_sdslen _ _ Hs). change (0 <? size (@nil byte)) with false.
  unfold io_bind, done, lift. cbn. rewrite Es. cbn. by rewrite (repr_sdslen _ _ Hs).
Qed.

(** The loop of [redisGetReply] sends the whole buffer. *)
Lemma write_loop_spec fuel : forall c o ls ty d n w rest,
  conn c o ls ty d n -> size o <= 2 ^ 29 -> drain w.(w_out) (length o) = Some rest -> (length w.(w_out) < fuel)%nat ->
  exists c', write_loop fuel c w = Ok (Some ((REDIS_OK, c'), with_out w rest o)) /\ conn c' [] ls ty d n.
Proof using Hg.
  induction fuel as [|fuel IH]; intros c o ls ty d n w rest Hc Hsz Hd Hf; [lia|]. cbn [write_loop].
  destruct (decide (o = [])) as [->|Hne].
  { unfold io_bind. rewrite (write_nothing _ _ _ _ _ _ Hc). change (length []) with 0%nat in Hd. rewrite drain_0 in Hd. injection Hd as <-. exists c. split; [|done].
    unfold done, with_out. rewrite app_nil_r. by destruct w. }
  assert (0 < size o) as Hpos by (pose proof (size_nonneg o); assert (size o <> 0) by (by rewrite size_zero); lia).
  assert (exists m, length o = S m) as (m & Em) by (destruct o; [done | by eexists]).
  rewrite Em in Hd. destruct (w_out w) as [|[k|[| |z]] l] eqn:Ew; cbn [drain] in Hd; try done.
  - destruct (write_some c o ls ty d n w k l Hc ltac:(lia) Ew) as (c1 & E1 & Hc1). unfold io_bind. rewrite E1. cbn [mbind res_bind Z.eqb REDIS_OK REDIS_ERR].
    rewrite <- Em in Hd. case_bool_decide as Hk.
    + rewrite drop_ge in Hc1 by done. rewrite (take_ge o) in * by done. exists c1. split; [|done].
      replace (length o - k)%nat with 0%nat in Hd by lia. rewrite drain_0 in Hd. by injection Hd as <-.
    + rewrite <- length_drop in Hd. assert (w_out (with_out w l (take k o)) = l) as Hl by done. rewrite <- Hl in Hd.
      destruct (IH c1 (drop k o) ls ty d n _ rest Hc1 ltac:(unfold size in *; rewrite length_drop; lia) Hd) as (c2 & E2 & Hc2); [cbn in *; lia|].
      exists c2. split; [|done]. rewrite E2. unfold with_out. cbn. by rewrite <- app_assoc, take_drop.
  - unfold io_bind. rewrite (write_interrupted c o ls ty d n w l Hc Hpos Ew). cbn [mbind res_bind Z.eqb REDIS_OK REDIS_ERR].
    rewrite <- Em in Hd. destruct (IH c o ls ty d n (with_out w l []) rest Hc Hsz Hd) as (c2 & E2 & Hc2); [cbn in *; lia|].
    exists c2. split; [|done]. rewrite E2. unfold with_out. cbn. by rewrite app_nil_r.
Qed.

(** *** Reading *)

Variable after : list in_event.

(** What arrives before the events [after]. *)
Definition arrives (w : world) (x : bytes) : Prop := exists l, w.(w_in) = l ++ after /\ arriving l = Some x.

(** Nothing but the reads may have changed. *)
Definition same_out (w w' : world) : Prop := w'.(w_out) = w.(w_out) /\ w'.(w_sent) = w.(w_sent) /\ w'.(w_closed) = w.(w_closed).

(** One read: an interruption, or the next bytes that arrive. *)
Lemma read_spec c o ls ty d n w x : conn c o ls ty d n -> arrives w x -> n + size x <= 2 ^ 29 ->
  x = [] \/ exists c' w' y x', redisBufferRead c w = Ok (Some ((REDIS_OK, c'), w')) /\ conn c' o ls ty (d ++ y) (n + size y) /\
    arrives w' x' /\ x = y ++ x' /\ same_out w w' /\ (in_weight w'.(w_in) < in_weight w.(w_in))%nat.
Proof using Hg.
  intros (He & Hbl & Ho & r & Er & Hst & Hn) (l0 & Ew & Ha) Hsz. unfold redisBufferRead. rewrite He. cbn [Z.eqb negb].
  unfold io_bind, sys, sys_read. rewrite Ew. destruct l0 as [|[[|b d1]| |[| |z]] l]; [left; by injection Ha|right..]; try done; cbn [app].
  - cbn [arriving] in Ha. destruct (arriving l) as [x1|] eqn:El; [|done]. apply (inj Some) in Ha. subst x. cbn [mbind res_bind].
    set (dd := b :: d1) in *. assert (exists b' y', take read_size dd = b' :: y') as (b' & y' & Ey) by (unfold read_size, dd; by eexists _, _).
    rewrite Ey, Er. rewrite <- Ey. unfold lift. cbn [live mbind res_bind].
    assert (size dd = size (take read_size dd) + size (drop read_size dd)) as Edd by (by rewrite <- size_app, take_drop).
    rewrite size_app, Edd in Hsz. pose proof (size_nonneg (drop read_size dd)). pose proof (size_nonneg x1).
    destruct (feed_spec r ls ty d (take read_size dd) Hst ltac:(lia)) as [(r' & -> & Hs' & Hle)|[Href _]]; [|by destruct not_refused].
    cbn [mbind res_bind REDIS_OK Z.eqb negb Pos.eqb].
    eexists _, _, (take read_size dd), (drop read_size dd ++ x1). split; [reflexivity|].
    split; [split; [done|]; split; [done|]; split; [done|]; exists r'; split; [done|]; split; [done|lia]|].
    rewrite app_assoc, take_drop. destruct (Nat.leb_spec (length dd) read_size) as [Hle2|Hgt].
    + split; [exists l; rewrite drop_ge by done; by split|]. split; [done|]. split; [done|].
      change (in_weight (l ++ after) < S (length dd) + in_weight (l ++ after))%nat. lia.
    + assert (exists b2 y2, drop read_size dd = b2 :: y2) as (b2 & y2 & E2).
      { destruct (drop read_size dd) eqn:E; [|by eexists _, _]. apply (f_equal length) in E. rewrite length_drop in E. change (length []) with 0%nat in E. lia. }
      split; [exists (in_data (drop read_size dd) :: l); split; [done|]; rewrite E2; cbn [arriving]; by rewrite El|]. split; [done|]. split; [done|].
      change (S (length (drop read_size dd)) + in_weight (l ++ after) < S (length dd) + in_weight (l ++ after))%nat. rewrite length_drop. assert (0 < read_size)%nat by (unfold read_size; lia). lia.
  - cbn [mbind res_bind try_again]. eexists c, _, [], x. split; [reflexivity|]. rewrite app_nil_r. change (size (@nil byte)) with 0.
    split; [|split; [by exists l|]; split; [done|]; split; [done|]; cbn; lia].
    split; [done|]; split; [done|]; split; [done|]; exists r; split; [done|]; split; [done|lia].
Qed.

(** The reply [v] is there; [z] is left, some of it in the reader. *)
Definition got (w : world) (o : bytes) (N : Z) (v : value) (z : bytes) (m : res (option ((Z * option obj * redisContext) * world))) : Prop :=
  exists c r t w' n d x, m = Ok (Some ((REDIS_OK, Some (obj_reply (root t)), c), w')) /\
    conn c o [] (-1) d n /\ c.(c_reader) = Some r /\ r.(rd_ridx) = -1 /\ heap_has r.(rd_heap) t /\ NoDup (nodes t) /\ tree_value t = v /\
    arrives w' x /\ z = d ++ x /\ n + size x <= N /\ same_out w w'.

Lemma getReplyFromReader_spec c o ls ty d n : conn c o ls ty d n -> n <= 2 ^ 29 ->
  match parse ls ty d with
  | o_wait ls' ty' d' => exists c', redisGetReplyFromReader c = Ok (REDIS_OK, None, c') /\ conn c' o ls' ty' d' n
  | o_reply v d' => exists c' r t, redisGetReplyFromReader c = Ok (REDIS_OK, Some (obj_reply (root t)), c') /\ conn c' o [] (-1) d' n /\
      c'.(c_reader) = Some r /\ r.(rd_ridx) = -1 /\ heap_has r.(rd_heap) t /\ NoDup (nodes t) /\ tree_value t = v
  | _ => True
  end.
Proof using Hg.
  intros (He & Hbl & Ho & r & Er & Hst & Hn) Hsz. unfold redisGetReplyFromReader. rewrite Er. cbn [live mbind res_bind].
  destruct (getReply_spec r ls ty d Hst ltac:(lia)) as [Hr|[Href _]]; [|by destruct not_refused].
  destruct (parse ls ty d) as [ls' ty' d'|v d'| |u]; [| |done..].
  - destruct Hr as (r' & -> & Hs' & Hle). cbn. eexists. split; [done|]. split; [done|]. split; [done|]. split; [done|].
    exists r'. split; [done|]. split; [done|lia].
  - destruct Hr as (r' & t & -> & Hs' & Hle & H1' & H2' & H3' & H4'). cbn. eexists _, r', t. split; [done|].
    split; [|by split_and!]. split; [done|]. split; [done|]. split; [done|]. exists r'. split; [done|]. split; [done|lia].
Qed.

Lemma parse_wait_again ls ty d ls' ty' d' : ready (length ls) ty -> parse ls ty d = o_wait ls' ty' d' -> parse ls' ty' d' = o_wait ls' ty' d'.
Proof using.
  intros Hr E. pose proof (parse_app ls ty d [] Hr) as Ha. rewrite app_nil_r, E in Ha. cbn [outcome_app] in Ha. by rewrite app_nil_r in Ha.
Qed.

Lemma conn_ready c o ls ty d n : conn c o ls ty d n -> ready (length ls) ty.
Proof using. intros (_ & _ & _ & r & _ & Hst & _). by eapply state_ready. Qed.

Lemma read_loop_spec fuel : forall c o ls ty d n w x v z,
  conn c o ls ty d n -> arrives w x -> n + size x <= 2 ^ 29 -> (in_weight w.(w_in) <= fuel)%nat ->
  parse ls ty d = o_wait ls ty d -> parse ls ty (d ++ x) = o_reply v z -> got w o (n + size x) v z (read_loop fuel c w).
Proof using Hg.
  induction fuel as [|fuel IH]; intros c o ls ty d n w x v z Hc Ha Hsz Hf Hw Hp.
  { exfalso. destruct (w_in w) as [|[?| |?]]; cbn in Hf; lia. }
  destruct (read_spec c o ls ty d n w x Hc Ha Hsz) as [E|(c1 & w1 & y & x1 & E1 & Hc1 & Ha1 & -> & Hout & Hwt)].
  { rewrite E, app_nil_r, Hw in Hp. discriminate. }
  cbn [read_loop]. unfold io_bind, lift. rewrite E1. cbn [mbind res_bind REDIS_OK REDIS_ERR Z.eqb].
  rewrite size_app in *. pose proof (size_nonneg x1). rewrite app_assoc, parse_app in Hp by (by eapply conn_ready).
  pose proof (getReplyFromReader_spec c1 o ls ty (d ++ y) _ Hc1 ltac:(lia)) as Hgr. destruct (parse ls ty (d ++ y)) as [ls' ty' d'|v' d'| |u] eqn:Ep; [| |done..].
  - destruct Hgr as (c2 & -> & Hc2). cbn [mbind res_bind REDIS_OK REDIS_ERR Z.eqb]. cbn [outcome_app] in Hp.
    destruct (IH c2 o ls' ty' d' _ w1 x1 v z Hc2 Ha1) as (c3 & r3 & t & w3 & n3 & d3 & x3 & E3 & H3 & H4 & H5 & H6 & H7 & H8 & H9 & H10 & H11 & H12);
      [lia|lia|by eapply parse_wait_again, Ep; eapply conn_ready|done|].
    exists c3, r3, t, w3, n3, d3, x3. split; [done|]. do 8 (split; [done|]). split; [lia|].
    destruct Hout as (-> & -> & ->) || destruct Hout as (O1 & O2 & O3). destruct H12 as (Q1 & Q2 & Q3). split_and!; congruence.
  - destruct Hgr as (c2 & r & t & -> & Hc2 & H1' & H2' & H3' & H4' & H5'). cbn [mbind res_bind REDIS_OK REDIS_ERR Z.eqb outcome_app] in *.
    injection Hp as -> <-. exists c2, r, t, w1, (n + size y), d', x1. split; [done|]. do 8 (split; [done|]). split; [lia|done].
Qed.

(** *** [redisGetReply] *)

(** The next reply, when no reply came before its command was sent: what waits is
    sent first. *)
Lemma redisGetReply_spec c o d n w rest x v z :
  conn c o [] (-1) d n -> o = [] \/ d = [] -> size o <= 2 ^ 29 -> drain w.(w_out) (length o) = Some rest ->
  arrives w x -> n + size x <= 2 ^ 29 -> parse [] (-1) (d ++ x) = o_reply v z ->
  got (with_out w rest o) [] (n + size x) v z (redisGetReply c w).
Proof using Hg.
  intros Hc Hod Ho Hd Ha Hsz Hp. unfold redisGetReply. pose proof (size_nonneg x).
  pose proof (getReplyFromReader_spec c o [] (-1) d n Hc ltac:(lia)) as Hgr. rewrite parse_app in Hp by apply ready_any.
  destruct (parse [] (-1) d) as [ls' ty' d'|v' d'| |u] eqn:Ep; [| |done..].
  - destruct Hgr as (c1 & -> & Hc1). cbn [mbind res_bind REDIS_OK REDIS_ERR Z.eqb]. pose proof Hc1 as (_ & [-> _] & _).
    destruct (write_loop_spec (S (S (length (w_out w)))) c1 o ls' ty' d' n w rest Hc1 Ho Hd ltac:(lia)) as (c2 & E2 & Hc2).
    rewrite (io_bind_done _ _ _ _ _ E2). cbn [REDIS_OK REDIS_ERR Z.eqb].
    apply (read_loop_spec _ c2 [] ls' ty' d' n (with_out w rest o) x v z); [done|done|done|done| |done].
    by eapply parse_wait_again, Ep; apply ready_any.
  - destruct Hgr as (c1 & r & t & -> & Hc1 & H1' & H2' & H3' & H4' & H5'). cbn [mbind res_bind REDIS_OK REDIS_ERR Z.eqb outcome_app] in *.
    injection Hp as -> <-. destruct Hod as [-> | ->]; [|done]. rewrite drain_0 in Hd. injection Hd as <-.
    exists c1, r, t, w, n, d', x. split; [done|]. do 8 (split; [done|]). split; [lia|].
    split; [done|]. split; [|done]. cbn. by rewrite app_nil_r.
Qed.

(** *** The client *)

(** Takes [n] replies: each is read and freed. *)
Fixpoint get_replies (n : nat) (c : redisContext) : io (list value * redisContext) :=
  match n with
  | O => done ([], c)
  | S n =>
      io* (k, o, c) := redisGetReply c in
      match o with
      | Some (obj_reply p) =>
          io* r := lift (live c.(c_reader)) in
          io* v := lift (live (read_reply (S (length r.(rd_heap))) r.(rd_heap) p)) in
          io* h := lift (freeReplyObject (S (length r.(rd_heap))) r.(rd_heap) p) in
          io* (vs, c) := get_replies n (set_reader c (set_heap r h)) in done (v :: vs, c)
      | _ => done ([], c)
      end
  end.

(** The commands, with their arguments and lengths. *)
Fixpoint append_all (c : redisContext) (cmds : list (list bytes * option (list Z))) : res (Z * redisContext) :=
  match cmds with
  | [] => Ok (REDIS_OK, c)
  | (argv, argvlen) :: cmds =>
      let* (k, c) := redisAppendCommandArgv c argv argvlen in
      if negb (k =? REDIS_OK) then Ok (REDIS_ERR, c) else append_all c cmds
  end.

(** The replies and the error of the context. *)
Definition pipeline (fd : Z) (cmds : list (list bytes * option (list Z))) (n : nat) : io (option (list value * Z)) :=
  io* o := redisConnectFd fd in
  match o with
  | None => done None
  | Some c =>
      io* (k, c) := lift (append_all c cmds) in
      io* (vs, c) := get_replies n c in
      io* _ := redisFree c in done (Some (vs, c.(c_err)))
  end.

(** The replies [vs] come back and everything is sent. *)
Lemma get_replies_spec vs : forall c o d n w rest x,
  conn c o [] (-1) d n -> o = [] \/ (d = [] /\ vs <> []) -> size o <= 2 ^ 29 -> drain w.(w_out) (length o) = Some rest ->
  arrives w x -> n + size x <= 2 ^ 29 -> d ++ x = encodes vs -> Forall (fun v => sendable 0 v = true) vs ->
  exists c' w' n', get_replies (length vs) c w = Ok (Some ((vs, c'), w')) /\ conn c' [] [] (-1) [] n' /\
    w'.(w_sent) = w.(w_sent) ++ o /\ w'.(w_closed) = w.(w_closed).
Proof using Hg.
  induction vs as [|v vs IH]; intros c o d n w rest x Hc Hod Ho Hd Ha Hsz E Hvs.
  { apply app_nil in E as [-> ->]. destruct Hod as [-> |[_ ?]]; [|done]. exists c, w, n. rewrite app_nil_r. by split_and!. }
  apply Forall_cons_iff in Hvs as [Hv Hvs].
  assert (parse [] (-1) (d ++ x) = o_reply v (encodes vs)) as Hp.
  { rewrite E. unfold encodes at 1. cbn [map concat]. by rewrite parse_encode. }
  destruct (redisGetReply_spec c o d n w rest x v _ Hc ltac:(tauto) Ho Hd Ha Hsz Hp)
    as (c1 & r & t & w1 & n1 & d1 & x1 & E1 & Hc1 & Hr & Hi & Ht & Hnd & Hval & Ha1 & Ez & Hn1 & O1 & O2 & O3).
  cbn [length get_replies]. rewrite (io_bind_done _ _ _ _ _ E1), Hr. cbn [live].
  rewrite (io_bind_done _ _ r w1 w1 eq_refl), (read_tree t) by (try done; pose proof (nodes_heap_length _ _ Ht Hnd); lia).
  cbn [live]. rewrite (io_bind_done _ _ (tree_value t) w1 w1 eq_refl), Hval.
  pose proof Hc1 as (He1 & Hbl1 & Ho1 & r' & Er' & Hst & Hlen). rewrite Hr in Er'. injection Er' as <-.
  destruct (free_state r t d1 Hst Hi Ht Hnd) as (h & -> & Hst2). rewrite (io_bind_done _ _ h w1 w1 eq_refl).
  destruct (IH (set_reader c1 (set_heap r h)) [] d1 n1 w1 (w_out w1) x1) as (c2 & w2 & n2 & E2 & Hc2 & S1 & S2).
  { split; [done|]. split; [done|]. split; [done|]. by exists (set_heap r h). }
  { by left. } { by vm_compute. } { apply drain_0. } { done. } { lia. } { done. } { done. }
  rewrite (io_bind_done _ _ _ _ _ E2). exists c2, w2, n2. split; [done|]. split; [done|].
  by rewrite S1, S2, O2, O3, app_nil_r.
Qed.

(** *** The connection and the commands *)

(** A fresh context. *)
Lemma context_init_spec w : exists s r, redisContextInit w = Ok (Some (Some (mk_context 0 [] 0 0 (Some s) (Some r)), w)) /\
  repr s [] /\ state r [] (-1) [] /\ r.(rd_len) = 0.
Proof using Hg.
  unfold redisContextInit. rewrite Hg. cbn [negb].
  pose proof (sdsnewlen_spec [] ltac:(by rewrite size_nil)) as Hp. unfold post in Hp.
  change (sdsnewlen (Some []) (size [])) with sdsempty in Hp. unfold io_bind, lift.
  destruct sdsempty as [[s|]| |]; cbn [mbind res_bind]; try done; [|by destruct not_refused].
  destruct (create_state []) as [[_ Href]|(r & -> & Hs & Hl)]; [by destruct not_refused|]. exists s, r. by split_and!.
Qed.

Lemma connect_spec w : exists c, redisConnectFd fd w = Ok (Some (Some c, w)) /\ conn c [] [] (-1) [] 0.
Proof using Hg.
  destruct (context_init_spec w) as (s & r & E & Hs & Hst & Hl). unfold redisConnectFd. rewrite (io_bind_done _ _ _ _ _ E). eexists. split; [done|].
  split_and!; [done|done|done|by exists s|]. exists r. split_and!; [done|done|lia].
Qed.

Lemma redisAppendCommandArgv_spec c o ls ty d n argv argvlen ds : conn c o ls ty d n -> argv_is argv argvlen ds ->
  size o + size (request_bytes ds) + 128 <= 2 ^ 29 ->
  exists c', redisAppendCommandArgv c argv argvlen = Ok (REDIS_OK, c') /\ conn c' (o ++ request_bytes ds) ls ty d n.
Proof using Hg.
  intros (He & Hbl & (s & Es & Hs) & Hr) Ha Hsz. unfold redisAppendCommandArgv. pose proof (size_nonneg o).
  pose proof (format_sds_argv argv argvlen ds Ha ltac:(lia)) as Hfmt. unfold grants in Hfmt.
  destruct (redisFormatSdsCommandArgv argv argvlen) as [[len target]| |[]]; try done; [|by destruct not_refused].
  cbn in Hfmt. destruct target as [s1|]; [|by destruct Hfmt, not_refused]. destruct Hfmt as [-> Hs1]. cbn [mbind res_bind].
  pose proof (size_nonneg (request_bytes ds)). destruct (Z.eqb_spec (size (request_bytes ds)) (-1)); [lia|]. cbn [live mbind res_bind].
  destruct (repr_bytes _ _ Hs1) as (junk & ->). rewrite wrap64_id by (unfold npos; lia). rewrite mem_read_prefix by done. cbn [mbind res_bind].
  unfold redisAppend. rewrite Es. cbn [live mbind res_bind].
  pose proof (sdscatlen_spec s o (request_bytes ds) Hs ltac:(lia)) as Hp. unfold post in Hp.
  destruct (sdscatlen s (request_bytes ds)) as [[s2|]| |]; cbn [mbind res_bind]; try done; [|by destruct not_refused].
  cbn. eexists. split; [done|]. split; [done|]. split; [done|]. split; [by exists s2|done].
Qed.

Definition requests (dss : list (list bytes)) : bytes := concat (map request_bytes dss).

Lemma append_all_spec cmds dss : Forall2 (fun c ds => argv_is c.1 c.2 ds) cmds dss -> forall c o ls ty d n,
  conn c o ls ty d n -> size o + size (requests dss) + 128 <= 2 ^ 29 ->
  exists c', append_all c cmds = Ok (REDIS_OK, c') /\ conn c' (o ++ requests dss) ls ty d n.
Proof using Hg.
  induction 1 as [|[argv argvlen] ds cmds dss Ha Hall IH]; intros c o ls ty d n Hc Hsz; cbn [append_all].
  - exists c. by rewrite app_nil_r.
  - unfold requests in Hsz. cbn [map concat] in Hsz. rewrite size_app in Hsz. fold (requests dss) in Hsz. pose proof (size_nonneg (requests dss)).
    destruct (redisAppendCommandArgv_spec c o ls ty d n argv argvlen ds Hc Ha ltac:(lia)) as (c1 & -> & Hc1). cbn [mbind res_bind REDIS_OK Z.eqb negb].
    destruct (IH c1 _ ls ty d n Hc1) as (c2 & -> & Hc2); [rewrite size_app; lia|].
    exists c2. split; [done|]. unfold requests. cbn [map concat]. by rewrite app_assoc.
Qed.

Lemma redisFree_spec c o ls ty d n w : conn c o ls ty d n -> 0 < fd ->
  exists h, redisFree c w = Ok (Some (h, sys_close w fd)).
Proof using.
  intros (He & [Hbl Hfd] & Ho & r & Er & Hst & Hn) Hpos. unfold redisFree. rewrite Hfd, Er.
  destruct (Z.ltb_spec 0 fd); [|lia]. destruct (free_reader _ _ _ _ Hst) as (h & ->). by exists h.
Qed.
End Pipeline.

(** ** The property *)

(** C4: The commands [dss] of a blocking context over a connected descriptor are
    sent and the replies [vs] come back: whatever part of the buffer each write
    takes, however the replies are cut into reads, and however often reads and
    writes are interrupted, the client gets exactly [vs], in order, without an
    error; what went out is the requests, whole and in order, nothing else; and
    the descriptor is closed once. *)
Theorem pipeline_roundtrip `{Allocator} `{Strerror} fd cmds dss vs w rest :
  granted -> 0 < fd -> Forall2 (fun c ds => argv_is c.1 c.2 ds) cmds dss -> size (requests dss) + 128 <= 2 ^ 29 ->
  forallb (sendable 0) vs = true -> vs <> [] -> size (encodes vs) <= 2 ^ 29 ->
  arriving w.(w_in) = Some (encodes vs) -> drain w.(w_out) (length (requests dss)) = Some rest ->
  exists w', pipeline fd cmds (length vs) w = Ok (Some (Some (vs, 0), w')) /\
    w'.(w_sent) = w.(w_sent) ++ requests dss /\ w'.(w_closed) = w.(w_closed) ++ [fd].
Proof.
  intros Hg Hfd Hall Hsz Hvs Hne Hvsz Ha Hd. unfold pipeline. pose proof (size_nonneg (requests dss)).
  destruct (connect_spec Hg fd w) as (c & E & Hc). rewrite (io_bind_done _ _ _ _ _ E).
  destruct (append_all_spec Hg fd cmds dss Hall c [] [] (-1) [] 0 Hc) as (c1 & -> & Hc1); [change (size (@nil byte)) with 0; lia|].
  rewrite (io_bind_done _ _ (REDIS_OK, c1) w w eq_refl).
  destruct (get_replies_spec Hg fd [] vs c1 (requests dss) [] 0 w rest (encodes vs) Hc1) as (c2 & w2 & n2 & E2 & Hc2 & S1 & S2);
    [by right|lia|done|exists (w_in w); by rewrite app_nil_r|lia|done| |].
  { apply Forall_forall. intros v Hv. rewrite forallb_forall in Hvs. apply Hvs. by apply list_elem_of_In. }
  rewrite (io_bind_done _ _ _ _ _ E2). destruct (redisFree_spec fd c2 _ _ _ _ _ w2 Hc2 Hfd) as (h & E3).
  rewrite (io_bind_done _ _ _ _ _ E3). destruct Hc2 as (-> & _). exists (sys_close w2 fd). split; [done|].
  cbn. by rewrite S1, S2.
Qed.

Lemma pipeline_roundtrip_witness :
  exists w', pipeline (H := fun _ => true) (H0 := fun _ => []) 7
      [([str "SET"; str "k"; str "v"], None); ([str "GET"; str "kk"], Some [3; 1])] 2
      (mk_world [in_errno EINTR; in_data (str "+O"); in_data (str "K" ++ crlf ++ str "$1" ++ [CR]); in_errno EINTR; in_data (NL :: str "v" ++ crlf)]
        [out_taken 9; out_errno EINTR; out_taken 0; out_taken 11; out_taken 1000] [] []) =
      Ok (Some (Some ([V_string REPLY_STATUS (str "OK"); V_string REPLY_STRING (str "v")], 0), w')) /\
    w'.(w_sent) = requests [[str "SET"; str "k"; str "v"]; [str "GET"; str "k"]] /\ w'.(w_closed) = [7].
Proof.
  destruct (pipeline_roundtrip (H := fun _ => true) (H0 := fun _ => []) 7
      [([str "SET"; str "k"; str "v"], None); ([str "GET"; str "kk"], Some [3; 1])] [[str "SET"; str "k"; str "v"]; [str "GET"; str "k"]]
      [V_string REPLY_STATUS (str "OK"); V_string REPLY_STRING (str "v")]
      (mk_world [in_errno EINTR; in_data (str "+O"); in_data (str "K" ++ crlf ++ str "$1" ++ [CR]); in_errno EINTR; in_data (NL :: str "v" ++ crlf)]
        [out_taken 9; out_errno EINTR; out_taken 0; out_taken 11; out_taken 1000] [] []) []) as (w' & E & S & C);
    [by intros n|lia| |by vm_compute|by vm_compute|by vm_compute|by vm_compute|by vm_compute|by vm_compute|].
  { constructor; [by vm_compute|]. constructor; [|constructor]. split; [done|]. split; [|done].
    constructor; [split; [done|by exists []]|]. constructor; [split; [done|by exists (str "k")]|constructor]. }
  exists w'. split; [exact E|]. split; [exact S|exact C].
Defined.
