(* ===== verification/Net.v ===== *)
(** * [src/win/hiredis/net.h], [src/win/hiredis/net.c] and the functions of
    [src/win/hiredis/hiredis.c] that connect.

    The kernel is a sequence of answers, one for each system call; the descriptors
    of the process are a set, from which [socket] takes the lowest one that is
    free, as POSIX says.  Closing a descriptor that is not open is recorded: it may
    be somebody else's by then.  The addresses that [getaddrinfo] allocates are
    counted.  [Build] is the compiler: Microsoft's has branches of its own, without
    sockets of Unix, and [net.c] gives it a variable for [errno] that the calls do not
    set. *)
From S2P Require Import Prelude CxxString Sds SdsText HiredisReply HiredisReader HiredisContext.

Definition REDIS_REUSEADDR : Z := 128.
Definition REDIS_CONNECT_RETRIES : nat := 10.
Definition REDIS_KEEPALIVE_INTERVAL : Z := 15.

(** ** The kernel *)

(** [_MSC_VER] or not; a [long] of the former has 32 bits. *)
Inductive compiler : Type := posix | msvc.
Class Build : Type := the_build : compiler.
#[export] Instance posix_build : Build | 100 := posix.

Definition long_max `{Build} : Z := match the_build with posix => LONG_MAX | msvc => INT_MAX end.
Definition long_min `{Build} : Z := - long_max - 1.

Definition EINPROGRESS : errno := errno_other 115.
Definition EHOSTUNREACH : errno := errno_other 113.
Definition EADDRNOTAVAIL : errno := errno_other 99.
Definition ETIMEDOUT : errno := errno_other 110.
Definition WSAEWOULDBLOCK : errno := errno_other 10035.

Definition errno_of (n : Z) : errno := if n =? 11 then EAGAIN else if n =? 4 then EINTR else errno_other n.
Definition is_errno (a b : errno) : bool :=
  match a, b with EAGAIN, EAGAIN | EINTR, EINTR => true | errno_other n, errno_other m => n =? m | _, _ => false end.

(** The value returned, [errno] when it is a failure, and for [getaddrinfo] the
    addresses after the first one. *)
Record syscall : Type := mk_syscall { k_ret : Z; k_errno : errno; k_more : nat }.

Class Kernel : Type := kernel : nat -> syscall.

(** [gai_strerror] *)
Class Gai : Type := gai_strerror : Z -> bytes.

(** The calls so far, [errno], the open descriptors, those that do not block, the
    closes of descriptors that were not open, and the address lists not freed. *)
Record process : Type := mk_process {
  p_calls : nat; p_errno : errno; p_open : gset Z; p_nonblock : gset Z; p_stray : list Z; p_infos : Z }.

Definition net (A : Type) : Type := process -> res (A * process).
Definition ret {A} (a : A) : net A := fun s => Ok (a, s).
Definition need {A} (m : res A) : net A := fun s => let* a := m in Ok (a, s).
Definition net_bind {A B} (m : net A) (f : A -> net B) : net B := fun s => let* (a, s) := m s in f a s.

Notation "'net*' x ':=' m 'in' k" := (net_bind m (fun x => k))
  (at level 10, x pattern, m at level 100, k at level 200) : cxx_scope.

Section Net.
Context `{Kernel} `{Gai} `{Strerror} `{Allocator} `{Build}.

Definition get_errno : net errno := fun s => Ok (s.(p_errno), s).
Definition set_errno (e : errno) : net unit := fun s => Ok (tt, mk_process s.(p_calls) e s.(p_open) s.(p_nonblock) s.(p_stray) s.(p_infos)).

(** A call: its answer; [-1] sets [errno], but not the variable that Microsoft's
    build has in its place. *)
Definition call : net syscall := fun s =>
  let a := kernel s.(p_calls) in
  Ok (a, mk_process (S s.(p_calls)) (match the_build with posix => if a.(k_ret) =? -1 then a.(k_errno) else s.(p_errno) | msvc => s.(p_errno) end) s.(p_open) s.(p_nonblock) s.(p_stray) s.(p_infos)).

(** Calls that return [-1] or not: [setsockopt], [bind], [connect], [poll]. *)
Definition call_ret : net Z := net* a := call in ret a.(k_ret).

Fixpoint lowest (fuel : nat) (fd : Z) (open : gset Z) : Z :=
  match fuel with O => fd | S fuel => if decide (fd ∈ open) then lowest fuel (fd + 1) open else fd end.

(** [socket]: the descriptor, which blocks. *)
Definition sys_socket : net Z :=
  net* a := call in
  if a.(k_ret) =? -1 then ret (-1)
  else fun s =>
    let fd := lowest (length (elements s.(p_open))) 0 s.(p_open) in
    Ok (fd, mk_process s.(p_calls) s.(p_errno) ({[ fd ]} ∪ s.(p_open)) (s.(p_nonblock) ∖ {[ fd ]}) s.(p_stray) s.(p_infos)).

Definition close_fd (fd : Z) : net unit := fun s =>
  if decide (fd ∈ s.(p_open)) then Ok (tt, mk_process s.(p_calls) s.(p_errno) (s.(p_open) ∖ {[ fd ]}) s.(p_nonblock) s.(p_stray) s.(p_infos))
  else Ok (tt, mk_process s.(p_calls) s.(p_errno) s.(p_open) s.(p_nonblock) (s.(p_stray) ++ [fd]) s.(p_infos)).

(** [fcntl(fd, F_GETFL)] and [fcntl(fd, F_SETFL, flags)]; a socket is [O_RDWR]. *)
Definition O_RDWR : Z := 2.
Definition O_NONBLOCK : Z := 2048.

Definition fcntl_getfl (fd : Z) : net Z :=
  net* a := call in
  if a.(k_ret) =? -1 then ret (-1) else fun s => Ok (if decide (fd ∈ s.(p_nonblock)) then Z.lor O_RDWR O_NONBLOCK else O_RDWR, s).
Definition fcntl_setfl (fd flags : Z) : net Z :=
  net* a := call in
  if a.(k_ret) =? -1 then ret (-1)
  else fun s => Ok (0, mk_process s.(p_calls) s.(p_errno) s.(p_open)
    (if Z.land flags O_NONBLOCK =? 0 then s.(p_nonblock) ∖ {[ fd ]} else {[ fd ]} ∪ s.(p_nonblock)) s.(p_stray) s.(p_infos)).

(** [ioctlsocket(fd, FIONBIO, &mode)] *)
Definition ioctlsocket (fd : Z) (mode : bool) : net syscall :=
  net* a := call in
  if negb (a.(k_ret) =? 0) then ret a
  else fun s => Ok (a, mk_process s.(p_calls) s.(p_errno) s.(p_open)
    (if mode then {[ fd ]} ∪ s.(p_nonblock) else s.(p_nonblock) ∖ {[ fd ]}) s.(p_stray) s.(p_infos)).

(** [SET_ERR_NO] after a call that failed. *)
Definition SET_ERR_NO (a : syscall) : net unit := set_errno a.(k_errno).

(** [getaddrinfo]: a failure code, or how many addresses follow the first one. *)
Definition getaddrinfo (host : option bytes) : net (Z + nat) :=
  net* a := call in
  if negb (a.(k_ret) =? 0) then ret (inl a.(k_ret))
  else fun s => Ok (inr a.(k_more), mk_process s.(p_calls) s.(p_errno) s.(p_open) s.(p_nonblock) s.(p_stray) (s.(p_infos) + 1)).
Definition freeaddrinfo : net unit := fun s =>
  Ok (tt, mk_process s.(p_calls) s.(p_errno) s.(p_open) s.(p_nonblock) s.(p_stray) (s.(p_infos) - 1)).

(** ** Contexts *)

Inductive redisConnectionType : Type := REDIS_CONN_TCP | REDIS_CONN_UNIX.
Record timeval : Type := mk_timeval { tv_sec : Z; tv_usec : Z }.

(** The members of [redisContext] that only these functions use. *)
Record net_context : Type := mk_net {
  n_c : redisContext; connection_type : redisConnectionType; n_timeout : option timeval;
  tcp_host : option bytes; tcp_source_addr : option bytes; tcp_port : Z; unix_path : option bytes }.

Definition of_context (c : redisContext) : net_context := mk_net c REDIS_CONN_TCP None None None 0 None.
Definition with_c (n : net_context) (c : redisContext) : net_context :=
  mk_net c n.(connection_type) n.(n_timeout) n.(tcp_host) n.(tcp_source_addr) n.(tcp_port) n.(unix_path).
Definition set_fd (n : net_context) (fd : Z) : net_context :=
  let c := n.(n_c) in with_c n (mk_context c.(c_err) c.(c_errstr) fd c.(c_flags) c.(c_obuf) c.(c_reader)).
Definition or_flags (n : net_context) (flags : Z) : net_context :=
  let c := n.(n_c) in with_c n (mk_context c.(c_err) c.(c_errstr) c.(c_fd) (Z.lor c.(c_flags) flags) c.(c_obuf) c.(c_reader)).
Definition flag (n : net_context) (f : Z) : bool := negb (Z.land n.(n_c).(c_flags) f =? 0).
Definition fd_of (n : net_context) : Z := n.(n_c).(c_fd).

(** ** [net.c] *)

Definition redisContextCloseFd (n : net_context) : net net_context :=
  if 0 <=? fd_of n then net* _ := close_fd (fd_of n) in ret (set_fd n (-1)) else ret n.

(** [__redisSetError] with a message *)
Definition set_error (n : net_context) (type : Z) (msg : bytes) : net net_context :=
  net* c := need (redisSetError n.(n_c) type (Some msg) no_errno) in ret (with_c n c).

(** [__redisSetErrorFromErrno] *)
Definition redisSetErrorFromErrno (n : net_context) (type : Z) (prefix : option bytes) : net net_context :=
  net* e := get_errno in
  set_error n type (take 127 ((match prefix with Some p => p ++ str ": " | None => [] end) ++ strerror e)).

(** [__redisSetErrorFromErrno(c,REDIS_ERR_IO,prefix); redisContextCloseFd(c); return REDIS_ERR;] *)
Definition io_error (n : net_context) (prefix : option bytes) : net (Z * net_context) :=
  net* n := redisSetErrorFromErrno n REDIS_ERR_IO prefix in
  net* n := redisContextCloseFd n in ret (REDIS_ERR, n).

Definition redisSetReuseAddr (n : net_context) : net (Z * net_context) :=
  net* r := call_ret in if r =? -1 then io_error n None else ret (REDIS_OK, n).

(** [redisCreateSocket]; [inet] when the type is [AF_INET]. *)
Definition redisCreateSocket (n : net_context) (inet : bool) : net (Z * net_context) :=
  net* s := sys_socket in
  if s =? -1 then net* n := redisSetErrorFromErrno n REDIS_ERR_IO None in ret (REDIS_ERR, n)
  else
    let n := set_fd n s in
    if inet then
      net* (k, n) := redisSetReuseAddr n in if k =? REDIS_ERR then ret (REDIS_ERR, n) else ret (REDIS_OK, n)
    else ret (REDIS_OK, n).

Definition redisSetBlocking_posix (n : net_context) (block : bool) : net (Z * net_context) :=
  net* flags := fcntl_getfl (fd_of n) in
  if flags =? -1 then io_error n (Some (str "fcntl(F_GETFL)"))
  else
    net* r := fcntl_setfl (fd_of n) (if block then Z.ldiff flags O_NONBLOCK else Z.lor flags O_NONBLOCK) in
    if r =? -1 then io_error n (Some (str "fcntl(F_SETFL)")) else ret (REDIS_OK, n).

Definition redisSetBlocking_msvc (n : net_context) (block : bool) : net (Z * net_context) :=
  net* a := ioctlsocket (fd_of n) (negb block) in
  if negb (a.(k_ret) =? 0) then net* _ := SET_ERR_NO a in io_error n (Some (str "fcntl(F_GETFL)")) else ret (REDIS_OK, n).

Definition redisSetBlocking (n : net_context) (block : bool) : net (Z * net_context) :=
  match the_build with posix => redisSetBlocking_posix n block | msvc => redisSetBlocking_msvc n block end.

(** [redisKeepAlive]: the options are set one after the other; those of [__GLIBC__]
    are not Microsoft's. *)
Definition redisKeepAlive (n : net_context) (interval : Z) : net (Z * net_context) :=
  let fails := (net* e := get_errno in net* n := set_error n REDIS_ERR_OTHER (strerror e) in ret (REDIS_ERR, n)) in
  net* r := call_ret in if r =? -1 then fails
  else
    match the_build with
    | msvc => ret (REDIS_OK, n)
    | posix =>
        net* r := call_ret in if r <? 0 then fails
        else net* r := call_ret in if r <? 0 then fails
        else net* r := call_ret in if r <? 0 then fails else ret (REDIS_OK, n)
    end.

Definition redisSetTcpNoDelay (n : net_context) : net (Z * net_context) :=
  net* r := call_ret in if r =? -1 then io_error n (Some (str "setsockopt(TCP_NODELAY)")) else ret (REDIS_OK, n).

(** [errno = err]; Microsoft's build has a macro that makes it [err = err], of the
    local variable. *)
Definition assign_errno (err : Z) : net unit := match the_build with posix => set_errno (errno_of err) | msvc => ret tt end.

Definition redisCheckSocketError (n : net_context) : net (Z * net_context) :=
  net* err := call_ret in
  if err =? -1 then net* n := redisSetErrorFromErrno n REDIS_ERR_IO (Some (str "getsockopt(SO_ERROR)")) in ret (REDIS_ERR, n)
  else if negb (err =? 0) then
    net* _ := assign_errno err in
    net* n := redisSetErrorFromErrno n REDIS_ERR_IO None in ret (REDIS_ERR, n)
  else ret (REDIS_OK, n).

Definition MAX_MSEC : Z := (long_max - 999) / 1000.

Definition long_result (z : Z) : res Z := if (long_min <=? z) && (z <=? long_max) then Ok z else UB signed_overflow.

(** The milliseconds that [poll] waits, or [None] when the timeout is refused. *)
Definition wait_msec (timeout : option timeval) : res (option Z) :=
  match timeout with
  | None => Ok (Some (-1))
  | Some t =>
      if (1000000 <? t.(tv_usec)) || (MAX_MSEC <? t.(tv_sec)) then Ok None
      else
        let* s := long_result (t.(tv_sec) * 1000) in
        let* u := long_result (t.(tv_usec) + 999) in
        let* msec := long_result (s + u ÷ 1000) in
        Ok (Some (if (msec <? 0) || (INT_MAX <? msec) then INT_MAX else msec))
  end.

Definition redisContextWaitReady_posix (n : net_context) (timeout : option timeval) : net (Z * net_context) :=
  net* msec := need (wait_msec timeout) in
  match msec with
  | None => io_error n None
  | Some _ =>
      net* e := get_errno in
      if is_errno e EINPROGRESS then
        net* res := call_ret in
        if res =? -1 then io_error n (Some (str "poll(2)"))
        else if res =? 0 then net* _ := set_errno ETIMEDOUT in io_error n None
        else
          net* (k, n) := redisCheckSocketError n in
          if negb (k =? REDIS_OK) then ret (REDIS_ERR, n) else ret (REDIS_OK, n)
      else io_error n None
  end.

(** [select] waits for the descriptor to be writable, and that it was not in time is
    not asked. *)
Definition redisContextWaitReady_msvc (n : net_context) (timeout : option timeval) : net (Z * net_context) :=
  net* msec := need (wait_msec timeout) in
  match msec with
  | None => io_error n None
  | Some _ =>
      net* e := get_errno in
      if is_errno e EINPROGRESS || is_errno e WSAEWOULDBLOCK then
        net* a := call in
        if a.(k_ret) =? -1 then net* _ := SET_ERR_NO a in io_error n (Some (str "poll(2)"))
        else
          net* (k, n) := redisCheckSocketError n in
          if negb (k =? REDIS_OK) then ret (REDIS_ERR, n) else ret (REDIS_OK, n)
      else io_error n None
  end.

Definition redisContextWaitReady (n : net_context) (timeout : option timeval) : net (Z * net_context) :=
  match the_build with posix => redisContextWaitReady_posix n timeout | msvc => redisContextWaitReady_msvc n timeout end.

Definition redisContextSetTimeout (n : net_context) (tv : timeval) : net (Z * net_context) :=
  net* r := call_ret in
  if r =? -1 then net* n := redisSetErrorFromErrno n REDIS_ERR_IO (Some (str "setsockopt(SO_RCVTIMEO)")) in ret (REDIS_ERR, n)
  else
    net* r := call_ret in
    if r =? -1 then net* n := redisSetErrorFromErrno n REDIS_ERR_IO (Some (str "setsockopt(SO_SNDTIMEO)")) in ret (REDIS_ERR, n)
    else ret (REDIS_OK, n).

(** *** Arguments that the context may own already *)

(** A pointer argument: the context's own, or another one. *)
Inductive arg (A : Type) : Type := own | given (a : A).
#[global] Arguments own {A}.
#[global] Arguments given {A} a.

(** [strdup] *)
Definition strdup (s : bytes) : option bytes := if alloc_ok (size (c_str s) + 1) then Some (c_str s) else None.

(** [malloc] of a [struct timeval] and the copy into it, which is not checked. *)
Definition copy_timeout (mine : option timeval) (timeout : arg (option timeval)) : res (option timeval) :=
  match timeout with
  | own => Ok mine
  | given None => Ok None
  | given (Some t) => match mine with Some _ => Ok (Some t) | None => if alloc_ok 16 then Ok (Some t) else UB null_pointer end
  end.

(** The parameters of a connection, which the context takes. *)
Definition take_tcp (n : net_context) (addr : arg bytes) (port : Z) (timeout : arg (option timeval)) (source_addr : arg (option bytes)) : res net_context :=
  let* t := copy_timeout n.(n_timeout) timeout in
  Ok (mk_net n.(n_c) REDIS_CONN_TCP t
    (match addr with own => n.(tcp_host) | given a => strdup a end)
    (match source_addr with own => n.(tcp_source_addr) | given None => None | given (Some s) => strdup s end) port n.(unix_path)).

(** *** [_redisContextConnectTcp] *)

(** What the body of the loop does next. *)
Inductive next : Type := next_address | next_retry | next_error | next_connected.

(** [for (b = bservinfo; b != NULL; b = b->ai_next) if (bind(...) != -1) { bound = 1; break; }] *)
Fixpoint bind_addresses (count : nat) : net bool :=
  match count with
  | O => ret false
  | S count => net* r := call_ret in if negb (r =? -1) then ret true else bind_addresses count
  end.

(** The socket is bound to the source address, when there is one. *)
Definition bind_source (n : net_context) (reuseaddr : bool) : net (bool * net_context) :=
  match n.(tcp_source_addr) with
  | None => ret (true, n)
  | Some _ =>
      net* info := getaddrinfo n.(tcp_source_addr) in
      match info with
      | inl rv => net* n := set_error n REDIS_ERR_OTHER (take 127 (str "Can't get addr: " ++ gai_strerror rv)) in ret (false, n)
      | inr more =>
          net* r := (if reuseaddr then call_ret else ret 0) in
          if r <? 0 then ret (false, n)
          else
            net* bound := bind_addresses (S more) in
            net* _ := freeaddrinfo in
            if negb bound then
              net* e := get_errno in
              net* n := set_error n REDIS_ERR_OTHER (take 127 (str "Can't bind socket: " ++ strerror e)) in ret (false, n)
            else ret (true, n)
      end
  end.

(** After [connect]: blocking again, no delay, connected. *)
Definition finish_connect (n : net_context) (blocking : bool) : net (next * net_context) :=
  net* (k, n) := (if blocking then redisSetBlocking n true else ret (REDIS_OK, n)) in
  if negb (k =? REDIS_OK) then ret (next_error, n)
  else
    net* (k, n) := redisSetTcpNoDelay n in
    if negb (k =? REDIS_OK) then ret (next_error, n) else ret (next_connected, or_flags n REDIS_CONNECTED).

(** From [addrretry:] on. *)
Definition try_address (n : net_context) (blocking reuseaddr : bool) (reuses : nat) : net (next * nat * net_context) :=
  net* s := sys_socket in
  if s =? -1 then ret (next_address, reuses, n)
  else
    let n := set_fd n s in
    net* (k, n) := redisSetBlocking n false in
    if negb (k =? REDIS_OK) then ret (next_error, reuses, n)
    else
      net* (ok, n) := bind_source n reuseaddr in
      if negb ok then ret (next_error, reuses, n)
      else
        net* r := call_ret in
        if r =? -1 then
          net* e := get_errno in
          if is_errno e EHOSTUNREACH then net* n := redisContextCloseFd n in ret (next_address, reuses, n)
          else if is_errno e EINPROGRESS && negb blocking then net* (x, n) := finish_connect n blocking in ret (x, reuses, n)
          else if is_errno e EADDRNOTAVAIL && reuseaddr then
            if (REDIS_CONNECT_RETRIES <=? S reuses)%nat then ret (next_error, S reuses, n) else ret (next_retry, S reuses, n)
          else
            net* (k, n) := redisContextWaitReady n n.(n_timeout) in
            if negb (k =? REDIS_OK) then ret (next_error, reuses, n) else net* (x, n) := finish_connect n blocking in ret (x, reuses, n)
        else net* (x, n) := finish_connect n blocking in ret (x, reuses, n).

(** The retries of an address. *)
Fixpoint retry_loop (fuel : nat) (n : net_context) (blocking reuseaddr : bool) (reuses : nat) : net (next * nat * net_context) :=
  match fuel with
  | O => need (UB no_fuel)
  | S fuel =>
      net* (x, reuses, n) := try_address n blocking reuseaddr reuses in
      match x with next_retry => retry_loop fuel n blocking reuseaddr reuses | _ => ret (x, reuses, n) end
  end.

(** [for (p = servinfo; p != NULL; p = p->ai_next)] *)
Fixpoint address_loop (count : nat) (n : net_context) (blocking reuseaddr : bool) (reuses : nat) : net (Z * net_context) :=
  match count with
  | O =>
      net* e := get_errno in
      net* n := set_error n REDIS_ERR_OTHER (take 127 (str "Can't create socket: " ++ strerror e)) in ret (REDIS_ERR, n)
  | S count =>
      net* (x, reuses, n) := retry_loop (S REDIS_CONNECT_RETRIES) n blocking reuseaddr reuses in
      match x with
      | next_address => address_loop count n blocking reuseaddr reuses
      | next_connected => ret (REDIS_OK, n)
      | _ => ret (REDIS_ERR, n)
      end
  end.

Definition redisContextConnectBindTcp (n : net_context) (addr : arg bytes) (port : Z) (timeout : arg (option timeval)) (source_addr : arg (option bytes)) :
    net (Z * net_context) :=
  let blocking := flag n REDIS_BLOCK in
  let reuseaddr := flag n REDIS_REUSEADDR in
  net* n := need (take_tcp n addr port timeout source_addr) in
  net* info := getaddrinfo n.(tcp_host) in
  net* info := (match info with
    | inr more => ret (inr more)
    | inl _ => getaddrinfo (match addr with own => n.(tcp_host) | given a => Some a end)
    end) in
  match info with
  | inl rv => net* n := set_error n REDIS_ERR_OTHER (gai_strerror rv) in ret (REDIS_ERR, n)
  | inr more =>
      net* (rv, n) := address_loop (S more) n blocking reuseaddr 0 in
      net* _ := freeaddrinfo in ret (rv, n)
  end.

Definition redisContextConnectTcp (n : net_context) (addr : arg bytes) (port : Z) (timeout : arg (option timeval)) : net (Z * net_context) :=
  redisContextConnectBindTcp n addr port timeout (given None).

Definition redisContextConnectUnix (n : net_context) (path : arg bytes) (timeout : arg (option timeval)) : net (Z * net_context) :=
  let blocking := flag n REDIS_BLOCK in
  net* (k, n) := redisCreateSocket n false in
  if k <? 0 then ret (REDIS_ERR, n)
  else
    net* (k, n) := redisSetBlocking n false in
    if negb (k =? REDIS_OK) then ret (REDIS_ERR, n)
    else
      net* t := need (copy_timeout n.(n_timeout) timeout) in
      let n := mk_net n.(n_c) REDIS_CONN_UNIX t n.(tcp_host) n.(tcp_source_addr) n.(tcp_port) (match path with own => n.(unix_path) | given p => strdup p end) in
      net* _ := need (match path with own => live n.(unix_path) | given p => Ok p end) in
      net* r := call_ret in
      net* (k, n) := (if r =? -1 then
          net* e := get_errno in
          if is_errno e EINPROGRESS && negb blocking then ret (REDIS_OK, n) else redisContextWaitReady n n.(n_timeout)
        else ret (REDIS_OK, n)) in
      if negb (k =? REDIS_OK) then ret (REDIS_ERR, n)
      else
        net* (k, n) := (if blocking then redisSetBlocking n true else ret (REDIS_OK, n)) in
        if negb (k =? REDIS_OK) then ret (REDIS_ERR, n) else ret (REDIS_OK, or_flags n REDIS_CONNECTED).

(** ** [hiredis.c] *)

(** [WSAStartup] and [WSACleanup] *)
Definition start_winsock : net bool := match the_build with posix => ret true | msvc => net* r := call_ret in ret (r =? 0) end.
Definition stop_winsock : net unit := match the_build with posix => ret tt | msvc => net* _ := call in ret tt end.

(** [redisContextInit] makes no other call that could be refused but allocations. *)
Definition init_context : net (option net_context) :=
  net* started := start_winsock in
  if negb started then ret None
  else fun s =>
    let* o := redisContextInit (mk_world [] [] [] []) in
    match o with Some (Some c, _) => Ok (Some (of_context c), s) | _ => Ok (None, s) end.

(** [redisFree] *)
Definition free_context (n : net_context) : net unit :=
  net* _ := (if 0 <? fd_of n then close_fd (fd_of n) else ret tt) in
  net* _ := need (match n.(n_c).(c_reader) with Some r => redisReaderFree r | None => Ok [] end) in stop_winsock.

Definition clear_flags (n : net_context) (flags : Z) : net_context :=
  let c := n.(n_c) in with_c n (mk_context c.(c_err) c.(c_errstr) c.(c_fd) (Z.ldiff c.(c_flags) flags) c.(c_obuf) c.(c_reader)).

(** The seven functions that connect. *)
Definition redisConnect (ip : bytes) (port : Z) : net (option net_context) :=
  net* o := init_context in
  match o with
  | None => ret None
  | Some n => net* (_, n) := redisContextConnectTcp (or_flags n REDIS_BLOCK) (given ip) port (given None) in ret (Some n)
  end.

Definition redisConnectWithTimeout (ip : bytes) (port : Z) (tv : timeval) : net (option net_context) :=
  net* o := init_context in
  match o with
  | None => ret None
  | Some n => net* (_, n) := redisContextConnectTcp (or_flags n REDIS_BLOCK) (given ip) port (given (Some tv)) in ret (Some n)
  end.

Definition redisConnectNonBlock (ip : bytes) (port : Z) : net (option net_context) :=
  net* o := init_context in
  match o with
  | None => ret None
  | Some n => net* (_, n) := redisContextConnectTcp (clear_flags n REDIS_BLOCK) (given ip) port (given None) in ret (Some n)
  end.

(** The context is not checked. *)
Definition redisConnectBindNonBlock (ip : bytes) (port : Z) (source_addr : bytes) : net (option net_context) :=
  net* o := init_context in
  net* n := need (live o) in
  net* (_, n) := redisContextConnectBindTcp (clear_flags n REDIS_BLOCK) (given ip) port (given None) (given (Some source_addr)) in ret (Some n).

Definition redisConnectBindNonBlockWithReuse (ip : bytes) (port : Z) (source_addr : bytes) : net (option net_context) :=
  net* o := init_context in
  net* n := need (live o) in
  net* (_, n) := redisContextConnectBindTcp (or_flags (clear_flags n REDIS_BLOCK) REDIS_REUSEADDR) (given ip) port (given None) (given (Some source_addr)) in
  ret (Some n).

Definition redisConnectUnix (path : bytes) : net (option net_context) :=
  net* o := init_context in
  match o with
  | None => ret None
  | Some n => net* (_, n) := redisContextConnectUnix (or_flags n REDIS_BLOCK) (given path) (given None) in ret (Some n)
  end.

Definition redisConnectUnixWithTimeout (path : bytes) (tv : timeval) : net (option net_context) :=
  net* o := init_context in
  match o with
  | None => ret None
  | Some n => net* (_, n) := redisContextConnectUnix (or_flags n REDIS_BLOCK) (given path) (given (Some tv)) in ret (Some n)
  end.

Definition redisConnectUnixNonBlock (path : bytes) : net (option net_context) :=
  net* o := init_context in
  match o with
  | None => ret None
  | Some n => net* (_, n) := redisContextConnectUnix (clear_flags n REDIS_BLOCK) (given path) (given None) in ret (Some n)
  end.

Definition redisReconnect (n : net_context) : net (Z * net_context) :=
  net* _ := (if 0 <? fd_of n then close_fd (fd_of n) else ret tt) in
  net* r := need (live n.(n_c).(c_reader)) in
  net* _ := need (redisReaderFree r) in
  net* obuf := need sdsempty in
  net* r := need (redisReaderCreate []) in
  let n := with_c n (mk_context 0 [] (fd_of n) n.(n_c).(c_flags) obuf r) in
  match n.(connection_type) with
  | REDIS_CONN_TCP => redisContextConnectBindTcp n own n.(tcp_port) own own
  | REDIS_CONN_UNIX =>
      match the_build with
      | posix => redisContextConnectUnix n own own
      | msvc => net* n := set_error n REDIS_ERR_OTHER (str "Not enough information to reconnect") in ret (REDIS_ERR, n)
      end
  end.

Definition redisSetTimeout (n : net_context) (tv : timeval) : net (Z * net_context) :=
  if flag n REDIS_BLOCK then redisContextSetTimeout n tv else ret (REDIS_ERR, n).

Definition redisEnableKeepAlive (n : net_context) : net (Z * net_context) :=
  net* (k, n) := redisKeepAlive n REDIS_KEEPALIVE_INTERVAL in
  if negb (k =? REDIS_OK) then ret (REDIS_ERR, n) else ret (REDIS_OK, n).
End Net.
