(* ===== verification/NetSpec.v ===== *)
(** * The descriptors of a connection.

    Whatever the kernel answers, the functions that connect leave the process with
    the descriptors it had and the one of the context, and freeing the context
    closes it. *)
From S2P Require Import Prelude CxxString Sds SdsRefine SdsText HiredisReply HiredisReader HiredisReaderInput HiredisReplyTree HiredisReaderSpec HiredisProtocol HiredisReaderRefine HiredisStream HiredisContext HiredisPipeline Net.

Section Spec.
Context `{Kernel} `{Gai} `{Strerror} `{Allocator} `{Build}.

(** ** What a run leaves *)

(** [m] returns, with [Q] of its value and the process. *)
Definition runs {A} (m : net A) (s : process) (Q : A -> process -> Prop) : Prop :=
  match m s with Ok (a, s') => Q a s' | _ => False end.

Lemma runs_bind {A B} (m : net A) (f : A -> net B) s Q R : runs m s R -> (forall a s', R a s' -> runs (f a) s' Q) -> runs (net_bind m f) s Q.
Proof using. unfold runs, net_bind. destruct (m s) as [[a s']| |]; cbn; [|done..]. intros Hr Hf. by apply Hf. Qed.

Lemma runs_mono {A} (m : net A) s (Q R : A -> process -> Prop) : runs m s R -> (forall a s', R a s' -> Q a s') -> runs m s Q.
Proof using. unfold runs. destruct (m s) as [[a s']| |]; [|done..]. auto. Qed.

Lemma runs_ret {A} (a : A) s (Q : A -> process -> Prop) : Q a s -> runs (ret a) s Q.
Proof using. done. Qed.

Lemma runs_need {A} (m : res A) a s (Q : A -> process -> Prop) : m = Ok a -> Q a s -> runs (need m) s Q.
Proof using. intros -> HQ. done. Qed.

(** The next call of a sequence, by its specification. *)
Ltac net_step lem := eapply runs_bind; [by eapply lem|]; cbn beta.

(** The descriptor of a context, as a set. *)
Definition mine (fd : Z) : gset Z := if 0 <? fd then {[ fd ]} else ∅.

(** The process has the descriptors [base], those that are lost, and [fd], which
    is nobody else's; nothing was closed that is not open; [i] address lists are
    not freed. *)
Record owns (base lost : gset Z) (i fd : Z) (s : process) : Prop := {
  o_open : s.(p_open) = mine fd ∪ (base ∪ lost);
  o_fresh : 0 < fd -> fd ∉ base ∪ lost;
  o_zero : 0 ∈ base;
  o_disjoint : base ## lost;
  o_stray : s.(p_stray) = [];
  o_infos : s.(p_infos) = i }.

Lemma mine_pos fd : 0 < fd -> mine fd = {[ fd ]}.
Proof using. intros Hfd. unfold mine. by destruct (Z.ltb_spec 0 fd); [|lia]. Qed.

Lemma mine_neg fd : fd <= 0 -> mine fd = ∅.
Proof using. intros Hfd. unfold mine. by destruct (Z.ltb_spec 0 fd); [lia|]. Qed.

Lemma owns_parts base lost i fd s : owns base lost i fd s -> s.(p_open) = mine fd ∪ (base ∪ lost) /\ mine fd ## base ∪ lost /\ s.(p_stray) = [].
Proof using.
  intros [O1 O2 O3 O4 O5 O6]. split_and!; [done| |done]. unfold mine. destruct (Z.ltb_spec 0 fd) as [Hfd|]; [|set_solver]. specialize (O2 Hfd). set_solver.
Qed.

(** ** The calls *)

(** What no call changes but those of the descriptor itself. *)
Definition quiet base lost i fd (nb : gset Z) (s : process) : Prop := owns base lost i fd s /\ s.(p_nonblock) = nb.

Lemma syscall_spec base lost i fd nb s : quiet base lost i fd nb s -> runs call s (fun _ s' => quiet base lost i fd nb s').
Proof using. intros [[] Hnb]. split; [by constructor|done]. Qed.

Lemma call_ret_spec base lost i fd nb s : quiet base lost i fd nb s -> runs call_ret s (fun _ s' => quiet base lost i fd nb s').
Proof using. intros Hq. net_step syscall_spec. intros a s' Hq'. by apply runs_ret. Qed.

Lemma net_errno_spec base lost i fd nb s e : quiet base lost i fd nb s -> runs (set_errno e) s (fun _ s' => quiet base lost i fd nb s').
Proof using. intros [[] Hnb]. split; [by constructor|done]. Qed.

(** The lowest free descriptor is free. *)
Lemma lowest_spec fuel : forall (fd : Z) (open : gset Z), (length (filter (fun x => (fd <= x)%Z) (elements open)) <= fuel)%nat ->
  fd <= lowest fuel fd open /\ lowest fuel fd open ∉ open.
Proof using.
  induction fuel as [|fuel IH]; intros fd open Hle; cbn [lowest].
  - split; [lia|]. intros Hin. assert (fd ∈ filter (fun x => fd <= x) (elements open)) as Hf by (apply list_elem_of_filter; split; [lia|by apply elem_of_elements]).
    destruct (filter _ _); [by apply elem_of_nil in Hf|cbn in Hle; lia].
  - destruct (decide (fd ∈ open)) as [Hin|]; [|split; [lia|done]]. destruct (IH (fd + 1) open) as [H4 H5]; [|split; [lia|done]].
    assert (NoDup (filter (fun x => fd <= x) (elements open))) as Hnd by (apply NoDup_filter, NoDup_elements).
    assert (fd :: filter (fun x => fd + 1 <= x) (elements open) ⊆+ filter (fun x => fd <= x) (elements open)) as Hsub.
    { apply NoDup_submseteq.
      - apply NoDup_cons. split; [rewrite list_elem_of_filter; lia|]. apply NoDup_filter, NoDup_elements.
      - intros x. rewrite elem_of_cons, !list_elem_of_filter. intros [->|[Hx Hin']]; [split; [lia|by apply elem_of_elements]|split; [lia|done]]. }
    apply submseteq_length in Hsub. cbn [length] in Hsub. lia.
Qed.

(** A new socket; the descriptor that the context had is lost. *)
Lemma sys_socket_spec base lost i fd nb s : quiet base lost i fd nb s ->
  runs sys_socket s (fun r s' => (r = -1 /\ quiet base lost i fd nb s') \/
    (0 < r /\ owns base (mine fd ∪ lost) i r s')).
Proof using.
  intros Hq. net_step syscall_spec. intros a s' [[O1 O2 O3 O4 O5 O6] Hnb]. destruct (k_ret a =? -1).
  { apply runs_ret. left. split; [done|]. split; [by constructor|done]. }
  unfold runs. right. set (r := lowest _ 0 _).
  destruct (lowest_spec (length (elements (p_open s'))) 0 (p_open s')) as [Hr0 Hr]; [apply length_filter|]. fold r in Hr0, Hr.
  assert (0 < r) as Hpos. { assert (r <> 0) by (intros E; apply Hr; rewrite E, O1; set_solver). lia. }
  split; [done|]. constructor; cbn; try done.
  - rewrite O1, (mine_pos r Hpos). set_solver.
  - intros _. rewrite O1 in Hr. set_solver.
  - assert (base ## mine fd); [|set_solver]. unfold mine in *. destruct (Z.ltb_spec 0 fd) as [Hfd|]; [|set_solver]. specialize (O2 Hfd). set_solver.
Qed.

Lemma close_spec base lost i fd s : 0 < fd -> owns base lost i fd s -> runs (close_fd fd) s (fun _ s' => owns base lost i (-1) s').
Proof using.
  intros Hfd [O1 O2 O3 O4 O5 O6]. rewrite (mine_pos fd Hfd) in O1. specialize (O2 Hfd). unfold runs, close_fd. destruct (decide (fd ∈ p_open s)) as [|Hn]; [|set_solver].
  constructor; cbn [p_open p_stray p_infos]; [|lia|done..]. rewrite O1, mine_neg by lia. apply leibniz_equiv. set_solver.
Qed.

(** ** Errors *)

(** The context with another error, or another descriptor. *)
Definition erred (n n' : net_context) : Prop :=
  n'.(n_c).(c_err) <> 0 /\ n'.(n_c).(c_flags) = n.(n_c).(c_flags) /\ n'.(n_c).(c_reader) = n.(n_c).(c_reader).

Lemma set_error_spec n type msg s base lost i nb (Q : net_context -> process -> Prop) : type <> 0 -> quiet base lost i (fd_of n) nb s ->
  (forall n', erred n n' -> fd_of n' = fd_of n -> Q n' s) -> runs (set_error n type msg) s Q.
Proof using. intros Ht Hq HQ. unfold set_error, redisSetError. cbn. apply HQ; done. Qed.

Lemma close_context_spec base lost i n s : fd_of n <> 0 -> owns base lost i (fd_of n) s ->
  runs (redisContextCloseFd n) s (fun n' s' => n' = set_fd n (fd_of n') /\ fd_of n' <= 0 /\ owns base lost i (fd_of n') s').
Proof using.
  intros Hne Ho. unfold redisContextCloseFd. destruct (Z.leb_spec 0 (fd_of n)).
  - eapply runs_bind; [apply close_spec; [lia|done]|]. intros [] s' Ho'. by apply runs_ret.
  - apply runs_ret. split; [by destruct n as [[]]|]. split; [lia|done].
Qed.

Lemma io_error_spec base lost i nb n prefix s : fd_of n <> 0 -> quiet base lost i (fd_of n) nb s ->
  runs (io_error n prefix) s (fun p s' => p.1 = REDIS_ERR /\ erred n p.2 /\ owns base lost i (fd_of p.2) s').
Proof using.
  intros Hne Hq. unfold io_error, redisSetErrorFromErrno. eapply runs_bind.
  - eapply runs_bind; [exact (eq_refl : runs get_errno s (fun _ s' => s' = s))|]. intros e s' ->.
    eapply (set_error_spec _ _ _ _ _ _ _ _ (fun n' s' => erred n n' /\ fd_of n' = fd_of n /\ s' = s)); [done|exact Hq|]. by intros n' He' Ef'.
  - intros n' s' ((He & Hf & Hr) & Efd & ->). eapply runs_bind; [apply close_context_spec; [by rewrite Efd|rewrite Efd; apply Hq]|].
    intros n'' s'' (-> & _ & Ho). apply runs_ret. split; [done|]. split; [|done]. by split.
Qed.

(** A result: the context as it was, or an error. *)
Definition result (n : net_context) base lost i (nb' : gset Z -> Prop) (p : Z * net_context) (s' : process) : Prop :=
  (p = (REDIS_OK, n) /\ owns base lost i (fd_of n) s' /\ nb' s'.(p_nonblock)) \/
  (p.1 = REDIS_ERR /\ erred n p.2 /\ owns base lost i (fd_of p.2) s').

Lemma io_error_result base lost i nb n prefix s P : fd_of n <> 0 -> quiet base lost i (fd_of n) nb s -> runs (io_error n prefix) s (result n base lost i P).
Proof using. intros Hne Hq. eapply runs_mono; [by eapply io_error_spec|]. intros a s' H'. by right. Qed.

(** ** The steps of a connection *)

Lemma fcntl_spec base lost i nb n block s : fd_of n <> 0 -> quiet base lost i (fd_of n) nb s ->
  runs (redisSetBlocking_posix n block) s (result n base lost i (fun nb => fd_of n ∈ nb <-> block = false)).
Proof using.
  intros Hne Hq. unfold redisSetBlocking_posix. eapply runs_bind with (R := fun flags s' => quiet base lost i (fd_of n) nb s' /\ (flags = -1 \/ flags = O_RDWR \/ flags = Z.lor O_RDWR O_NONBLOCK)).
  { unfold fcntl_getfl. net_step syscall_spec. intros a s' Hq'. destruct (k_ret a =? -1); [apply runs_ret; auto|]. split; [done|]. destruct (decide _); auto. }
  intros flags s' [Hq' Hflags]. destruct (Z.eqb_spec flags (-1)) as [|Hf]; [by eapply io_error_result|]. destruct Hflags as [|Hflags]; [done|].
  eapply runs_bind with (R := fun r s' => quiet base lost i (fd_of n) nb s' /\ r = -1 \/ (r = 0 /\ owns base lost i (fd_of n) s' /\ (fd_of n ∈ p_nonblock s' <-> block = false))).
  { unfold fcntl_setfl. net_step syscall_spec. intros a s2 [[] Hnb]. destruct (k_ret a =? -1); [apply runs_ret; left; split; [split; [by constructor|done]|done]|].
    right. split; [done|]. split; [by constructor|]. cbn.
    assert ((Z.land (if block then Z.ldiff flags O_NONBLOCK else Z.lor flags O_NONBLOCK) O_NONBLOCK =? 0) = block) as -> by (by destruct Hflags as [-> | ->], block).
    destruct block; split; [set_solver|done|done|set_solver]. }
  intros r s2 [[Hq2 ->]|(-> & Ho & Hnb)]; [by eapply io_error_result|]. apply runs_ret. by left.
Qed.

Lemma ioctl_spec base lost i nb n block s : fd_of n <> 0 -> quiet base lost i (fd_of n) nb s ->
  runs (redisSetBlocking_msvc n block) s (result n base lost i (fun nb => fd_of n ∈ nb <-> block = false)).
Proof using.
  intros Hne Hq. unfold redisSetBlocking_msvc.
  eapply runs_bind with (R := fun a s' => (a.(k_ret) <> 0 /\ quiet base lost i (fd_of n) nb s') \/ (a.(k_ret) = 0 /\ owns base lost i (fd_of n) s' /\ (fd_of n ∈ p_nonblock s' <-> block = false))).
  { unfold ioctlsocket. net_step syscall_spec. intros a s' [[] Hnb]. destruct (Z.eqb_spec (k_ret a) 0); cbn [negb]; [|apply runs_ret; left; split; [done|]; split; [by constructor|done]].
    right. split; [done|]. split; [by constructor|]. cbn. destruct block; split; [set_solver|done|done|set_solver]. }
  intros a s' [[Ha Hq']|(Ha & Ho & Hnb)].
  - destruct (Z.eqb_spec (k_ret a) 0); [done|]. net_step net_errno_spec. intros [] s2 Hq2. by eapply io_error_result.
  - rewrite Ha. apply runs_ret. by left.
Qed.

Lemma set_blocking_spec base lost i nb n block s : fd_of n <> 0 -> quiet base lost i (fd_of n) nb s ->
  runs (redisSetBlocking n block) s (result n base lost i (fun nb => fd_of n ∈ nb <-> block = false)).
Proof using. unfold redisSetBlocking. destruct the_build; [apply fcntl_spec | apply ioctl_spec]. Qed.

Lemma no_delay_spec base lost i nb n s : fd_of n <> 0 -> quiet base lost i (fd_of n) nb s -> runs (redisSetTcpNoDelay n) s (result n base lost i (eq nb)).
Proof using.
  intros Hne Hq. net_step call_ret_spec. intros r s' Hq'. destruct (r =? -1); [by eapply io_error_result|]. apply runs_ret. left. by destruct Hq'.
Qed.

(** The timeout does not overflow a [long]. *)
Definition timeout_ok (t : option timeval) : Prop := match t with Some t => 0 <= t.(tv_sec) /\ long_min <= t.(tv_usec) | None => True end.

Lemma wait_msec_spec t : timeout_ok t -> exists o, wait_msec t = Ok o.
Proof using.
  intros Ht. destruct t as [[sec usec]|]; [|by eexists]. cbn in Ht. unfold wait_msec. cbn [tv_sec tv_usec].
  destruct ((1000000 <? usec) || (MAX_MSEC <? sec)) eqn:E; [by eexists|]. apply orb_false_iff in E as [E1%Z.ltb_ge E2%Z.ltb_ge].
  assert (forall z, long_min <= z <= long_max -> long_result z = Ok z) as Hl.
  { intros z [H4 H5]. unfold long_result. apply Z.leb_le in H4, H5. by rewrite H4, H5. }
  assert (2 ^ 31 - 1 <= long_max) as Hmax by (unfold long_max; destruct the_build; unfold LONG_MAX, INT_MAX; lia).
  assert (long_min ÷ 1000 <= (usec + 999) ÷ 1000 <= 1001) as Hu.
  { split; [apply Z.quot_le_mono; lia | apply Z.quot_le_upper_bound; lia]. }
  assert (MAX_MSEC * 1000 + 1001 <= long_max) as HM by (unfold MAX_MSEC, long_max; destruct the_build; by vm_compute).
  assert (long_min <= long_min ÷ 1000) as Hq by (apply Z.quot_le_lower_bound; unfold long_min; lia).
  unfold long_min in *. rewrite !Hl by lia. cbn [mbind res_bind]. rewrite Hl by lia. by eexists.
Qed.

Lemma check_error_spec base lost i nb n s : quiet base lost i (fd_of n) nb s -> runs (redisCheckSocketError n) s (result n base lost i (eq nb)).
Proof using.
  intros Hq. assert (forall s' prefix, quiet base lost i (fd_of n) nb s' ->
    runs (net* n := redisSetErrorFromErrno n REDIS_ERR_IO prefix in ret (REDIS_ERR, n)) s' (result n base lost i (eq nb))) as Hfail.
  { intros s' prefix Hq'. eapply runs_bind.
    - unfold redisSetErrorFromErrno. eapply runs_bind; [exact (eq_refl : runs get_errno s' (fun _ s2 => s2 = s'))|]. intros e s2 ->.
      eapply (set_error_spec _ _ _ _ _ _ _ _ (fun n' s2 => erred n n' /\ fd_of n' = fd_of n /\ s2 = s')); [done|exact Hq'|]. by intros n' He' Ef'.
    - intros n' s2 (He & Ef & ->). apply runs_ret. right. split; [done|]. split; [done|]. cbn. rewrite Ef. apply Hq'. }
  unfold redisCheckSocketError. net_step call_ret_spec. intros err s' Hq'. destruct (err =? -1); [by apply Hfail|].
  destruct (negb (err =? 0)).
  - eapply runs_bind with (R := fun _ s2 => quiet base lost i (fd_of n) nb s2); [|by intros [] s2 Hq2; apply Hfail].
    unfold assign_errno. destruct the_build; [by apply net_errno_spec|by apply runs_ret].
  - apply runs_ret. left. by destruct Hq'.
Qed.

Lemma poll_spec base lost i nb n t s : timeout_ok t -> fd_of n <> 0 -> quiet base lost i (fd_of n) nb s ->
  runs (redisContextWaitReady_posix n t) s (result n base lost i (eq nb)).
Proof using.
  intros Ht Hne Hq. unfold redisContextWaitReady_posix. destruct (wait_msec_spec t Ht) as (o & Eo). eapply runs_bind; [by apply (runs_need _ o _ (fun a s' => a = o /\ s' = s))|].
  intros a s' [-> ->]. destruct o as [msec|]; [|by eapply io_error_result].
  eapply runs_bind; [exact (eq_refl : runs get_errno s (fun _ s2 => s2 = s))|]. intros e s' ->. destruct (is_errno e EINPROGRESS); [|by eapply io_error_result].
  net_step call_ret_spec. intros r s2 Hq2. destruct (r =? -1); [by eapply io_error_result|]. destruct (r =? 0).
  { net_step net_errno_spec. intros [] s3 Hq3. by eapply io_error_result. }
  net_step check_error_spec. intros [k n'] s3 [(E & Ho & Hnb)|(Ek & He & Ho)]; [injection E as -> ->|cbn in Ek; subst k]; apply runs_ret; [by left|by right].
Qed.

Lemma select_spec base lost i nb n t s : timeout_ok t -> fd_of n <> 0 -> quiet base lost i (fd_of n) nb s ->
  runs (redisContextWaitReady_msvc n t) s (result n base lost i (eq nb)).
Proof using.
  intros Ht Hne Hq. unfold redisContextWaitReady_msvc. destruct (wait_msec_spec t Ht) as (o & Eo). eapply runs_bind; [by apply (runs_need _ o _ (fun a s' => a = o /\ s' = s))|].
  intros a s' [-> ->]. destruct o as [msec|]; [|by eapply io_error_result].
  eapply runs_bind; [exact (eq_refl : runs get_errno s (fun _ s2 => s2 = s))|]. intros e s' ->. destruct (is_errno e EINPROGRESS || _); [|by eapply io_error_result].
  net_step syscall_spec. intros a s2 Hq2. destruct (k_ret a =? -1).
  { net_step net_errno_spec. intros [] s3 Hq3. by eapply io_error_result. }
  net_step check_error_spec. intros [k n'] s3 [(E & Ho & Hnb)|(Ek & He & Ho)]; [injection E as -> ->|cbn in Ek; subst k]; apply runs_ret; [by left|by right].
Qed.

Lemma wait_ready_spec base lost i nb n t s : timeout_ok t -> fd_of n <> 0 -> quiet base lost i (fd_of n) nb s ->
  runs (redisContextWaitReady n t) s (result n base lost i (eq nb)).
Proof using. unfold redisContextWaitReady. destruct the_build; [apply poll_spec | apply select_spec]. Qed.

(** ** Connecting by an address *)

(** The flags and the reader are kept, and so is what connecting reads. *)
Definition same_context (n n' : net_context) : Prop :=
  n'.(n_c).(c_flags) = n.(n_c).(c_flags) /\ n'.(n_c).(c_reader) = n.(n_c).(c_reader).

(** The attempt failed.  Without the reuse of addresses there is an error, and the
    address lists are freed. *)
Definition failed (reuse : bool) (n : net_context) base lost i (n' : net_context) (s' : process) : Prop :=
  exists j, owns base lost j (fd_of n') s' /\ same_context n n' /\ (reuse = false -> n'.(n_c).(c_err) <> 0 /\ j = i).

Lemma failed_error reuse n base lost i n' s' : erred n n' -> owns base lost i (fd_of n') s' -> failed reuse n base lost i n' s'.
Proof using. intros (He & Hf & Hr) Ho. exists i. by split_and!. Qed.

Lemma getaddrinfo_spec base lost i fd nb s host : quiet base lost i fd nb s ->
  runs (getaddrinfo host) s (fun r s' => match r with inl _ => quiet base lost i fd nb s' | inr _ => quiet base lost (i + 1) fd nb s' end).
Proof using.
  intros Hq. net_step syscall_spec. intros a s' Hq'. destruct (negb _); [by apply runs_ret|]. destruct Hq' as [[O1 O2 O3 O4 O5 O6] Hnb].
  split; [|done]. constructor; cbn [p_open p_stray p_infos]; try done. by rewrite O6.
Qed.

Lemma freeaddrinfo_spec base lost i fd nb s : quiet base lost i fd nb s -> runs freeaddrinfo s (fun _ s' => quiet base lost (i - 1) fd nb s').
Proof using. intros [[O1 O2 O3 O4 O5 O6] Hnb]. split; [|done]. constructor; cbn [p_open p_stray p_infos]; try done. by rewrite O6. Qed.

Lemma bind_addresses_spec base lost i fd nb count : forall s, quiet base lost i fd nb s -> runs (bind_addresses count) s (fun _ s' => quiet base lost i fd nb s').
Proof using.
  induction count as [|count IH]; intros s Hq; cbn [bind_addresses]; [by apply runs_ret|].
  net_step call_ret_spec. intros r s' Hq'. destruct (negb _); [by apply runs_ret|]. by apply IH.
Qed.

Lemma error_spec base lost i nb n type msg s : type <> 0 -> quiet base lost i (fd_of n) nb s ->
  runs (set_error n type msg) s (fun n' s' => erred n n' /\ quiet base lost i (fd_of n') nb s').
Proof using. intros Ht Hq. eapply set_error_spec; [done|exact Hq|]. intros n' He Ef. split; [done|]. by rewrite Ef. Qed.

Lemma bind_source_spec base lost i nb n reuse s : quiet base lost i (fd_of n) nb s ->
  runs (bind_source n reuse) s (fun p s' => (p = (true, n) /\ quiet base lost i (fd_of n) nb s') \/ (p.1 = false /\ failed reuse n base lost i p.2 s')).
Proof using.
  intros Hq. unfold bind_source. destruct (tcp_source_addr n) as [a|]; [|apply runs_ret; by left]. net_step getaddrinfo_spec.
  intros [rv|more] s' Hq'.
  { net_step error_spec. intros n' s2 [He Hq2]. apply runs_ret. right. split; [done|]. eapply failed_error; [done|apply Hq2]. }
  eapply runs_bind with (R := fun r s2 => quiet base lost (i + 1) (fd_of n) nb s2 /\ (reuse = false -> r = 0)).
  { destruct reuse; [|by apply runs_ret]. eapply runs_mono; [by apply call_ret_spec|]. by intros r s2 Hq2. }
  intros r s2 [Hq2 Hr]. destruct (Z.ltb_spec r 0).
  { apply runs_ret. right. split; [done|]. exists (i + 1). split; [apply Hq2|]. split; [done|]. intros Er. specialize (Hr Er). lia. }
  net_step bind_addresses_spec. intros bound s3 Hq3. net_step freeaddrinfo_spec. intros [] s4 Hq4. replace (i + 1 - 1) with i in Hq4 by lia.
  destruct bound; cbn [negb]; [apply runs_ret; by left|]. eapply runs_bind; [exact (eq_refl : runs get_errno s4 (fun _ s2 => s2 = s4))|]. intros e s5 ->.
  net_step error_spec. intros n' s5 [He Hq5]. apply runs_ret. right. split; [done|]. eapply failed_error; [done|apply Hq5].
Qed.

(** A connected context: its descriptor blocks when it should. *)
Definition joined (blocking : bool) (n : net_context) base lost i (n' : net_context) (s' : process) : Prop :=
  n' = or_flags (set_fd n (fd_of n')) REDIS_CONNECTED /\ 0 < fd_of n' /\ owns base lost i (fd_of n') s' /\
  (fd_of n' ∈ s'.(p_nonblock) <-> blocking = false).

Lemma finish_spec base lost i nb n blocking reuse s : 0 < fd_of n -> (fd_of n ∈ nb) -> quiet base lost i (fd_of n) nb s ->
  runs (finish_connect n blocking) s (fun p s' => (p.1 = next_connected /\ joined blocking n base lost i p.2 s') \/ (p.1 = next_error /\ failed reuse n base lost i p.2 s')).
Proof using.
  intros Hfd Hin Hq. unfold finish_connect.
  eapply runs_bind with (R := fun p s' => (exists nb', p = (REDIS_OK, n) /\ quiet base lost i (fd_of n) nb' s' /\ (fd_of n ∈ nb' <-> blocking = false)) \/
    (p.1 = REDIS_ERR /\ erred n p.2 /\ owns base lost i (fd_of p.2) s')).
  { destruct blocking; [|apply runs_ret; left; exists nb; by split_and!]. eapply runs_mono; [eapply set_blocking_spec; [lia|done]|].
    intros p s' [(-> & Ho & Hnb)|Hf]; [left; exists (p_nonblock s'); by split_and!|by right]. }
  intros [k n'] s' [(nb' & E & Hq' & Hnb)|(Ek & He & Ho)]; cycle 1.
  { cbn in Ek. subst k. apply runs_ret. right. split; [done|]. by apply failed_error. }
  injection E as -> ->. eapply runs_bind; [eapply no_delay_spec; [lia|done]|]. intros [k n'] s2 [(E & Ho & Hnb')|(Ek & He & Ho)].
  - injection E as -> ->. apply runs_ret. left. split; [done|]. subst nb'. by split_and!.
  - cbn in Ek. subst k. apply runs_ret. right. split; [done|]. by apply failed_error.
Qed.

(** The descriptors lost so far are at most the reuses. *)
Definition loose (reuse : bool) (lost : gset Z) (fd : Z) (reuses : nat) : Prop :=
  (reuse = false -> lost = ∅ /\ fd <= 0) /\ (stdpp.base.size (mine fd ∪ lost) <= reuses < REDIS_CONNECT_RETRIES)%nat.

(** After an attempt. *)
Definition attempted (blocking reuse : bool) (n : net_context) base i (reuses : nat) (x : next) (reuses' : nat) (n' : net_context) (s' : process) : Prop :=
  exists lost, (reuse = false -> lost = ∅) /\ (stdpp.base.size lost < REDIS_CONNECT_RETRIES)%nat /\
  match x with
  | next_connected => joined blocking n base lost i n' s'
  | next_error => failed reuse n base lost i n' s'
  | next_address | next_retry =>
      n' = set_fd n (fd_of n') /\ owns base lost i (fd_of n') s' /\ loose reuse lost (fd_of n') reuses' /\
      (x = next_retry -> reuses < reuses')%nat
  end.

(** A run that fails, after the socket was opened. *)
Lemma attempted_failed blocking reuse n base lost i reuses reuses' fd n' s' : (reuse = false -> lost = ∅) -> (stdpp.base.size lost < REDIS_CONNECT_RETRIES)%nat ->
  failed reuse (set_fd n fd) base lost i n' s' -> attempted blocking reuse n base i reuses next_error reuses' n' s'.
Proof using. intros Hl Hs Hf. exists lost. by split_and!. Qed.

Lemma attempted_finish blocking reuse n base lost i nb reuses fd s : (reuse = false -> lost = ∅) -> (stdpp.base.size lost < REDIS_CONNECT_RETRIES)%nat ->
  0 < fd -> fd ∈ nb -> quiet base lost i fd nb s ->
  runs (net* (x, n) := finish_connect (set_fd n fd) blocking in ret (x, reuses, n)) s
    (fun '(x, reuses', n') s' => attempted blocking reuse n base i reuses x reuses' n' s').
Proof using.
  intros Hl Hs Hfd Hin Hq. eapply runs_bind; [by eapply (finish_spec _ _ _ _ (set_fd n fd) blocking reuse)|].
  intros [x n'] s' [[E Hj]|[E Hf]]; cbn in E; subst x; apply runs_ret; [|by eapply attempted_failed]. exists lost. by split_and!.
Qed.

Lemma try_spec base lost i n blocking reuse reuses s : timeout_ok n.(n_timeout) -> owns base lost i (fd_of n) s -> loose reuse lost (fd_of n) reuses ->
  runs (try_address n blocking reuse reuses) s (fun '(x, reuses', n') s' => attempted blocking reuse n base i reuses x reuses' n' s').
Proof using.
  intros Ht Ho [Hl Hsize]. unfold try_address. net_step sys_socket_spec. intros fd s' [[-> Hq]|[Hfd Ho']].
  { apply runs_ret. exists lost. split; [apply Hl|]. split; [|split; [by destruct n as [[]]|]; split; [apply Hq|by split]].
    eapply Nat.le_lt_trans; [|apply Hsize]. etransitivity; [|apply Hsize]. apply subseteq_size. set_solver. }
  set (lost1 := mine (fd_of n) ∪ lost) in *. destruct (Z.eqb_spec fd (-1)); [lia|].
  assert (reuse = false -> lost1 = ∅) as Hl1. { intros Er. destruct (Hl Er) as [E Hle]. unfold lost1. rewrite E, mine_neg by done. set_solver. }
  assert (stdpp.base.size lost1 < REDIS_CONNECT_RETRIES)%nat as Hs1 by lia.
  eapply runs_bind; [eapply (set_blocking_spec base lost1 i _ (set_fd n fd)); [cbn; lia|by split]|].
  intros [k n'] s2 [(E & Ho2 & Hnb)|(Ek & He & Ho2)]; [|cbn in Ek; subst k; apply runs_ret; by eapply attempted_failed, failed_error].
  injection E as -> ->. cbn [negb]. assert (fd ∈ p_nonblock s2) as Hin by by apply Hnb. change (negb (REDIS_OK =? REDIS_OK)) with false. cbn iota.
  eapply runs_bind; [by eapply (bind_source_spec base lost1 i (p_nonblock s2) (set_fd n fd) reuse)|].
  intros [ok n'] s3 [[E Hq]|[E Hf]]; [|cbn in E; subst ok; apply runs_ret; by eapply attempted_failed]. injection E as -> ->. cbn [negb].
  net_step call_ret_spec. intros r s4 Hq4. destruct (r =? -1); [|by eapply attempted_finish].
  eapply runs_bind; [exact (eq_refl : runs get_errno s4 (fun _ s5 => s5 = s4))|]. intros e s5 ->.
  destruct (is_errno e EHOSTUNREACH).
  { eapply runs_bind; [eapply close_context_spec; [cbn; lia|apply Hq4]|]. intros n' s5 (En & Hle & Ho5). apply runs_ret. exists lost1.
    split_and!; [done|done|exact En|done| |done]. split; [by auto|]. rewrite mine_neg by done. rewrite union_empty_l_L. done. }
  destruct (is_errno e EINPROGRESS && negb blocking); [by eapply attempted_finish|].
  destruct (is_errno e EADDRNOTAVAIL && reuse) eqn:Ereuse.
  { apply andb_true_iff in Ereuse as [_ ->]. destruct (Nat.leb_spec REDIS_CONNECT_RETRIES (S reuses)); apply runs_ret.
    - exists lost1. split_and!; [done|done|]. exists i. split; [apply Hq4|]. by split.
    - exists lost1. split_and!; [done|done|by destruct n as [[]]|apply Hq4| |intros _; lia]. split; [done|]. split; [|done].
      change (fd_of (set_fd n fd)) with fd. rewrite mine_pos, size_union_alt, size_singleton by done.
      assert (stdpp.base.size (lost1 ∖ {[ fd ]}) <= stdpp.base.size lost1)%nat by (apply subseteq_size; set_solver). lia. }
  eapply runs_bind; [eapply (wait_ready_spec base lost1 i _ (set_fd n fd)); [done|cbn; lia|done]|].
  intros [k n'] s5 [(E & Ho5 & Hnb5)|(Ek & He & Ho5)]; [|cbn in Ek; subst k; apply runs_ret; by eapply attempted_failed, failed_error].
  injection E as -> ->. change (negb (REDIS_OK =? REDIS_OK)) with false. cbn iota. by eapply attempted_finish.
Qed.

(** The attempts at an address. *)
Lemma retry_spec base i blocking reuse fuel : forall n lost reuses s, timeout_ok n.(n_timeout) -> owns base lost i (fd_of n) s -> loose reuse lost (fd_of n) reuses ->
  (REDIS_CONNECT_RETRIES <= fuel + reuses)%nat ->
  runs (retry_loop fuel n blocking reuse reuses) s (fun '(x, reuses', n') s' => x <> next_retry /\ attempted blocking reuse n base i reuses x reuses' n' s').
Proof using.
  induction fuel as [|fuel IH]; intros n lost reuses s Ht Ho Hl Hfuel; [destruct Hl; lia|]. cbn [retry_loop].
  eapply runs_bind; [by eapply try_spec|]. intros [[x reuses'] n'] s' Ha. destruct x; try by apply runs_ret.
  destruct Ha as (lost' & H4 & H5 & E & Ho' & Hl' & Hr). specialize (Hr eq_refl).
  eapply runs_mono; [eapply (IH n' lost' reuses'); [by rewrite E|done|done|lia]|].
  intros [[x reuses2] n2] s2 [Hx Ha]. split; [done|]. rewrite E in Ha. destruct Ha as (lost2 & H6 & H7 & Ha). exists lost2. split_and!; [done..|].
  destruct x; [|done| |]; [|exact Ha..]. destruct Ha as (E2 & Ho2 & Hl2 & _). by split_and!.
Qed.

(** Connected, or failed. *)
Definition settled (blocking reuse : bool) (n : net_context) base i (p : Z * net_context) (s' : process) : Prop :=
  exists lost, (reuse = false -> lost = ∅) /\ (stdpp.base.size lost < REDIS_CONNECT_RETRIES)%nat /\
  ((p.1 = REDIS_OK /\ joined blocking n base lost i p.2 s') \/ (p.1 = REDIS_ERR /\ failed reuse n base lost i p.2 s')).

Lemma addresses_spec base i blocking reuse count : forall n lost reuses s, timeout_ok n.(n_timeout) -> owns base lost i (fd_of n) s -> loose reuse lost (fd_of n) reuses ->
  runs (address_loop count n blocking reuse reuses) s (settled blocking reuse n base i).
Proof using.
  induction count as [|count IH]; intros n lost reuses s Ht Ho Hl; cbn [address_loop].
  - eapply runs_bind; [exact (eq_refl : runs get_errno s (fun _ s2 => s2 = s))|]. intros e s2 ->.
    eapply runs_bind; [by eapply error_spec|]. intros n' s2 [He Hq]. apply runs_ret. destruct Hl as [Hl Hs]. exists lost. split_and!; [apply Hl| |].
    + eapply Nat.le_lt_trans; [|apply Hs]. etransitivity; [|apply Hs]. apply subseteq_size. set_solver.
    + right. split; [done|]. eapply failed_error; [done|apply Hq].
  - eapply runs_bind; [eapply retry_spec; [done..|lia]|]. intros [[x reuses'] n'] s' (Hx & lost' & H4 & H5 & Ha). destruct x; [| done | |].
    + destruct Ha as (E & Ho' & Hl' & _). eapply runs_mono; [eapply (IH n' lost' reuses'); [by rewrite E|done|done]|].
      intros p s2 Hp. by rewrite E in Hp.
    + apply runs_ret. exists lost'. split_and!; [done|done|by right].
    + apply runs_ret. exists lost'. split_and!; [done|done|by left].
Qed.

Lemma settled_freed blocking reuse n base i k n' s : settled blocking reuse n base (i + 1) (k, n') s ->
  runs freeaddrinfo s (fun _ s' => settled blocking reuse n base i (k, n') s').
Proof using.
  assert (forall lost j, owns base lost j (fd_of n') s -> owns base lost (j - 1) (fd_of n') (mk_process s.(p_calls) s.(p_errno) s.(p_open) s.(p_nonblock) s.(p_stray) (s.(p_infos) - 1))) as Hown.
  { intros lost j [O1 O2 O3 O4 O5 O6]. constructor; cbn [p_open p_stray p_infos]; try done. by rewrite O6. }
  intros (lost & H4 & H5 & Hs). exists lost. split; [done|]. split; [done|]. destruct Hs as [(Hk & Hn & Hfd & Ho & Hb)|(Hk & j & Ho & Hsame & Hr)]; [left|right].
  - split; [done|]. split_and!; [done|done| |done]. specialize (Hown _ _ Ho). by replace (i + 1 - 1) with i in Hown by lia.
  - split; [done|]. exists (j - 1). split_and!; [by apply Hown|done|]. intros Er. destruct (Hr Er). split; [done|lia].
Qed.

(** What connecting a context does. *)
Definition connects (blocking reuse : bool) (n : net_context) base i (p : Z * net_context) (s' : process) : Prop :=
  exists n1, n1.(n_c) = n.(n_c) /\ settled blocking reuse n1 base i p s'.

(** The argument's timeout. *)
Definition given_timeout (n : net_context) (t : arg (option timeval)) : option timeval := match t with own => n.(n_timeout) | given t => t end.

Lemma copy_timeout_spec n t : alloc_ok 16 = true -> copy_timeout n.(n_timeout) t = Ok (given_timeout n t).
Proof using. intros Hg. destruct t as [|[t|]]; cbn; [done| |done]. by destruct (n_timeout n); [|rewrite Hg]. Qed.

Lemma loose_fresh reuse fd : fd <= 0 -> loose reuse ∅ fd 0.
Proof using. intros Hfd. split; [done|]. rewrite mine_neg, union_empty_l_L, size_empty by done. unfold REDIS_CONNECT_RETRIES. lia. Qed.

Lemma tcp_spec n addr port t src base s : alloc_ok 16 = true -> timeout_ok (given_timeout n t) -> fd_of n <= 0 -> owns base ∅ s.(p_infos) (fd_of n) s ->
  runs (redisContextConnectBindTcp n addr port t src) s (connects (flag n REDIS_BLOCK) (flag n REDIS_REUSEADDR) n base s.(p_infos)).
Proof using.
  intros Hg Ht Hfd Ho. unfold redisContextConnectBindTcp, take_tcp. rewrite (copy_timeout_spec n t Hg). cbn [mbind res_bind].
  set (n0 := mk_net _ _ _ _ _ _ _). assert (n0.(n_c) = n.(n_c)) as E by done. assert (fd_of n0 = fd_of n) as Ef by done.
  eapply runs_bind; [by apply (runs_need _ n0 _ (fun a s' => a = n0 /\ s' = s))|]. intros a s' [-> ->].
  eapply runs_bind; [apply (getaddrinfo_spec base ∅ s.(p_infos) (fd_of n0) s.(p_nonblock)); by split|]. cbn beta.
  intros info s1 Hinfo. eapply runs_bind with (R := fun r s' => exists nb, match r with inl _ => quiet base ∅ s.(p_infos) (fd_of n0) nb s' | inr _ => quiet base ∅ (s.(p_infos) + 1) (fd_of n0) nb s' end).
  { destruct info as [rv|more]; [|apply runs_ret; by exists (p_nonblock s)]. eapply runs_mono; [by eapply getaddrinfo_spec|]. intros r s2 Hr. by exists (p_nonblock s). }
  intros [rv|more] s2 (nb & Hq).
  - net_step error_spec. intros n' s3 [He Hq3]. apply runs_ret. exists n0. split; [done|]. exists ∅. split_and!; [done|rewrite size_empty; unfold REDIS_CONNECT_RETRIES; lia|].
    right. split; [done|]. eapply failed_error; [done|apply Hq3].
  - eapply runs_bind; [eapply (addresses_spec base _ _ (flag n REDIS_REUSEADDR)); [exact Ht|apply Hq|by apply loose_fresh]|].
    intros [k n'] s3 Hs. eapply runs_bind; [by eapply settled_freed|]. intros [] s4 Hs4. apply runs_ret. by exists n0.
Qed.

Lemma unix_spec n path t base s : alloc_ok 16 = true -> timeout_ok (given_timeout n (given t)) -> fd_of n <= 0 -> owns base ∅ s.(p_infos) (fd_of n) s ->
  runs (redisContextConnectUnix n (given path) (given t)) s (connects (flag n REDIS_BLOCK) false n base s.(p_infos)).
Proof using.
  intros Hg Ht Hfd Ho. unfold redisContextConnectUnix. set (i := s.(p_infos)) in *.
  assert (forall n1 n' s', n1.(n_c) = n.(n_c) -> erred n1 n' -> owns base ∅ i (fd_of n') s' -> connects (flag n REDIS_BLOCK) false n base i (REDIS_ERR, n') s') as Hfail.
  { intros n1 n' s' E He Ho'. exists n1. split; [done|]. exists ∅. split_and!; [done|rewrite size_empty; unfold REDIS_CONNECT_RETRIES; lia|]. right. split; [done|]. by eapply failed_error. }
  unfold redisCreateSocket.
  eapply runs_bind with (R := fun p s' => (p.1 = REDIS_OK /\ exists fd, p.2 = set_fd n fd /\ 0 < fd /\ owns base ∅ i fd s') \/ (p.1 = REDIS_ERR /\ connects (flag n REDIS_BLOCK) false n base i p s')).
  { eapply runs_bind; [eapply (sys_socket_spec base ∅ i (fd_of n) s.(p_nonblock)); by split|]. cbn beta. intros fd s' [[-> Hq]|[Hfd' Ho']].
    - change (-1 =? -1) with true. cbn iota. unfold redisSetErrorFromErrno. eapply runs_bind.
      { eapply runs_bind; [exact (eq_refl : runs get_errno s' (fun _ s2 => s2 = s'))|]. intros e s2 ->. by eapply error_spec. }
      intros n' s2 [He Hq2]. apply runs_ret. right. split; [done|]. eapply Hfail; [done|done|apply Hq2].
    - destruct (Z.eqb_spec fd (-1)); [lia|]. apply runs_ret. left. split; [done|]. exists fd. rewrite mine_neg, union_empty_l_L in Ho' by done. by split_and!. }
  intros [k n'] s1 [(Ek & fd & En & Hfd' & Ho1)|[Ek Hc]]; cbn in Ek; subst k; [|by apply runs_ret]. cbn in En. subst n'. change (REDIS_OK <? 0) with false. cbn iota.
  eapply runs_bind; [eapply (set_blocking_spec base ∅ i _ (set_fd n fd)); [cbn; lia|by split]|].
  intros [k n'] s2 [(E & Ho2 & Hnb)|(Ek & He & Ho2)]; [|cbn in Ek; subst k; apply runs_ret; by eapply (Hfail n)]. injection E as -> ->.
  change (negb (REDIS_OK =? REDIS_OK)) with false. cbn iota. change (n_timeout (set_fd n fd)) with (n_timeout n).
  eapply runs_bind; [apply (runs_need _ _ _ (fun a s' => a = t /\ s' = s2) (copy_timeout_spec n (given t) Hg)); by split|]. intros t' s' [-> ->].
  set (n1 := mk_net _ _ _ _ _ _ _). eapply runs_bind; [by apply (runs_need _ path _ (fun a s' => s' = s2))|]. intros ? s' ->.
  assert (fd ∈ p_nonblock s2) as Hin by by apply Hnb.
  eapply runs_bind; [apply (call_ret_spec base ∅ i fd (p_nonblock s2)); by split|]. cbn beta. intros r s3 Hq3.
  eapply runs_bind with (R := fun p s' => (p = (REDIS_OK, n1) /\ quiet base ∅ i fd (p_nonblock s2) s') \/ (p.1 = REDIS_ERR /\ erred n1 p.2 /\ owns base ∅ i (fd_of p.2) s')).
  { destruct (r =? -1); [|apply runs_ret; by left]. eapply runs_bind; [exact (eq_refl : runs get_errno s3 (fun _ s5 => s5 = s3))|]. intros e s4 ->.
    destruct (is_errno e EINPROGRESS && _); [apply runs_ret; by left|].
    eapply runs_mono; [eapply (wait_ready_spec base ∅ i (p_nonblock s2) n1); [done|cbn; lia|done]|]. intros p s4 [(-> & Ho4 & Hnb4)|Hf]; [left; by split|by right]. }
  intros [k n'] s4 [[E Hq4]|(Ek & He & Ho4)]; [|cbn in Ek; subst k; apply runs_ret; by eapply (Hfail n)]. injection E as -> ->.
  change (negb (REDIS_OK =? REDIS_OK)) with false. cbn iota.
  eapply runs_bind with (R := fun p s' => (p = (REDIS_OK, n1) /\ owns base ∅ i fd s' /\ (fd ∈ p_nonblock s' <-> flag n REDIS_BLOCK = false)) \/ (p.1 = REDIS_ERR /\ erred n1 p.2 /\ owns base ∅ i (fd_of p.2) s')).
  { destruct (flag n REDIS_BLOCK); [|apply runs_ret; left; split_and!; [done|apply Hq4|by destruct Hq4 as [_ ->]]].
    eapply runs_mono; [eapply (set_blocking_spec base ∅ i _ n1); [cbn; lia|done]|]. intros p s5 [(-> & Ho5 & Hnb5)|Hf]; [left; by split_and!|by right]. }
  intros [k n'] s5 [(E & Ho5 & Hnb5)|(Ek & He & Ho5)]; [|cbn in Ek; subst k; apply runs_ret; by eapply (Hfail n)]. injection E as -> ->.
  apply runs_ret. exists (mk_net n.(n_c) REDIS_CONN_UNIX t n.(tcp_host) n.(tcp_source_addr) n.(tcp_port) (strdup path)). split; [done|].
  exists ∅. split_and!; [done|rewrite size_empty; unfold REDIS_CONNECT_RETRIES; lia|]. left. split; [done|]. by split_and!.
Qed.

(** ** The functions that connect *)

Inductive connector : Type :=
  | c_redisConnect (ip : bytes) (port : Z) | c_redisConnectWithTimeout (ip : bytes) (port : Z) (tv : timeval)
  | c_redisConnectNonBlock (ip : bytes) (port : Z) | c_redisConnectBindNonBlock (ip : bytes) (port : Z) (source_addr : bytes)
  | c_redisConnectBindNonBlockWithReuse (ip : bytes) (port : Z) (source_addr : bytes)
  | c_redisConnectUnix (path : bytes) | c_redisConnectUnixWithTimeout (path : bytes) (tv : timeval) | c_redisConnectUnixNonBlock (path : bytes).

Definition connect_by (k : connector) : net (option net_context) :=
  match k with
  | c_redisConnect ip port => redisConnect ip port
  | c_redisConnectWithTimeout ip port tv => redisConnectWithTimeout ip port tv
  | c_redisConnectNonBlock ip port => redisConnectNonBlock ip port
  | c_redisConnectBindNonBlock ip port src => redisConnectBindNonBlock ip port src
  | c_redisConnectBindNonBlockWithReuse ip port src => redisConnectBindNonBlockWithReuse ip port src
  | c_redisConnectUnix path => redisConnectUnix path
  | c_redisConnectUnixWithTimeout path tv => redisConnectUnixWithTimeout path tv
  | c_redisConnectUnixNonBlock path => redisConnectUnixNonBlock path
  end.

Definition blocks (k : connector) : bool :=
  match k with c_redisConnect _ _ | c_redisConnectWithTimeout _ _ _ | c_redisConnectUnix _ | c_redisConnectUnixWithTimeout _ _ => true | _ => false end.
Definition reuses (k : connector) : bool := match k with c_redisConnectBindNonBlockWithReuse _ _ _ => true | _ => false end.
Definition timeout_of (k : connector) : option timeval :=
  match k with c_redisConnectWithTimeout _ _ tv | c_redisConnectUnixWithTimeout _ tv => Some tv | _ => None end.

(** Microsoft's build starts Winsock, which may be refused. *)
Definition started (s : process) : Prop := match the_build with posix => True | msvc => (kernel s.(p_calls)).(k_ret) = 0 end.

(** A fresh context, over no descriptor, that is told to block and to reuse. *)
Definition fresh_context (block reuse : bool) (n : net_context) : Prop :=
  exists obuf r, n = of_context (mk_context 0 [] 0 (Z.lor (if block then REDIS_BLOCK else 0) (if reuse then REDIS_REUSEADDR else 0)) (Some obuf) (Some r)) /\
    repr obuf [] /\ state r [] (-1) [] /\ r.(rd_len) = 0.

(** The process but for its calls. *)
Definition same_descriptors (s s' : process) : Prop := s'.(p_open) = s.(p_open) /\ s'.(p_stray) = s.(p_stray) /\ s'.(p_infos) = s.(p_infos).

Lemma init_context_spec s : granted -> started s ->
  runs init_context s (fun o s' => same_descriptors s s' /\ exists n, o = Some n /\ fresh_context false false n).
Proof using.
  intros Hg Hst. destruct (context_init_spec Hg (mk_world [] [] [] [])) as (obuf & r & E & Ho & Hs & Hl). unfold init_context.
  eapply runs_bind with (R := fun b s' => b = true /\ same_descriptors s s').
  { unfold start_winsock. unfold started in Hst. destruct the_build; [by apply runs_ret|]. unfold runs, call_ret, net_bind, call, ret. cbn. by rewrite Hst. }
  intros b s' [-> Hsame]. cbn [negb]. unfold runs. rewrite E. cbn. split; [done|]. eexists. split; [done|]. exists obuf, r. by split_and!.
Qed.

(** Each of the functions connects a fresh context. *)
Lemma connect_by_spec k base s : granted -> started s -> timeout_ok (timeout_of k) -> 0 ∈ base -> s.(p_open) = base -> s.(p_stray) = [] ->
  runs (connect_by k) s (fun o s' => exists n0 n x, o = Some n /\ fresh_context (blocks k) (reuses k) n0 /\ connects (blocks k) (reuses k) n0 base s.(p_infos) (x, n) s').
Proof using.
  intros Hg Hst Ht H0base Hopen Hstray. pose proof (init_context_spec s Hg Hst) as Hinit.
  assert (forall s' n1, same_descriptors s s' -> fd_of n1 = 0 -> owns base ∅ s'.(p_infos) (fd_of n1) s') as Hown.
  { intros s' n1 (E1 & E2 & E3) ->. constructor; [rewrite mine_neg, E1, Hopen by done; apply leibniz_equiv; set_solver|lia|done|set_solver|congruence|done]. }
  assert (forall s' n1 m, same_descriptors s s' -> fresh_context (blocks k) (reuses k) n1 -> runs m s' (connects (blocks k) (reuses k) n1 base s'.(p_infos)) ->
    runs (net* (_, n) := m in ret (Some n)) s' (fun o s' => exists n0 n x, o = Some n /\ fresh_context (blocks k) (reuses k) n0 /\ connects (blocks k) (reuses k) n0 base s.(p_infos) (x, n) s')) as Hrun.
  { intros s' n1 m (_ & _ & E3) Hn Hm. rewrite <- E3. eapply runs_bind; [exact Hm|]. intros [x n2] s2 Hc. apply runs_ret. by exists n1, n2, x. }
  destruct k; cbn [connect_by blocks reuses timeout_of] in *;
    unfold redisConnect, redisConnectWithTimeout, redisConnectNonBlock, redisConnectBindNonBlock, redisConnectBindNonBlockWithReuse,
      redisConnectUnix, redisConnectUnixWithTimeout, redisConnectUnixNonBlock, redisContextConnectTcp;
    (eapply runs_bind; [exact Hinit|]); intros ? s' (Hsame & n & -> & obuf & r & -> & Ho & Hs & Hl);
    try (eapply runs_bind; [by apply (runs_need _ _ _ (fun a s2 => a = _ /\ s2 = s'))|]; intros ? ? [-> ->]);
    (eapply Hrun; [done|exists obuf, r; by split_and!|]);
    (apply tcp_spec || apply unix_spec); try done; by apply Hown.
Qed.

(** Freeing a context that owns its descriptor. *)
Lemma free_context_spec base lost i n s : owns base lost i (fd_of n) s -> (exists r h, n.(n_c).(c_reader) = Some r /\ redisReaderFree r = Ok h) ->
  exists s', free_context n s = Ok (tt, s') /\ s'.(p_open) = base ∪ lost /\ s'.(p_stray) = [].
Proof using.
  intros Ho (r & h & Er & Eh). assert (runs (free_context n) s (fun _ s' => s'.(p_open) = base ∪ lost /\ s'.(p_stray) = [])) as Hruns.
  { unfold free_context. rewrite Er, Eh. eapply runs_bind with (R := fun _ s' => exists fd, fd <= 0 /\ owns base lost i fd s').
    - destruct (Z.ltb_spec 0 (fd_of n)) as [Hfd|Hfd]; [|apply runs_ret; by exists (fd_of n)].
      eapply runs_mono; [by apply close_spec|]. intros [] s' Ho'. by exists (-1).
    - intros [] s' (fd & Hfd & Ho'). eapply runs_bind; [by apply (runs_need _ h _ (fun _ s2 => s2 = s'))|]. intros ? ? ->.
      apply runs_mono with (R := fun _ s2 => owns base lost i fd s2).
      + unfold stop_winsock. destruct the_build; [by apply runs_ret|]. eapply runs_bind; [by eapply (syscall_spec base lost i fd (p_nonblock s'))|]. intros a' s2 [Ho2 _]. by apply runs_ret.
      + intros [] s2 [O1 O2 O3 O4 O5 O6]. split; [|done]. by rewrite O1, mine_neg, union_empty_l_L. }
  unfold runs in Hruns. destruct (free_context n s) as [[[] s']| |]; [|done..]. by exists s'.
Qed.

(** A context that is connected, and one that is not. *)
Lemma joined_context block reuse n0 n1 base lost i n s : fresh_context block reuse n0 -> n1.(n_c) = n0.(n_c) -> joined block n1 base lost i n s ->
  flag n REDIS_CONNECTED = true /\ n.(n_c).(c_err) = 0 /\ (block = true -> conn (fd_of n) n.(n_c) [] [] (-1) [] 0) /\ c_reader (n_c n) = c_reader (n_c n0).
Proof using.
  intros (obuf & r & -> & Ho & Hs & Hl) En (E & Hfd & _). unfold flag, conn. rewrite E. cbn [or_flags set_fd with_c n_c c_err c_flags c_fd c_obuf c_reader fd_of].
  rewrite En. cbn [of_context n_c c_err c_flags c_fd c_obuf c_reader]. split_and!; [by destruct block, reuse|done| |done].
  intros ->. split_and!; [done|by destruct reuse|done|by exists obuf|]. exists r. split_and!; [done|done|lia].
Qed.

Lemma failed_context block reuse n0 n1 base lost i n s : fresh_context block reuse n0 -> n1.(n_c) = n0.(n_c) -> failed reuse n1 base lost i n s ->
  flag n REDIS_CONNECTED = false /\ c_reader (n_c n) = c_reader (n_c n0).
Proof using.
  intros (obuf & r & -> & Ho & Hs & Hl) En (j & _ & (Ef & Er) & _). unfold flag. rewrite Ef, Er, En. split; [by destruct block, reuse|done].
Qed.
End Spec.

(** ** The property *)


(** ** Concrete kernels *)

(** Every call succeeds but those of the list. *)
Definition kernel_but (l : list (nat * syscall)) : Kernel := fun i =>
  match List.find (fun p => p.1 =? i)%nat l with Some p => p.2 | None => mk_syscall 0 no_errno 0 end.
Definition fails_with (e : errno) : syscall := mk_syscall (-1) e 0.

Definition std_fds : gset Z := {[ 0; 1; 2 ]}.
Definition shell : process := mk_process 0 no_errno std_fds ∅ [] 0.

#[local] Instance plain_gai : Gai := fun _ => [].
#[local] Instance plain_strerror : Strerror := fun _ => [].
#[local] Instance no_limit : Allocator := fun _ => true.

(** The first address is unreachable, the second one takes a while. *)
Definition slow_kernel : Kernel := kernel_but [(0%nat, mk_syscall 0 no_errno 1); (4%nat, fails_with EHOSTUNREACH); (8%nat, fails_with EINPROGRESS); (9%nat, mk_syscall 1 no_errno 0)].


(** [goto addrretry] does not close the socket: the second one is the context's,
    and the first one stays open after the context is freed. *)
Definition in_use_kernel : Kernel := kernel_but [(7%nat, fails_with EADDRNOTAVAIL)].

Example reuse_loses_a_descriptor :
  match connect_by (H := in_use_kernel) (c_redisConnectBindNonBlockWithReuse (str "db") 6379 (str "me")) shell with
  | Ok (Some n, s') => flag n REDIS_CONNECTED = true /\ fd_of n = 4 /\
      match free_context (H := in_use_kernel) n s' with
      | Ok (_, s'') => bool_decide (3 ∈ s''.(p_open)) = true /\ bool_decide (4 ∈ s''.(p_open)) = false
      | _ => False
      end
  | _ => False
  end.
Proof. by vm_compute. Qed.

(** A failing [setsockopt] is an error without an error, and loses the addresses
    to bind. *)
Definition no_option_kernel : Kernel := kernel_but [(5%nat, fails_with (errno_other 92))].

Example reuse_fails_silently :
  match connect_by (H := no_option_kernel) (c_redisConnectBindNonBlockWithReuse (str "db") 6379 (str "me")) shell with
  | Ok (Some n, s') => flag n REDIS_CONNECTED = false /\ n.(n_c).(c_err) = 0 /\ s'.(p_infos) = 1
  | _ => False
  end.
Proof. by vm_compute. Qed.

(** Reconnecting closes the descriptor and keeps it: when the host cannot be found
    any more, [redisFree] closes it again. *)
Definition lost_host_kernel : Kernel := kernel_but [(8%nat, mk_syscall (-2) no_errno 0); (9%nat, mk_syscall (-2) no_errno 0)].

Example reconnect_closes_twice :
  match connect_by (H := lost_host_kernel) (c_redisConnect (str "db") 6379) shell with
  | Ok (Some n, s') => fd_of n = 3 /\
      match redisReconnect (H := lost_host_kernel) n s' with
      | Ok ((k, n'), s2) => k = REDIS_ERR /\ fd_of n' = 3 /\ s2.(p_stray) = [] /\
          match free_context (H := lost_host_kernel) n' s2 with
          | Ok (_, s3) => s3.(p_stray) = [3]
          | _ => False
          end
      | _ => False
      end
  | _ => False
  end.
Proof. by vm_compute. Qed.

(** *** Microsoft's build *)

Definition msvc_shell : process := mk_process 0 EINPROGRESS std_fds ∅ [] 0.
Definition msvc_strerror : Strerror := fun e => if is_errno e EINPROGRESS then str "in progress" else str "refused".
Definition msvc_connect (k : Kernel) : res (option net_context * process) :=
  connect_by (H := k) (H1 := msvc_strerror) (H3 := msvc) (c_redisConnectWithTimeout (str "db") 6379 (mk_timeval 1 0)) msvc_shell.

(** [select] returns 0 when the time is up, and a connection that was not made is
    connected. *)
Example msvc_connects_too_late :
  match msvc_connect (kernel_but [(4%nat, fails_with WSAEWOULDBLOCK); (5%nat, mk_syscall 0 no_errno 0)]) with
  | Ok (Some n, s') => flag n REDIS_CONNECTED = true /\ n.(n_c).(c_err) = 0
  | _ => False
  end.
Proof. by vm_compute. Qed.

(** What [connect] and the socket say of a failure is lost: the variable that stands
    for [errno] still says that the connection is being made. *)
Example msvc_forgets_reason :
  match msvc_connect (kernel_but [(4%nat, fails_with WSAEWOULDBLOCK); (5%nat, mk_syscall 1 no_errno 0); (6%nat, mk_syscall 10061 no_errno 0)]) with
  | Ok (Some n, s') => flag n REDIS_CONNECTED = false /\ n.(n_c).(c_errstr) = str "in progress"
  | _ => False
  end.
Proof. by vm_compute. Qed.
