(* ===== verification/HiredisTests.v ===== *)
(** * The tests of hiredis on its model.

    The tests of [src/win/hiredis/test.c] of the formatters and of the reader, and
    those at the end of [sds.c], each condition of [test_cond] as a boolean of the
    model's run.  The tests over connections are in HiredisServerTests. *)
From S2P Require Import Prelude CxxString Sds SdsRefine SdsText HiredisFormat HiredisReply HiredisReader HiredisContext.

(** The allocator that grants everything, and what printf makes of the conversions of
    the tests. *)
Definition granted_always : Allocator := fun _ => true.
Definition test_printf : Printf := fun conversion v => match v with va_int _ => str "00000123" | va_double _ => str "0123.000" end.

Section Tests.
Context `{Allocator} `{Printf}.

Definition holds {A} (m : res A) (P : A -> bool) : bool := match m with Ok a => P a | _ => false end.
Definition is_bytes (m : res bytes) (expected : bytes) : bool := holds m (fun s => s =s expected).

(** ** [test_format_commands] *)

(** [strncmp(cmd, expected, len) == 0 && len == ...] *)
Definition gives (m : res (Z * option memory)) (expected : bytes) (len : Z) : bool :=
  holds m (fun '(n, cmd) => (n =? len) && match cmd with Some cmd => is_bytes (mem_read cmd 0 n) expected | None => false end).

(** The text of a request, its line ends written out. *)
Definition lines_of (l : list bytes) : bytes := concat (map (fun s => s ++ crlf) l).

Definition integer_width_test (fmt : bytes) : bool :=
  gives (redisFormatCommand (str "key:%08" ++ fmt ++ str " str:%s") [va_num (va_int 123); va_str (str "hello")])
    (lines_of [str "*2"; str "$12"; str "key:00000123"; str "$9"; str "str:hello"]) (4 + 5 + (12 + 2) + 4 + (9 + 2)).
Definition float_width_test : bool :=
  gives (redisFormatCommand (str "key:%08.3f str:%s") [va_num (va_double 4638355772470722560); va_str (str "hello")])
    (lines_of [str "*2"; str "$12"; str "key:0123.000"; str "$9"; str "str:hello"]) (4 + 5 + (12 + 2) + 4 + (9 + 2)).

Definition test_format_commands : list bool :=
  let set_foo_bar := lines_of [str "*3"; str "$3"; str "SET"; str "$3"; str "foo"; str "$3"; str "bar"] in
  let set_foo_empty := lines_of [str "*3"; str "$3"; str "SET"; str "$3"; str "foo"; str "$0"; []] in
  let b0r := str "b" ++ [Byte.x00] ++ str "r" in
  let foo0xxx := str "foo" ++ [Byte.x00] ++ str "xxx" in
  let argv := [str "SET"; foo0xxx; str "bar"] in
  [gives (redisFormatCommand (str "SET foo bar") []) set_foo_bar (4 + 4 + (3 + 2) + 4 + (3 + 2) + 4 + (3 + 2));
   gives (redisFormatCommand (str "SET %s %s") [va_str (str "foo"); va_str (str "bar")]) set_foo_bar (4 + 4 + (3 + 2) + 4 + (3 + 2) + 4 + (3 + 2));
   gives (redisFormatCommand (str "SET %s %s") [va_str (str "foo"); va_str []]) set_foo_empty (4 + 4 + (3 + 2) + 4 + (3 + 2) + 4 + (0 + 2));
   gives (redisFormatCommand (str "SET %s %s") [va_str []; va_str (str "foo")])
     (lines_of [str "*3"; str "$3"; str "SET"; str "$0"; []; str "$3"; str "foo"]) (4 + 4 + (3 + 2) + 4 + (0 + 2) + 4 + (3 + 2));
   gives (redisFormatCommand (str "SET %b %b") [va_bin (str "foo") 3; va_bin b0r 3])
     (lines_of [str "*3"; str "$3"; str "SET"; str "$3"; str "foo"; str "$3"; b0r]) (4 + 4 + (3 + 2) + 4 + (3 + 2) + 4 + (3 + 2));
   gives (redisFormatCommand (str "SET %b %b") [va_bin (str "foo") 3; va_bin [] 0]) set_foo_empty (4 + 4 + (3 + 2) + 4 + (3 + 2) + 4 + (0 + 2));
   gives (redisFormatCommand (str "SET %% %%") []) (lines_of [str "*3"; str "$3"; str "SET"; str "$1"; str "%"; str "$1"; str "%"]) (4 + 4 + (3 + 2) + 4 + (1 + 2) + 4 + (1 + 2))] ++
  map integer_width_test [str "d"; str "hhd"; str "hd"; str "ld"; str "lld"; str "u"; str "hhu"; str "hu"; str "lu"; str "llu"] ++
  [float_width_test; float_width_test;
   holds (redisFormatCommand (str "key:%08p %b") [va_num (va_int 1234); va_bin (str "foo") 3]) (fun '(n, _) => n =? -1);
   gives (redisFormatCommandArgv argv None) set_foo_bar (4 + 4 + (3 + 2) + 4 + (3 + 2) + 4 + (3 + 2));
   gives (redisFormatCommandArgv argv (Some [3; 7; 3]))
     (lines_of [str "*3"; str "$3"; str "SET"; str "$7"; foo0xxx; str "$3"; str "bar"]) (4 + 4 + (3 + 2) + 4 + (7 + 2) + 4 + (3 + 2))].

(** ** [test_reply_reader] *)

(** [redisReaderCreate]; the flag is [reader->fn != NULL]. *)
Definition create (fn : bool) : res reader := let* o := redisReaderCreateWithFunctions fn [] in live o.

Fixpoint feed_all (r : reader) (chunks : list bytes) : res reader :=
  match chunks with [] => Ok r | x :: chunks => let* (_, r) := redisReaderFeed r x in feed_all r chunks end.

(** Feeds, takes a reply and frees the reader. *)
Definition reads (fn : bool) (chunks : list bytes) (P : Z -> option obj -> reader -> bool) : bool :=
  holds (let* r := create fn in let* r := feed_all r chunks in let* (ret, reply, r) := redisReaderGetReply r in
    let* _ := redisReaderFree r in Ok (P ret reply r)) id.

Definition protocol_error (ret : Z) (reply : option obj) (r : reader) : bool :=
  (ret =? REDIS_ERR) && (c_str r.(rd_errstr) =s str "Protocol error, got " ++ [dquote] ++ str "@" ++ [dquote] ++ str " as reply type byte").

Definition test_reply_reader : list bool :=
  [reads true [str "@foo" ++ crlf] protocol_error;
   reads true [str "*2" ++ crlf; str "$5" ++ crlf ++ str "hello" ++ crlf; str "@foo" ++ crlf] protocol_error;
   reads true (replicate 9 (str "*1" ++ crlf)) (fun ret _ r => (ret =? REDIS_ERR) && (take 14 r.(rd_errstr) =s str "No support for"));
   reads false [str "+OK" ++ crlf] (fun ret reply _ => (ret =? REDIS_OK) && match reply with Some (obj_const z) => z =? REPLY_STATUS | _ => false end);
   holds (let* r := create false in let* r := feed_all r [str "+OK" ++ [CR]] in let* (ret, reply, r) := redisReaderGetReply r in
     let* r := feed_all r [[NL]] in let* (ret', reply', r) := redisReaderGetReply r in let* _ := redisReaderFree r in
     Ok ((ret =? REDIS_OK) && match reply with None => true | _ => false end &&
         (ret' =? REDIS_OK) && match reply' with Some (obj_const z) => z =? REPLY_STATUS | _ => false end)) id;
   holds (let* r := create false in let* r := feed_all r [str "x"] in let* (ret, _, r) := redisReaderGetReply r in
     let* (ret', reply', r) := redisReaderGetReply r in let* _ := redisReaderFree r in
     Ok ((ret =? REDIS_ERR) && (ret' =? REDIS_ERR) && match reply' with None => true | _ => false end)) id;
   reads true [str "*0" ++ crlf] (fun ret reply r => (ret =? REDIS_OK) &&
     match reply with
     | Some (obj_reply p) => match r.(rd_heap) !! p with Some (Some o) => (o.(r_type) =? REPLY_ARRAY) && (o.(r_elements) =? 0) | _ => false end
     | _ => false
     end)].

(** ** [SDS_TEST_MAIN] *)

Definition need_sds (m : res (option sds)) : res sds := let* o := m in live o.

(** [sdslen(x) == n && memcmp(x, expected, n + 1) == 0] *)
Definition is_text (m : res sds) (expected : bytes) : bool :=
  holds m (fun s => (sdslen s =? size expected) && is_bytes (mem_read s.(sds_buf) 0 (size expected + 1)) (expected ++ [Byte.x00])).

Definition new (s : bytes) : res sds := need_sds (sdsnew (Some s)).

Definition ciao : res sds := let* x := new (str "xxciaoyyy") in sdstrim x (str "xy").
Definition range_of (start end_ : Z) : res sds := let* x := ciao in let* y := need_sds (sdsdup x) in sdsrange y start end_.
Definition cmp (a b : bytes) (P : Z -> bool) : bool := holds (let* x := new a in let* y := new b in sdscmp x y) P.

Definition sds_tests : list bool :=
  let a_text := BEL :: NL :: Byte.x00 :: str "foo" ++ [CR] in
  [is_text (new (str "foo")) (str "foo");
   is_text (need_sds (sdsnewlen (Some (str "foo")) 2)) (str "fo");
   is_text (let* x := need_sds (sdsnewlen (Some (str "foo")) 2) in need_sds (sdscat x (str "bar"))) (str "fobar");
   is_text (let* x := new (str "fobar") in need_sds (sdscpy x (str "a"))) (str "a");
   is_text (let* x := new (str "a") in need_sds (sdscpy x (str "xyzxxxxxxxxxxyyyyyyyyyykkkkkkkkkk"))) (str "xyzxxxxxxxxxxyyyyyyyyyykkkkkkkkkk");
   is_text (let* x := need_sds sdsempty in need_sds (sdscatprintf x (str "123"))) (str "123");
   is_text ciao (str "ciao");
   is_text (range_of 1 1) (str "i");
   is_text (range_of 1 (-1)) (str "iao");
   is_text (range_of (-2) (-1)) (str "ao");
   is_text (range_of 2 1) [];
   is_text (range_of 1 100) (str "iao");
   is_text (range_of 100 100) [];
   cmp (str "foo") (str "foa") (fun z => 0 <? z);
   cmp (str "bar") (str "bar") (fun z => z =? 0);
   cmp (str "aar") (str "bar") (fun z => z <? 0);
   holds (let* x := need_sds (sdsnewlen (Some a_text) 7) in let* p := mem_read x.(sds_buf) 0 (sdslen x) in
     let* e := need_sds sdsempty in let* y := need_sds (sdscatrepr e p) in mem_read y.(sds_buf) 0 15)
     (fun s => s =s take 15 ([dquote] ++ str "\a\n\x00foo\r" ++ [dquote]));
   holds (let* x := new (str "0") in let* y := need_sds (sdsMakeRoomFor x 1) in
     let* b := mem_write y.(sds_buf) 1 (str "1") in let* z := sdsIncrLen (mk_sds y.(sds_len) y.(sds_free) b) 1 in
     let* text := mem_read z.(sds_buf) 0 2 in
     Ok ((x.(sds_len) =? 1) && (x.(sds_free) =? 0) && (y.(sds_len) =? 1) && (0 <? y.(sds_free)) &&
       (text =s str "01") && (z.(sds_len) =? 2) && (z.(sds_free) =? y.(sds_free) - 1))) id].

End Tests.

(** ** They pass *)

Example format_commands_pass : forallb id (test_format_commands (H := granted_always) (H0 := test_printf)) = true.
Proof. by vm_compute. Qed.

Example reply_reader_pass : forallb id (test_reply_reader (H := granted_always)) = true.
Proof. by vm_compute. Qed.

Example sds_tests_pass : forallb id (sds_tests (H := granted_always)) = true.
Proof. by vm_compute. Qed.
