(* ===== verification/Logger.v ===== *)
(** * [src/src/logger.hpp], [src/src/logger.cpp]: the log and its rotation.

    [logger::file], [init], [write] and [rotate] post work to an [io_service] that
    one thread runs: a queue of [work].  The other threads read the members that
    the tasks write, here between two tasks.  The files are a map from paths to
    contents; what the permissions of the directory are is a parameter.  A time is
    the [std::tm] that [localtime] or [to_tm] makes of it. *)
From S2P Require Import Prelude CxxString.

Record tm : Type := mk_tm { tm_year : Z; tm_mon : Z; tm_mday : Z; tm_hour : Z; tm_min : Z }.

Inductive log_rotation_type : Type := every_minute | hourly | daily.
Inductive log_level_type : Type := debug | info | warn | error | fatal.

#[export] Instance log_level_type_eq_dec : EqDecision log_level_type.
Proof. solve_decision. Defined.

Definition level_value (l : log_level_type) : Z := match l with debug => 1 | info => 2 | warn => 3 | error => 4 | fatal => 5 end.

(** [std::ofstream]: the file that is open, and whether the state is good. *)
Record ofstream : Type := mk_ofstream { o_file : option bytes; o_good : bool }.

(** The work of the private thread. *)
Inductive work : Type :=
  | task_file (file : bytes)
  | task_settings (level : log_level_type) (rotation : log_rotation_type)
  | task_message (message : bytes)
  | task_rotate (file_to : bytes).

Record logger : Type := mk_logger {
  file_ : bytes; file_created_ : tm; level_ : log_level_type; rotation_ : log_rotation_type; ofstream_ : ofstream; io_service_ : list work }.

Abbreviation files := (gmap bytes bytes).

(** Which files may be opened for reading and for appending. *)
Class Permissions : Type := { may_read : bytes -> bool; may_append : bytes -> bool }.

(** ** The standard library *)

Definition two (n : Z) : bytes := if n <? 10 then str "0" ++ to_string n else to_string n.

(** [std::strftime], for the conversions that are used. *)
Fixpoint strftime (format : bytes) (t : tm) : bytes :=
  match format with
  | [] => []
  | c :: format =>
      if c =c "%"%byte then
        match format with
        | [] => []
        | d :: format =>
            (if d =c "Y"%byte then to_string (t.(tm_year) + 1900) else if d =c "m"%byte then two (t.(tm_mon) + 1)
             else if d =c "d"%byte then two t.(tm_mday) else if d =c "H"%byte then two t.(tm_hour)
             else if d =c "M"%byte then two t.(tm_min) else [d]) ++ strftime format t
        end
      else c :: strftime format t
  end.

Section Logger.
Context `{Permissions}.

(** [close] without a file sets [failbit]; [open] appends, to a new file when there
    is none; a failure sets [failbit], success clears it. *)
Definition stream_close (o : ofstream) : ofstream := match o.(o_file) with Some _ => mk_ofstream None o.(o_good) | None => mk_ofstream None false end.
Definition stream_clear (o : ofstream) : ofstream := mk_ofstream o.(o_file) true.
Definition stream_open (o : ofstream) (path : bytes) (fs : files) : ofstream * files :=
  match o.(o_file) with
  | Some _ => (mk_ofstream o.(o_file) false, fs)
  | None =>
      if may_append path then (mk_ofstream (Some path) true, match fs !! path with Some _ => fs | None => <[path := []]> fs end)
      else (mk_ofstream None false, fs)
  end.

(** [ofstream_ << message << std::endl] *)
Definition stream_put (o : ofstream) (message : bytes) (fs : files) : ofstream * files :=
  match o.(o_file), o.(o_good) with
  | Some path, true => (o, <[path := default [] (fs !! path) ++ message ++ [Byte.x0a]]> fs)
  | _, _ => (mk_ofstream o.(o_file) false, fs)
  end.

(** [std::ifstream is(path)] is good. *)
Definition can_open (path : bytes) (fs : files) : bool := match fs !! path with Some _ => may_read path | None => false end.

(** [boost::filesystem::rename]: it replaces the target, and throws when there is
    nothing to rename. *)
Definition rename (from to : bytes) (fs : files) : res files :=
  match fs !! from with
  | Some text => Ok (<[to := text]> (delete from fs))
  | None => Throw (runtime_error (str "boost::filesystem::rename"))
  end.

(** ** The tasks *)

Definition set_stream (l : logger) (o : ofstream) : logger := mk_logger l.(file_) l.(file_created_) l.(level_) l.(rotation_) o l.(io_service_).
Definition post (l : logger) (t : work) : logger := mk_logger l.(file_) l.(file_created_) l.(level_) l.(rotation_) l.(ofstream_) (l.(io_service_) ++ [t]).

(** The lambdas that are posted; [now] is [std::localtime] of [std::time]. *)
Definition run_task (now : tm) (t : work) (l : logger) (fs : files) : res (logger * files) :=
  match t with
  | task_file file =>
      let (o, fs) := stream_open (stream_clear (stream_close l.(ofstream_))) file fs in
      Ok (mk_logger file now l.(level_) l.(rotation_) o l.(io_service_), fs)
  | task_settings level rotation => Ok (mk_logger l.(file_) l.(file_created_) level rotation l.(ofstream_) l.(io_service_), fs)
  | task_message message => let (o, fs) := stream_put l.(ofstream_) message fs in Ok (set_stream l o, fs)
  | task_rotate file_to =>
      if can_open file_to fs then Ok (l, fs)
      else
        let o := stream_close l.(ofstream_) in
        let* fs := rename l.(file_) file_to fs in
        let (o, fs) := stream_open (stream_clear o) l.(file_) fs in
        Ok (mk_logger l.(file_) now l.(level_) l.(rotation_) o l.(io_service_), fs)
  end.

(** One task of [io_service::run]; it waits when there is none.  An exception
    leaves the thread, and the process with it. *)
Definition run_one (now : tm) (l : logger) (fs : files) : res (logger * files) :=
  match l.(io_service_) with
  | [] => Ok (l, fs)
  | t :: ts => run_task now t (mk_logger l.(file_) l.(file_created_) l.(level_) l.(rotation_) l.(ofstream_) ts) fs
  end.

(** ** The operations *)

(** The constructor. *)
Definition new_logger (now : tm) : logger := mk_logger [] now debug every_minute (mk_ofstream None true) [].

Definition logger_file (l : logger) (file : bytes) : logger := post l (task_file file).

Definition level_of (s : bytes) : option log_level_type :=
  if s =s str "debug" then Some debug else if s =s str "info" then Some info else if s =s str "warn" then Some warn
  else if s =s str "error" then Some error else None.
Definition rotation_of (s : bytes) : option log_rotation_type :=
  if s =s str "every_minute" then Some every_minute else if s =s str "hourly" then Some hourly else if s =s str "daily" then Some daily else None.

(** [logger::init]; the arguments are [cfg->log_level()] and [cfg->log_rotation()]. *)
Definition logger_init (l : logger) (log_level log_rotation : bytes) : bool * logger :=
  match level_of log_level with
  | None => (false, l)
  | Some level =>
      match rotation_of log_rotation with
      | None => (false, l)
      | Some rotation => (true, post l (task_settings level rotation))
      end
  end.

(** The name under which [rotate] keeps a file, when it is time. *)
Definition dated (r : log_rotation_type) (t : tm) : bytes :=
  match r with
  | every_minute => strftime (str ".%Y-%m-%d_%H%M") t
  | hourly => strftime (str ".%Y-%m-%d_%H") t
  | daily => strftime (str ".%Y-%m-%d") t
  end.
Definition is_due (r : log_rotation_type) (t created : tm) : bool :=
  match r with
  | every_minute => negb (t.(tm_min) =? created.(tm_min))
  | hourly => negb (t.(tm_hour) =? created.(tm_hour))
  | daily => negb (t.(tm_mday) =? created.(tm_mday))
  end.

Definition rotate (l : logger) (t : tm) : logger :=
  if is_due l.(rotation_) t l.(file_created_) then post l (task_rotate (l.(file_) ++ dated l.(rotation_) l.(file_created_))) else l.

Definition write (l : logger) (t : tm) (message : bytes) : logger := post (rotate l t) (task_message message).

Definition level_text (level : log_level_type) : bytes :=
  match level with debug => str "DEBUG," | info => str "INFO," | warn => str "WARN," | error => str "ERROR," | fatal => str "FATAL," end.

(** A [log] object from its constructor to its destructor: the text of its time,
    the texts put into it. *)
Definition log_line (l : logger) (level : log_level_type) (t : tm) (time : bytes) (texts : list bytes) : logger :=
  if level_value level <? level_value l.(level_) then l else write l t (time ++ level_text level ++ concat texts).

(** The destructor: [run] returns when the queue is empty, then the file is closed. *)
Fixpoint join (fuel : nat) (now : nat -> tm) (l : logger) (fs : files) : res (logger * files) :=
  match l.(io_service_), fuel with
  | [], _ => Ok (l, fs)
  | _, O => UB no_fuel
  | _, S fuel => let* (l, fs) := run_one (now fuel) l fs in join fuel now l fs
  end.
Definition destroy_logger (now : nat -> tm) (l : logger) (fs : files) : res files :=
  let* (l, fs) := join (length l.(io_service_)) now l fs in Ok fs.

(** ** Runs *)

(** What the program and the thread do, in order. *)
Inductive log_event : Type :=
  | ev_init (log_level log_rotation : bytes)
  | ev_log (level : log_level_type) (t : tm) (time : bytes) (texts : list bytes)
  | ev_task (now : tm).

Definition log_step (e : log_event) (p : logger * files) : res (logger * files) :=
  match e with
  | ev_init level rotation => Ok ((logger_init p.1 level rotation).2, p.2)
  | ev_log level t time texts => Ok (log_line p.1 level t time texts, p.2)
  | ev_task now => run_one now p.1 p.2
  end.

Fixpoint log_run (es : list log_event) (p : logger * files) : res (logger * files) :=
  match es with
  | [] => Ok p
  | e :: es => let* p := log_step e p in log_run es p
  end.

(** The program: it names the file, does what it does, and ends. *)
Definition logging (start : tm) (file : bytes) (es : list log_event) (now : nat -> tm) (fs : files) : res files :=
  let* (l, fs) := log_run es (logger_file (new_logger start) file, fs) in destroy_logger now l fs.
End Logger.

(** ** What is logged *)

Definition contents (fs : files) (path : bytes) : bytes := default [] (fs !! path).
Definition ended (lines : list bytes) : bytes := concat (map (fun m => m ++ [Byte.x0a]) lines).

Section Lines.
Context `{Permissions}.

Definition line_of (l : logger) (e : log_event) : list bytes :=
  match e with
  | ev_log level t time texts => if level_value level <? level_value l.(level_) then [] else [time ++ level_text level ++ concat texts]
  | _ => []
  end.

(** The lines that pass the level of the moment. *)
Fixpoint lines (es : list log_event) (p : logger * files) : list bytes :=
  match es with
  | [] => []
  | e :: es => line_of p.1 e ++ match log_step e p with Ok p => lines es p | _ => [] end
  end.

Definition message_of (t : work) : list bytes := match t with task_message m => [m] | _ => [] end.
Definition messages (q : list work) : list bytes := concat (map message_of q).

Variable file : bytes.
Variable fs0 : files.
Hypothesis Hread : forall p, may_read p = true.
Hypothesis Happend : may_append file = true.
Hypothesis Hname : forall r t, dated r t <> file.

(** The names that rotated files get; before the file is open, [file_] is empty. *)
Definition archive_name (a : bytes) : Prop := exists r t, a = file ++ dated r t \/ a = dated r t.

(** The work that the program posts after the name of the file. *)
Definition posted (t : work) : Prop :=
  match t with task_file _ => False | task_rotate to => to <> file /\ archive_name to | _ => True end.

Definition opened (l : logger) (fs : files) : Prop :=
  l.(file_) = file /\ l.(ofstream_) = mk_ofstream (Some file) true /\ is_Some (fs !! file).

(** The files [archives], oldest first, and the current one hold what the file had
    and the lines [done], in order; the others are as they were. *)
Record kept (fs : files) (archives done : list bytes) : Prop := {
  k_nodup : NoDup archives;
  k_new : Forall (fun a => (a <> file /\ archive_name a) /\ fs0 !! a = None /\ is_Some (fs !! a)) archives;
  k_text : concat (map (contents fs) archives) ++ contents fs file = contents fs0 file ++ ended done;
  k_frame : forall p, p <> file -> p ∉ archives -> fs !! p = fs0 !! p }.

Lemma dated_nonempty r t : dated r t <> [].
Proof using. by destruct r. Qed.

Lemma map_contents fs fs' archives : (forall a, a ∈ archives -> fs' !! a = fs !! a) -> map (contents fs') archives = map (contents fs) archives.
Proof using.
  intros Hsame. induction archives as [|a archives IH]; [done|]. cbn [map]. unfold contents at 1 3. rewrite Hsame by apply list_elem_of_here.
  f_equal. apply IH. intros b Hb. apply Hsame. by apply list_elem_of_further.
Qed.

Lemma ended_snoc done m : ended (done ++ [m]) = ended done ++ m ++ [Byte.x0a].
Proof using. unfold ended. rewrite map_app, concat_app. cbn [map concat]. by rewrite app_nil_r. Qed.

(** Appending to the current file. *)
Lemma kept_put fs archives done m : kept fs archives done -> kept (<[file := contents fs file ++ m ++ [Byte.x0a]]> fs) archives (done ++ [m]).
Proof using.
  intros [Hnd Hnew Htext Hframe]. constructor; [done| | |].
  - eapply Forall_impl; [exact Hnew|]. intros a ([Ha Hn] & Hf & Hs). by rewrite lookup_insert_ne.
  - rewrite (map_contents fs).
    + unfold contents at 2. rewrite lookup_insert_eq. cbn [default]. rewrite ended_snoc, (app_assoc (contents fs0 file)), <- Htext. by rewrite <- app_assoc.
    + intros a Ha. rewrite Forall_forall in Hnew. destruct (Hnew a Ha) as [[] _]. by rewrite lookup_insert_ne.
  - intros p Hp Hpa. rewrite lookup_insert_ne by done. by apply Hframe.
Qed.

(** Keeping the current file under a new name. *)
Lemma kept_rotate fs archives done to text : kept fs archives done -> fs !! file = Some text -> fs !! to = None -> to <> file /\ archive_name to ->
  kept (<[file := []]> (<[to := text]> (delete file fs))) (archives ++ [to]) done.
Proof using.
  intros [Hnd Hnew Htext Hframe] Hfile Hto [Hne Hname']. assert (to ∉ archives) as Hfresh.
  { intros Hin. rewrite Forall_forall in Hnew. destruct (Hnew to Hin) as (_ & _ & Hs). rewrite Hto in Hs. by destruct Hs. }
  assert (forall a, a <> file -> a <> to -> <[file := []]> (<[to := text]> (delete file fs)) !! a = fs !! a) as Hsame.
  { intros a Ha Ht. by rewrite !lookup_insert_ne, lookup_delete_ne. }
  constructor.
  - apply NoDup_app. split_and!; [done| |apply NoDup_singleton]. intros a Ha E%list_elem_of_singleton. by subst a.
  - apply Forall_app. split.
    + rewrite Forall_forall in Hnew |- *. intros a Ha. destruct (Hnew a Ha) as ([Ha1 Hn] & Ha2 & Ha3). split; [done|]. split; [done|]. rewrite Hsame; [done|done|congruence].
    + constructor; [|constructor]. split; [done|]. split.
      * rewrite <- (Hframe to Hne Hfresh). done.
      * rewrite lookup_insert_ne, lookup_insert_eq by done. by eexists.
  - rewrite map_app, concat_app. rewrite (map_contents fs).
    + cbn [map concat]. unfold contents at 2 3. rewrite lookup_insert_eq, lookup_insert_ne, lookup_insert_eq by done. cbn [default].
      rewrite !app_nil_r. rewrite <- Htext. unfold contents at 3. by rewrite Hfile.
    + intros a Ha. rewrite Forall_forall in Hnew. destruct (Hnew a Ha) as [[] _]. apply Hsame; [done|congruence].
  - intros p Hp Hpa. rewrite not_elem_of_app, list_elem_of_singleton in Hpa. rewrite Hsame by tauto. apply Hframe; tauto.
Qed.

(** ** Steps *)

(** Everything so far is in the files or waits in the queue. *)
Definition logs (sent : list bytes) (l : logger) (fs : files) : Prop :=
  (exists q, l.(io_service_) = task_file file :: q /\ Forall posted q /\ l.(file_) = [] /\ l.(ofstream_).(o_file) = None /\ fs = fs0 /\ sent = messages q) \/
  (opened l fs /\ Forall posted l.(io_service_) /\ exists archives done, kept fs archives done /\ sent = done ++ messages l.(io_service_)).

Lemma messages_snoc q t : messages (q ++ [t]) = messages q ++ message_of t.
Proof using. unfold messages. rewrite map_app, concat_app. cbn [map concat]. by rewrite app_nil_r. Qed.

Lemma logs_post sent l fs t : logs sent l fs -> posted t -> logs (sent ++ message_of t) (post l t) fs.
Proof using.
  intros [(q & E & Hq & Ef & Eo & -> & ->)|(Ho & Hall & archives & done & Hk & ->)] Ht.
  - left. exists (q ++ [t]). cbn [post io_service_]. rewrite E, messages_snoc. split_and!; try done. apply Forall_app. split; [done|by constructor].
  - right. split; [exact Ho|]. split; [apply Forall_app; split; [done|by constructor]|]. exists archives, done. cbn [post io_service_]. by rewrite messages_snoc, app_assoc.
Qed.

Lemma logs_file sent l fs : logs sent l fs -> l.(file_) = [] \/ l.(file_) = file.
Proof using. intros [(q & _ & _ & E & _)|((E & _) & _)]; [by left|by right]. Qed.

Lemma logs_write sent l fs t m : logs sent l fs -> logs (sent ++ [m]) (write l t m) fs.
Proof using Hname.
  intros Hl. unfold write, rotate. destruct (is_due _ _ _); [|by apply (logs_post sent l fs (task_message m))].
  apply (logs_post sent _ fs (task_message m)); [|done]. rewrite <- (app_nil_r sent). eapply (logs_post sent l fs (task_rotate _)); [done|].
  destruct (logs_file _ _ _ Hl) as [E|E]; rewrite E; cbn [app posted]; (split; [|eexists _, _; by auto]); [apply Hname|].
  intros Ebad. apply (dated_nonempty (rotation_ l) (file_created_ l)). apply (app_inv_head file). by rewrite app_nil_r.
Qed.

(** A task keeps every line. *)
Lemma run_task_kept now t l fs archives done : opened l fs -> posted t -> kept fs archives done ->
  exists l' fs', run_task now t l fs = Ok (l', fs') /\ opened l' fs' /\ l'.(io_service_) = l.(io_service_) /\ exists archives', kept fs' archives' (done ++ message_of t).
Proof using Hread Happend.
  intros (Ef & Eo & text & Etext) Ht Hk. destruct t as [f|level rotation|m|to]; cbn [posted] in Ht; [done| | |]; cbn [run_task message_of]; rewrite ?app_nil_r.
  - eexists _, _. split; [done|]. split; [by split_and!|]. split; [done|]. by exists archives.
  - rewrite Eo. cbn [stream_put o_file o_good]. eexists _, _. split; [done|]. split; [split_and!; [done|done|]|split; [done|]].
    + rewrite lookup_insert_eq. by eexists.
    + exists archives. by apply kept_put.
  - unfold can_open. rewrite Hread. destruct (fs !! to) as [x|] eqn:Eto.
    { eexists _, _. split; [done|]. split; [by split_and!|]. split; [done|]. by exists archives. }
    rewrite Eo, Ef. cbn [stream_close o_file o_good]. unfold rename. rewrite Etext. cbn [mbind res_bind]. unfold stream_open, stream_clear. cbn [o_file]. rewrite Happend.
    assert (<[to:=text]> (delete file fs) !! file = None) as En by (destruct Ht; rewrite lookup_insert_ne by done; apply lookup_delete_eq). rewrite En.
    eexists _, _. split; [done|]. split; [split_and!; [done|done|]|split; [done|]].
    + rewrite lookup_insert_eq. by eexists.
    + exists (archives ++ [to]). by apply kept_rotate.
Qed.

(** Opening the file keeps what it has. *)
Lemma run_file_kept now l : l.(ofstream_).(o_file) = None ->
  exists l' fs', run_task now (task_file file) l fs0 = Ok (l', fs') /\ opened l' fs' /\ l'.(io_service_) = l.(io_service_) /\ kept fs' [] [].
Proof using Happend.
  intros Eo. cbn [run_task]. unfold stream_close, stream_clear, stream_open. rewrite Eo. cbn [o_file]. rewrite Happend.
  eexists _, _. split; [done|]. destruct (fs0 !! file) as [text|] eqn:E.
  - split; [split_and!; [done|done|rewrite E; by eexists]|]. split; [done|]. constructor; [constructor|constructor| |done]. cbn. by rewrite app_nil_r.
  - split; [split_and!; [done|done|rewrite lookup_insert_eq; by eexists]|]. split; [done|]. constructor; [constructor|constructor| |].
    + cbn [map concat app ended]. unfold contents. by rewrite lookup_insert_eq, E.
    + intros p Hp _. by rewrite lookup_insert_ne.
Qed.

Lemma logs_run_one now sent l fs : logs sent l fs -> exists l' fs', run_one now l fs = Ok (l', fs') /\ logs sent l' fs' /\ l'.(io_service_) = tail l.(io_service_).
Proof using Hread Happend.
  unfold run_one. intros [(q & E & Hq & Ef & Eo & -> & ->)|(Ho & Hall & archives & done & Hk & ->)].
  - rewrite E. destruct (run_file_kept now (mk_logger (file_ l) (file_created_ l) (level_ l) (rotation_ l) (ofstream_ l) q) Eo) as (l' & fs' & -> & Ho & Eq & Hk).
    cbn in Eq. exists l', fs'. split; [done|]. split; [|done]. right. rewrite Eq. split; [done|]. split; [done|]. by exists [], [].
  - destruct (io_service_ l) as [|t q] eqn:E.
    { exists l, fs. split; [done|]. split; [|done]. right. rewrite E. split; [done|]. split; [done|]. by exists archives, done. }
    apply Forall_cons_iff in Hall as [Ht Hall].
    destruct (run_task_kept now t (mk_logger (file_ l) (file_created_ l) (level_ l) (rotation_ l) (ofstream_ l) q) fs archives done Ho Ht Hk) as (l' & fs' & -> & Ho' & Eq & archives' & Hk').
    cbn in Eq. exists l', fs'. split; [done|]. split; [|done]. right. rewrite Eq. split; [done|]. split; [done|].
    exists archives', (done ++ message_of t). split; [done|]. unfold messages. cbn [map concat]. by rewrite app_assoc.
Qed.

Lemma logs_run es : forall sent l fs, logs sent l fs -> exists l' fs', log_run es (l, fs) = Ok (l', fs') /\ logs (sent ++ lines es (l, fs)) l' fs'.
Proof using Hread Happend Hname.
  induction es as [|e es IH]; intros sent l fs Hl; cbn [log_run lines]; [exists l, fs; by rewrite app_nil_r|].
  assert (exists l' fs', log_step e (l, fs) = Ok (l', fs') /\ logs (sent ++ line_of l e) l' fs') as (l' & fs' & E & Hl').
  { destruct e as [level rotation|level t time texts|now]; cbn [log_step line_of fst snd].
    - exists (logger_init l level rotation).2, fs. split; [done|]. unfold logger_init.
      destruct (level_of level) as [lv|]; [destruct (rotation_of rotation) as [r|]|]; rewrite ?app_nil_r; try done.
      rewrite <- (app_nil_r sent). by apply (logs_post sent l fs (task_settings lv r)).
    - exists (log_line l level t time texts), fs. split; [done|]. unfold log_line. destruct (_ <? _); [by rewrite app_nil_r|by apply logs_write].
    - rewrite app_nil_r. destruct (logs_run_one now sent l fs Hl) as (l' & fs' & E & Hl' & _). by exists l', fs'. }
  cbn [fst]. rewrite E. cbn [mbind res_bind]. destruct (IH _ _ _ Hl') as (l2 & fs2 & E2 & Hl2). exists l2, fs2. split; [done|]. by rewrite <- app_assoc in Hl2.
Qed.

Lemma logs_join fuel now : forall sent l fs, logs sent l fs -> (length l.(io_service_) <= fuel)%nat ->
  exists l' fs', join fuel now l fs = Ok (l', fs') /\ logs sent l' fs' /\ l'.(io_service_) = [].
Proof using Hread Happend.
  induction fuel as [|fuel IH]; intros sent l fs Hl Hle; cbn [join].
  - destruct (io_service_ l) eqn:E; [|cbn in Hle; lia]. by exists l, fs.
  - destruct (io_service_ l) as [|t q] eqn:E; [by exists l, fs|].
    destruct (logs_run_one (now fuel) sent l fs Hl) as (l' & fs' & -> & Hl' & Eq). cbn [mbind res_bind]. apply IH; [done|]. rewrite Eq, E. cbn in Hle |- *. lia.
Qed.
End Lines.

(** The whole run keeps what it was sent. *)
Lemma logging_logs `{Permissions} start file es now fs : (forall p, may_read p = true) -> may_append file = true -> (forall r t, dated r t <> file) ->
  exists l fs', logging start file es now fs = Ok fs' /\ l.(io_service_) = [] /\ logs file fs (lines es (logger_file (new_logger start) file, fs)) l fs' /\
    exists p, log_run es (logger_file (new_logger start) file, fs) = Ok p.
Proof.
  intros Hread Happend Hname. unfold logging. set (l := logger_file _ _). assert (logs file fs [] l fs) as Hl by (left; exists []; by split_and!).
  destruct (logs_run file fs Hread Happend Hname es _ _ _ Hl) as (l1 & fs1 & E1 & Hl1). unfold destroy_logger.
  destruct (logs_join file fs Hread Happend _ now _ _ _ Hl1 (le_n _)) as (l2 & fs2 & E2 & Hl2 & Eq). exists l2, fs2. rewrite E1. cbn [mbind res_bind]. rewrite E2.
  split_and!; [done|done|exact Hl2|by eexists].
Qed.


(** A fatal line passes every level. *)
Lemma fatal_line `{Permissions} t time texts es : forall p p', ev_log fatal t time texts ∈ es -> log_run es p = Ok p' ->
  (time ++ level_text fatal ++ concat texts) ∈ lines es p.
Proof.
  induction es as [|e es IH]; intros p p' Hin; [by apply elem_of_nil in Hin|]. cbn [log_run lines]. destruct (log_step e p) as [p1| |]; cbn [mbind res_bind]; [|done..].
  intros Hrun. apply elem_of_app. apply elem_of_cons in Hin as [<-|Hin]; [left|right; by eapply IH].
  cbn [line_of]. assert ((level_value fatal <? level_value (level_ p.1)) = false) as -> by by destruct (level_ p.1). by left.
Qed.

(** Its text is on the disk at the end. *)
Lemma fatal_kept `{Permissions} start file es now fs t time texts :
  (forall p, may_read p = true) -> may_append file = true -> (forall r t, dated r t <> file) -> ev_log fatal t time texts ∈ es ->
  exists fs' archives before after, logging start file es now fs = Ok fs' /\
    concat (map (contents fs') archives) ++ contents fs' file = before ++ (time ++ str "FATAL," ++ concat texts ++ [Byte.x0a]) ++ after.
Proof.
  intros Hread Happend Hname Hin. destruct (logging_logs start file es now fs Hread Happend Hname) as (l2 & fs2 & E & Eq & Hl2 & p & Hrun).
  pose proof (fatal_line t time texts es _ _ Hin Hrun) as Hline. apply list_elem_of_split in Hline as (k1 & k2 & Ek).
  destruct Hl2 as [(q & E2 & _)|(_ & _ & archives & done & [_ _ Htext _] & Hsent)]; [by rewrite Eq in E2|].
  rewrite Eq in Hsent. cbn in Hsent. rewrite app_nil_r in Hsent. exists fs2, archives, (contents fs file ++ ended k1), (ended k2). split; [done|].
  rewrite Htext, <- Hsent, Ek. unfold ended. rewrite map_app, concat_app. cbn [map concat level_text]. by rewrite <- !app_assoc.
Qed.

(** A dated name on its own is a dot and a year. *)
Lemma dated_log_file r t rest : dated r t <> str "../" ++ rest.
Proof.
  assert (forall x, str "." ++ to_string (tm_year t + 1900) ++ x <> str "../" ++ rest) as Hyear.
  { intros x E. injection E as E. destruct (Z.ltb_spec (tm_year t + 1900) 0) as [Hneg|Hpos].
    - unfold to_string in E. apply Z.ltb_lt in Hneg. rewrite Hneg in E. discriminate E.
    - destruct (to_string_decimal _ Hpos) as [Hd (c & ds & Eds & _) _]. rewrite Eds in E, Hd. injection E as -> _.
      apply Forall_cons_iff in Hd as [Hd _]. discriminate Hd. }
  destruct r; apply Hyear.
Qed.

Section Witness.

#[local] Instance all_permitted : Permissions := {| may_read _ := true; may_append _ := true |}.

Definition at_minute (m : Z) : tm := mk_tm 124 0 15 10 m.
Definition log_path : bytes := str "../log/develop.csv".

(** Two threads notice the new minute before the rotation is done. *)
Definition sample_events : list log_event :=
  [ev_log debug (at_minute 5) (str "10:05,") [str "early"]; ev_task (at_minute 5); ev_init (str "info") (str "every_minute"); ev_task (at_minute 5);
   ev_task (at_minute 5); ev_log debug (at_minute 5) (str "10:05,") [str "quiet"]; ev_log info (at_minute 6) (str "10:06,") [str "on"; str "e"];
   ev_log warn (at_minute 6) (str "10:06,") [str "two"]; ev_task (at_minute 6); ev_task (at_minute 6); ev_task (at_minute 6)].


(** The rotated file has the lines of its minute. *)
Example sample_files : match logging (at_minute 5) log_path sample_events (fun _ => at_minute 6) {[ log_path := str "before" ++ [Byte.x0a] ]} with
  | Ok fs => contents fs (log_path ++ str ".2024-01-15_1005") = str "before" ++ [Byte.x0a] ++ ended [str "10:05,DEBUG,early"] /\
      contents fs log_path = ended [str "10:06,INFO,one"; str "10:06,WARN,two"]
  | _ => False
  end.
Proof. by vm_compute. Qed.
End Witness.

(** ** Rotation that stops *)

Section Stops.
Context `{Permissions}.

(** The name for the current file is taken: no rotation does anything, so the
    minute of the file never changes, so the name stays taken. *)
Definition taken (to : bytes) (l : logger) (fs : files) : Prop :=
  l.(file_) ++ dated l.(rotation_) l.(file_created_) = to /\ (exists f, l.(ofstream_) = mk_ofstream (Some f) true /\ to <> f) /\
  can_open to fs = true /\ Forall (fun t => match t with task_message _ => True | task_rotate to' => to' = to | _ => False end) l.(io_service_).

Lemma taken_step to e l fs : taken to l fs -> (forall level rotation, e <> ev_init level rotation) ->
  exists l' fs', log_step e (l, fs) = Ok (l', fs') /\ taken to l' fs' /\ file_created_ l' = file_created_ l /\ ofstream_ l' = ofstream_ l /\
    (forall p, Some p <> (ofstream_ l).(o_file) -> fs' !! p = fs !! p).
Proof using.
  intros (En & (f & Eo & Hne) & Hc & Hall) He. destruct e as [level rotation|level t time texts|now]; [by destruct (He level rotation)| |]; cbn [log_step fst snd].
  - eexists _, fs. split; [reflexivity|]. unfold log_line, write, rotate. destruct (_ <? _); [by split_and!; [split_and!; [|exists f| |]|..]|].
    destruct (is_due _ _ _); (split; [|done]); (split; [done|]); (split; [by exists f|]); (split; [done|]); cbn [post io_service_];
      repeat (apply Forall_app; split); try done; repeat constructor; done.
  - unfold run_one. destruct (io_service_ l) as [|t q] eqn:Eq.
    { exists l, fs. split; [done|]. split; [|done]. split; [done|]. split; [by exists f|]. split; [done|]. by rewrite Eq. }
    apply Forall_cons_iff in Hall as [Ht Hall]. destruct t as [f'|level rotation|m|to']; [done|done| |]; cbn [run_task ofstream_].
    + rewrite Eo. cbn [stream_put o_file o_good]. eexists _, _. split; [done|]. split; [|split_and!; [done|done|intros p Hp; apply lookup_insert_ne; intros ->; by apply Hp]].
      split; [done|]. split; [by exists f|]. split; [|done]. unfold can_open in *. by rewrite lookup_insert_ne.
    + subst to'. rewrite Hc. eexists _, _. split; [done|]. split; [|done]. split; [done|]. split; [by exists f|]. done.
Qed.

(** Once the name is taken, nothing is rotated any more, whatever the time. *)
Theorem rotation_stops to es : forall l fs, taken to l fs -> Forall (fun e => forall level rotation, e <> ev_init level rotation) es ->
  exists l' fs', log_run es (l, fs) = Ok (l', fs') /\ taken to l' fs' /\ file_created_ l' = file_created_ l /\ (forall p, Some p <> (ofstream_ l).(o_file) -> fs' !! p = fs !! p).
Proof using.
  induction es as [|e es IH]; intros l fs Ht Hes; cbn [log_run]; [by exists l, fs|]. apply Forall_cons_iff in Hes as [He Hes].
  destruct (taken_step to e l fs Ht He) as (l1 & fs1 & -> & Ht1 & E1 & E2 & Hf1). cbn [mbind res_bind].
  destruct (IH l1 fs1 Ht1 Hes) as (l2 & fs2 & -> & Ht2 & E3 & Hf2). exists l2, fs2. split; [done|]. split; [done|]. split; [congruence|].
  intros p Hp. rewrite Hf2, Hf1; [done|done|congruence].
Qed.
End Stops.

(** A line of 10:05 that is written after the rotation of 10:06 rotates again, to
    the name of 10:06; the file that is then begun at 10:06 can never be rotated. *)
Section Late.

#[local] Instance permitted : Permissions := {| may_read _ := true; may_append _ := true |}.

Definition late_events : list log_event :=
  [ev_task (at_minute 5); ev_log info (at_minute 6) [] [str "a"]; ev_task (at_minute 6); ev_task (at_minute 6);
   ev_log info (at_minute 5) [] [str "late"]; ev_task (at_minute 6); ev_task (at_minute 6)].

Example late_line_stops_rotation :
  match log_run late_events (logger_file (new_logger (at_minute 5)) log_path, ∅) with
  | Ok (l, fs) => taken (log_path ++ str ".2024-01-15_1006") l fs
  | _ => False
  end.
Proof. vm_compute log_run. split; [done|]. split; [exists log_path; by split|]. by split. Qed.
End Late.
