(* ===== verification/Tools.v ===== *)
(** * [src/src/performance_checker.cpp], [src/src/url_conn.cpp]: the tools.

    A checker measures the time between its constructor and its destructor, and
    logs when it is above its limit.  A URL connection is a handle of libcurl, which
    is outside: given the options of the handle, what a transfer passes to
    [curl_easy_write] and how it ends. *)
From S2P Require Import Prelude CxxString Logger.

(** ** [performance_checker] *)

(** [system_clock] counts nanoseconds. *)
Record performance_checker : Type := mk_checker { limit_ms : Z; checked_file : bytes; checked_line : Z; checked_start : Z }.

Definition new_performance_checker (limit_ms_ : Z) (file_ : bytes) (line_ now : Z) : performance_checker := mk_checker limit_ms_ file_ line_ now.

(** [duration_cast<milliseconds>] *)
Definition elapsed_ms (start now : Z) : Z := Z.quot (now - start) 1000000.

(** The destructor, at the time [now]; [t] and [time] are those of the line. *)
Definition destroy_performance_checker (c : performance_checker) (now : Z) (l : logger) (t : tm) (time : bytes) : logger :=
  let diff_ms := elapsed_ms c.(checked_start) now in
  if c.(limit_ms) <? diff_ms then
    log_line l warn t time [str "performance_checker: "; to_string diff_ms; str " ms,"; c.(checked_file); str ":"; to_string c.(checked_line)]
  else l.

(** A limit of whole milliseconds is exceeded by the next one, not before. *)
Lemma checker_limit limit file line start now l t time : start <= now -> 0 <= limit -> now < start + (limit + 1) * 1000000 ->
  destroy_performance_checker (new_performance_checker limit file line start) now l t time = l.
Proof.
  intros Hs Hl Hn. unfold destroy_performance_checker, elapsed_ms. cbn [limit_ms checked_start new_performance_checker].
  rewrite Z.quot_div_nonneg by lia. assert ((now - start) / 1000000 < limit + 1) by (apply Z.div_lt_upper_bound; lia).
  destruct (Z.ltb_spec limit ((now - start) / 1000000)); [lia|done].
Qed.

(** ** [url_conn] *)

(** The options that [query] sets. *)
Inductive curl_option : Type :=
  | CURLOPT_URL (url : bytes) | CURLOPT_SSL_VERIFYPEER (verify : Z) | CURLOPT_WRITEFUNCTION | CURLOPT_WRITEDATA.

Definition CURLE_OK : Z := 0.

(** [curl_easy_perform]: the pieces given to the write function, and the code. *)
Class Curl : Type := { curl_easy_init : bool; curl_easy_perform : list curl_option -> list bytes * Z }.

Record url_conn : Type := mk_url_conn { curl : option (list curl_option); url_ : bytes; content_ : bytes }.

Section UrlConn.
Context `{Curl}.

Definition curl_easy_write (userdata ptr : bytes) : bytes := userdata ++ ptr.

Definition new_url_conn (url : bytes) : url_conn := mk_url_conn (if curl_easy_init then Some [] else None) url [].

Definition url_conn_query (u : url_conn) : bool * url_conn :=
  match u.(curl) with
  | None => (false, u)
  | Some options =>
      let options := options ++ [CURLOPT_URL (c_str u.(url_))] in
      let options := (if take 5 u.(url_) =s str "https" then options ++ [CURLOPT_SSL_VERIFYPEER 0] else options) in
      let options := options ++ [CURLOPT_WRITEFUNCTION; CURLOPT_WRITEDATA] in
      let '(pieces, code) := curl_easy_perform options in
      (code =? CURLE_OK, mk_url_conn (Some options) u.(url_) (foldl curl_easy_write u.(content_) pieces))
  end.

Lemma write_all pieces : forall content, foldl curl_easy_write content pieces = content ++ concat pieces.
Proof using. induction pieces as [|p pieces IH]; intros content; cbn [foldl concat]; [by rewrite app_nil_r|]. rewrite IH. unfold curl_easy_write. by rewrite app_assoc. Qed.

(** The content grows by what arrived, from one query to the next, whether it ended
    well or not. *)
Lemma query_content u options : u.(curl) = Some options -> exists pieces, (url_conn_query u).2.(content_) = u.(content_) ++ concat pieces.
Proof using. intros E. unfold url_conn_query. rewrite E. destruct (curl_easy_perform _) as [pieces code]. exists pieces. apply write_all. Qed.
End UrlConn.
