(* ===== verification/Pool.v ===== *)
(** * [src/src/spinlock.hpp], [src/src/dbconn_pool.cpp], [src/src/redis_pool.cpp]:
    pools of connections shared by threads.

    The two pools have the same code over different connections, so the model is
    generic in the handle a connection wraps.  Threads interleave at the accesses
    to what they share: the lock, the vector, the connections.  The connections
    are objects in a heap; using a deleted one, deleting one twice, and touching
    the vector while another thread may are undefined behaviour. *)
From S2P Require Import Prelude CxxString CxxTime Config.

(** ** Configuration *)

(** The settings of a [dbconn_pool]. *)
Record dbconn_pool : Type := mk_dbconn_pool {
  db_host : bytes; db_userid : bytes; db_passwd : bytes; db_database : bytes; db_port : Z; db_charset : bytes;
  db_pool_size : Z; wait_timeout_sec : double }.

(** The settings of a [redis_pool]. *)
Record redis_pool : Type := mk_redis_pool { rd_host : bytes; rd_port : Z; rd_pool_size : Z; timeout_sec : double }.

Definition new_dbconn_pool : dbconn_pool := mk_dbconn_pool [] [] [] [] 0 [] 0 (double_of_Z 0).
Definition new_redis_pool : redis_pool := mk_redis_pool [] 0 0 (double_of_Z 0).

(** The loop over the keys: the pool with the settings found before a missing key,
    and whether all were there. *)
Fixpoint for_settings {P} (set : P -> bytes -> bytes -> P) (cfg : section) (keys : list bytes) (p : P) : P * bool :=
  match keys with
  | [] => (p, true)
  | key :: keys => match cfg !! key with None => (p, false) | Some v => for_settings set cfg keys (set p key v) end
  end.

Definition db_keys : list bytes :=
  [str "host"; str "userid"; str "passwd"; str "database"; str "port"; str "charset"; str "pool_size"; str "wait_timeout_sec"].

(** [port] is an [unsigned int]. *)
Definition set_db (p : dbconn_pool) (key v : bytes) : dbconn_pool :=
  let '(mk_dbconn_pool h u pw d po ch n w) := p in
  if key =s str "host" then mk_dbconn_pool v u pw d po ch n w
  else if key =s str "userid" then mk_dbconn_pool h v pw d po ch n w
  else if key =s str "passwd" then mk_dbconn_pool h u v d po ch n w
  else if key =s str "database" then mk_dbconn_pool h u pw v po ch n w
  else if key =s str "port" then mk_dbconn_pool h u pw d (uwrap32 (strtoul (c_str v))) ch n w
  else if key =s str "charset" then mk_dbconn_pool h u pw d po v n w
  else if key =s str "pool_size" then mk_dbconn_pool h u pw d po ch (strtoul (c_str v)) w
  else if key =s str "wait_timeout_sec" then mk_dbconn_pool h u pw d po ch n (strtod (c_str v))
  else p.

Definition rd_keys : list bytes := [str "host"; str "port"; str "pool_size"; str "timeout_sec"].

Definition set_rd (p : redis_pool) (key v : bytes) : redis_pool :=
  let '(mk_redis_pool h po n t) := p in
  if key =s str "host" then mk_redis_pool v po n t
  else if key =s str "port" then mk_redis_pool h (uwrap32 (strtoul (c_str v))) n t
  else if key =s str "pool_size" then mk_redis_pool h po (strtoul (c_str v)) t
  else if key =s str "timeout_sec" then mk_redis_pool h po n (strtod (c_str v))
  else p.

(** [dbconn_pool::init_pool], [redis_pool::init_pool] *)
Definition init_dbconn_pool (p : dbconn_pool) (cfg : section) : dbconn_pool * bool := for_settings set_db cfg db_keys p.
Definition init_redis_pool (p : redis_pool) (cfg : section) : redis_pool * bool := for_settings set_rd cfg rd_keys p.

(** ** Connections *)

(** [mysqlpp::connection], [redis3m::connection]: the handle of the library, when
    it was released last, whether it belongs to a pool.  [released] is a broken-down
    time that goes back to the [time_t] it came from. *)
Record connection (H : Type) : Type := mk_connection { handle : H; released : Z; is_pooled : bool }.
Arguments mk_connection {H}.
Arguments handle {H}.
Arguments released {H}.
Arguments is_pooled {H}.

(** [ping()] or [is_valid()]; a server may have to be asked. *)
Class Handle (H : Type) : Type := usable : H -> bool -> bool.

(** What the outside answers a thread: the time, the server, the attempt to connect. *)
Record answer (H : Type) : Type := mk_answer { now : Z; ponged : bool; opened : exn + H }.
Arguments mk_answer {H}.
Arguments now {H}.
Arguments ponged {H}.
Arguments opened {H}.

(** The handle of the MySQL client library is opaque; [mysqlpp::connection::ping]
    is [mysql_ping(mysql_) == 0]. *)
Inductive MYSQL : Type := mysql_handle (id : nat).

#[export] Instance mysql_pings : Handle MYSQL := fun _ pong => pong.

(** ** Threads *)

(** The next access of a thread to what is shared, in [get_dbconn] and
    [release_dbconn]; between them it holds a connection. *)
Inductive pc : Type :=
  | pc_idle
  | pc_get_lock | pc_get_pool | pc_get_unlock (c : option nat) | pc_connect (pooled_ : bool) | pc_check (c : nat)
  | pc_hold (c : nat)
  | pc_rel_lock (c : nat) | pc_rel_pool (c : nat) | pc_rel_unlock.

(** Whether the thread is about to touch the vector. *)
Definition touches (p : pc) : bool := match p with pc_get_pool | pc_rel_pool _ => true | _ => false end.

(** Whether it is in [release_dbconn], or about to call it. *)
Definition releasing (p : pc) : bool := match p with pc_hold _ | pc_rel_lock _ | pc_rel_pool _ | pc_rel_unlock => true | _ => false end.

(** [spinlock::state] *)
Inductive lock_state : Type := unlocked | locked.

Section Pool.
Context {H : Type} `{Handle H}.

(** The lock, the vector, the connections alive, the threads; [thrown] has every
    exception of [connect], with its argument. *)
Record pool_state : Type := mk_pool {
  lock : lock_state; pool : list nat; heap : gmap nat (connection H); fresh : nat; threads : list pc; thrown : list (bool * exn) }.

Definition at_pc (s : pool_state) (t : nat) (p : pc) : pool_state := mk_pool s.(lock) s.(pool) s.(heap) s.(fresh) (<[t := p]> s.(threads)) s.(thrown).
Definition set_lock (s : pool_state) (l : lock_state) : pool_state := mk_pool l s.(pool) s.(heap) s.(fresh) s.(threads) s.(thrown).
Definition set_pool (s : pool_state) (l : list nat) : pool_state := mk_pool s.(lock) l s.(heap) s.(fresh) s.(threads) s.(thrown).
Definition with_heap (s : pool_state) (h : gmap nat (connection H)) : pool_state := mk_pool s.(lock) s.(pool) h s.(fresh) s.(threads) s.(thrown).

Definition conn_at (s : pool_state) (c : nat) : res (connection H) := match s.(heap) !! c with Some x => Ok x | None => UB dangling_pointer end.

(** [delete] *)
Definition delete_conn (s : pool_state) (c : nat) : res pool_state :=
  match s.(heap) !! c with Some _ => Ok (with_heap s (delete c s.(heap))) | None => UB double_free end.

(** [connect(pooled_)] *)
Definition connect (s : pool_state) (pooled_ : bool) (a : answer H) : pool_state * (exn + nat) :=
  match a.(opened) with
  | inl e => (mk_pool s.(lock) s.(pool) s.(heap) s.(fresh) s.(threads) ((pooled_, e) :: s.(thrown)), inl e)
  | inr h => (mk_pool s.(lock) s.(pool) (<[s.(fresh) := mk_connection h a.(now) pooled_]> s.(heap)) (S s.(fresh)) s.(threads) s.(thrown), inr s.(fresh))
  end.

(** Another thread may touch the vector now. *)
Definition races (s : pool_state) (t : nat) : bool := existsb touches (delete t s.(threads)).

(** [spinlock::lock]: the exchange, until it took the lock. *)
Definition spin (s : pool_state) (t : nat) (next : pc) : pool_state :=
  match s.(lock) with locked => s | unlocked => at_pc (set_lock s locked) t next end.

(** [spinlock::unlock] *)
Definition unlock (s : pool_state) (t : nat) (next : pc) : pool_state := at_pc (set_lock s unlocked) t next.

(** [get_dbconn], [get_rdconn]: one access. *)
Definition get_step (timeout : double) (s : pool_state) (t : nat) (p : pc) (a : answer H) : res pool_state :=
  match p with
  | pc_get_lock => Ok (spin s t pc_get_pool)
  | pc_get_pool =>
      if races s t then UB data_race
      else
        match last s.(pool) with
        | None => Ok (at_pc s t (pc_get_unlock None))
        | Some c => Ok (at_pc (set_pool s (removelast s.(pool))) t (pc_get_unlock (Some c)))
        end
  | pc_get_unlock None => Ok (unlock s t (pc_connect false))
  | pc_get_unlock (Some c) => Ok (unlock s t (pc_check c))
  | pc_check c =>
      let* x := conn_at s c in
      let diff := difftime a.(now) x.(released) in
      if double_le timeout diff && negb (usable x.(handle) a.(ponged)) then
        let* s := delete_conn s c in Ok (at_pc s t (pc_connect true))
      else Ok (at_pc s t (pc_hold c))
  | pc_connect pooled_ =>
      let '(s, o) := connect s pooled_ a in
      Ok (at_pc s t (match o with inl _ => pc_idle | inr c => pc_hold c end))
  | _ => Ok s
  end.

(** [release_dbconn], [release_rdconn]: one access. *)
Definition release_step (s : pool_state) (t : nat) (p : pc) (a : answer H) : res pool_state :=
  match p with
  | pc_hold c =>
      let* x := conn_at s c in
      if negb x.(is_pooled) then let* s := delete_conn s c in Ok (at_pc s t pc_idle)
      else Ok (at_pc (with_heap s (<[c := mk_connection x.(handle) a.(now) x.(is_pooled)]> s.(heap))) t (pc_rel_lock c))
  | pc_rel_lock c => Ok (spin s t (pc_rel_pool c))
  | pc_rel_pool c => if races s t then UB data_race else Ok (at_pc (set_pool s (s.(pool) ++ [c])) t pc_rel_unlock)
  | pc_rel_unlock => Ok (unlock s t pc_idle)
  | _ => Ok s
  end.

(** A thread goes on with the answers of the outside, or uses its connection,
    whose handle changes. *)
Inductive pool_event : Type := go (t : nat) (a : answer H) | work (t : nat) (h : H).

Definition pool_step (timeout : double) (e : pool_event) (s : pool_state) : res pool_state :=
  match e with
  | go t a =>
      match s.(threads) !! t with
      | None => Ok s
      | Some pc_idle => Ok (at_pc s t pc_get_lock)
      | Some p => if releasing p then release_step s t p a else get_step timeout s t p a
      end
  | work t h =>
      match s.(threads) !! t with
      | Some (pc_hold c) =>
          let* x := conn_at s c in
          Ok (with_heap s (<[c := mk_connection h x.(released) x.(is_pooled)]> s.(heap)))
      | _ => Ok s
      end
  end.

Fixpoint run_pool (timeout : double) (es : list pool_event) (s : pool_state) : res pool_state :=
  match es with [] => Ok s | e :: es => let* s := pool_step timeout e s in run_pool timeout es s end.

(** ** Filling and destroying *)

Definition new_pool (n : nat) : pool_state := mk_pool unlocked [] ∅ 0 (replicate n pc_idle) [].

(** The loop of [fill_pool]; [i] connections were made, [n] are left. *)
Fixpoint fill_loop (n i : nat) (ans : nat -> answer H) (s : pool_state) : res (bool * pool_state) :=
  match n with
  | O => Ok (true, s)
  | S n =>
      let '(s, o) := connect s true (ans i) in
      match o with
      | inl e => Throw e
      | inr c =>
          let* x := conn_at s c in
          if negb (usable x.(handle) (ans i).(ponged)) then let* s := delete_conn s c in Ok (false, s)
          else fill_loop n (S i) ans (set_pool s (s.(pool) ++ [c]))
      end
  end.

(** [dbconn_pool::fill_pool], [redis_pool::fill_pool] *)
Definition fill_pool (pool_size : Z) (ans : nat -> answer H) (s : pool_state) : res (bool * pool_state) :=
  if pool_size =? 0 then Ok (false, s) else fill_loop (Z.to_nat pool_size) 0 ans s.

(** [~dbconn_pool], [~redis_pool] *)
Definition destroy_pool (s : pool_state) : res pool_state := foldl (fun m c => let* s := m in delete_conn s c) (Ok s) s.(pool).
End Pool.
Arguments pool_state : clear implicits.
Arguments pool_event : clear implicits.

(** ** The invariant *)

(** The connection a thread has; the one it knows to belong to the pool; whether it
    has the lock; whether it is replacing a connection of the pool. *)
Definition held (p : pc) : list nat :=
  match p with pc_get_unlock (Some c) | pc_check c | pc_hold c | pc_rel_lock c | pc_rel_pool c => [c] | _ => [] end.
Definition known (p : pc) : list nat := match p with pc_hold _ => [] | _ => held p end.
Definition critical (p : pc) : bool :=
  match p with pc_get_pool | pc_get_unlock _ | pc_rel_pool _ | pc_rel_unlock => true | _ => false end.
Definition replacing (p : pc) : bool := match p with pc_connect true => true | _ => false end.

Definition count {A} (f : A -> bool) (l : list A) : nat := length (List.filter f l).

Lemma count_perm {A} (f : A -> bool) l k : l ≡ₚ k -> count f l = count f k.
Proof. unfold count. induction 1 as [|x l k _ IH|x y l|l k m _ IH1 _ IH2]; cbn; [done|destruct (f x); cbn; lia|by destruct (f x), (f y)|lia]. Qed.

Lemma count_cons {A} (f : A -> bool) x l : count f (x :: l) = ((if f x then 1 else 0) + count f l)%nat.
Proof. unfold count. cbn. by destruct (f x). Qed.

Lemma delete_list_insert {A} (l : list A) q : forall t, delete t (<[t := q]> l) = delete t l.
Proof. induction l as [|x l IH]; intros [|t]; cbn; [done..|]. f_equal. apply IH. Qed.

Lemma last_removelast {A} (l : list A) c : last l = Some c -> l = removelast l ++ [c].
Proof. intros E. apply last_Some in E as (k & ->). by rewrite removelast_last. Qed.

Section Invariant.
Context {H : Type} `{Handle H}.

Implicit Types (h : gmap nat (connection H)).

Definition in_pool h (c : nat) : Prop := exists x, h !! c = Some x /\ x.(is_pooled) = true.

Definition pooled h : gmap nat (connection H) := filter (fun e => e.2.(is_pooled) = true) h.

(** [n] is the number of connections of the pool at the beginning. *)
Record inv (n : nat) (l : lock_state) (pl : list nat) h (fr : nat) (ths : list pc) (th : list (bool * exn)) : Prop := {
  inv_lock : count critical ths = match l with locked => 1%nat | unlocked => 0%nat end;
  inv_nodup : NoDup (pl ++ concat (map held ths));
  inv_dom : forall c, c ∈ pl ++ concat (map held ths) <-> is_Some (h !! c);
  inv_known : forall c, c ∈ pl ++ concat (map known ths) -> in_pool h c;
  inv_count : (base.size (pooled h) + count replacing ths + count fst th = n)%nat;
  inv_fresh : forall c, is_Some (h !! c) -> (c < fr)%nat }.

#[export] Instance inv_proper n l pl h fr : Proper ((≡ₚ) ==> (=) ==> iff) (inv n l pl h fr).
Proof.
  assert (forall th ths ths', ths ≡ₚ ths' -> inv n l pl h fr ths th -> inv n l pl h fr ths' th) as Hi.
  { intros th ths ths' Hp [A B C D E F].
    assert (forall f : pc -> list nat, concat (map f ths) ≡ₚ concat (map f ths')) as Hc by (intros f; by rewrite Hp).
    rewrite (count_perm critical _ _ Hp) in A. rewrite (count_perm replacing _ _ Hp) in E. rewrite (Hc held) in B. setoid_rewrite (Hc held) in C. setoid_rewrite (Hc known) in D. by constructor. }
  intros ths ths' Hp th ? <-. split; apply Hi; [done | by symmetry].
Qed.

Definition good (n : nat) (s : pool_state H) : Prop := inv n s.(lock) s.(pool) s.(heap) s.(fresh) s.(threads) s.(thrown).

Lemma pooled_insert h c x : h !! c = None ->
  base.size (pooled (<[c := x]> h)) = ((if x.(is_pooled) then 1 else 0) + base.size (pooled h))%nat.
Proof.
  intros Hc. unfold pooled. rewrite map_filter_insert. cbn [snd]. destruct (is_pooled x) eqn:E; cbn [decide].
  - rewrite decide_True by done. rewrite map_size_insert_None; [done|]. apply map_lookup_filter_None. by left.
  - rewrite decide_False by done. by rewrite delete_id.
Qed.

Lemma pooled_delete h c x : h !! c = Some x ->
  base.size (pooled h) = ((if x.(is_pooled) then 1 else 0) + base.size (pooled (delete c h)))%nat.
Proof.
  intros Hc. rewrite <- (insert_delete_id h c x) at 1 by done. apply pooled_insert. apply lookup_delete_eq.
Qed.

Lemma pooled_update h c x x' : h !! c = Some x -> x'.(is_pooled) = x.(is_pooled) -> base.size (pooled (<[c := x']> h)) = base.size (pooled h).
Proof.
  intros Hc Hp. rewrite (pooled_delete h c x Hc), <- insert_delete_eq, pooled_insert by apply lookup_delete_eq. by rewrite Hp.
Qed.

(** *** The steps keep it *)

Lemma threads_split (s : pool_state H) t p q : s.(threads) !! t = Some p ->
  s.(threads) ≡ₚ p :: delete t s.(threads) /\ <[t := q]> s.(threads) ≡ₚ q :: delete t s.(threads).
Proof.
  intros Ht. split; [by apply delete_Permutation|].
  rewrite (delete_Permutation (<[t := q]> (threads s)) t q) by (apply list_lookup_insert_eq; by eapply lookup_lt_Some).
  by rewrite delete_list_insert.
Qed.

(** A thread moves, with what the invariant says about what it has. *)
Lemma move n s s' t p q : good n s -> s.(threads) !! t = Some p -> s'.(threads) = <[t := q]> s.(threads) ->
  (inv n s.(lock) s.(pool) s.(heap) s.(fresh) (p :: delete t s.(threads)) s.(thrown) ->
   inv n s'.(lock) s'.(pool) s'.(heap) s'.(fresh) (q :: delete t s.(threads)) s'.(thrown)) -> good n s'.
Proof.
  intros Hg Ht E Hi. destruct (threads_split s t p q Ht) as [Hp Hq]. unfold good. rewrite E, Hq. apply Hi. by rewrite <- Hp.
Qed.

Lemma inv_update n l pl h fr ths th c x x' :
  inv n l pl h fr ths th -> h !! c = Some x -> x'.(is_pooled) = x.(is_pooled) -> inv n l pl (<[c := x']> h) fr ths th.
Proof.
  intros [A B C D E F] Hc Hx. constructor; [done|done| | |by rewrite (pooled_update _ _ x)|].
  - intros i. rewrite C, lookup_insert_is_Some. destruct (decide (c = i)) as [<-|]; [|tauto]. rewrite Hc. split; [by left|by eexists].
  - intros i (y & Hy & Hp)%D. destruct (decide (c = i)) as [<-|].
    + exists x'. rewrite lookup_insert_eq. split; [done|]. rewrite Hx. by assert (x = y) as -> by congruence.
    + exists y. by rewrite lookup_insert_ne.
  - intros i [->|[_ Hi]]%lookup_insert_is_Some; [|by apply F]. apply F. by eexists.
Qed.

(** A connection that a thread had is deleted. *)
Lemma inv_delete n l pl h fr rest th c x p q : held p = [c] -> held q = [] -> critical p = critical q -> replacing p = false ->
  replacing q = x.(is_pooled) -> inv n l pl h fr (p :: rest) th -> h !! c = Some x -> inv n l pl (delete c h) fr (q :: rest) th.
Proof.
  intros Hp Hq Hcr Hr Hrq [A B C D E F] Hc.
  assert (known q = []) as Hkq by (destruct q as [| | | [|] | | | | | |]; done). rewrite count_cons in A, E. cbn [map concat] in *.
  rewrite Hp in B, C. rewrite Hcr in A. rewrite Hr in E. cbn [app] in *.
  rewrite <- Permutation_middle in B. apply NoDup_cons in B as [Hnc B]. constructor; cbn [map concat]; rewrite ?count_cons.
  - done.
  - by rewrite Hq.
  - intros i. rewrite Hq. cbn [app]. rewrite lookup_delete_is_Some, <- C. rewrite <- (Permutation_middle pl _ c), elem_of_cons.
    split; [intros Hi; split; [by intros ->|by right]|intros [Hne [Hi|Hi]]; [by destruct Hne|done]].
  - intros i Hi. rewrite Hkq in Hi. cbn [app] in Hi. destruct (D i) as (y & Hy & Hyp).
    { apply elem_of_app in Hi as [Hi|Hi]; apply elem_of_app; [by left|right]. apply elem_of_app. by right. }
    exists y. split; [|done]. rewrite lookup_delete_ne; [done|]. intros ->. apply Hnc. apply elem_of_app in Hi as [Hi|Hi]; apply elem_of_app; [by left|right].
    clear -Hi. apply list_elem_of_In, in_concat in Hi as (k & Hk & Hi). apply in_map_iff in Hk as (p & <- & Hp).
    apply list_elem_of_In, in_concat. exists (held p). split; [by apply in_map|]. by destruct p as [| | | [|] | | | | | |].
  - rewrite (pooled_delete h c x Hc) in E. rewrite Hrq. destruct (is_pooled x); lia.
  - intros i [_ Hi]%lookup_delete_is_Some. by apply F.
Qed.

(** A new connection that a thread has. *)
Lemma inv_connect n l pl h fr rest th x b : x.(is_pooled) = b ->
  inv n l pl h fr (pc_connect b :: rest) th -> inv n l pl (<[fr := x]> h) (S fr) (pc_hold fr :: rest) th.
Proof.
  intros Hx [A B C D E F]. cbn [map concat] in *. rewrite app_nil_l in *.
  assert (h !! fr = None) as Hfr by (destruct (h !! fr) as [y|] eqn:Ey; [|done]; assert (fr < fr)%nat by (by apply F; eexists); lia).
  assert (fr ∉ pl ++ concat (map held rest)) as Hn by (rewrite C, Hfr; by intros [? ?]).
  constructor; cbn [map concat].
  - exact A.
  - cbn [held app]. rewrite <- Permutation_middle. by apply NoDup_cons.
  - intros i. cbn [held app]. rewrite <- (Permutation_middle pl _ fr), elem_of_cons, C, lookup_insert_is_Some. destruct (decide (fr = i)) as [->|]; [tauto|].
    split; [intros [->|?]; [done|tauto]|tauto].
  - intros i Hi. cbn [known app] in Hi. destruct (D i Hi) as (y & Hy & Hp). exists y. split; [|done]. rewrite lookup_insert_ne; [done|]. intros <-. congruence.
  - rewrite pooled_insert by done. rewrite Hx, count_cons in *. destruct b; cbn in *; lia.
  - intros i [->|[_ Hi%F]]%lookup_insert_is_Some; lia.
Qed.

(** The vector is touched by the thread that has the lock only. *)
Lemma no_race n (s : pool_state H) t p : good n s -> s.(threads) !! t = Some p -> critical p = true -> races s t = false /\ s.(lock) = locked.
Proof.
  intros Hg Ht Hp. unfold good in Hg. rewrite (proj1 (threads_split s t p p Ht)) in Hg. destruct Hg as [A _ _ _ _ _].
  rewrite count_cons, Hp in A. destruct (lock s); [done|]. split; [|done].
  unfold races. apply not_true_iff_false. intros (q & Hq & Hqt)%existsb_exists.
  assert (q ∈ List.filter critical (delete t (threads s))) as Hin.
  { apply list_elem_of_In, filter_In. split; [done|]. by destruct q. }
  unfold count in A. cbn in A. destruct (List.filter critical (delete t (threads s))); [by apply elem_of_nil in Hin|done].
Qed.

(** Taking the lock, giving it back, and steps that touch nothing. *)
Lemma inv_same n l l' pl h fr rest th p q : held p = held q -> known p = known q -> replacing p = replacing q ->
  ((if critical q then 1 else 0) + (match l with locked => 1 | unlocked => 0 end) = (if critical p then 1 else 0) + (match l' with locked => 1 | unlocked => 0 end))%nat ->
  inv n l pl h fr (p :: rest) th -> inv n l' pl h fr (q :: rest) th.
Proof.
  intros Hh Hk Hr Hcr [A B C D E F]. rewrite count_cons in A, E. cbn [map concat] in *. rewrite Hh in *. rewrite Hk in *. rewrite Hr in *.
  constructor; cbn [map concat]; rewrite ?count_cons; try done.
  destruct (critical p), (critical q), l, l'; cbn in *; lia.
Qed.

Lemma conn_of n (s : pool_state H) t p c : good n s -> s.(threads) !! t = Some p -> held p = [c] -> is_Some (s.(heap) !! c).
Proof.
  intros Hg Ht Hp. unfold good in Hg. rewrite (proj1 (threads_split s t p p Ht)) in Hg. destruct Hg as [_ _ C _ _ _].
  apply C. cbn [map concat]. rewrite Hp. apply elem_of_app. right. by left.
Qed.

Ltac moved := eapply move; [eassumption|eassumption|reflexivity|cbn [at_pc set_lock set_pool with_heap lock pool heap fresh threads thrown]].

Lemma spin_good n s t p q : good n s -> s.(threads) !! t = Some p -> critical p = false -> critical q = true ->
  held p = held q -> known p = known q -> replacing p = replacing q -> good n (spin s t q).
Proof.
  intros Hg Ht Hp Hq H1 H2 H3. unfold spin. destruct (lock s) eqn:El; [|done].
  moved. apply inv_same; [done..|]. rewrite Hp, Hq, El. lia.
Qed.

Lemma unlock_good n s t p q : good n s -> s.(threads) !! t = Some p -> critical p = true -> critical q = false ->
  held p = held q -> known p = known q -> replacing p = replacing q -> good n (unlock s t q).
Proof.
  intros Hg Ht Hp Hq H1 H2 H3. destruct (no_race n s t p Hg Ht Hp) as [_ El]. unfold unlock.
  moved. apply inv_same; [done..|]. rewrite Hp, Hq, El. lia.
Qed.

Lemma quiet_good n s t p q : good n s -> s.(threads) !! t = Some p -> critical p = critical q ->
  held p = held q -> known p = known q -> replacing p = replacing q -> good n (at_pc s t q).
Proof. intros Hg Ht Hc H1 H2 H3. moved. apply inv_same; [done..|]. rewrite Hc. lia. Qed.

Lemma connect_good n s t b a : good n s -> s.(threads) !! t = Some (pc_connect b) ->
  exists s', (let '(s, o) := connect s b a in
    Ok (at_pc s t (match o with inl _ => pc_idle | inr c => pc_hold c end))) = Ok s' /\ good n s'.
Proof.
  intros Hg Ht. unfold connect. destruct (opened a) as [e|h].
  - eexists. split; [done|]. moved. intros [A B C D E F]. constructor; try done. rewrite !count_cons in *. cbn in *. destruct b; cbn in *; lia.
  - eexists. split; [done|]. moved. by apply inv_connect.
Qed.

Lemma get_step_good n timeout s t p a : good n s -> s.(threads) !! t = Some p -> exists s', get_step timeout s t p a = Ok s' /\ good n s'.
Proof.
  intros Hg Ht. destruct p as [| | |o|b|c|c|c|c|]; cbn [get_step]; try by exists s.
  - eexists. split; [done|]. by eapply spin_good.
  - destruct (no_race n s t _ Hg Ht eq_refl) as [-> El]. destruct (last (pool s)) as [c|] eqn:Ec; (eexists; split; [done|]).
    + apply last_removelast in Ec. moved. intros [A B C D E F]. rewrite Ec, <- app_assoc in B, C. constructor; try done.
      intros i Hi. apply D. rewrite Ec, <- app_assoc. exact Hi.
    + by eapply quiet_good.
  - destruct o as [c|]; (eexists; split; [done|]); by eapply unlock_good.
  - by apply connect_good.
  - destruct (conn_of n s t _ c Hg Ht eq_refl) as [x Hx]. unfold conn_at. rewrite Hx. cbn [mbind res_bind].
    assert (is_pooled x = true) as Hp.
    { pose proof Hg as Hi. unfold good in Hi. rewrite (proj1 (threads_split s t _ (pc_check c) Ht)) in Hi. destruct Hi as [_ _ _ D _ _].
      destruct (D c) as (y & Hy & Hp); [apply elem_of_app; right; by left|]. congruence. }
    destruct (double_le _ _ && _).
    + unfold delete_conn. rewrite Hx. cbn [mbind res_bind]. eexists. split; [done|]. moved. intros Hi.
      by eapply (inv_delete n _ _ _ _ _ _ c x (pc_check c) (pc_connect true)).
    + eexists. split; [done|]. moved. intros [A B C D E F]. constructor; try done.
      intros i Hi. apply D. apply elem_of_app in Hi as [Hi|Hi]; apply elem_of_app; [by left|right; by right].
Qed.

Lemma release_step_good n s t p a : good n s -> s.(threads) !! t = Some p -> exists s', release_step s t p a = Ok s' /\ good n s'.
Proof.
  intros Hg Ht. destruct p as [| | |o|b|c|c|c|c|]; cbn [release_step]; try by exists s.
  - destruct (conn_of n s t _ c Hg Ht eq_refl) as [x Hx]. unfold conn_at. rewrite Hx. cbn [mbind res_bind].
    destruct (is_pooled x) eqn:Hp; cbn [negb].
    + eexists. split; [done|]. moved. intros Hi. eapply (inv_update _ _ _ _ _ _ _ c x (mk_connection _ _ true)); [|done|done].
      destruct Hi as [A B C D E F]. constructor; try done.
      intros i Hi. apply elem_of_app in Hi as [Hi|[->|Hi]%elem_of_cons]; [apply D, elem_of_app; by left|by exists x|apply D, elem_of_app; by right].
    + unfold delete_conn. rewrite Hx. cbn [mbind res_bind]. eexists. split; [done|]. moved. intros Hi.
      by eapply (inv_delete n _ _ _ _ _ _ c x (pc_hold c) pc_idle).
  - eexists. split; [done|]. by eapply spin_good.
  - destruct (no_race n s t _ Hg Ht eq_refl) as [-> El]. eexists. split; [done|]. moved. intros [A B C D E F].
    constructor; try done; cbn [map concat held known app] in *; rewrite <- app_assoc; try done.
  - eexists. split; [done|]. by eapply unlock_good.
Qed.

Lemma pool_step_good n timeout e s : good n s -> exists s', pool_step timeout e s = Ok s' /\ good n s'.
Proof.
  intros Hg. destruct e as [t a|t h]; cbn [pool_step]; destruct (threads s !! t) as [p|] eqn:Ht; try by exists s.
  - assert (exists s', (if releasing p then release_step s t p a else get_step timeout s t p a) = Ok s' /\ good n s') as Hs.
    { destruct (releasing p); [by apply release_step_good|by apply get_step_good]. }
    destruct p; try exact Hs. eexists. split; [done|]. by eapply quiet_good.
  - destruct p; try by exists s. destruct (conn_of n s t _ c Hg Ht eq_refl) as [x Hx]. unfold conn_at. rewrite Hx. cbn [mbind res_bind].
    eexists. split; [done|]. unfold good. cbn. by eapply inv_update.
Qed.

Lemma run_pool_good n timeout es : forall s, good n s -> exists s', run_pool timeout es s = Ok s' /\ good n s'.
Proof.
  induction es as [|e es IH]; intros s Hg; cbn [run_pool]; [by exists s|].
  destruct (pool_step_good n timeout e s Hg) as (s1 & -> & Hg1). by apply IH.
Qed.

(** *** Filling *)

Lemma new_pool_good k : good 0 (new_pool k).
Proof.
  assert (forall f : pc -> bool, f pc_idle = false -> count f (replicate k pc_idle) = 0%nat) as Hc.
  { intros f Hf. induction k as [|k IH]; [done|]. cbn [replicate]. by rewrite count_cons, Hf. }
  assert (forall f : pc -> list nat, f pc_idle = [] -> concat (map f (replicate k pc_idle)) = []) as Hf.
  { clear Hc. intros f Hf. induction k as [|k IH]; [done|]. cbn [replicate map concat]. by rewrite Hf, IH. }
  unfold good, new_pool. cbn [lock pool heap fresh threads thrown]. constructor.
  - by apply Hc.
  - rewrite Hf by done. constructor.
  - intros c. rewrite Hf by done. split; [by intros ?%elem_of_nil|by intros [? ?]].
  - intros c. rewrite Hf by done. by intros ?%elem_of_nil.
  - by rewrite Hc.
  - intros c [? ?]. done.
Qed.

(** [m] connections were made; what there is when the loop gives up is whole. *)
Lemma fill_loop_outcome k n : forall m i ans s, good m s -> s.(threads) = replicate k pc_idle -> s.(thrown) = [] ->
  match fill_loop n i ans s with
  | Ok (ok, s') => (if ok : bool then good (m + n) s' else exists m', good m' s') /\ s'.(threads) = replicate k pc_idle /\ s'.(thrown) = []
  | Throw _ => True
  | UB _ => False
  end.
Proof.
  induction n as [|n IH]; intros m i ans s Hg Ht Hth; cbn [fill_loop].
  - by rewrite Nat.add_0_r.
  - unfold connect. destruct (opened (ans i)) as [e|h]; [done|]. unfold conn_at. cbn [heap]. rewrite lookup_insert_eq. cbn [mbind res_bind].
    destruct (usable _ _); cbn [negb].
    + replace (m + S n)%nat with (S m + n)%nat by lia. apply IH; [|done|done]. destruct Hg as [A B C D E F].
      assert (heap s !! fresh s = None) as Hfr.
      { destruct (heap s !! fresh s) as [y|] eqn:Ey; [|done]. assert (fresh s < fresh s)%nat by (by apply F; eexists). lia. }
      assert (fresh s ∉ pool s ++ concat (map held (threads s))) as Hn by (rewrite C, Hfr; by intros [? ?]).
      constructor; cbn [set_pool lock pool heap fresh threads thrown]; try done; rewrite <- ?app_assoc.
      * cbn [app]. rewrite <- Permutation_middle. by apply NoDup_cons.
      * intros c. cbn [app]. rewrite <- (Permutation_middle _ _ (fresh s)), elem_of_cons, C, lookup_insert_is_Some.
        destruct (decide (fresh s = c)) as [->|]; [tauto|]. split; [intros [->|?]; [done|tauto]|tauto].
      * intros c Hc. cbn [app] in Hc. rewrite <- Permutation_middle in Hc. apply elem_of_cons in Hc as [->|Hc].
        -- eexists. by rewrite lookup_insert_eq.
        -- destruct (D c Hc) as (y & Hy & Hp). exists y. split; [|done]. rewrite lookup_insert_ne; [done|]. intros <-. congruence.
      * rewrite pooled_insert by done. cbn. lia.
      * intros c [->|[_ Hi%F]]%lookup_insert_is_Some; lia.
    + unfold delete_conn. cbn [heap]. rewrite lookup_insert_eq. cbn [mbind res_bind]. split; [|done]. exists m. destruct Hg as [A B C D E F].
      assert (heap s !! fresh s = None) as Hfr.
      { destruct (heap s !! fresh s) as [y|] eqn:Ey; [|done]. assert (fresh s < fresh s)%nat by (by apply F; eexists). lia. }
      unfold good. cbn [with_heap lock pool heap fresh threads thrown]. rewrite delete_insert_id by done. constructor; try done. intros c Hc%F. lia.
Qed.

Lemma fill_loop_good k n m i ans s s' : good m s -> s.(threads) = replicate k pc_idle -> s.(thrown) = [] ->
  fill_loop n i ans s = Ok (true, s') -> good (m + n) s' /\ s'.(threads) = replicate k pc_idle /\ s'.(thrown) = [].
Proof. intros Hg Ht Hth E. pose proof (fill_loop_outcome k n m i ans s Hg Ht Hth) as Ho. by rewrite E in Ho. Qed.

(** *** Destroying *)

Lemma foldl_delete l : forall (s : pool_state H), NoDup l -> (forall c, c ∈ l -> is_Some (s.(heap) !! c)) ->
  exists s', foldl (fun m c => let* s := m in delete_conn s c) (Ok s) l = Ok s' /\
    forall c, s'.(heap) !! c = if decide (c ∈ l) then None else s.(heap) !! c.
Proof.
  induction l as [|c l IH]; intros s Hnd Hl; cbn [foldl].
  - exists s. split; [done|]. intros c. destruct (decide (c ∈ [])) as [Hc|]; [by apply elem_of_nil in Hc|done].
  - apply NoDup_cons in Hnd as [Hc Hnd]. destruct (Hl c) as [x Hx]; [by left|]. cbn [mbind res_bind]. unfold delete_conn at 2. rewrite Hx.
    destruct (IH (with_heap s (delete c (heap s))) Hnd) as (s' & -> & Hs').
    { intros i Hi. cbn. rewrite lookup_delete_ne by (by intros ->). apply Hl. by right. }
    exists s'. split; [done|]. intros i. rewrite Hs'. cbn. destruct (decide (i ∈ l)) as [Hi|Hi].
    + destruct (decide (i ∈ c :: l)) as [|Hn]; [done|]. destruct Hn. by right.
    + destruct (decide (i ∈ c :: l)) as [[->|?]%elem_of_cons|Hn]; [apply lookup_delete_eq|done|].
      rewrite lookup_delete_ne; [done|]. intros ->. destruct Hn. by left.
Qed.
End Invariant.

(** ** Properties *)

(** What the pool is between and during the operations of its threads; [n] is the
    size it was filled to. *)
Definition pool_ok {H} (n : nat) (s : pool_state H) : Prop :=
  let owned := s.(pool) ++ concat (map held s.(threads)) in
  NoDup owned /\ (forall c, c ∈ owned <-> is_Some (s.(heap) !! c)) /\
  (count critical s.(threads) <= 1)%nat /\
  (forall c, c ∈ s.(pool) -> in_pool s.(heap) c) /\
  (base.size (pooled s.(heap)) + count replacing s.(threads) + count fst s.(thrown) = n)%nat.

Lemma good_ok {H} n (s : pool_state H) : good n s -> pool_ok n s.
Proof.
  intros [A B C D F G]. split; [done|]. split; [done|]. split; [rewrite A; destruct (lock s); lia|]. split; [|done].
  intros c Hc. apply D, elem_of_app. by left.
Qed.

(** Every connection of a heap of pooled connections counts. *)
Lemma pooled_all {H} (h : gmap nat (connection H)) : (forall c, is_Some (h !! c) -> in_pool h c) -> pooled h = h.
Proof.
  intros Hp. unfold pooled. apply map_filter_id. intros i x Hx. cbn. destruct (Hp i) as (y & Hy & Hyp); [by eexists|]. congruence.
Qed.

Lemma good_idle {H} n (s : pool_state H) : good n s -> Forall (fun p => p = pc_idle) s.(threads) ->
  s.(lock) = unlocked /\ (length s.(pool) + count fst s.(thrown) = n)%nat /\ exists s'', destroy_pool s = Ok s'' /\ s''.(heap) = ∅.
Proof.
  intros [A B C D F G] Hi.
  assert (forall f : pc -> bool, f pc_idle = false -> count f s.(threads) = 0%nat) as Hc.
  { intros f Hf. clear -Hi Hf. induction Hi as [|p l -> _ IH]; [done|]. by rewrite count_cons, Hf. }
  assert (concat (map held s.(threads)) = []) as Hh by (clear -Hi; by induction Hi as [|p l -> _ IH]).
  assert (concat (map known s.(threads)) = []) as Hk by (clear -Hi; by induction Hi as [|p l -> _ IH]).
  rewrite Hh, app_nil_r in B. setoid_rewrite Hh in C. setoid_rewrite Hk in D. rewrite (Hc critical) in A by done. rewrite (Hc replacing) in F by done.
  setoid_rewrite app_nil_r in C. setoid_rewrite app_nil_r in D.
  rewrite pooled_all in F by (intros c Hcs; by apply D, C). split; [by destruct (lock s)|].
  assert (base.size (heap s) = length (pool s)) as Hsz.
  { rewrite <- size_dom, <- (size_list_to_set (C := gset nat) (pool s)) by done. f_equal. apply set_eq. intros c.
    by rewrite elem_of_dom, elem_of_list_to_set, C. }
  split; [lia|]. unfold destroy_pool. destruct (foldl_delete (pool s) s B) as (s'' & -> & Hs''); [intros c; apply C|].
  exists s''. split; [done|]. apply map_empty. intros c. rewrite Hs''. destruct (decide (c ∈ pool s)) as [|Hn]; [done|].
  rewrite C in Hn. by apply eq_None_not_Some.
Qed.

(** C9: A pool that was filled with [pool_size] connections and is shared by any
    number of threads, each of which takes, uses and releases connections again
    and again, in any interleaving and whatever the servers and the clock answer:
    only one thread at a time touches the vector or has the lock; no connection is
    used after it was deleted, deleted twice, lost, or had by two; a connection in
    the vector belongs to the pool; and the connections of the pool, wherever they
    are, with the ones being replaced and the ones whose replacement failed, are
    [pool_size].  When all threads are idle the lock is free, the connections that
    did not fail are in the vector again, and destroying the pool deletes every
    connection there is. *)
Theorem pool_safe {H} `{Handle H} pool_size ans k s timeout es :
  fill_pool pool_size ans (new_pool k) = Ok (true, s) ->
  exists s', run_pool timeout es s = Ok s' /\ pool_ok (Z.to_nat pool_size) s' /\
    (Forall (fun p => p = pc_idle) s'.(threads) ->
      s'.(lock) = unlocked /\ (length s'.(pool) + count fst s'.(thrown) = Z.to_nat pool_size)%nat /\
      exists s'', destroy_pool s' = Ok s'' /\ s''.(heap) = ∅).
Proof.
  unfold fill_pool. intros Hf. destruct (Z.eqb_spec pool_size 0) as [|Hz]; [done|].
  destruct (fill_loop_good k _ _ _ _ _ _ (new_pool_good k) eq_refl eq_refl Hf) as (Hg & _ & _).
  destruct (run_pool_good _ timeout es s Hg) as (s' & E & Hg'). exists s'. split; [done|].
  split; [by apply good_ok|]. intros Hi. by apply good_idle.
Qed.

(** Two threads and one connection: one thread gets a connection of its own, which
    is deleted; later the server is gone and the connection of the pool is replaced. *)
Definition sample_events : list (pool_event MYSQL) :=
  let a t p := mk_answer t p (inr (mysql_handle 9)) in
  map (fun t => go t (a 50 true)) [0; 0; 1; 0; 1; 0; 1; 1; 1; 0; 1; 0; 0; 1; 0; 0]%nat ++
  map (fun t => go t (a 500 false)) [1; 1; 1; 1; 1; 1; 1; 1; 1; 1]%nat.

Definition sample_filled : pool_state MYSQL :=
  match fill_pool 1 (fun _ => mk_answer 10 true (inr (mysql_handle 1))) (new_pool 2) with Ok (_, s) => s | _ => new_pool 2 end.

Lemma pool_safe_witness : exists s', run_pool (double_of_Z 100) sample_events sample_filled = Ok s' /\ pool_ok 1 s' /\
  s'.(pool) = [2%nat] /\ exists s'', destroy_pool s' = Ok s'' /\ s''.(heap) = ∅.
Proof.
  destruct (pool_safe 1 (fun _ => mk_answer 10 true (inr (mysql_handle 1))) 2 sample_filled (double_of_Z 100) sample_events ltac:(by vm_compute))
    as (s' & E & Hok & Hidle).
  assert ((match run_pool (double_of_Z 100) sample_events sample_filled with Ok s => (s.(threads), s.(pool)) | _ => ([], []) end) =
    ([pc_idle; pc_idle], [2%nat])) as Ht by by vm_compute.
  rewrite E in Ht. injection Ht as Ht Hp. exists s'. split; [exact E|]. split; [exact Hok|]. split; [exact Hp|].
  apply Hidle. rewrite Ht. repeat constructor.
Defined.
