(* ===== verification/Database.v ===== *)
(** * [src/src/database.hpp], [src/src/database.cpp], [src/src/redis.hpp],
    [src/src/redis.cpp]: the pools of the shards.

    Both classes read the shard section of the configuration, fill a pool for each
    name they are given, and pick a pool by name or by the residue of a key.  They
    differ in their pools, in the names of the settings, and in that the
    constructor of [redis] leaves the shard count uninitialised. *)
From S2P Require Import Prelude CxxString CxxTime Config HiredisReader HiredisContext Pool.

(** [boost::crc_32_type] *)
Class Crc32 : Type := crc32 : bytes -> Z.

(** [enum class dbname_type : int], [enum class rdname_type : int] *)
Inductive dbname_type : Type := db_000 | db_001 | db_etc.
Inductive rdname_type : Type := rd_rnk.

Definition dbname_index (n : dbname_type) : Z := match n with db_000 => 0 | db_001 => 1 | db_etc => 2 end.
Definition rdname_index (n : rdname_type) : Z := match n with rd_rnk => 0 end.

(** ** One kind of pool *)

(** A pool: its settings and the threads' view of it. *)
Record pool_of (P H : Type) : Type := mk_pool_of { settings : P; conns : pool_state H }.
Arguments mk_pool_of {P H}.
Arguments settings {P H}.
Arguments conns {P H}.

(** What [database] and [redis] are made of. *)
Class PoolKind (P H : Type) : Type := {
  kind_handle :: Handle H;
  new_settings : P;
  init_pool : P -> section -> P * bool;
  pool_size_of : P -> Z;
  pool_timeout : P -> double;
  (* the section of the shards and its settings; the count before [init] *)
  shard_section : bytes; count_key : bytes; format_key : bytes;
  initial_count : option Z }.

Section Shards.
Context {P H : Type} `{PoolKind P H} `{Crc32}.

(** [class database], [class redis]; an uninitialised count is [None]. *)
Record shards : Type := mk_shards { shard_count : option Z; shard_format : bytes; pools : list (pool_of P H) }.

Definition new_shards : shards := mk_shards initial_count [] [].

(** The loop over the keys of the shard section. *)
Definition set_shard (s : shards) (key v : bytes) : shards :=
  if key =s count_key then mk_shards (Some (uwrap32 (strtoul (c_str v)))) s.(shard_format) s.(pools)
  else if key =s format_key then mk_shards s.(shard_count) v s.(pools)
  else s.

(** The loop over the names; [ans i] answers the connections of the [i]th pool,
    [k] threads are going to use the pools.  A pool that cannot be filled is deleted,
    unless an exception leaves the loop. *)
Fixpoint init_pools (cfg : config) (k i : nat) (names : list bytes) (ans : nat -> nat -> answer H) : stres shards bool :=
  match names with
  | [] => st_ret true
  | name :: names =>
      st* c := st_lift (config_get cfg name) in
      let '(p, ok) := init_pool new_settings c in
      if negb ok then st_ret false
      else
        st* (ok, cs) := st_lift (fill_pool (pool_size_of p) (ans i) (new_pool k)) in
        if negb ok then st* _ := st_lift (destroy_pool cs) in st_ret false
        else
          st* s := st_get in
          st* _ := st_put (mk_shards s.(shard_count) s.(shard_format) (s.(pools) ++ [mk_pool_of p cs])) in
          init_pools cfg k (S i) names ans
  end.

(** [init] *)
Definition init_shards (cfg : config) (k : nat) (names : list bytes) (ans : nat -> nat -> answer H) : stres shards bool :=
  st* c := st_lift (config_get cfg shard_section) in
  st* s := st_get in
  let '(s, ok) := for_settings set_shard c [count_key; format_key] s in
  st* _ := st_put s in
  if negb ok then st_ret false else init_pools cfg k 0 names ans.

(** The threads use the pools: [use i] are the steps in the [i]th one. *)
Fixpoint use_pools (i : nat) (use : nat -> list (pool_event H)) (l : list (pool_of P H)) : res (list (pool_of P H)) :=
  match l with
  | [] => Ok []
  | p :: l =>
      let* cs := run_pool (pool_timeout p.(settings)) (use i) p.(conns) in
      let* l := use_pools (S i) use l in Ok (mk_pool_of p.(settings) cs :: l)
  end.

(** The destructors: every pool is deleted. *)
Fixpoint delete_pools (l : list (pool_of P H)) : res (list (pool_of P H)) :=
  match l with
  | [] => Ok []
  | p :: l => let* cs := destroy_pool p.(conns) in let* l := delete_pools l in Ok (mk_pool_of p.(settings) cs :: l)
  end.

(** [*db_[i]] *)
Definition pool_at (s : shards) (i : Z) : res nat :=
  if (0 <=? i) && (i <? size s.(pools)) then Ok (Z.to_nat i) else UB index_out_of_bounds.

(** [key % shard_count] *)
Definition residue (s : shards) (key : Z) : res Z :=
  match s.(shard_count) with
  | None => UB uninitialised_read
  | Some n => if n =? 0 then UB division_by_zero else Ok (key mod n)
  end.

(** [get_dbpool(uint64_t)], [get_rdpool(uint64_t)]: the index of the pool. *)
Definition get_pool_by_key (s : shards) (shard_key : Z) : res nat := let* i := residue s shard_key in pool_at s i.

(** [get_dbpool(const std::string&)], [get_rdpool(const std::string&)] *)
Definition get_pool_by_string (s : shards) (shard_key : bytes) : res nat := let* i := residue s (crc32 shard_key) in pool_at s i.

(** ** Lemmas *)

(** A pool that was filled, and that no thread is using. *)
Definition full (k : nat) (p : pool_of P H) : Prop :=
  good (Z.to_nat (pool_size_of p.(settings))) p.(conns) /\ p.(conns).(threads) = replicate k pc_idle /\ p.(conns).(thrown) = [].

(** Whatever happens, the pools there are are full; and there is one for each name
    when [init_pools] returns [true]. *)
Lemma init_pools_spec cfg k ans names : forall i s, leaves (init_pools cfg k i names ans) s (fun r s' =>
  (forall u, r <> UB u) /\ s'.(shard_count) = s.(shard_count) /\ s'.(shard_format) = s.(shard_format) /\
  exists new, s'.(pools) = s.(pools) ++ new /\ Forall (full k) new /\
    (r = Ok true -> Forall2 (fun name p => exists c, cfg.(cfg_) !! name = Some c /\ init_pool new_settings c = (p.(settings), true)) names new)).
Proof using.
  assert (forall nm s (r : res bool), r <> Ok true -> (forall u, r <> UB u) -> (forall u, r <> UB u) /\ s.(shard_count) = s.(shard_count) /\ s.(shard_format) = s.(shard_format) /\
    exists new, s.(pools) = s.(pools) ++ new /\ Forall (full k) new /\ (r = Ok true -> Forall2 (fun name p => exists c, cfg.(cfg_) !! name = Some c /\ init_pool new_settings c = (p.(settings), true)) nm new)) as Hno.
  { intros nm s r Hr Hu. split; [done|]. split; [done|]. split; [done|]. exists []. rewrite app_nil_r. by split_and!. }
  induction names as [|name names IH]; intros i s; unfold leaves; cbn [init_pools].
  - split; [done|]. split; [done|]. split; [done|]. exists []. rewrite app_nil_r. by split_and!.
  - unfold st_bind, st_lift, config_get. destruct (cfg_ cfg !! name) as [c|] eqn:Ec; [|by apply Hno].
    destruct (init_pool new_settings c) as [p [|]] eqn:Ep; cbn [negb]; [|by apply Hno].
    assert (match fill_pool (pool_size_of p) (ans i) (new_pool k) with
      | Ok (ok, cs) => (if ok : bool then full k (mk_pool_of p cs) else exists cs', destroy_pool cs = Ok cs') | Throw _ => True | UB _ => False end) as Hfill.
    { unfold fill_pool. destruct (pool_size_of p =? 0); [by eexists|].
      pose proof (fill_loop_outcome k (Z.to_nat (pool_size_of p)) 0 0 (ans i) _ (new_pool_good k) eq_refl eq_refl) as Ho.
      destruct (fill_loop _ _ _ _) as [[[|] cs]| |]; [exact Ho| |done..]. destruct Ho as ((m & Hm) & Ht & _).
      destruct (good_idle m cs Hm) as (_ & _ & cs' & Ec' & _); [rewrite Ht; by apply Forall_replicate|by exists cs']. }
    destruct (fill_pool (pool_size_of p) (ans i) (new_pool k)) as [[[|] cs]|e|u]; cbn [negb]; [| |by apply Hno|done].
    + unfold st_get, st_put. cbv beta iota. specialize (IH (S i) (mk_shards s.(shard_count) s.(shard_format) (s.(pools) ++ [mk_pool_of p cs]))). unfold leaves in IH.
      destruct (init_pools cfg k (S i) names ans _) as [r s']. cbn [fst snd shard_count shard_format pools] in *. destruct IH as (Hu & E1 & E2 & new & E3 & Hall & Hn).
      split; [done|]. split; [done|]. split; [done|]. exists (mk_pool_of p cs :: new). rewrite E3, <- app_assoc. split; [done|].
      split; [by constructor|]. intros Hr. constructor; [by exists c|by apply Hn].
    + destruct Hfill as [cs' ->]. by apply Hno.
Qed.

(** A pool in use keeps its number of connections, and is deleted whole once all the
    threads are idle. *)
Definition pool_good (p : pool_of P H) : Prop := good (Z.to_nat (pool_size_of p.(settings))) p.(conns).
Definition pool_idle (p : pool_of P H) : Prop := Forall (fun t => t = pc_idle) p.(conns).(threads).
Definition pool_deleted (p : pool_of P H) : Prop := p.(conns).(heap) = ∅.

Lemma full_good k p : full k p -> pool_good p /\ pool_idle p.
Proof using. intros (Hg & Ht & _). split; [done|]. unfold pool_idle. rewrite Ht. by apply Forall_replicate. Qed.

Lemma use_pools_good use l : forall i, Forall pool_good l -> exists l', use_pools i use l = Ok l' /\ Forall pool_good l'.
Proof using.
  induction l as [|p l IH]; intros i Hl; cbn [use_pools]; [by exists []|]. apply Forall_cons_iff in Hl as [Hp Hl].
  destruct (run_pool_good _ (pool_timeout (settings p)) (use i) _ Hp) as (cs & -> & Hcs). cbn [mbind res_bind].
  destruct (IH (S i) Hl) as (l' & -> & Hl'). cbn [mbind res_bind]. eexists. split; [done|]. by constructor.
Qed.

Lemma delete_pools_all l : Forall pool_good l -> Forall pool_idle l -> exists l', delete_pools l = Ok l' /\ Forall pool_deleted l'.
Proof using.
  induction l as [|p l IH]; intros Hl Hi; cbn [delete_pools]; [by exists []|]. apply Forall_cons_iff in Hl as [Hp Hl], Hi as [Hpi Hi].
  destruct (good_idle _ _ Hp Hpi) as (_ & _ & cs & -> & Hcs). cbn [mbind res_bind]. destruct (IH Hl Hi) as (l' & -> & Hl'). cbn [mbind res_bind].
  eexists. split; [done|]. by constructor.
Qed.

(** The settings of the shard section. *)
Lemma shard_settings c s s' : for_settings set_shard c [count_key; format_key] s = (s', true) -> count_key <> format_key ->
  exists n f, c !! count_key = Some n /\ c !! format_key = Some f /\ s' = mk_shards (Some (uwrap32 (strtoul (c_str n)))) f s.(pools).
Proof using.
  intros Hf Hk. cbn [for_settings] in Hf. destruct (c !! count_key) as [n|] eqn:En; [|done]. destruct (c !! format_key) as [f|] eqn:Ef; [|done].
  injection Hf as <-. exists n, f. split; [done|]. split; [done|]. unfold set_shard.
  assert ((format_key =s count_key) = false) as -> by (apply eqs_false; intros E; by destruct Hk). by rewrite !eqs_refl.
Qed.

(** The pool a key goes to, of [n] shards and [m] pools. *)
Definition route (n m key : Z) : res nat :=
  if n =? 0 then UB division_by_zero else if key mod n <? m then Ok (Z.to_nat (key mod n)) else UB index_out_of_bounds.

Lemma get_pool_spec s n key : s.(shard_count) = Some n -> 0 <= n -> (let* i := residue s key in pool_at s i) = route n (size s.(pools)) key.
Proof using.
  intros En Hn. unfold residue, route. rewrite En. destruct (Z.eqb_spec n 0) as [|Hz]; [done|]. cbn [mbind res_bind].
  unfold pool_at. pose proof (Z.mod_pos_bound key n ltac:(lia)). destruct (Z.leb_spec 0 (key mod n)); [done|lia].
Qed.

(** What [init] leaves. *)
Lemma init_shards_spec cfg k names ans : count_key <> format_key -> leaves (init_shards cfg k names ans) new_shards (fun r s =>
  (forall u, r <> UB u) /\ Forall (full k) s.(pools) /\
  (r = Ok true -> (exists c v, cfg.(cfg_) !! shard_section = Some c /\ c !! count_key = Some v /\ s.(shard_count) = Some (uwrap32 (strtoul (c_str v)))) /\
    Forall2 (fun name p => exists c, cfg.(cfg_) !! name = Some c /\ init_pool new_settings c = (p.(settings), true)) names s.(pools))).
Proof using.
  intros Hk. unfold leaves, init_shards, st_bind, st_lift, st_get, st_put, config_get. destruct (cfg_ cfg !! shard_section) as [c|] eqn:Ec; [|by split_and!].
  cbv beta iota. destruct (for_settings set_shard c [count_key; format_key] new_shards) as [s1 ok] eqn:Ef.
  assert (pools s1 = []) as E0.
  { cbn [for_settings] in Ef. destruct (c !! count_key) as [n|]; [|by injection Ef as <- _]. 
    assert (forall s key v, pools (set_shard s key v) = pools s) as Hset by (intros s key v; unfold set_shard; by destruct (key =s count_key), (key =s format_key)).
    destruct (c !! format_key) as [f|]; injection Ef as <- _; by rewrite ?Hset. }
  destruct ok; cbn [negb]; [|unfold st_ret; cbn [fst snd]; rewrite E0; by split_and!]. destruct (shard_settings _ _ _ Ef Hk) as (n & f & En & _ & E1).
  pose proof (init_pools_spec cfg k ans names 0 s1) as Hp. unfold leaves in Hp. destruct (init_pools cfg k 0 names ans s1) as [r s]. cbn [fst snd] in *.
  destruct Hp as (Hu & E2 & _ & new & E3 & Hall & Hn). rewrite E3, E0. split; [done|]. split; [done|]. intros Hr. split; [|by apply Hn]. exists c, n. by rewrite E2, E1.
Qed.

(** C32: When [init] succeeds there is a full pool for each name, in order, with the
    settings of its section; the shard count is the configured one, as an [unsigned
    int]; and a key - an integer, or the checksum of a string - goes to the pool of
    its residue.  With a shard count of 0 every such access divides by 0, and with
    more shards than pools the residues from the number of pools on are outside
    the vector. *)
Theorem shards_route cfg k names ans s :
  count_key <> format_key -> init_shards cfg k names ans new_shards = (Ok true, s) ->
  exists c v, cfg.(cfg_) !! shard_section = Some c /\ c !! count_key = Some v /\
    let n := uwrap32 (strtoul (c_str v)) in
    (forall key, get_pool_by_key s key = route n (size names) key) /\
    (forall key, get_pool_by_string s key = route n (size names) (crc32 key)) /\
    Forall2 (fun name p => exists c, cfg.(cfg_) !! name = Some c /\ init_pool new_settings c = (p.(settings), true) /\
      pool_ok (Z.to_nat (pool_size_of p.(settings))) p.(conns) /\ p.(conns).(threads) = replicate k pc_idle) names s.(pools).
Proof using.
  intros Hk Hi. pose proof (init_shards_spec cfg k names ans Hk) as Hs. unfold leaves in Hs. rewrite Hi in Hs. cbn [fst snd] in Hs.
  destruct Hs as (_ & Hall & Hok). destruct (Hok eq_refl) as ((c & v & Ec & Ev & E1) & Hn). exists c, v. split; [done|]. split; [done|].
  assert (0 <= uwrap32 (strtoul (c_str v))) as Hpos by (apply Z.mod_pos_bound; lia).
  assert (size (pools s) = size names) as Esz by (unfold size; by rewrite (Forall2_length _ _ _ Hn)).
  split; [|split]; [intros key; unfold get_pool_by_key, get_pool_by_string; rewrite (get_pool_spec _ _ _ E1 Hpos), Esz; done..|].
  clear E1 Esz Hi Hok. revert Hall. induction Hn as [|name p names' l (c' & Hc1 & Hc2) _ IH]; intros Hall; constructor; apply Forall_cons_iff in Hall as [(Hg & Ht & _) Hall]; [|by apply IH].
  exists c'. split_and!; [done|done|by apply good_ok|done].
Qed.
End Shards.
Arguments shards : clear implicits.

(** ** [database] and [redis] *)

#[export] Instance database_kind : PoolKind dbconn_pool MYSQL :=
  {| new_settings := new_dbconn_pool; init_pool := init_dbconn_pool; pool_size_of := db_pool_size; pool_timeout := wait_timeout_sec;
     shard_section := str "db_shard"; count_key := str "db_shard_count"; format_key := str "db_shard_format"; initial_count := Some 0 |}.

(** [redis3m::connection::is_valid] *)
#[export] Instance is_valid : Handle redisContext := fun c _ => c.(c_err) =? REDIS_OK.

#[export] Instance redis_kind : PoolKind redis_pool redisContext :=
  {| new_settings := new_redis_pool; init_pool := init_redis_pool; pool_size_of := rd_pool_size; pool_timeout := timeout_sec;
     shard_section := str "rd_shard"; count_key := str "rd_shard_count"; format_key := str "rd_shard_format"; initial_count := None |}.

Definition database : Type := shards dbconn_pool MYSQL.
Definition redis : Type := shards redis_pool redisContext.

(** [database::get_dbpool(dbname_type)], [redis::get_rdpool(rdname_type)] *)
Definition get_dbpool (s : database) (dbname : dbname_type) : res nat := pool_at s (dbname_index dbname).
Definition get_rdpool (s : redis) (rdname : rdname_type) : res nat := pool_at s (rdname_index rdname).

(** [database::init], [redis::init] *)
Definition database_init (cfg : config) (k : nat) (dbnames : list bytes) (ans : nat -> nat -> answer MYSQL) : stres database bool := init_shards cfg k dbnames ans.
Definition redis_init (cfg : config) (k : nat) (rdnames : list bytes) (ans : nat -> nat -> answer redisContext) : stres redis bool := init_shards cfg k rdnames ans.

(** [redis::get_rdpool(uint64_t)], [redis::get_rdpool(const std::string&)] *)
Definition get_rdpool_by_key (s : redis) (shard_key : Z) : res nat := get_pool_by_key s shard_key.
Definition get_rdpool_by_string `{Crc32} (s : redis) (shard_key : bytes) : res nat := get_pool_by_string s shard_key.

(** [~database], [~redis] *)
Definition delete_database (s : database) : res database := let* l := delete_pools s.(pools) in Ok (mk_shards s.(shard_count) s.(shard_format) l).
Definition delete_redis (s : redis) : res redis := let* l := delete_pools s.(pools) in Ok (mk_shards s.(shard_count) s.(shard_format) l).

(** The shipped configuration of redis: two shards and one pool, so the odd keys
    have none. *)
Definition sample_config : config :=
  set_cfg_ config_init
    {[ str "rd_shard" := {[ str "rd_shard_count" := str "2"; str "rd_shard_format" := str "rd_%03d" ]};
       str "rd_rnk" := {[ str "host" := str "127.0.0.1"; str "port" := str "6379"; str "pool_size" := str "4"; str "timeout_sec" := str "0" ]} ]}.

Definition sample_redis : redis :=
  match init_shards sample_config 2 [str "rd_rnk"] (fun _ _ => mk_answer 10 true (inr (mk_context 0 [] 7 0 None None))) new_shards with (_, s) => s end.

Lemma shards_route_witness : get_pool_by_key sample_redis 6 = Ok 0%nat /\ get_pool_by_key sample_redis 7 = UB index_out_of_bounds.
Proof.
  destruct (shards_route (P := redis_pool) (H0 := redis_kind) (H1 := fun _ => 0) sample_config 2 [str "rd_rnk"]
    (fun _ _ => mk_answer 10 true (inr (mk_context 0 [] 7 0 None None))) sample_redis ltac:(by intros E; vm_compute in E) ltac:(by vm_compute))
    as (c & v & Ec & Ev & Hr & _).
  assert ((Some c ≫= fun c => c !! count_key (PoolKind := redis_kind)) = Some (str "2")) as E by (rewrite <- Ec; by vm_compute).
  change (c !! count_key (PoolKind := redis_kind) = Some (str "2")) in E. rewrite Ev in E. injection E as ->. split; rewrite Hr; by vm_compute.
Defined.
