(* ===== verification/Redis3m.v ===== *)
(** * [src/src/redis3m.hpp]: commands and replies over a hiredis context.

    A connection formats a command, sends it with [redisGetReply] and copies the
    reply out of the reader's heap before it frees it.  An exception leaves the
    context as it is, so the operations return it in both cases. *)
From S2P Require Import Prelude CxxString CxxTime Pool Sds SdsRefine SdsText HiredisFormat HiredisReply HiredisReader HiredisReaderInput HiredisReplyTree HiredisReaderSpec HiredisProtocol HiredisReaderRefine HiredisStream HiredisContext HiredisPipeline.

(** ** Replies *)

(** [class reply] *)
Inductive reply : Type := mk_rep (type_ : Z) (str_ : bytes) (integer_ : Z) (elements_ : list reply).

Definition type_ (r : reply) : Z := match r with mk_rep t _ _ _ => t end.
Definition str_ (r : reply) : bytes := match r with mk_rep _ s _ _ => s end.
Definition integer_ (r : reply) : Z := match r with mk_rep _ _ z _ => z end.
Definition elements_ (r : reply) : list reply := match r with mk_rep _ _ _ l => l end.

(** [operator==] on a string and on an integer *)
Definition equals_str (r : reply) (rvalue : bytes) : bool :=
  if (type_ r =? REPLY_STRING) || (type_ r =? REPLY_ERROR) || (type_ r =? REPLY_STATUS) then str_ r =s rvalue else false.
Definition equals_integer (r : reply) (rvalue : Z) : bool :=
  if type_ r =? REPLY_INTEGER then integer_ r =? rvalue else false.

(** [std::string(rep->str, rep->len)]; the [NUL] after the text can be read. *)
Definition copy_str (r : redisReply) : res bytes :=
  let* s := live r.(r_str) in
  if r.(r_len) <? 0 then Throw length_error
  else if size s + 1 <? r.(r_len) then UB index_out_of_bounds
  else Ok (take (Z.to_nat r.(r_len)) (s ++ [Byte.x00])).

(** [for (i = 0; i < rep->elements; ++i) elements_.push_back(reply(rep->element[i]));] *)
Fixpoint copy_elements (copy : nat -> res reply) (l : list (option nat)) : res (list reply) :=
  match l with
  | [] => Ok []
  | None :: _ => UB null_pointer
  | Some q :: l => let* e := copy q in let* es := copy_elements copy l in Ok (e :: es)
  end.

(** [reply(redisReply* rep)]; no tree is deeper than the heap is long. *)
Fixpoint make_reply (fuel : nat) (h : heap) (rep : nat) : res reply :=
  match fuel with
  | O => UB no_fuel
  | S fuel =>
      let* r := deref h rep in
      let t := r.(r_type) in
      if (t =? REPLY_ERROR) || (t =? REPLY_STRING) || (t =? REPLY_STATUS) then let* s := copy_str r in Ok (mk_rep t s 0 [])
      else if t =? REPLY_INTEGER then Ok (mk_rep t [] r.(r_integer) [])
      else if t =? REPLY_ARRAY then
        if 0 <? r.(r_elements) then
          let* l := live r.(r_element) in
          let* es := copy_elements (make_reply fuel h) (take (Z.to_nat r.(r_elements)) l) in
          if size l <? r.(r_elements) then UB index_out_of_bounds else Ok (mk_rep t [] 0 es)
        else Ok (mk_rep t [] 0 [])
      else Ok (mk_rep t [] 0 [])
  end.

(** ** Commands *)

(** The operands of [operator<<] and [operator()]: a C string, a string, a number. *)
Inductive operand : Type := op_chars (s : bytes) | op_string (s : bytes) | op_number (z : Z).

Definition command (args : list bytes) (o : operand) : list bytes :=
  args ++ [match o with op_chars s => c_str s | op_string s => s | op_number z => to_string z end].

(** ** Connections *)

Section Redis3m.
Context `{Allocator} `{Strerror}.

(** The constructor, after [redisConnectWithTimeout] returned [o]; when it throws
    the context is not freed. *)
Definition new_connection (o : option redisContext) (now : Z) (pooled_ : bool) : res (connection redisContext) :=
  let* c := live o in
  if negb (c.(c_err) =? REDIS_OK) then Throw (runtime_error (str "redisConnectWithTimeout failed"))
  else Ok (mk_connection c now pooled_).

Definition append (c : redisContext) (args : list bytes) : res ((exn + unit) * redisContext) :=
  let* (result, c) := redisAppendCommandArgv c args (Some (map size args)) in
  if negb (result =? REDIS_OK) then Ok (inl (runtime_error (str "redisAppendCommandArgv failed")), c) else Ok (inr (), c).

(** [if (rep.type() == ERROR_ && (rep.str().find("READONLY") == 0)) throw] *)
Definition checked (rep : reply) : exn + reply :=
  if (type_ rep =? REPLY_ERROR) && (find (str_ rep) (str "READONLY") 0 =? 0) then inl (runtime_error (str "read only")) else inr rep.

Definition get_reply (c : redisContext) : io ((exn + reply) * redisContext) :=
  io* (result, o, c) := redisGetReply c in
  if negb (result =? REDIS_OK) then done (inl (runtime_error (str "redisGetReply failed")), c)
  else
    match o with
    | None => lift (UB null_pointer)
    | Some (obj_const _) => lift (UB dangling_pointer)
    | Some (obj_reply r) =>
        io* rd := lift (live c.(c_reader)) in
        match make_reply (S (length rd.(rd_heap))) rd.(rd_heap) r with
        | Throw e => done (inl e, c)
        | UB u => lift (UB u)
        | Ok rep =>
            io* h := lift (freeReplyObject (S (length rd.(rd_heap))) rd.(rd_heap) r) in
            done (checked rep, set_reader c (set_heap rd h))
        end
    end.

Fixpoint get_replies (count : nat) (c : redisContext) : io ((exn + list reply) * redisContext) :=
  match count with
  | O => done (inr [], c)
  | S count =>
      io* (o, c) := get_reply c in
      match o with
      | inl e => done (inl e, c)
      | inr rep =>
          io* (o, c) := get_replies count c in
          done (match o with inl e => inl e | inr reps => inr (rep :: reps) end, c)
      end
  end.

Definition run (c : redisContext) (args : list bytes) : io ((exn + reply) * redisContext) :=
  io* (o, c) := lift (append c args) in
  match o with inl e => done (inl e, c) | inr _ => get_reply c end.

(** A session of commands, one after the other; an exception ends its command. *)
Fixpoint run_all (c : redisContext) (argss : list (list bytes)) : io (list (exn + reply) * redisContext) :=
  match argss with
  | [] => done ([], c)
  | args :: argss =>
      io* (o, c) := run c args in
      io* (os, c) := run_all c argss in done (o :: os, c)
  end.
End Redis3m.

(** ** The copy of a reply *)

Fixpoint rep_of (v : value) : reply :=
  match v with
  | V_string ty s => mk_rep ty s 0 []
  | V_integer z => mk_rep REPLY_INTEGER [] z []
  | V_nil => mk_rep REPLY_NIL [] 0 []
  | V_array _ vs => mk_rep REPLY_ARRAY [] 0 (map (fun o => match o with Some v => rep_of v | None => mk_rep 0 [] 0 [] end) vs)
  end.

Lemma make_reply_spec t : forall lvl fuel h, heap_has h t -> (length (nodes t) <= fuel)%nat -> sendable lvl (tree_value t) = true ->
  make_reply fuel h (root t) = Ok (rep_of (tree_value t)).
Proof.
  induction t as [p r kids IH] using rtree_rect_kids. intros lvl [|fuel] h Hh Hf Hs; [cbn in Hf; lia|].
  inversion Hh as [? ? ? Hp Hsh Hk]; subst. cbn [root make_reply tree_value] in *. unfold deref. rewrite Hp. cbn [mbind res_bind].
  set (vs := map _ kids) in *. unfold reply_of in *. unfold shape in Hsh.
  destruct (Z.eqb_spec (r_type r) REPLY_ARRAY) as [Et|Hne].
  - rewrite Et. cbn [Z.eqb orb REPLY_ARRAY REPLY_ERROR REPLY_STRING REPLY_STATUS REPLY_INTEGER Pos.eqb]. cbn [sendable] in Hs.
    apply andb_true_iff in Hs as [[[_ Hn%Z.eqb_eq]%andb_true_iff _]%andb_true_iff Hall]. cbn [rep_of].
    assert (size vs = size kids) as Hvs by (unfold vs, size; by rewrite length_map).
    destruct (Z.ltb_spec 0 (r_elements r)) as [Hpos|Hz].
    + destruct (r_element r) as [l|] eqn:El; [|destruct Hsh as [-> _]; rewrite Hn, Hvs in Hpos; change (0 < 0) in Hpos; lia].
      destruct Hsh as (_ & Hel & ->). cbn [live mbind res_bind]. assert (size (map (fmap root) kids) = size kids) as Hl by (unfold size; by rewrite length_map).
      rewrite Hl, <- Hel, Z.ltb_irrefl. rewrite take_ge by (rewrite length_map; unfold size in Hel; lia).
      enough (copy_elements (make_reply fuel h) (map (fmap root) kids) =
        Ok (map (fun o => match o with Some v => rep_of v | None => mk_rep 0 [] 0 [] end) vs)) as -> by done.
      assert (forall t, Some t ∈ kids -> sendable (S lvl) (tree_value t) = true -> make_reply fuel h (root t) = Ok (rep_of (tree_value t))) as Hkid.
      { intros t Ht Hst. eapply IH; [done|by apply Hk| |done]. pose proof (nodes_length p r kids t Ht). lia. }
      clear -Hkid Hall. unfold vs in *. clear vs. induction kids as [|o kids IHk]; [done|]. cbn [map forallb copy_elements fmap option_fmap option_map] in *.
      apply andb_true_iff in Hall as [Ho Hall]. destruct o as [t|]; [|done]. cbn [fmap option_fmap option_map].
      rewrite Hkid by (first [by left | done]). cbn [mbind res_bind]. rewrite IHk; [done|done|]. intros u Hu. apply Hkid. by right.
    + assert (vs = []) as -> by (apply size_zero; pose proof (size_nonneg vs); lia). done.
  - destruct (Z.eqb_spec (r_type r) REPLY_INTEGER) as [->|Hi]; [done|]. destruct (Z.eqb_spec (r_type r) REPLY_NIL) as [->|Hnil]; [done|].
    cbn [sendable rep_of] in *. destruct (r_element r) as [l|] eqn:El; [by destruct Hsh as [? _]|]. destruct Hsh as [_ Hsz].
    assert (is_text (r_type r) = true) as Htext.
    { unfold is_text. destruct (Z.eqb_spec (r_type r) REPLY_STRING) as [->|]; [done|]. apply andb_true_iff in Hs as [Ht _]. done. }
    destruct (Hsz Htext) as (s & Es & El2). unfold copy_str. rewrite Es in *. rewrite El2. cbn [live mbind res_bind].
    pose proof (size_nonneg s). destruct (Z.ltb_spec (size s) 0); [lia|]. destruct (Z.ltb_spec (size s + 1) (size s)); [lia|].
    rewrite size_to_nat, take_app_length. unfold is_text in Htext.
    destruct (r_type r =? REPLY_STRING), (r_type r =? REPLY_STATUS), (r_type r =? REPLY_ERROR); done.
Qed.

(** ** Sessions *)

Section Session.
Context `{Allocator} `{Strerror}.
Hypothesis Hg : granted.
Variable fd : Z.

(** The reply to what waits, which arrives before the events [after]. *)
Lemma get_reply_spec after c o n w rest v :
  conn fd c o [] (-1) [] n -> size o <= 2 ^ 29 -> drain w.(w_out) (length o) = Some rest ->
  arrives after w (encode v) -> n + size (encode v) <= 2 ^ 29 -> sendable 0 v = true ->
  exists c' w' n', get_reply c w = Ok (Some ((checked (rep_of v), c'), w')) /\ conn fd c' [] [] (-1) [] n' /\
    arrives after w' [] /\ n' <= n + size (encode v) /\ same_out (with_out w rest o) w'.
Proof using Hg.
  intros Hc Ho Hd Ha Hsz Hv.
  assert (parse [] (-1) ([] ++ encode v) = o_reply v []) as Hp.
  { rewrite <- (app_nil_r ([] ++ encode v)). cbn [app]. by rewrite parse_encode. }
  destruct (redisGetReply_spec Hg fd after c o [] n w rest (encode v) v _ Hc ltac:(by right) Ho Hd Ha Hsz Hp)
    as (c1 & r & t & w1 & n1 & d1 & x1 & E1 & Hc1 & Hr & Hi & Ht & Hnd & Hval & Ha1 & Ez & Hn1 & Hout).
  symmetry in Ez. apply app_nil in Ez as [-> ->]. change (size (@nil byte)) with 0 in Hn1.
  unfold get_reply. rewrite (io_bind_done _ _ _ _ _ E1), Hr. cbn [REDIS_OK Z.eqb negb live].
  rewrite (io_bind_done _ _ r w1 w1 eq_refl).
  rewrite (make_reply_spec t 0); [|done|pose proof (nodes_heap_length _ _ Ht Hnd); lia|by rewrite Hval]. rewrite Hval.
  pose proof Hc1 as (He1 & Hbl1 & Ho1 & r' & Er' & Hst & Hlen). rewrite Hr in Er'. injection Er' as <-.
  destruct (free_state r t [] Hst Hi Ht Hnd) as (h & -> & Hst2). rewrite (io_bind_done _ _ h w1 w1 eq_refl).
  exists (set_reader c1 (set_heap r h)), w1, n1. split; [done|]. split; [|by split_and!; try lia].
  split; [done|]. split; [done|]. split; [done|]. by exists (set_heap r h).
Qed.

Lemma append_spec c ls ty d n args : conn fd c [] ls ty d n -> size (request_bytes args) + 128 <= 2 ^ 29 ->
  exists c', append c args = Ok (inr (), c') /\ conn fd c' (request_bytes args) ls ty d n.
Proof using Hg.
  intros Hc Hsz. assert (argv_is args (Some (map size args)) args) as Ha.
  { split; [unfold size; by rewrite length_map|]. split; [|done]. clear. induction args as [|a args IH]; [constructor|].
    constructor; [|exact IH]. split; [done|]. exists []. by rewrite app_nil_r. }
  destruct (redisAppendCommandArgv_spec Hg fd c [] ls ty d n _ _ _ Hc Ha) as (c' & E & Hc'); [change (size (@nil byte)) with 0; lia|].
  exists c'. unfold append. by rewrite E.
Qed.

(** [pre] arrives with no bytes, then the replies, each in its own events. *)
Lemma run_all_spec argss : forall vs ins c n w rest pre, length argss = length vs ->
  conn fd c [] [] (-1) [] n -> Forall (fun args => size (request_bytes args) + 128 <= 2 ^ 29) argss ->
  Forall (fun v => sendable 0 v = true) vs -> drains w.(w_out) (map (fun args => length (request_bytes args)) argss) = Some rest ->
  Forall2 (fun l v => arriving l = Some (encode v)) ins vs -> w.(w_in) = pre ++ concat ins -> arriving pre = Some [] ->
  n + size (encodes vs) <= 2 ^ 29 ->
  exists c' w', run_all c argss w = Ok (Some ((map (fun v => checked (rep_of v)) vs, c'), w')) /\ (exists n', conn fd c' [] [] (-1) [] n') /\
    w'.(w_sent) = w.(w_sent) ++ requests argss.
Proof using Hg.
  induction argss as [|args argss IH]; intros [|v vs] ins c n w rest pre Hl Hc Hargs Hvs Hd Hin Hw Hpre Hsz; try done.
  { exists c, w. split; [done|]. split; [by exists n|]. by rewrite app_nil_r. }
  apply Forall_cons_iff in Hargs as [Ha Hargs]. apply Forall_cons_iff in Hvs as [Hv Hvs].
  inversion Hin as [|l ? ins' ? Hlv Hin' E1 E2]; subst. cbn [concat] in Hw. cbn [map drains] in Hd.
  destruct (drain (w_out w) (length (request_bytes args))) as [rest1|] eqn:Ed; [|done].
  change (encodes (v :: vs)) with (encode v ++ encodes vs) in Hsz. rewrite size_app in Hsz. pose proof (size_nonneg (encodes vs)).
  destruct (append_spec c _ _ _ _ args Hc Ha) as (c1 & Ea & Hc1).
  assert (arrives (concat ins') w (encode v)) as Harr.
  { exists (pre ++ l). rewrite <- app_assoc. split; [done|]. by apply (arriving_app pre l []). }
  pose proof (size_nonneg (request_bytes args)).
  destruct (get_reply_spec _ c1 _ n w rest1 v Hc1 ltac:(lia) Ed Harr ltac:(lia) Hv) as (c2 & w2 & n2 & Er & Hc2 & (pre' & Hw2 & Hpre') & Hn2 & O1 & O2 & O3).
  assert (run c args w = Ok (Some ((checked (rep_of v), c2), w2))) as Erun.
  { unfold run. rewrite Ea. by rewrite (io_bind_done _ _ (inr (), c1) w w eq_refl). }
  cbn [run_all]. rewrite (io_bind_done _ _ _ _ _ Erun).
  destruct (IH vs ins' c2 n2 w2 rest pre') as (c3 & w3 & E3 & He3 & S3); [by injection Hl|done|done|done|by rewrite O1|done|done|done|lia|].
  rewrite (io_bind_done _ _ _ _ _ E3). exists c3, w3. split; [done|]. split; [done|]. rewrite S3, O2. cbn. unfold requests. cbn [map concat]. by rewrite <- app_assoc.
Qed.
End Session.
