(* ===== verification/RedisClient.v ===== *)
(** * [src/src/redis3m.hpp], [src/win/hiredis]: a client of Redis, from connecting to
    its replies.

    The constructor of [redis3m::connection] over the sockets of Net; then its
    commands over the world that answers reads and writes. *)
From S2P Require Import Prelude CxxString Sds SdsText HiredisFormat HiredisReply HiredisReader HiredisReaderInput HiredisReplyTree HiredisReaderSpec HiredisProtocol HiredisReaderRefine HiredisStream HiredisContext HiredisPipeline Net NetSpec Pool Redis3m.

Section Client.
Context `{Kernel} `{Gai} `{Strerror} `{Allocator}.

(** [redis3m::connection::connection], [redis3m::connection::connect]: a connection,
    or what the constructor throws. *)
Definition client_connect (host : bytes) (port : Z) (pooled_ : bool) (now : Z) : net (exn + connection redisContext) :=
  net* o := redisConnectWithTimeout (c_str host) port (mk_timeval 1 0) in
  match new_connection (n_c <$> o) now pooled_ with
  | Ok c => ret (inr c)
  | Throw e => ret (inl e)
  | UB u => need (UB u)
  end.

(** [~connection] *)
Definition client_destroy (c : connection redisContext) : net unit := free_context (of_context c.(handle)).

(** A context that is ready can be freed. *)
Lemma destroy_ready base lost i c now pooled_ n s : owns base lost i c.(c_fd) s -> conn c.(c_fd) c [] [] (-1) [] n ->
  exists s', client_destroy (mk_connection c now pooled_) s = Ok (tt, s') /\ s'.(p_open) = base ∪ lost.
Proof using.
  intros Ho (_ & _ & _ & r & Er & Hst & _). destruct (free_reader r _ _ _ Hst) as (h & Eh).
  destruct (free_context_spec base lost i (of_context c) s Ho) as (s' & E & Hopen & _); [by exists r, h|]. by exists s'.
Qed.
End Client.

(** ** The property *)

(** C16: A client of Redis from beginning to end, whatever the kernel answers while it
    connects.  The constructor throws, and then at most the descriptor of its context
    is left open; or the client has a descriptor of its own that blocks.  Commands
    with any arguments, run one after the other over a healthy socket, are then each
    answered with their own reply [v], which arrives cut anywhere and interrupted any
    number of times, as the writes are: [run] returns the copy of the reply - text
    with the length it had, integers, arrays with their elements - or throws when it
    is a READONLY error; the requests go out whole and in order.  The destructor
    gives the descriptor back. *)
Theorem client_answered `{Kernel} `{Gai} `{Strerror} `{Allocator} host port pooled_ now base s :
  granted -> 0 ∈ base -> s.(p_open) = base -> s.(p_stray) = [] ->
  exists r s', client_connect host port pooled_ now s = Ok (r, s') /\
  match r with
  | inl e => e = runtime_error (str "redisConnectWithTimeout failed") /\ exists fd, s'.(p_open) = mine fd ∪ base
  | inr x => let fd := x.(handle).(c_fd) in
      x.(is_pooled) = pooled_ /\ 0 < fd /\ fd ∉ base /\ s'.(p_open) = {[ fd ]} ∪ base /\ fd ∉ s'.(p_nonblock) /\
      forall argss vs ins w rest, length argss = length vs ->
        Forall (fun args => size (request_bytes args) + 128 <= 2 ^ 29) argss ->
        Forall (fun v => sendable 0 v = true) vs -> size (encodes vs) <= 2 ^ 29 ->
        Forall2 (fun l v => arriving l = Some (encode v)) ins vs -> w.(w_in) = concat ins ->
        drains w.(w_out) (map (fun args => length (request_bytes args)) argss) = Some rest ->
        exists c' w' s'', run_all x.(handle) argss w = Ok (Some ((map (fun v => checked (rep_of v)) vs, c'), w')) /\
          w'.(w_sent) = w.(w_sent) ++ requests argss /\
          client_destroy (mk_connection c' now pooled_) s' = Ok (tt, s'') /\ s''.(p_open) = base
  end.
Proof.
  intros Hg H0base Hopen Hstray.
  pose proof (connect_by_spec (c_redisConnectWithTimeout (c_str host) port (mk_timeval 1 0)) base s Hg I ltac:(by split; apply Z.leb_le) H0base Hopen Hstray) as Hr.
  unfold client_connect, net_bind. unfold runs in Hr. cbn [connect_by] in Hr. destruct (redisConnectWithTimeout _ _ _ _) as [[o s']| |]; [|done..].
  destruct Hr as (n0 & n & x & -> & Hfresh & n1 & En & lost & Hl & _ & Hs). rewrite (Hl eq_refl) in Hs. clear Hl lost. cbn [mbind res_bind fmap option_fmap option_map].
  unfold new_connection. cbn [live mbind res_bind]. destruct Hs as [(Hx & Hj)|(Hx & Hf)].
  - destruct (joined_context _ _ _ _ _ _ _ n _ Hfresh En Hj) as (_ & He & Hc & _). destruct Hj as (_ & Hfd & Ho & Hb). cbn in Hfd, Ho, Hb. specialize (Hc eq_refl).
    rewrite He. change (negb (0 =? REDIS_OK)) with false. eexists _, s'. split; [done|]. cbn [handle is_pooled]. change (c_fd (n_c n)) with (fd_of n).
    pose proof (o_open _ _ _ _ _ Ho) as Hop. pose proof (o_fresh _ _ _ _ _ Ho Hfd) as Hnew. rewrite union_empty_r_L in Hop, Hnew. rewrite mine_pos in Hop by done.
    split_and!; [done|done|done|done|by rewrite Hb|]. intros argss vs ins w rest Hlen Hargs Hvs Hsz Hin Hw Hd.
    destruct (run_all_spec Hg (fd_of n) argss vs ins (n_c n) 0 w rest [] Hlen Hc Hargs Hvs Hd Hin Hw eq_refl ltac:(lia)) as (c' & w' & E' & (n' & Hc') & Hsent).
    assert (c_fd c' = fd_of n) as Efd by apply Hc'. rewrite <- Efd in Ho, Hc'. destruct (destroy_ready _ _ _ _ now pooled_ _ _ Ho Hc') as (s'' & Es & Hclosed).
    exists c', w', s''. split_and!; [done|done|done|]. by rewrite Hclosed, union_empty_r_L.
  - destruct Hf as (j & Ho & _ & Hre). cbn in Ho, Hre. destruct (Hre eq_refl) as [Herr _]. destruct (Z.eqb_spec (c_err (n_c n)) REDIS_OK) as [|_]; [done|]. cbn [negb].
    eexists _, s'. split; [done|]. split; [done|]. exists (fd_of n). pose proof (o_open _ _ _ _ _ Ho) as Hop. by rewrite union_empty_r_L in Hop.
Qed.

#[local] Instance plain_gai : Gai := fun _ => [].
#[local] Instance plain_strerror : Strerror := fun _ => [].
#[local] Instance no_limit : Allocator := fun _ => true.

Definition client_requests : list (list bytes) :=
  [command (command [] (op_string (str "SELECT"))) (op_number (-2)); [str "MGET"; str "a"; str "b"]; [str "SET"; str "a"; [Byte.x00]]].
Definition client_replies : list value :=
  [V_string REPLY_STATUS (str "OK"); V_array 2 [Some (V_integer 7); Some V_nil]; V_string REPLY_ERROR (str "READONLY no")].
Definition client_input : list (list in_event) :=
  [[in_data (str "+O"); in_errno EINTR; in_data (str "K" ++ crlf); in_errno EINTR];
   [in_data (str "*2" ++ crlf ++ str ":7" ++ [CR]); in_data (NL :: str "$-1" ++ crlf)]; [in_data (str "-READONLY no" ++ crlf)]].
Definition client_world : world := mk_world (concat client_input) [out_taken 9; out_errno EINTR; out_taken 99; out_taken 99; out_taken 1; out_taken 99] [] [].

Lemma client_answered_witness :
  match client_connect (H := kernel_but []) (str "db") 6379 true 10 shell with
  | Ok (inr x, s') => exists c' w' s'', run_all x.(handle) client_requests client_world =
        Ok (Some (([inr (mk_rep REPLY_STATUS (str "OK") 0 []);
          inr (mk_rep REPLY_ARRAY [] 0 [mk_rep REPLY_INTEGER [] 7 []; mk_rep REPLY_NIL [] 0 []]); inl (runtime_error (str "read only"))], c'), w')) /\
      client_destroy (H := kernel_but []) (mk_connection c' 10 true) s' = Ok (tt, s'') /\ s''.(p_open) = std_fds
  | _ => False
  end.
Proof.
  destruct (client_answered (H := kernel_but []) (str "db") 6379 true 10 std_fds shell) as (r & s' & E & Hr); [done|by apply elem_of_union_l, elem_of_union_l, elem_of_singleton|done|done|].
  rewrite E. destruct r as [e|x]; [vm_compute in E; discriminate E|]. destruct Hr as (_ & _ & _ & _ & _ & Hrun).
  destruct (Hrun client_requests client_replies client_input client_world []) as (c' & w' & s'' & E' & _ & Ed & Ho);
    [done|repeat (constructor; [by vm_compute|]); constructor|repeat (constructor; [by vm_compute|]); constructor|by vm_compute|
     repeat (constructor; [by vm_compute|]); constructor|done|by vm_compute|].
  exists c', w', s''. split; [exact E'|]. by split.
Defined.
