(* ===== verification/HiredisProgram.v ===== *)
(** * Programs over hiredis.

    What the programs under [src/win/hiredis] - the tests, the example - do between
    the calls of the library: a process with its sockets, a conversation on each, and
    what is printed.  A socket that is connected speaks to the next [peer]; a program
    returns, exits, or waits for something that its peer does not send. *)
From S2P Require Import Prelude CxxString Sds SdsRefine SdsText HiredisFormat HiredisReply HiredisReader HiredisReaderInput HiredisReplyTree HiredisReaderSpec HiredisProtocol HiredisReaderRefine HiredisStream HiredisContext HiredisPipeline Net NetSpec.

(** The process, the conversations of its sockets, how many there were, how often the
    time was asked for, what was printed, and the conditions that were tested. *)
Record program : Type := mk_program {
  g_net : process; g_socks : gmap Z world; g_peers : nat; g_times : nat; g_out : list bytes; g_verdicts : list bool }.

(** Who accepts the connections, in their order. *)
Class Peers : Type := peer : nat -> world.

Definition with_net (g : program) (s : process) : program := mk_program s g.(g_socks) g.(g_peers) g.(g_times) g.(g_out) g.(g_verdicts).
Definition with_socks (g : program) (m : gmap Z world) : program := mk_program g.(g_net) m g.(g_peers) g.(g_times) g.(g_out) g.(g_verdicts).
Definition with_errno (g : program) (e : errno) : program :=
  let s := g.(g_net) in with_net g (mk_process s.(p_calls) e s.(p_open) s.(p_nonblock) s.(p_stray) s.(p_infos)).

(** A value, or the code given to [exit]; [None] waits. *)
Definition prog (A : Type) : Type := program -> res (option ((Z + A) * program)).
Definition p_ret {A} (a : A) : prog A := fun g => Ok (Some (inr a, g)).
Definition p_exit {A} (code : Z) : prog A := fun g => Ok (Some (inl code, g)).
Definition p_need {A} (m : res A) : prog A := fun g => let* a := m in p_ret a g.
Definition p_bind {A B} (m : prog A) (f : A -> prog B) : prog B := fun g =>
  let* o := m g in
  match o with None => Ok None | Some (inl code, g) => p_exit code g | Some (inr a, g) => f a g end.

Notation "'p*' x ':=' m 'in' k" := (p_bind m (fun x => k))
  (at level 10, x pattern, m at level 100, k at level 200) : cxx_scope.

(** [printf] of a whole line. *)
Definition print_line (text : bytes) : prog unit := fun g =>
  p_ret tt (mk_program g.(g_net) g.(g_socks) g.(g_peers) g.(g_times) (g.(g_out) ++ [text]) g.(g_verdicts)).

(** [assert] *)
Definition assert_that (b : bool) : prog unit := if b then p_ret tt else p_need (UB assertion_failed).

(** [for (j = i; j < i + n; j++)] *)
Fixpoint p_for (i : Z) (n : nat) {A} (body : Z -> A -> prog A) (a : A) : prog A :=
  match n with O => p_ret a | S n => p* a := body i a in p_for (i + 1) n body a end.

(** [&&] *)
Definition also (a b : res bool) : res bool := let* x := a in if x : bool then b else Ok false.
Notation "a &&& b" := (also a b) (at level 40, left associativity) : cxx_scope.

(** [strtol(s, &end, 10)]: the number and what follows it; nothing is consumed when
    there is none. *)
Fixpoint digits_end (s : bytes) : bytes := match s with c :: s' => if isdigit c then digits_end s' else s | [] => [] end.
Definition strtol_end (s : bytes) : Z * bytes :=
  let '(neg, d) := read_sign (skip_space s) in
  match d with
  | c :: _ => if isdigit c then (let m := read_digits 10 d 0 in if neg then Z.max LONG_MIN (- m) else Z.min LONG_MAX m, digits_end d) else (0, s)
  | [] => (0, s)
  end.
Definition atoi (s : bytes) : Z := wrap32 (strtol_end (c_str s)).1.

(** ** Sockets *)

(** What a descriptor that is no socket answers. *)
Definition EBADF : errno := errno_other 9.
Definition no_socket : world := mk_world [in_errno EBADF] [out_errno EBADF] [] [].

(** The error of the last call that failed; the reads of a call follow its writes. *)
Fixpoint last_in (l : list in_event) (e : errno) : errno :=
  match l with [] => e | in_errno e :: l => last_in l e | _ :: l => last_in l e end.
Fixpoint last_out (l : list out_event) (e : errno) : errno :=
  match l with [] => e | out_errno e :: l => last_out l e | _ :: l => last_out l e end.
Definition errno_after (w w' : world) (e : errno) : errno :=
  last_in (take (length w.(w_in) - length w'.(w_in)) w.(w_in)) (last_out (take (length w.(w_out) - length w'.(w_out)) w.(w_out)) e).

Definition on_net {A} (m : net A) : prog A := fun g => let* (a, s) := m g.(g_net) in p_ret a (with_net g s).
Definition on_socket {A} (fd : Z) (m : io A) : prog A := fun g =>
  let w := default no_socket (g.(g_socks) !! fd) in
  let* o := m w in
  match o with
  | None => Ok None
  | Some (a, w') => p_ret a (with_errno (with_socks g (<[fd := w']> g.(g_socks))) (errno_after w w' g.(g_net).(p_errno)))
  end.

(** A context that was just connected speaks to the next peer. *)
Definition accepted `{Peers} (n : net_context) : prog unit := fun g =>
  if (n.(n_c).(c_err) =? 0) && (0 <? fd_of n) then
    p_ret tt (mk_program g.(g_net) (<[fd_of n := peer g.(g_peers)]> g.(g_socks)) (S g.(g_peers)) g.(g_times) g.(g_out) g.(g_verdicts))
  else p_ret tt g.

(** ** The library *)

Section Calls.
Context `{Kernel} `{Gai} `{Strerror} `{Allocator} `{Printf} `{Peers}.

(** One of the functions that connect. *)
Definition connecting (m : net (option net_context)) : prog (option net_context) :=
  p* o := on_net m in
  match o with
  | None => p_ret None
  | Some n => p* _ := accepted n in p_ret (Some n)
  end.

(** [redisReconnect]; [n->timeout] stays. *)
Definition reconnecting (n : net_context) : prog (Z * net_context) :=
  p* (k, n) := on_net (redisReconnect n) in p* _ := accepted n in p_ret (k, n).

(** [redisFree] of a context. *)
Definition freeing (n : net_context) : prog unit := on_net (free_context n).

(** [redisCommand] *)
Definition commanding (n : net_context) (format : bytes) (ap : list va) : prog (option obj * net_context) :=
  p* (reply, c) := on_socket (fd_of n) (redisCommand n.(n_c) format ap) in p_ret (reply, with_c n c).

(** [redisGetReply] *)
Definition getting (n : net_context) : prog (Z * option obj * net_context) :=
  p* (k, reply, c) := on_socket (fd_of n) (redisGetReply n.(n_c)) in p_ret (k, reply, with_c n c).

(** The members of a reply, and of [reply->element[i]]. *)
Definition heap_of (n : net_context) : res heap := let* r := live n.(n_c).(c_reader) in Ok r.(rd_heap).
Definition member (n : net_context) (reply : option obj) : res redisReply :=
  match reply with
  | None => UB null_pointer
  | Some (obj_const _) => UB dangling_pointer
  | Some (obj_reply p) => let* h := heap_of n in deref h p
  end.
Definition element (n : net_context) (r : redisReply) (i : Z) : res redisReply :=
  let* l := live r.(r_element) in
  match l !! Z.to_nat i with
  | Some o => member n (obj_reply <$> o)
  | None => UB index_out_of_bounds
  end.

(** A C string that is read: the text of a reply, up to its NUL. *)
Definition text_of (r : redisReply) : res bytes := let* s := live r.(r_str) in Ok (c_str s).

(** [memcmp(r->str, expected, size expected) == 0]; the NUL after the text can be read. *)
Definition mem_is (r : redisReply) (expected : bytes) : res bool :=
  let* s := live r.(r_str) in
  if size s + 1 <? size expected then UB index_out_of_bounds
  else Ok (take (length expected) (s ++ [Byte.x00]) =s expected).

(** [freeReplyObject], which takes [NULL]. *)
Definition freeing_reply (n : net_context) (reply : option obj) : prog net_context :=
  match reply with
  | None => p_ret n
  | Some (obj_const _) => p_need (UB dangling_pointer)
  | Some (obj_reply p) =>
      p* r := p_need (live n.(n_c).(c_reader)) in
      p* h := p_need (freeReplyObject (S (length r.(rd_heap))) r.(rd_heap) p) in
      p_ret (with_c n (set_reader n.(n_c) (set_heap r h)))
  end.
End Calls.

(** ** What a program does *)

(** [m] ends: [Q] holds of its value, or its exit code, and the program. *)
Definition does {A} (m : prog A) (g : program) (Q : Z + A -> program -> Prop) : Prop :=
  match m g with Ok (Some (r, g')) => Q r g' | _ => False end.

Section Does.
Context {A B : Type}.

Lemma does_ret (a : A) g (Q : Z + A -> program -> Prop) : Q (inr a) g -> does (p_ret a) g Q.
Proof using. done. Qed.

Lemma does_need (m : res A) a g (Q : Z + A -> program -> Prop) : m = Ok a -> Q (inr a) g -> does (p_need m) g Q.
Proof using. intros -> HQ. done. Qed.

Lemma does_bind (m : prog A) (f : A -> prog B) g (Q : Z + B -> program -> Prop) :
  does m g (fun r g' => match r with inl code => Q (inl code) g' | inr a => does (f a) g' Q end) -> does (p_bind m f) g Q.
Proof using. unfold does, p_bind. destruct (m g) as [[[[code|a] g']|]| |]; cbn; done. Qed.

Lemma does_assoc {C} (m : prog C) (h : C -> prog A) (f : A -> prog B) g (Q : Z + B -> program -> Prop) :
  does (p_bind m (fun x => p_bind (h x) f)) g Q -> does (p_bind (p_bind m h) f) g Q.
Proof using. unfold does, p_bind. destruct (m g) as [[[[code|x] g']|]| |]; cbn; done. Qed.

Lemma does_mono (m : prog A) g (Q R : Z + A -> program -> Prop) : does m g R -> (forall r g', R r g' -> Q r g') -> does m g Q.
Proof using. unfold does. destruct (m g) as [[[r g']|]| |]; [|done..]. auto. Qed.

Lemma does_run (m : prog A) g (Q : Z + A -> program -> Prop) : does m g Q -> exists r g', m g = Ok (Some (r, g')) /\ Q r g'.
Proof using. unfold does. destruct (m g) as [[[r g']|]| |]; [|done..]. intros HQ. by exists r, g'. Qed.

Lemma does_net (m : net A) g (Q : Z + A -> program -> Prop) : runs m g.(g_net) (fun a s => Q (inr a) (with_net g s)) -> does (on_net m) g Q.
Proof using. unfold runs, does, on_net. destruct (m _) as [[a s]| |]; done. Qed.
End Does.

(** A conversation that is still to come: for each turn, the arguments of a command
    and the reply to it, which arrives in its own events after those of [pre]. *)
Definition serves (w : world) (turns : list (list bytes * value)) : Prop :=
  exists pre ins rest, drains w.(w_out) (map (fun t => length (request_bytes t.1)) turns) = Some rest /\
    Forall2 (fun l t => arriving l = Some (encode t.2)) ins turns /\ w.(w_in) = pre ++ concat ins /\ arriving pre = Some [].

Definition speakable (t : list bytes * value) : Prop := size (request_bytes t.1) + 128 <= 2 ^ 29 /\ sendable 0 t.2 = true.

Lemma speakable_combine dss vs : forallb (fun ds => size (request_bytes ds) + 128 <=? 2 ^ 29) dss = true -> forallb (sendable 0) vs = true ->
  Forall speakable (combine dss vs).
Proof.
  intros Hds Hvs. apply Forall_forall. intros [ds v] Hin%list_elem_of_In. rewrite forallb_forall in Hds, Hvs. split.
  - apply in_combine_l in Hin. by apply Z.leb_le, Hds.
  - apply in_combine_r in Hin. by apply Hvs.
Qed.

Section Talk.
Context `{Kernel} `{Gai} `{Strerror} `{Allocator} `{Printf} `{Peers}.
Hypothesis Hg : granted.

(** A program that has a healthy context, over a socket with [turns] to come. *)
Record talks (base : gset Z) (sent : bytes) (n : net_context) (turns : list (list bytes * value)) (g : program) : Prop := {
  t_owns : exists i, owns base ∅ i (fd_of n) g.(g_net);
  t_fd : 0 < fd_of n;
  t_blocks : fd_of n ∉ g.(g_net).(p_nonblock);
  t_conn : exists k, conn (fd_of n) n.(n_c) [] [] (-1) [] k /\ k + size (encodes (map snd turns)) <= 2 ^ 29;
  t_turns : Forall speakable turns;
  t_world : exists w, g.(g_socks) !! fd_of n = Some w /\ serves w turns /\ w.(w_sent) = sent }.

(** The context's heap has the tree of a reply. *)
Definition holds_reply (n : net_context) (t : rtree) : Prop :=
  exists r, n.(n_c).(c_reader) = Some r /\ r.(rd_ridx) = -1 /\ heap_has r.(rd_heap) t /\ NoDup (nodes t).

(** A command and its reply. *)
Lemma vappend_spec fd c ls ty d k ps : conn fd c [] ls ty d k -> Forall piece_ok ps -> weight ps <= 2 ^ 29 - 2 ^ 10 ->
  size (request_bytes (command_of ps [] false)) + 128 <= 2 ^ 29 ->
  exists c', redisvAppendCommand c (concat (map piece_text ps)) (concat (map piece_args ps)) = Ok (REDIS_OK, c') /\
    conn fd c' (request_bytes (command_of ps [] false)) ls ty d k.
Proof using Hg.
  intros (He & Hbl & (s & Es & Hs) & Hr) Hps Hw Hsz. unfold redisvAppendCommand.
  destruct (format_yields ps Hps Hw) as ([len target] & -> & Hf). cbn [mbind res_bind formatted] in *.
  set (ds := command_of ps [] false) in *. pose proof (size_nonneg (request_bytes ds)).
  destruct target as [m|]; [|destruct Hf as [_ Href]; by destruct (not_refused Hg)]. destruct Hf as [-> ->].
  destruct (Z.eqb_spec (size (request_bytes ds)) (-1)); [lia|]. destruct (Z.eqb_spec (size (request_bytes ds)) (-2)); [lia|].
  cbn [live mbind res_bind]. rewrite wrap64_id by lia. rewrite mem_read_prefix by done. cbn [mbind res_bind].
  unfold redisAppend. rewrite Es. cbn [live mbind res_bind].
  pose proof (sdscatlen_spec s [] (request_bytes ds) Hs ltac:(change (size (@nil byte)) with 0; lia)) as Hp. unfold post in Hp.
  destruct (sdscatlen s (request_bytes ds)) as [[s2|]| |]; cbn [mbind res_bind]; try done; [|by destruct (not_refused Hg)].
  cbn. eexists. split; [done|]. split; [done|]. split; [done|]. split; [by exists s2|done].
Qed.

Lemma commanding_spec base sent n ps v turns g : talks base sent n ((command_of ps [] false, v) :: turns) g ->
  Forall piece_ok ps -> weight ps <= 2 ^ 29 - 2 ^ 10 ->
  does (commanding n (concat (map piece_text ps)) (concat (map piece_args ps))) g (fun r g' => exists t n',
    r = inr (Some (obj_reply (root t)), n') /\ tree_value t = v /\ holds_reply n' t /\
    talks base (sent ++ request_bytes (command_of ps [] false)) n' turns g' /\ fd_of n' = fd_of n /\
    g'.(g_out) = g.(g_out) /\ g'.(g_verdicts) = g.(g_verdicts) /\ g'.(g_peers) = g.(g_peers)).
Proof using Hg.
  intros [(i & Ho) Hfd Hnb (k & Hc & Hk) Ht (w & Ew & (pre & ins & rest & Hd & Hins & Hin & Hpre) & Hsent)] Hps Hw.
  set (ds := command_of ps [] false) in *. apply Forall_cons_iff in Ht as [[Hsz Hv] Ht]. cbn [fst snd] in Hsz, Hv.
  inversion Hins as [|l ? ins' ? Hl Hins' E1 E2]; subst. cbn [concat snd] in *. cbn [map drains fst] in Hd.
  destruct (drain (w_out w) (length (request_bytes ds))) as [rest1|] eqn:Ed; [|done].
  change (encodes (map snd ((ds, v) :: turns))) with (encode v ++ encodes (map snd turns)) in Hk. rewrite size_app in Hk.
  pose proof (size_nonneg (encodes (map snd turns))). pose proof (size_nonneg (request_bytes ds)).
  destruct (vappend_spec _ _ _ _ _ _ ps Hc Hps Hw Hsz) as (c1 & Ea & Hc1). fold ds in Hc1.
  assert (arrives (concat ins') w (encode v)) as Harr.
  { exists (pre ++ l). rewrite <- app_assoc. split; [done|]. by apply (arriving_app pre l []). }
  assert (parse [] (-1) ([] ++ encode v) = o_reply v []) as Hp.
  { rewrite <- (app_nil_r ([] ++ encode v)). cbn [app]. by rewrite parse_encode. }
  destruct (redisGetReply_spec Hg (fd_of n) (concat ins') c1 (request_bytes ds) [] k w rest1 (encode v) v _ Hc1 ltac:(by right) ltac:(lia) Ed Harr ltac:(lia) Hp)
    as (c2 & r & t & w1 & n1 & d1 & x1 & E & Hc2 & Hr & Hi & Hh & Hnd & Hval & Ha1 & Ez & Hn1 & (O1 & O2 & O3)).
  symmetry in Ez. apply app_nil in Ez as [-> ->]. change (size (@nil byte)) with 0 in Hn1.
  assert (redisCommand n.(n_c) (concat (map piece_text ps)) (concat (map piece_args ps)) w = Ok (Some ((Some (obj_reply (root t)), c2), w1))) as Ecmd.
  { unfold redisCommand, redisvCommand. unfold io_bind at 1. unfold io_bind at 1. unfold lift at 1. rewrite Ea. cbn [mbind res_bind REDIS_OK Z.eqb negb].
    unfold redisBlockForReply. destruct Hc1 as (_ & [-> _] & _). rewrite (io_bind_done _ _ _ _ _ E). done. }
  unfold commanding, on_socket. apply does_bind. unfold does. rewrite Ew. change (default no_socket (Some w)) with w. rewrite Ecmd. cbn [mbind res_bind p_ret].
  assert (fd_of (with_c n c2) = fd_of n) as Efd by apply Hc2.
  exists t, (with_c n c2). split_and!; [done|done|by exists r| |done|done..].
  destruct Ha1 as (pre' & Hin' & Hpre'). constructor; rewrite ?Efd; cbn [with_errno with_socks with_net g_net g_socks p_nonblock]; [|done|done| |done|].
  - exists i. by destruct Ho; constructor.
  - exists n1. split; [done|lia].
  - exists w1. rewrite lookup_insert_eq. split; [done|]. split.
    + exists pre', ins', rest. by rewrite O1.
    + by rewrite O2.
Qed.

(** Freeing a reply that the context holds. *)
Lemma freeing_reply_spec base sent n t turns g : talks base sent n turns g -> holds_reply n t ->
  does (freeing_reply n (Some (obj_reply (root t)))) g (fun r g' => exists n', r = inr n' /\ g' = g /\ talks base sent n' turns g /\ fd_of n' = fd_of n).
Proof using.
  intros [Ho Hfd Hnb (k & Hc & Hk) Ht Hw] (r & Er & Hi & Hh & Hnd). unfold freeing_reply. rewrite Er.
  apply does_bind, (does_need _ r); [done|]. pose proof Hc as (He & Hbl & Hob & r' & Er' & Hst & Hlen). rewrite Er in Er'. injection Er' as <-.
  destruct (free_state r t [] Hst Hi Hh Hnd) as (h & Eh & Hst2). apply does_bind, (does_need _ h); [done|]. apply does_ret.
  eexists. split_and!; [done|done| |done]. constructor; [done..| |done|done]. exists k. split; [|done].
  split; [done|]. split; [done|]. split; [done|]. by exists (set_heap r h).
Qed.

(** A context that can be freed. *)
Definition freeable (base : gset Z) (n : net_context) (g : program) : Prop :=
  (exists i, owns base ∅ i (fd_of n) g.(g_net)) /\ exists r h, n.(n_c).(c_reader) = Some r /\ redisReaderFree r = Ok h.

Lemma talks_freeable base sent n turns g : talks base sent n turns g -> freeable base n g.
Proof using.
  intros [Ho Hfd Hnb (k & Hc & Hk) Ht Hw]. split; [done|]. destruct Hc as (_ & _ & _ & r & Er & Hst & _).
  destruct (free_reader r _ _ _ Hst) as (h & Eh). by exists r, h.
Qed.

(** What a call of the process leaves of the program. *)
Definition same_program (g g' : program) : Prop :=
  g'.(g_out) = g.(g_out) /\ g'.(g_verdicts) = g.(g_verdicts) /\ g'.(g_times) = g.(g_times).

Lemma freeing_spec base n g : freeable base n g ->
  does (freeing n) g (fun r g' => r = inr tt /\ g'.(g_net).(p_open) = base /\ g'.(g_net).(p_stray) = [] /\ same_program g g' /\ g'.(g_peers) = g.(g_peers) /\ g'.(g_socks) = g.(g_socks)).
Proof using.
  intros [(i & Ho) Hr]. destruct (free_context_spec base ∅ i n g.(g_net) Ho Hr) as (s' & E & Hopen & Hstray).
  apply does_net. unfold runs. rewrite E. cbn [with_net g_net g_out g_verdicts g_peers g_socks].
  split_and!; try done. by rewrite Hopen, union_empty_r_L.
Qed.

Lemma accepted_spec n g (Q : Z + unit -> program -> Prop) :
  (n.(n_c).(c_err) = 0 -> 0 < fd_of n -> Q (inr tt) (mk_program g.(g_net) (<[fd_of n := peer g.(g_peers)]> g.(g_socks)) (S g.(g_peers)) g.(g_times) g.(g_out) g.(g_verdicts))) ->
  (n.(n_c).(c_err) = 0 -> fd_of n <= 0 -> Q (inr tt) g) -> (n.(n_c).(c_err) <> 0 -> Q (inr tt) g) -> does (accepted n) g Q.
Proof using.
  intros H1' H2' H3'. unfold does, accepted. destruct (Z.eqb_spec (c_err (n_c n)) 0), (Z.ltb_spec 0 (fd_of n)); cbn [andb p_ret]; auto.
Qed.

(** A function that connects and waits: a conversation, or a context with an error. *)
Lemma connecting_spec k base turns g : blocks k = true -> timeout_ok (timeout_of k) -> 0 ∈ base -> g.(g_net).(p_open) = base -> g.(g_net).(p_stray) = [] ->
  Forall speakable turns -> size (encodes (map snd turns)) <= 2 ^ 29 -> serves (peer g.(g_peers)) turns ->
  does (connecting (connect_by k)) g (fun r g' => exists n, r = inr (Some n) /\ same_program g g' /\
    ((n.(n_c).(c_err) = 0 /\ g'.(g_peers) = S g.(g_peers) /\ talks base (peer g.(g_peers)).(w_sent) n turns g') \/
     (n.(n_c).(c_err) <> 0 /\ g'.(g_peers) = g.(g_peers) /\ freeable base n g'))).
Proof using Hg.
  intros Hblk Htm H0base Hopen Hstray Hturns Hsz Hserves. unfold connecting. apply does_bind, does_net.
  eapply runs_mono; [by apply connect_by_spec|]. intros o s' (n0 & n & x & -> & Hfresh & n1 & En & lost & Hl & _ & Hs). cbn beta iota.
  assert (reuses k = false) as Hre by (by destruct k). rewrite (Hl Hre) in Hs. clear Hl lost.
  apply does_bind. destruct Hs as [(Hx & Hj)|(Hx & Hf)].
  - destruct (joined_context _ _ _ _ _ _ _ n _ Hfresh En Hj) as (_ & He & Hc & _). destruct Hj as (_ & Hfd & Ho & Hb). specialize (Hc Hblk). rewrite Hblk in Hb. cbn in Hfd, Ho, Hb.
    apply accepted_spec; intros; [|lia|done]. apply does_ret.
    exists n. split; [done|]. split; [done|]. left. split; [done|]. split; [done|]. constructor; cbn [with_net g_net g_socks g_peers]; [by eexists|done|by rewrite Hb|by exists 0|done|].
    eexists. by rewrite lookup_insert_eq.
  - destruct (failed_context _ _ _ _ _ _ _ n _ Hfresh En Hf) as [_ Er]. destruct Hf as (j & Ho & _ & Herr). cbn in Ho, Herr. rewrite Hre in Herr. destruct (Herr eq_refl) as [He _].
    apply accepted_spec; intros; [done..|]. apply does_ret.
    exists n. split; [done|]. split; [done|]. right. split; [done|]. split; [done|]. split; [by exists j|].
    destruct Hfresh as (obuf & r & -> & _ & Hst & _). destruct (free_reader r _ _ _ Hst) as (h & Eh). by exists r, h.
Qed.

(** ** Reading a reply *)

(** The object of a value, through the pointers of [n]. *)
Inductive shows (n : net_context) (r : redisReply) : value -> Prop :=
  | shows_string ty s : r.(r_type) = ty -> r.(r_str) = Some s -> r.(r_len) = size s -> shows n r (V_string ty s)
  | shows_integer z : r.(r_type) = REPLY_INTEGER -> r.(r_integer) = z -> shows n r (V_integer z)
  | shows_nil : r.(r_type) = REPLY_NIL -> shows n r V_nil
  | shows_array k vs : r.(r_type) = REPLY_ARRAY -> r.(r_elements) = k -> k = size vs ->
      (forall i v, vs !! i = Some (Some v) -> exists r', element n r (Z.of_nat i) = Ok r' /\ shows n r' v) -> shows n r (V_array k vs).

Lemma tree_shows n rd t : forall lvl, n.(n_c).(c_reader) = Some rd -> heap_has rd.(rd_heap) t -> sendable lvl (tree_value t) = true ->
  exists r, member n (Some (obj_reply (root t))) = Ok r /\ shows n r (tree_value t).
Proof using.
  induction t as [p r kids IH] using rtree_rect_kids. intros lvl Er Hh Hs. inversion Hh as [? ? ? Hp Hsh Hk]; subst.
  exists r. cbn [root tree_value] in *. split; [unfold member, heap_of, deref; rewrite Er; cbn [live mbind res_bind]; by rewrite Hp|].
  set (vs := map _ kids) in *. unfold reply_of in *. unfold shape in Hsh.
  destruct (Z.eqb_spec (r_type r) REPLY_ARRAY) as [Et|Hne].
  - cbn [sendable] in Hs. apply andb_true_iff in Hs as [[[_ Hn%Z.eqb_eq]%andb_true_iff _]%andb_true_iff Hall].
    apply shows_array; [done|done|done|]. intros i v Hi. unfold vs in Hi. apply list_lookup_fmap_Some in Hi as (o & Hi' & Ho).
    destruct o as [u|]; [|done]. injection Hi' as ->. assert (Some u ∈ kids) as Hu by (by eapply list_elem_of_lookup_2).
    rewrite forallb_forall in Hall. specialize (Hall (Some (tree_value u))).
    destruct (IH u Hu (S lvl) Er (Hk u Hu)) as (r' & Em & Hsh'); [apply Hall, in_map_iff; exists (Some u); by rewrite <- list_elem_of_In|].
    exists r'. split; [|done]. unfold element. destruct (r_element r) as [l|] eqn:El.
    + destruct Hsh as (_ & _ & ->). cbn [live mbind res_bind]. rewrite Nat2Z.id. change (map (fmap root) kids) with (fmap (M := option) root <$> kids). rewrite list_lookup_fmap, Ho. exact Em.
    + destruct Hsh as [-> _]. done.
  - destruct (Z.eqb_spec (r_type r) REPLY_INTEGER) as [|Hi]; [by apply shows_integer|]. destruct (Z.eqb_spec (r_type r) REPLY_NIL) as [|Hnil]; [by apply shows_nil|].
    destruct (r_element r) as [l|] eqn:El; [by destruct Hsh as [? _]|]. destruct Hsh as [_ Hsz]. cbn [sendable] in Hs.
    assert (is_text (r_type r) = true) as Htext.
    { unfold is_text. destruct (Z.eqb_spec (r_type r) REPLY_STRING) as [->|]; [done|]. apply andb_true_iff in Hs as [Ht _]. done. }
    destruct (Hsz Htext) as (s & Es & El2). rewrite Es. by apply shows_string.
Qed.

Lemma held_shows n t v : holds_reply n t -> tree_value t = v -> sendable 0 v = true ->
  exists r, member n (Some (obj_reply (root t))) = Ok r /\ shows n r v.
Proof using. intros (rd & Er & _ & Hh & _) <- Hs. by eapply tree_shows. Qed.

(** ** Steps of a conversation *)

(** The pieces of a format of literals, [%s] and [%b]. *)
Fixpoint pieces_of (f : bytes) (ap : list va) : list piece :=
  match f with
  | [] => []
  | c :: f' =>
      if c =c " "%byte then p_space :: pieces_of f' ap
      else if c =c "%"%byte then
        match f', ap with
        | _ :: f'', va_str s :: ap => p_str s :: pieces_of f'' ap
        | _ :: f'', va_bin s n :: ap => p_bin s n :: pieces_of f'' ap
        | _ :: f'', _ => p_percent :: pieces_of f'' ap
        | [], _ => [p_percent]
        end
      else p_char c :: pieces_of f' ap
  end.

Definition piece_okb (p : piece) : bool :=
  match p with
  | p_char c => negb (c =c " "%byte) && negb (c =c "%"%byte) && negb (c =c Byte.x00)
  | p_bin s n => (0 <=? n) && (n <=? size s)
  | p_num _ _ => false
  | _ => true
  end.

Lemma pieces_ok ps : forallb piece_okb ps = true -> Forall piece_ok ps.
Proof using.
  intros Hps. apply Forall_forall. intros p Hp%list_elem_of_In. rewrite forallb_forall in Hps. specialize (Hps p Hp).
  destruct p as [|c| |u|u k|spec x]; cbn in *; try done; [|lia].
  apply andb_true_iff in Hps as [[H1' H2']%andb_true_iff H3']. split_and!; intros ->; by vm_compute in *.
Qed.

(** What the formatter makes of a format and its arguments. *)
Definition denotes (f : bytes) (ap : list va) (ds : list bytes) : Prop :=
  let ps := pieces_of f ap in
  f = concat (map piece_text ps) /\ ap = concat (map piece_args ps) /\ command_of ps [] false = ds /\ forallb piece_okb ps = true /\ weight ps <=? 2 ^ 29 - 2 ^ 10 = true.

(** A reply that is read through [n]. *)
Definition held (n : net_context) (o : option obj) (v : value) : Prop :=
  exists t, o = Some (obj_reply (root t)) /\ tree_value t = v /\ holds_reply n t /\ sendable 0 v = true.

Section Stage.
Variable base : gset Z.

(** The conversation, what was printed, which conditions held, who was spoken to. *)
Definition stage (sent : bytes) (n : net_context) (turns : list (list bytes * value)) (out : list bytes) (verdicts : list bool) (peers : nat) (g : program) : Prop :=
  talks base sent n turns g /\ g.(g_out) = out /\ g.(g_verdicts) = verdicts /\ g.(g_peers) = peers.

Context {A : Type} (Q : Z + A -> program -> Prop).

Lemma then_command f ap ds v sent n turns out vd k g (K : option obj * net_context -> prog A) :
  stage sent n ((ds, v) :: turns) out vd k g -> denotes f ap ds ->
  (forall o n' g', held n' o v -> stage (sent ++ request_bytes ds) n' turns out vd k g' -> does (K (o, n')) g' Q) ->
  does (p_bind (commanding n f ap) K) g Q.
Proof using Hg.
  intros (Ht & Eo & Ev & Ep) (Ef & Ea & Ed & Hok & Hw) HK. pose proof (t_turns _ _ _ _ _ Ht) as [[_ Hv] _]%Forall_cons_iff.
  apply does_bind. rewrite (f_equal2 (commanding n) Ef Ea). rewrite <- Ed in Ht. eapply does_mono; [apply (commanding_spec _ _ _ _ _ _ _ Ht); [by apply pieces_ok|by apply Z.leb_le]|].
  intros r g' (t & n' & -> & Hval & Hh & Ht' & _ & E1 & E2 & E3). rewrite Ed in Ht'. apply HK; [by exists t|]. split; [done|]. by rewrite E1, E2, E3.
Qed.

Lemma then_free o v sent n turns out vd k g (K : net_context -> prog A) : stage sent n turns out vd k g -> held n o v ->
  (forall n', stage sent n' turns out vd k g -> does (K n') g Q) -> does (p_bind (freeing_reply n o) K) g Q.
Proof using.
  intros (Ht & E) (t & -> & _ & Hh & _) HK. apply does_bind. eapply does_mono; [by apply (freeing_reply_spec _ _ _ _ _ _ Ht)|].
  intros r g' (n' & -> & -> & Ht' & _). by apply HK.
Qed.

Lemma then_print s sent n turns out vd k g (K : unit -> prog A) : stage sent n turns out vd k g ->
  (forall g', stage sent n turns (out ++ [s]) vd k g' -> does (K tt) g' Q) -> does (p_bind (print_line s) K) g Q.
Proof using.
  intros ([] & <- & <- & <-) HK. apply does_bind. unfold print_line. apply (does_ret tt _ (fun r g' => match r with inl c => Q (inl c) g' | inr a => does (K a) g' Q end)).
  apply HK. by split; [constructor|].
Qed.

Lemma then_need {B} (m : res B) b g (K : B -> prog A) : m = Ok b -> does (K b) g Q -> does (p_bind (p_need m) K) g Q.
Proof using. intros E HK. apply does_bind. by apply (does_need _ b). Qed.

Lemma then_member o v n g (K : redisReply -> prog A) : held n o v -> (forall r, shows n r v -> does (K r) g Q) -> does (p_bind (p_need (member n o)) K) g Q.
Proof using. intros (t & -> & Hv & Hh & Hs) HK. destruct (held_shows _ _ _ Hh Hv Hs) as (r & E & Hr). eapply then_need; [exact E|]. by apply HK. Qed.

(** Anything that is read of a reply. *)
Lemma then_reading {B} o v (m : res B) b n g (K : B -> prog A) : held n o v -> (forall r, member n o = Ok r -> shows n r v -> m = Ok b) ->
  does (K b) g Q -> does (p_bind (p_need m) K) g Q.
Proof using.
  intros (t & -> & Hv & Hh & Hs) Hm HK. destruct (held_shows _ _ _ Hh Hv Hs) as (r & E & Hr). eapply then_need; [by apply (Hm r)|done].
Qed.
End Stage.
End Talk.
