(* ===== verification/HiredisExamples.v ===== *)
(** * [src/win/hiredis/examples/example.c].

    The program that connects, sends nineteen commands one after the other and prints
    the replies. *)
From S2P Require Import Prelude CxxString Sds SdsRefine SdsText HiredisFormat HiredisReply HiredisReader HiredisReaderInput HiredisReplyTree HiredisReaderSpec HiredisProtocol HiredisReaderRefine HiredisStream HiredisContext HiredisPipeline Net NetSpec HiredisProgram.

Section Example_.
Context `{Kernel} `{Gai} `{Strerror} `{Allocator} `{Printf} `{Peers}.

(** [printf("label %s\n", reply->str); freeReplyObject(reply);] *)
Definition print_text (c : net_context) (label : bytes) (reply : option obj) : prog net_context :=
  p* r := p_need (member c reply) in
  p* s := p_need (text_of r) in
  p* _ := print_line (label ++ s) in
  freeing_reply c reply.

(** The same with [%lld] and [reply->integer]. *)
Definition print_integer (c : net_context) (label : bytes) (reply : option obj) : prog net_context :=
  p* r := p_need (member c reply) in
  p* _ := print_line (label ++ to_string r.(r_integer)) in
  freeing_reply c reply.

(** The body of the loop that fills the list. *)
Definition push_element (j : Z) (c : net_context) : prog net_context :=
  p* (reply, c) := commanding c (str "LPUSH mylist element-%s") [va_str (to_string j)] in
  freeing_reply c reply.

(** The body of the loop that prints it. *)
Definition print_element (c : net_context) (r : redisReply) (j : Z) (_ : unit) : prog unit :=
  p* e := p_need (element c r j) in
  p* s := p_need (text_of e) in
  print_line (to_string j ++ str ") " ++ s).

(** [main], given the arguments after the program's name. *)
Definition example_main (argv : list bytes) : prog Z :=
  let hostname := nth 0 argv (str "127.0.0.1") in
  let port := match nth_error argv 1 with Some a => atoi a | None => 6379 end in
  p* o := connecting (redisConnectWithTimeout hostname port (mk_timeval 1 500000)) in
  match o with
  | None => p* _ := print_line (str "Connection error: can't allocate redis context") in p_exit 1
  | Some c =>
      if negb (c.(n_c).(c_err) =? 0) then
        p* _ := print_line (str "Connection error: " ++ c_str c.(n_c).(c_errstr)) in
        p* _ := freeing c in p_exit 1
      else
        p* (reply, c) := commanding c (str "PING") [] in
        p* c := print_text c (str "PING: ") reply in
        p* (reply, c) := commanding c (str "SET %s %s") [va_str (str "foo"); va_str (str "hello world")] in
        p* c := print_text c (str "SET: ") reply in
        p* (reply, c) := commanding c (str "SET %b %b") [va_bin (str "bar") 3; va_bin (str "hello") 5] in
        p* c := print_text c (str "SET (binary API): ") reply in
        p* (reply, c) := commanding c (str "GET foo") [] in
        p* c := print_text c (str "GET foo: ") reply in
        p* (reply, c) := commanding c (str "INCR counter") [] in
        p* c := print_integer c (str "INCR counter: ") reply in
        p* (reply, c) := commanding c (str "INCR counter") [] in
        p* c := print_integer c (str "INCR counter: ") reply in
        p* (reply, c) := commanding c (str "DEL mylist") [] in
        p* c := freeing_reply c reply in
        p* c := p_for 0 10 push_element c in
        p* (reply, c) := commanding c (str "LRANGE mylist 0 -1") [] in
        p* r := p_need (member c reply) in
        p* _ := (if r.(r_type) =? REPLY_ARRAY then p_for 0 (Z.to_nat r.(r_elements)) (print_element c r) tt else p_ret tt) in
        p* c := freeing_reply c reply in
        p* _ := freeing c in p_ret 0
  end.

(** ** What it says *)

Definition pushes (j : Z) : list bytes := [str "LPUSH"; str "mylist"; str "element-" ++ c_str (to_string j)].

(** The commands that [main] sends before the list is filled. *)
Definition first_commands : list (list bytes) :=
  [[str "PING"]; [str "SET"; str "foo"; str "hello world"]; [str "SET"; str "bar"; str "hello"]; [str "GET"; str "foo"];
   [str "INCR"; str "counter"]; [str "INCR"; str "counter"]; [str "DEL"; str "mylist"]].
Definition example_commands : list (list bytes) :=
  first_commands ++ map pushes [0; 1; 2; 3; 4; 5; 6; 7; 8; 9] ++ [[str "LRANGE"; str "mylist"; str "0"; str "-1"]].

(** What is in the last reply: the texts of its elements, nothing when it is no
    array; an element without a text cannot be printed. *)
Definition elements_of (v : value) : option (list bytes) :=
  match v with
  | V_array _ vs => mapM (fun o => match o with Some (V_string _ s) => Some s | _ => None end) vs
  | V_string ty _ => if ty =? REPLY_ARRAY then None else Some []
  | _ => Some []
  end.

(** The lines of a list, from the index [j] on. *)
Fixpoint element_lines (j : Z) (items : list bytes) : list bytes :=
  match items with [] => [] | s :: items => (to_string j ++ str ") " ++ c_str s) :: element_lines (j + 1) items end.

Definition example_lines (s1 s2 s3 s4 : bytes) (i1 i2 : Z) (items : list bytes) : list bytes :=
  [str "PING: " ++ c_str s1; str "SET: " ++ c_str s2; str "SET (binary API): " ++ c_str s3; str "GET foo: " ++ c_str s4;
   str "INCR counter: " ++ to_string i1; str "INCR counter: " ++ to_string i2] ++ element_lines 0 items.

Section Steps.
Hypothesis Hg : granted.
Context (base : gset Z) {A : Type} (Q : Z + A -> program -> Prop).

Lemma then_print_text o label ty s sent n turns out vd k g (K : net_context -> prog A) : stage base sent n turns out vd k g -> held n o (V_string ty s) ->
  (forall n' g', stage base sent n' turns (out ++ [label ++ c_str s]) vd k g' -> does (K n') g' Q) -> does (p_bind (print_text n label o) K) g Q.
Proof using.
  intros Hs Ho HK. unfold print_text. apply does_assoc. eapply then_member; [exact Ho|]. intros r Hr. inversion Hr as [? ? _ Es _| | |]; subst.
  apply does_assoc. eapply then_need; [unfold text_of; by rewrite Es|]. apply does_assoc. eapply then_print; [exact Hs|]. intros g' Hs'.
  eapply then_free; [exact Hs'|exact Ho|]. intros n' Hs2. by apply HK.
Qed.

Lemma then_print_integer o label z sent n turns out vd k g (K : net_context -> prog A) : stage base sent n turns out vd k g -> held n o (V_integer z) ->
  (forall n' g', stage base sent n' turns (out ++ [label ++ to_string z]) vd k g' -> does (K n') g' Q) -> does (p_bind (print_integer n label o) K) g Q.
Proof using.
  intros Hs Ho HK. unfold print_integer. apply does_assoc. eapply then_member; [exact Ho|]. intros r Hr. inversion Hr as [|? _ Ez| |]; subst.
  apply does_assoc. eapply then_print; [exact Hs|]. intros g' Hs'. eapply then_free; [exact Hs'|exact Ho|]. intros n' Hs2. by apply HK.
Qed.

(** The list is filled, whatever the server answers. *)
Lemma then_push count : forall vs j sent n turns out vd k g (K : net_context -> prog A), 0 <= j -> j + Z.of_nat count <= 10 -> length vs = count ->
  stage base sent n (combine (map (fun i => pushes (j + Z.of_nat i)) (seq 0 count)) vs ++ turns) out vd k g ->
  (forall n' g', stage base (sent ++ requests (map (fun i => pushes (j + Z.of_nat i)) (seq 0 count))) n' turns out vd k g' -> does (K n') g' Q) ->
  does (p_bind (p_for j count push_element n) K) g Q.
Proof using Hg.
  induction count as [|count IH]; intros [|v vs] j sent n turns out vd k g K Hj Hle Hlen Hs HK; try done.
  - cbn [p_for]. apply does_bind, does_ret. apply HK. unfold requests. cbn. by rewrite app_nil_r.
  - cbn [p_for seq map combine app] in *. rewrite <- seq_shift, map_map in Hs, HK. change (Z.of_nat 0) with 0 in Hs, HK. rewrite Z.add_0_r in Hs, HK.
    assert (forall l, map (fun i => pushes (j + Z.of_nat (S i))) l = map (fun i => pushes (j + 1 + Z.of_nat i)) l) as E.
    { intros l. apply map_ext. intros i. by replace (j + Z.of_nat (S i)) with (j + 1 + Z.of_nat i) by lia. }
    rewrite E in Hs, HK. apply does_assoc. unfold push_element at 1. apply does_assoc. eapply then_command; [exact Hg|exact Hs| |].
    { assert (j = 0 \/ j = 1 \/ j = 2 \/ j = 3 \/ j = 4 \/ j = 5 \/ j = 6 \/ j = 7 \/ j = 8 \/ j = 9) as Hcases by lia.
      repeat destruct Hcases as [->|Hcases]; try subst j; by vm_compute. }
    intros o n1 g1 Ho Hs1. eapply then_free; [exact Hs1|exact Ho|]. intros n2 Hs2.
    apply (IH vs (j + 1) _ _ _ _ _ _ _ _ ltac:(lia) ltac:(lia) ltac:(by injection Hlen) Hs2). intros n3 g3 Hs3. apply HK.
    unfold requests in *. cbn [map concat]. by rewrite app_assoc.
Qed.

(** The list is printed. *)
Lemma then_print_elements items : forall j sent n r turns out vd k g (K : unit -> prog A), 0 <= j ->
  (forall i s, items !! i = Some s -> exists e ty, element n r (j + Z.of_nat i) = Ok e /\ shows n e (V_string ty s)) ->
  stage base sent n turns out vd k g ->
  (forall g', stage base sent n turns (out ++ element_lines j items) vd k g' -> does (K tt) g' Q) ->
  does (p_bind (p_for j (length items) (print_element n r) tt) K) g Q.
Proof using.
  induction items as [|s items IH]; intros j sent n r turns out vd k g K Hj Hel Hs HK.
  - cbn [length p_for]. apply does_bind, does_ret. apply HK. cbn [element_lines]. by rewrite app_nil_r.
  - cbn [length p_for]. destruct (Hel 0%nat s eq_refl) as (e & ty & Ee & He). change (Z.of_nat 0) with 0 in Ee. rewrite Z.add_0_r in Ee.
    apply does_assoc. unfold print_element at 1. apply does_assoc. eapply then_need; [exact Ee|].
    inversion He as [? ? _ Es _| | |]; subst. apply does_assoc. eapply then_need; [unfold text_of; by rewrite Es|].
    eapply then_print; [exact Hs|]. intros g' Hs'. apply (IH (j + 1) _ _ _ _ _ _ _ _ _ ltac:(lia)) with (2 := Hs').
    + intros i s' Hi. destruct (Hel (S i) s' Hi) as (e' & ty' & E' & He'). exists e', ty'. by replace (j + 1 + Z.of_nat i) with (j + Z.of_nat (S i)) by lia.
    + intros g2 Hs2. apply HK. cbn [element_lines]. by rewrite <- app_assoc in Hs2.
Qed.

(** The loop over the elements of the last reply. *)
Lemma then_print_reply o v items sent n turns out vd k g (K : unit -> prog A) : held n o v -> elements_of v = Some items ->
  stage base sent n turns out vd k g -> (forall g', stage base sent n turns (out ++ element_lines 0 items) vd k g' -> does (K tt) g' Q) ->
  does (p* r := p_need (member n o) in
        p_bind (if r.(r_type) =? REPLY_ARRAY then p_for 0 (Z.to_nat r.(r_elements)) (print_element n r) tt else p_ret tt) K) g Q.
Proof using.
  intros Ho Hv Hs HK. eapply then_member; [exact Ho|]. intros r Hr.
  inversion Hr as [ty s Et _ _|z Et _|Et|z vs Et En Ek Hel]; subst; cbn [elements_of] in Hv; rewrite ?Et.
  1: destruct (r_type r =? REPLY_ARRAY) eqn:E; [done|]. 1-3: injection Hv as <-; apply does_bind, does_ret, HK; cbn [element_lines]; by rewrite app_nil_r.
  change (REPLY_ARRAY =? REPLY_ARRAY) with true. cbn iota. rewrite mapM_Some in Hv. rewrite Ek. unfold size. rewrite Nat2Z.id, (Forall2_length _ _ _ Hv).
  apply (then_print_elements items 0 _ _ _ _ _ _ _ _ _ ltac:(lia)) with (2 := Hs); [|done].
  intros i s Hi. destruct (Forall2_lookup_r _ _ _ _ _ Hv Hi) as (o' & Ho' & Es). destruct o' as [[ty s'| | |]|]; [|done..]. injection Es as ->.
  destruct (Hel i _ Ho') as (e & Ee & He). exists e, ty. by rewrite Z.add_0_l.
Qed.
End Steps.
End Example_.

(** A text that is printed, a number that is printed. *)
Ltac text_step Hg Hs :=
  eapply then_command; [exact Hg|exact Hs|by vm_compute|]; clear Hs; intros ? ? ? ?Ho Hs; eapply then_print_text; [exact Hs|eassumption|]; clear Hs;
  match goal with H : held _ ?o _ |- _ => clear H o end; intros ? ? Hs.
Ltac number_step Hg Hs :=
  eapply then_command; [exact Hg|exact Hs|by vm_compute|]; clear Hs; intros ? ? ? ?Ho Hs; eapply then_print_integer; [exact Hs|eassumption|]; clear Hs;
  match goal with H : held _ ?o _ |- _ => clear H o end; intros ? ? Hs.

(** ** The property *)

(** The replies that [main] prints or ignores, in their order. *)
Definition example_replies (t1 t2 t3 t4 : Z * bytes) (i1 i2 : Z) (ignored : list value) (list_ : value) : list value :=
  [V_string t1.1 t1.2; V_string t2.1 t2.2; V_string t3.1 t3.2; V_string t4.1 t4.2; V_integer i1; V_integer i2] ++ ignored ++ [list_].

(** C18: The example says what the server said.  Whatever the kernel answers, [main]
    either cannot connect - it prints the error, speaks to nobody and exits with 1 -
    or it sends its nineteen commands and prints the texts, the numbers and the
    elements of the replies, each reply behind the command it answers, however the
    replies are cut and the writes are split and interrupted, and returns 0.  The
    replies that it ignores may be anything.  In both cases the process has the
    descriptors it started with. *)
Theorem example_says `{Kernel} `{Gai} `{Strerror} `{Allocator} `{Printf} `{Peers} argv base g t1 t2 t3 t4 i1 i2 ignored list_ items :
  let vs := example_replies t1 t2 t3 t4 i1 i2 ignored list_ in
  granted -> 0 ∈ base -> g.(g_net).(p_open) = base -> g.(g_net).(p_stray) = [] ->
  length ignored = 11%nat -> elements_of list_ = Some items -> forallb (sendable 0) vs = true -> size (encodes vs) <= 2 ^ 29 ->
  serves (peer g.(g_peers)) (combine example_commands vs) ->
  exists r g', example_main argv g = Ok (Some (r, g')) /\ g'.(g_net).(p_open) = base /\ g'.(g_net).(p_stray) = [] /\
    match r with
    | inl code => code = 1 /\ g'.(g_peers) = g.(g_peers) /\ exists e, g'.(g_out) = g.(g_out) ++ [str "Connection error: " ++ e]
    | inr code => code = 0 /\ g'.(g_peers) = S g.(g_peers) /\ g'.(g_out) = g.(g_out) ++ example_lines t1.2 t2.2 t3.2 t4.2 i1 i2 items /\
        exists fd w, fd ∉ base /\ g'.(g_socks) !! fd = Some w /\ w.(w_sent) = (peer g.(g_peers)).(w_sent) ++ requests example_commands
    end.
Proof.
  intros vs Hg H0base Hopen Hstray Hlen Hlist Hvs Hsz Hserves. apply does_run.
  destruct ignored as [|v7 ignored]; [done|]. injection Hlen as Hlen.
  assert (combine example_commands vs = combine first_commands (take 7 vs) ++ combine (map pushes [0; 1; 2; 3; 4; 5; 6; 7; 8; 9]) ignored ++
    [([str "LRANGE"; str "mylist"; str "0"; str "-1"], list_)]) as Eturns.
  { unfold example_commands, vs, example_replies. do 10 (destruct ignored as [|? ignored]; [done|]). by destruct ignored. }
  assert (map snd (combine example_commands vs) = vs) as Esnd.
  { unfold vs, example_replies. do 10 (destruct ignored as [|? ignored]; [done|]). by destruct ignored. }
  unfold example_main. apply does_bind.
  eapply does_mono; [apply (connecting_spec Hg (c_redisConnectWithTimeout _ _ (mk_timeval 1 500000)) base (combine example_commands vs)); try done|].
  { apply speakable_combine; [by vm_compute|done]. } { by rewrite Esnd. }
  intros r g1 (n & -> & (E1 & E2 & E3) & [(He & Hp & Ht)|(He & Hp & Hf)]); cbn beta iota.
  - rewrite He. change (negb (0 =? 0)) with false. cbn iota. rewrite Eturns in Ht.
    assert (stage base (peer g.(g_peers)).(w_sent) n (combine first_commands (take 7 vs) ++ combine (map pushes [0; 1; 2; 3; 4; 5; 6; 7; 8; 9]) ignored ++
      [([str "LRANGE"; str "mylist"; str "0"; str "-1"], list_)]) g.(g_out) g.(g_verdicts) (S g.(g_peers)) g1) as Hs by done.
    clear Ht. cbn [vs example_replies take app combine first_commands] in Hs.
    text_step Hg Hs. text_step Hg Hs. text_step Hg Hs. text_step Hg Hs. number_step Hg Hs. number_step Hg Hs.
    eapply then_command; [exact Hg|exact Hs|by vm_compute|]. clear Hs. intros o n2 g2 Ho Hs. eapply then_free; [exact Hs|exact Ho|]. clear Hs Ho o. intros n3 Hs.
    eapply (then_push Hg base _ 10 ignored 0); [lia|lia|done|exact Hs|]. clear Hs. intros n4 g4 Hs. cbn [app] in Hs.
    eapply then_command; [exact Hg|exact Hs|by vm_compute|]. clear Hs. intros o n5 g5 Ho Hs.
    eapply then_print_reply; [exact Ho|exact Hlist|exact Hs|]. clear Hs. intros g6 Hs. eapply then_free; [exact Hs|exact Ho|]. clear Hs Ho o. intros n7 Hs.
    destruct Hs as (Ht & Eo & _ & Ep). destruct (t_world _ _ _ _ _ Ht) as (w & Ew & _ & Esent). destruct (t_owns _ _ _ _ _ Ht) as (i & Ho).
    apply does_bind. eapply does_mono; [by eapply freeing_spec, talks_freeable|]. intros x g8 (-> & Hop & Hst & (F1 & _) & F2 & F3). apply does_ret.
    split_and!; [done|done|done|by rewrite F2|rewrite F1, Eo; unfold example_lines; by rewrite <- !app_assoc|].
    exists (fd_of n7), w. split_and!; [|by rewrite F3|rewrite Esent; unfold requests, example_commands; rewrite !map_app, !concat_app; by rewrite <- !app_assoc].
    pose proof (o_fresh _ _ _ _ _ Ho (t_fd _ _ _ _ _ Ht)) as Hfr. by rewrite union_empty_r_L in Hfr.
  - destruct (Z.eqb_spec (c_err (n_c n)) 0) as [|_]; [done|]. cbn [negb]. apply does_bind. unfold print_line. apply does_ret.
    apply does_bind. eapply does_mono; [by apply (freeing_spec base)|]. intros x g8 (-> & Hop & Hst & (F1 & _) & F2 & F3).
    split_and!; [done|done|done|by rewrite F2|]. eexists. rewrite F1. cbn [g_out]. by rewrite E1.
Qed.

#[local] Instance plain_gai : Gai := fun _ => [].
#[local] Instance plain_strerror : Strerror := fun _ => str "Connection refused".
#[local] Instance no_limit : Allocator := fun _ => true.
#[local] Instance no_printf : Printf := fun _ _ => [].

Definition run_ignored : list value := [V_integer 1] ++ map V_integer [1; 2; 3; 4; 5; 6; 7; 8; 9] ++ [V_nil].
Definition run_list : value := V_array 2 [Some (V_string REPLY_STRING (str "element-9")); Some (V_string REPLY_STRING [])].
Definition run_replies : list value :=
  example_replies (REPLY_STATUS, str "PONG") (REPLY_STATUS, str "OK") (REPLY_ERROR, str "READONLY") (REPLY_STRING, str "hello world") 41 42 run_ignored run_list.
(** Each reply arrives in two pieces, with an interruption between them. *)
Definition run_peer : world :=
  mk_world (concat (map (fun v => [in_data (take 2 (encode v)); in_errno EINTR; in_data (drop 2 (encode v))]) run_replies))
    (out_taken 3 :: out_errno EINTR :: replicate 30 (out_taken 100)) [] [].
#[local] Instance run_peers : Peers := fun _ => run_peer.
Definition run_start : program := mk_program shell ∅ 0 0 [] [].

Definition run_lines : list bytes :=
  [str "PING: PONG"; str "SET: OK"; str "SET (binary API): READONLY"; str "GET foo: hello world"; str "INCR counter: 41"; str "INCR counter: 42";
   str "0) element-9"; str "1) "].

Lemma run_serves : serves run_peer (combine example_commands run_replies).
Proof.
  exists [], (map (fun v => [in_data (take 2 (encode v)); in_errno EINTR; in_data (drop 2 (encode v))]) run_replies), (replicate 12 (out_taken 100)).
  split_and!; [by vm_compute| |done|done]. repeat (constructor; [by vm_compute|]). constructor.
Qed.

Lemma example_says_witness : exists g', example_main (H := kernel_but []) [str "db"; str "7000"] run_start = Ok (Some (inr 0, g')) /\
  g'.(g_out) = run_lines /\ g'.(g_net).(p_open) = std_fds.
Proof.
  destruct (example_says (H := kernel_but []) [str "db"; str "7000"] std_fds run_start (REPLY_STATUS, str "PONG") (REPLY_STATUS, str "OK") (REPLY_ERROR, str "READONLY")
    (REPLY_STRING, str "hello world") 41 42 run_ignored run_list [str "element-9"; []]) as (r & g' & E & Hopen & _ & Hr);
    [done|by apply elem_of_union_l, elem_of_union_l, elem_of_singleton|done|done|done|done|by vm_compute|by vm_compute|exact run_serves|].
  destruct r as [code|code]; [vm_compute in E; discriminate E|]. destruct Hr as (-> & _ & Hout & _).
  exists g'. split; [exact E|]. split; [rewrite Hout; by vm_compute|exact Hopen].
Defined.

(** A server that closes the connection: the reply is [NULL] and its text is read. *)
Definition closing_peers : Peers := fun _ => mk_world [in_eof] [out_taken 100] [] [].
Example null_reply_read : example_main (H := kernel_but []) (H4 := closing_peers) [] run_start = UB null_pointer.
Proof. by vm_compute. Qed.
