(* ===== verification/HiredisServerTests.v ===== *)
(** * [src/win/hiredis/test.c]: the tests that need a server, and [main].

    Each [test_cond] adds its condition to the verdicts of the program; the names of
    the tests are not modelled, the other lines that are printed are. *)
From S2P Require Import Prelude CxxString Sds SdsRefine SdsText HiredisFormat HiredisReply HiredisReader HiredisReaderInput HiredisReplyTree HiredisReaderSpec HiredisProtocol HiredisReaderRefine HiredisStream HiredisContext HiredisPipeline Net NetSpec HiredisTests HiredisProgram.

Inductive connection_type : Type := CONN_TCP | CONN_UNIX | CONN_FD.

(** [struct config] *)
Record config : Type := mk_config { cfg_type : connection_type; cfg_host : bytes; cfg_port : Z; cfg_timeout : timeval; cfg_path : bytes }.

(** [gettimeofday] in microseconds, and [%.3f] of [t / 1000000.0]. *)
Class Times : Type := { usec_at : nat -> Z; seconds : Z -> bytes }.

Section Tests.
Context `{Kernel} `{Gai} `{Strerror} `{Allocator} `{Printf} `{Peers} `{Times}.

(** ** The framework *)

Definition test_conds (l : list bool) : prog unit := fun g =>
  p_ret tt (mk_program g.(g_net) g.(g_socks) g.(g_peers) g.(g_times) g.(g_out) (g.(g_verdicts) ++ l)).
Definition test_cond (m : res bool) : prog unit := p* b := p_need m in test_conds [b].
Definition fails (g : program) : Z := size (List.filter negb g.(g_verdicts)).

Definition usec : prog Z := fun g =>
  p_ret (usec_at g.(g_times)) (mk_program g.(g_net) g.(g_socks) g.(g_peers) (S g.(g_times)) g.(g_out) g.(g_verdicts)).

Definition not_null (reply : option obj) : bool := match reply with None => false | Some _ => true end.
Definition has_type (n : net_context) (reply : option obj) (type : Z) : res bool := let* r := member n reply in Ok (r.(r_type) =? type).
(** [strcasecmp(reply->str, expected) == 0] *)
Definition letters_are (n : net_context) (reply : option obj) (expected : bytes) : res bool :=
  let* r := member n reply in let* s := text_of r in Ok (map toupper s =s map toupper expected).
(** [strcmp(reply->str, expected) == 0] *)
Definition chars_are (n : net_context) (reply : option obj) (expected : bytes) : res bool :=
  let* r := member n reply in let* s := text_of r in Ok (s =s expected).
(** [memcmp(reply->str, expected, size expected) == 0] *)
Definition memory_is (n : net_context) (reply : option obj) (expected : bytes) : res bool := let* r := member n reply in mem_is r expected.
(** The same of [reply->element[i]]. *)
Definition element_is (n : net_context) (reply : option obj) (i : Z) (expected : bytes) : res bool :=
  let* r := member n reply in let* e := element n r i in mem_is e expected.
Definition elements_are (n : net_context) (reply : option obj) (count : Z) : res bool := let* r := member n reply in Ok (r.(r_elements) =? count).
Definition integer_is (n : net_context) (reply : option obj) (z : Z) : res bool := let* r := member n reply in Ok (r.(r_integer) =? z).

(** A command whose reply is freed. *)
Definition command_freed (c : net_context) (format : bytes) (ap : list va) : prog net_context :=
  p* (reply, c) := commanding c format ap in freeing_reply c reply.

(** ** Connecting *)

(** The same with [assert(reply != NULL)]. *)
Definition command_asserted (c : net_context) (format : bytes) : prog net_context :=
  p* (reply, c) := commanding c format [] in
  p* _ := assert_that (not_null reply) in freeing_reply c reply.

Definition select_database (c : net_context) : prog net_context :=
  p* c := command_asserted c (str "SELECT 9") in
  p* (reply, c) := commanding c (str "DBSIZE") [] in
  p* _ := assert_that (not_null reply) in
  p* empty := p_need (has_type c reply REPLY_INTEGER &&& integer_is c reply 0) in
  if empty : bool then p* c := freeing_reply c reply in p_ret c
  else p* _ := print_line (str "Database #9 is not empty, test can not continue") in p_exit 1.

(** [redisFreeKeepFd] *)
Definition freeing_kept (c : net_context) : prog Z := p* _ := on_net (free_context (set_fd c (-1))) in p_ret (fd_of c).

Definition disconnect (c : net_context) (keep_fd : bool) : prog Z :=
  p* c := command_asserted c (str "SELECT 9") in
  p* c := command_asserted c (str "FLUSHDB") in
  if keep_fd then freeing_kept c else p* _ := freeing c in p_ret (-1).

(** [redisConnectFd] *)
Definition inheriting (fd : Z) : prog (option net_context) := p* o := on_socket fd (redisConnectFd fd) in p_ret (of_context <$> o).

Definition connect (cfg : config) : prog net_context :=
  p* o := (match cfg.(cfg_type) with
    | CONN_TCP => connecting (redisConnect cfg.(cfg_host) cfg.(cfg_port))
    | CONN_UNIX => connecting (redisConnectUnix cfg.(cfg_path))
    | CONN_FD =>
        p* dummy_ctx := connecting (redisConnectUnix cfg.(cfg_path)) in
        match dummy_ctx with
        | None => p_ret None
        | Some dummy_ctx =>
            p* fd := disconnect dummy_ctx true in
            p* _ := print_line (str "Connecting to inherited fd " ++ to_string fd) in inheriting fd
        end
    end) in
  match o with
  | None => p* _ := print_line (str "Connection error: can't allocate redis context") in p_exit 1
  | Some c =>
      if negb (c.(n_c).(c_err) =? 0) then
        p* _ := print_line (str "Connection error: " ++ c_str c.(n_c).(c_errstr)) in
        p* _ := freeing c in p_exit 1
      else select_database c
  end.

(** ** The tests *)

Definition test_append_formatted_commands (cfg : config) : prog unit :=
  p* c := connect cfg in
  p* (len, cmd) := p_need (redisFormatCommand (str "SET foo bar") []) in
  p* cmd := p_need (let* m := live cmd in mem_read m 0 len) in
  p* (k, n) := p_need (redisAppendFormattedCommand c.(n_c) cmd) in
  p* _ := test_cond (Ok (k =? REDIS_OK)) in
  p* (k, reply, c) := getting (with_c c n) in
  p* _ := assert_that (k =? REDIS_OK) in
  p* c := freeing_reply c reply in
  p* _ := disconnect c false in p_ret tt.

(** [redisFree(NULL)] and [freeReplyObject(NULL)] return. *)
Definition test_free_null : prog unit := test_conds [true; true].

Definition resolve_errors : list bytes :=
  [str "Name or service not known"; str "Can't resolve: idontexist.test"; str "nodename nor servname provided, or not known";
   str "No address associated with hostname"; str "Temporary failure in name resolution"; str "hostname nor servname provided, or not known";
   str "no address associated with name"].

(** The error of a context that was to be refused, which is then freed. *)
Definition refused_with (m : net (option net_context)) (P : Z -> bytes -> bool) : prog unit :=
  p* o := connecting m in
  p* c := p_need (live o) in
  p* _ := test_cond (Ok (P c.(n_c).(c_err) (c_str c.(n_c).(c_errstr)))) in freeing c.

Definition test_blocking_connection_errors : prog unit :=
  p* _ := refused_with (redisConnect (str "idontexist.test") 6379) (fun err errstr => (err =? REDIS_ERR_OTHER) && existsb (fun e => errstr =s e) resolve_errors) in
  p* _ := refused_with (redisConnect (str "localhost") 1) (fun err errstr => (err =? REDIS_ERR_IO) && (errstr =s str "Connection refused")) in
  refused_with (redisConnectUnix (str "/tmp/idontexist.sock")) (fun err _ => err =? REDIS_ERR_IO).

Definition hello0world : bytes := str "hello" ++ [Byte.x00] ++ str "world".

Definition test_blocking_connection (cfg : config) : prog unit :=
  p* c := connect cfg in
  p* (reply, c) := commanding c (str "PING") [] in
  p* _ := test_cond (has_type c reply REPLY_STATUS &&& letters_are c reply (str "pong")) in
  p* c := freeing_reply c reply in
  p* (reply, c) := commanding c (str "SET foo bar") [] in
  p* _ := test_cond (has_type c reply REPLY_STATUS &&& letters_are c reply (str "ok")) in
  p* c := freeing_reply c reply in
  p* c := command_freed c (str "SET %s %s") [va_str (str "foo"); va_str (str "hello world")] in
  p* (reply, c) := commanding c (str "GET foo") [] in
  p* _ := test_cond (has_type c reply REPLY_STRING &&& chars_are c reply (str "hello world")) in
  p* c := freeing_reply c reply in
  p* c := command_freed c (str "SET %b %b") [va_bin (str "foo") 3; va_bin hello0world 11] in
  p* (reply, c) := commanding c (str "GET foo") [] in
  p* _ := test_cond (has_type c reply REPLY_STRING &&& memory_is c reply hello0world) in
  p* _ := test_cond (let* r := member c reply in Ok (r.(r_len) =? 11)) in
  p* c := freeing_reply c reply in
  p* (reply, c) := commanding c (str "GET nokey") [] in
  p* _ := test_cond (has_type c reply REPLY_NIL) in
  p* c := freeing_reply c reply in
  p* (reply, c) := commanding c (str "INCR mycounter") [] in
  p* _ := test_cond (has_type c reply REPLY_INTEGER &&& integer_is c reply 1) in
  p* c := freeing_reply c reply in
  p* c := command_freed c (str "LPUSH mylist foo") [] in
  p* c := command_freed c (str "LPUSH mylist bar") [] in
  p* (reply, c) := commanding c (str "LRANGE mylist 0 -1") [] in
  p* _ := test_cond (has_type c reply REPLY_ARRAY &&& elements_are c reply 2 &&& element_is c reply 0 (str "bar") &&& element_is c reply 1 (str "foo")) in
  p* c := freeing_reply c reply in
  p* c := command_freed c (str "MULTI") [] in
  p* c := command_freed c (str "LRANGE mylist 0 -1") [] in
  p* c := command_freed c (str "PING") [] in
  p* (reply, c) := commanding c (str "EXEC") [] in
  p* _ := test_cond (has_type c reply REPLY_ARRAY &&& elements_are c reply 2 &&&
    (let* r := member c reply in let* e := element c r 0 in
     Ok (e.(r_type) =? REPLY_ARRAY) &&& Ok (e.(r_elements) =? 2) &&&
     (let* x := element c e 0 in mem_is x (str "bar")) &&& (let* x := element c e 1 in mem_is x (str "foo"))) &&&
    (let* r := member c reply in let* e := element c r 1 in
     Ok (e.(r_type) =? REPLY_STATUS) &&& (let* s := text_of e in Ok (map toupper s =s map toupper (str "pong"))))) in
  p* c := freeing_reply c reply in
  p* _ := disconnect c false in p_ret tt.

(** [strcmp(reply->str, "PONG") == 0] behind its type and [reply != NULL] *)
Definition answers_pong (c : net_context) (reply : option obj) : res bool :=
  Ok (not_null reply) &&& has_type c reply REPLY_STATUS &&& chars_are c reply (str "PONG").

Definition test_blocking_connection_timeouts (cfg : config) : prog unit :=
  p* c := connect cfg in
  p* c := command_freed c (str "SET foo fast") [] in
  p* (_, c) := on_net (redisSetTimeout c (mk_timeval 0 10000)) in
  p* (reply, c) := commanding c (str "GET foo") [] in
  p* _ := test_cond (Ok (not_null reply) &&& has_type c reply REPLY_STRING &&& memory_is c reply (str "fast")) in
  p* c := freeing_reply c reply in
  p* _ := disconnect c false in
  p* c := connect cfg in
  p* s := on_socket (fd_of c) (sys (fun w => sys_write w (str "DEBUG SLEEP 3" ++ crlf))) in
  p* (_, c) := on_net (redisSetTimeout c (mk_timeval 0 10000)) in
  p* (reply, c) := commanding c (str "GET foo") [] in
  p* _ := test_cond (Ok (match s with inl (S _) => true | _ => false end && negb (not_null reply) && (c.(n_c).(c_err) =? REDIS_ERR_IO) &&
    (c_str c.(n_c).(c_errstr) =s str "Resource temporarily unavailable"))) in
  p* c := freeing_reply c reply in
  p* (_, c) := reconnecting c in
  p* (reply, c) := commanding c (str "PING") [] in
  p* _ := test_cond (answers_pong c reply) in
  p* c := freeing_reply c reply in
  let cfg := mk_config cfg.(cfg_type) (str "foo") cfg.(cfg_port) cfg.(cfg_timeout) (str "foo") in
  p* (_, c) := reconnecting c in
  p* (reply, c) := commanding c (str "PING") [] in
  p* _ := test_cond (answers_pong c reply) in
  p* c := freeing_reply c reply in
  p* _ := disconnect c false in p_ret tt.

(** [strstr(s, field)], behind the field; what is after the number and its point. *)
Definition after_field (s field : bytes) : res bytes :=
  match find_from field s with Some i => Ok (drop (i + length field) s) | None => UB null_pointer end.
Definition redis_version (s : bytes) : res (Z * Z) :=
  let* p := after_field s (str "redis_version:") in
  let '(major, eptr) := strtol_end p in
  match eptr with
  | [] => UB index_out_of_bounds
  | _ :: p => Ok (wrap32 major, wrap32 (strtol_end p).1)
  end.

Definition test_blocking_io_errors (cfg : config) : prog unit :=
  p* c := connect cfg in
  p* (reply, c) := commanding c (str "INFO") [] in
  p* (major, minor) := p_need (let* r := member c reply in let* s := text_of r in redis_version s) in
  p* c := freeing_reply c reply in
  p* (reply, c) := commanding c (str "QUIT") [] in
  p* c := (if (2 <? major) || ((major =? 2) && (0 <? minor)) then
      p* ok := p_need (letters_are c reply (str "OK")) in
      p* (b, c) := (if ok : bool then p* (k, _, c) := getting c in p_ret (k =? REDIS_ERR, c) else p_ret (false, c)) in
      p* _ := test_conds [b] in freeing_reply c reply
    else p* _ := test_conds [negb (not_null reply)] in p_ret c) in
  p* _ := assert_that ((c.(n_c).(c_err) =? REDIS_ERR_EOF) && (c_str c.(n_c).(c_errstr) =s str "Server closed the connection")) in
  p* _ := freeing c in
  p* c := connect cfg in
  p* (k, c) := on_net (redisSetTimeout c (mk_timeval 0 1000)) in
  p* _ := assert_that (k =? REDIS_OK) in
  p* (k, _, c) := getting c in
  p* e := on_net get_errno in
  p* _ := test_conds [(k =? REDIS_ERR) && (c.(n_c).(c_err) =? REDIS_ERR_IO) && is_errno e EAGAIN] in
  freeing c.

Definition set_timeout (cfg : config) (tv : timeval) : config := mk_config cfg.(cfg_type) cfg.(cfg_host) cfg.(cfg_port) tv cfg.(cfg_path).

Definition test_invalid_timeout_errors (cfg : config) : prog unit :=
  let cfg := set_timeout cfg (mk_timeval 0 10000001) in
  p* _ := refused_with (redisConnectWithTimeout cfg.(cfg_host) cfg.(cfg_port) cfg.(cfg_timeout)) (fun err _ => err =? REDIS_ERR_IO) in
  let cfg := set_timeout cfg (mk_timeval (Z.quot (LONG_MAX - 999) 1000 + 1) 0) in
  refused_with (redisConnectWithTimeout cfg.(cfg_host) cfg.(cfg_port) cfg.(cfg_timeout)) (fun err _ => err =? REDIS_ERR_IO).

(** [num] replies of one kind, kept in [replies]. *)
Fixpoint collect (num : nat) (one : net_context -> prog (option obj * net_context)) (c : net_context) : prog (list (option obj) * net_context) :=
  match num with
  | O => p_ret ([], c)
  | S num => p* (reply, c) := one c in p* (replies, c) := collect num one c in p_ret (reply :: replies, c)
  end.
Fixpoint free_replies (replies : list (option obj)) (c : net_context) : prog net_context :=
  match replies with [] => p_ret c | reply :: replies => p* c := freeing_reply c reply in free_replies replies c end.

(** The assertions on [replies[i]]. *)
Definition is_pong (c : net_context) (reply : option obj) : res bool := Ok (not_null reply) &&& has_type c reply REPLY_STATUS.
Definition is_range (c : net_context) (reply : option obj) : res bool :=
  Ok (not_null reply) &&& has_type c reply REPLY_ARRAY &&& elements_are c reply 500.

Definition one_command (format : bytes) (P : net_context -> option obj -> res bool) (c : net_context) : prog (option obj * net_context) :=
  p* (reply, c) := commanding c format [] in
  p* b := p_need (P c reply) in p* _ := assert_that b in p_ret (reply, c).
Definition one_reply (P : net_context -> option obj -> res bool) (c : net_context) : prog (option obj * net_context) :=
  p* (k, reply, c) := getting c in
  p* _ := assert_that (k =? REDIS_OK) in
  p* b := p_need (P c reply) in p* _ := assert_that b in p_ret (reply, c).

(** Replies that are timed, freed and reported. *)
Definition timed (num : nat) (one : net_context -> prog (option obj * net_context)) (what : bytes) (c : net_context) : prog net_context :=
  p* t1 := usec in
  p* (replies, c) := collect num one c in
  p* t2 := usec in
  p* c := free_replies replies c in
  p* _ := print_line (str "	(" ++ to_string (Z.of_nat num) ++ str "x " ++ what ++ str ": " ++ seconds (t2 - t1) ++ str "s)") in
  p_ret c.

Fixpoint append_many (num : nat) (format : bytes) (c : net_context) : prog net_context :=
  match num with
  | O => p_ret c
  | S num => p* (_, n) := p_need (redisAppendCommand c.(n_c) format []) in append_many num format (with_c c n)
  end.

Definition test_throughput (cfg : config) : prog unit :=
  p* c := connect cfg in
  p* c := p_for 0 500 (fun _ c => command_freed c (str "LPUSH mylist foo") []) c in
  p* c := timed 1000 (one_command (str "PING") is_pong) (str "PING") c in
  p* c := timed 1000 (one_command (str "LRANGE mylist 0 499") is_range) (str "LRANGE with 500 elements") c in
  let num := Z.to_nat 10000 in
  p* c := append_many num (str "PING") c in
  p* c := timed num (one_reply is_pong) (str "PING (pipelined)") c in
  p* c := append_many num (str "LRANGE mylist 0 499") c in
  p* c := timed num (one_reply is_range) (str "LRANGE with 500 elements (pipelined)") c in
  p* _ := disconnect c false in p_ret tt.

(** ** [main] *)

Record options : Type := mk_options { o_cfg : config; o_throughput : bool; o_inherit_fd : bool }.
Definition default_options : options := mk_options (mk_config CONN_TCP (str "127.0.0.1") 6379 (mk_timeval 0 0) (str "/tmp/redis.sock")) true true.

Definition with_cfg (o : options) (cfg : config) : options := mk_options cfg o.(o_throughput) o.(o_inherit_fd).
Definition with_type (cfg : config) (t : connection_type) : config := mk_config t cfg.(cfg_host) cfg.(cfg_port) cfg.(cfg_timeout) cfg.(cfg_path).

(** The command line, without the program's name; an argument that is not known. *)
Fixpoint parse_options (argv : list bytes) (o : options) : bytes + options :=
  let cfg := o.(o_cfg) in
  match argv with
  | [] => inr o
  | a :: rest =>
      let flag := (if a =s str "--skip-throughput" then parse_options rest (mk_options cfg false o.(o_inherit_fd))
                   else if a =s str "--skip-inherit-fd" then parse_options rest (mk_options cfg o.(o_throughput) false)
                   else inl a) in
      match rest with
      | [] => flag
      | b :: rest =>
          if a =s str "-h" then parse_options rest (with_cfg o (mk_config cfg.(cfg_type) b cfg.(cfg_port) cfg.(cfg_timeout) cfg.(cfg_path)))
          else if a =s str "-p" then parse_options rest (with_cfg o (mk_config cfg.(cfg_type) cfg.(cfg_host) (atoi b) cfg.(cfg_timeout) cfg.(cfg_path)))
          else if a =s str "-s" then parse_options rest (with_cfg o (mk_config cfg.(cfg_type) cfg.(cfg_host) cfg.(cfg_port) cfg.(cfg_timeout) b))
          else flag
      end
  end.

Definition when (b : bool) (m : prog unit) : prog unit := if b then m else p_ret tt.

Definition main (argv : list bytes) : prog Z :=
  match parse_options argv default_options with
  | inl a => p* _ := print_line (str "Invalid argument: " ++ a) in p_exit 1
  | inr o =>
      let tcp := with_type o.(o_cfg) CONN_TCP in
      let unix := with_type o.(o_cfg) CONN_UNIX in
      p* _ := test_conds test_format_commands in
      p* _ := test_conds test_reply_reader in
      p* _ := test_blocking_connection_errors in
      p* _ := test_free_null in
      p* _ := print_line (str "Testing against TCP connection (" ++ tcp.(cfg_host) ++ str ":" ++ to_string tcp.(cfg_port) ++ str "):") in
      p* _ := test_blocking_connection tcp in
      p* _ := test_blocking_connection_timeouts tcp in
      p* _ := test_blocking_io_errors tcp in
      p* _ := test_invalid_timeout_errors tcp in
      p* _ := test_append_formatted_commands tcp in
      p* _ := when o.(o_throughput) (test_throughput tcp) in
      p* _ := print_line (str "Testing against Unix socket connection (" ++ unix.(cfg_path) ++ str "):") in
      p* _ := test_blocking_connection unix in
      p* _ := test_blocking_connection_timeouts unix in
      p* _ := test_blocking_io_errors unix in
      p* _ := when o.(o_throughput) (test_throughput unix) in
      p* _ := when o.(o_inherit_fd) (
        p* _ := print_line (str "Testing against inherited fd (" ++ unix.(cfg_path) ++ str "):") in
        test_blocking_connection (with_type o.(o_cfg) CONN_FD)) in
      fun g =>
        if negb (fails g =? 0) then (p* _ := print_line (str "*** " ++ to_string (fails g) ++ str " TESTS FAILED ***") in p_ret 1) g
        else (p* _ := print_line (str "ALL TESTS PASSED") in p_ret 0) g
  end.
End Tests.

(** ** They pass

    Against servers that answer as Redis does, over a kernel that refuses what the
    tests want refused, everything passes but the timing, which is skipped. *)
Definition OK : value := V_string REPLY_STATUS (str "OK").
Definition QUEUED : value := V_string REPLY_STATUS (str "QUEUED").
Definition PONG : value := V_string REPLY_STATUS (str "PONG").
Definition bulk_of (s : bytes) : value := V_string REPLY_STRING s.
Definition range_of_two : value := V_array 2 [Some (bulk_of (str "bar")); Some (bulk_of (str "foo"))].

Definition selected : list value := [OK; V_integer 0].
Definition flushed : list value := [OK; OK].
Definition connection_replies : list value :=
  [PONG; OK; OK; bulk_of (str "hello world"); OK; bulk_of hello0world; V_nil; V_integer 1; V_integer 1; V_integer 2; range_of_two;
   OK; QUEUED; QUEUED; V_array 2 [Some range_of_two; Some PONG]].

(** A server that sends these, then what [l] says. *)
Definition server_of (vs : list value) (l : list in_event) : world :=
  mk_world (map (fun v => in_data (encode v)) vs ++ l) (replicate 40 (out_taken 1000)) [] [].

Definition target_servers : list world :=
  [server_of (selected ++ connection_replies ++ flushed) []; server_of (selected ++ [OK; bulk_of (str "fast")] ++ flushed) [];
   server_of selected [in_errno EAGAIN]; server_of [PONG] []; server_of ([PONG] ++ flushed) [];
   server_of (selected ++ [bulk_of (str "redis_version:2.8.19" ++ crlf); OK]) [in_eof]; server_of selected [in_errno EAGAIN]].
Definition test_servers : list world :=
  target_servers ++ [server_of (selected ++ [OK] ++ flushed) []] ++ target_servers ++ [server_of (flushed ++ selected ++ connection_replies ++ flushed) []].

Definition test_kernel : Kernel := kernel_but
  [(0%nat, mk_syscall (-2) no_errno 0); (1%nat, mk_syscall (-2) no_errno 0); (6%nat, fails_with (errno_other 111)); (10%nat, fails_with (errno_other 2));
   (77%nat, fails_with EINPROGRESS); (82%nat, fails_with EINPROGRESS)].
Definition test_gai : Gai := fun _ => str "Name or service not known".
Definition test_strerror : Strerror := fun e =>
  match e with EAGAIN => str "Resource temporarily unavailable" | errno_other 111 => str "Connection refused" | _ => str "No such file or directory" end.
Definition test_times : Times := {| usec_at := fun i => Z.of_nat i; seconds := to_string |}.

Definition tests_run (argv : list bytes) (k : Kernel) (servers : list world) : res (option ((Z + Z) * program)) :=
  main (H := k) (H0 := test_gai) (H1 := test_strerror) (H2 := granted_always) (H3 := test_printf) (H4 := fun i => nth i servers no_socket) (H5 := test_times)
    argv (mk_program shell ∅ 0 0 [] []).

Definition ends_with (m : res (option ((Z + Z) * program))) (P : Z -> program -> bool) : bool :=
  match m with Ok (Some (inr code, g)) => P code g | _ => false end.

Example tests_pass : ends_with (tests_run [str "-p"; str "7000"; str "--skip-throughput"] test_kernel test_servers) (fun code g =>
  (code =? 0) && (size g.(g_verdicts) =? 76) && forallb id g.(g_verdicts) && bool_decide (g.(g_net).(p_open) = std_fds) &&
  (concat (map (fun s => s ++ [NL]) g.(g_out)) =s
    str "Testing against TCP connection (127.0.0.1:7000):" ++ [NL] ++ str "Testing against Unix socket connection (/tmp/redis.sock):" ++ [NL] ++
    str "Testing against inherited fd (/tmp/redis.sock):" ++ [NL] ++ str "Connecting to inherited fd 3" ++ [NL] ++ str "ALL TESTS PASSED" ++ [NL])) = true.
Proof. by vm_compute. Qed.

(** When a connection is there at once, the timeout is never looked at: both tests of
    invalid timeouts fail. *)
Definition quick_kernel : Kernel := kernel_but
  [(0%nat, mk_syscall (-2) no_errno 0); (1%nat, mk_syscall (-2) no_errno 0); (6%nat, fails_with (errno_other 111)); (10%nat, fails_with (errno_other 2))].
Definition quick_servers : list world := target_servers ++ [no_socket; no_socket] ++ drop 7 test_servers.

Example invalid_timeouts_unnoticed : ends_with (tests_run [str "--skip-throughput"; str "--skip-inherit-fd"] quick_kernel quick_servers) (fun code g =>
  (code =? 1) && (fails g =? 2) && bool_decide (last g.(g_out) = Some (str "*** 2 TESTS FAILED ***"))) = true.
Proof. by vm_compute. Qed.

(** A reply that is shorter than the bytes it is compared with is read beyond its end. *)
Example short_reply_overread :
  tests_run [] test_kernel [server_of (selected ++ [PONG; OK; OK; bulk_of (str "hello world"); OK; bulk_of (str "hello")]) []] = UB index_out_of_bounds.
Proof. by vm_compute. Qed.
