(* ===== verification/HiredisVerdicts.v ===== *)
(** * What the tests of a blocking connection say.

    [test_blocking_connection] over any connection: its nine verdicts are those that
    the replies deserve. *)
From S2P Require Import Prelude CxxString Sds SdsRefine SdsText HiredisFormat HiredisReply HiredisReader HiredisReaderInput HiredisReplyTree HiredisReaderSpec HiredisProtocol HiredisReaderRefine HiredisStream HiredisContext HiredisPipeline Net NetSpec HiredisTests HiredisProgram HiredisServerTests.

(** ** Steps of the tests *)

Section Spec.
Context `{Kernel} `{Gai} `{Strerror} `{Allocator} `{Printf} `{Peers}.
Hypothesis Hg : granted.
Variable base : gset Z.

Section Steps.
Context {A : Type} (Q : Z + A -> program -> Prop).

Lemma then_freed f ap ds v sent n turns out vd k g (K : net_context -> prog A) :
  stage base sent n ((ds, v) :: turns) out vd k g -> denotes f ap ds ->
  (forall n' g', stage base (sent ++ request_bytes ds) n' turns out vd k g' -> does (K n') g' Q) -> does (p_bind (command_freed n f ap) K) g Q.
Proof using Hg.
  intros Hs Hd HK. unfold command_freed. apply does_assoc. eapply then_command; [exact Hg|exact Hs|exact Hd|]. intros o n' g' Ho Hs'.
  eapply then_free; [exact Hs'|exact Ho|]. intros n2 Hs2. by apply HK.
Qed.

Lemma then_asserted f ds v sent n turns out vd k g (K : net_context -> prog A) :
  stage base sent n ((ds, v) :: turns) out vd k g -> denotes f [] ds ->
  (forall n' g', stage base (sent ++ request_bytes ds) n' turns out vd k g' -> does (K n') g' Q) -> does (p_bind (command_asserted n f) K) g Q.
Proof using Hg.
  intros Hs Hd HK. unfold command_asserted. apply does_assoc. eapply then_command; [exact Hg|exact Hs|exact Hd|]. intros o n' g' Ho Hs'.
  apply does_assoc, does_bind. assert (not_null o = true) as -> by (by destruct Ho as (t & -> & _)). apply does_ret.
  eapply then_free; [exact Hs'|exact Ho|]. intros n2 Hs2. by apply HK.
Qed.

(** A condition on a reply. *)
Lemma then_test o v m b sent n turns out vd k g (K : unit -> prog A) : stage base sent n turns out vd k g -> held n o v ->
  (forall r, member n o = Ok r -> shows n r v -> m = Ok b) ->
  (forall g', stage base sent n turns out (vd ++ [b]) k g' -> does (K tt) g' Q) -> does (p_bind (test_cond m) K) g Q.
Proof using.
  intros ([] & <- & <- & <-) Ho Hm HK. unfold test_cond. apply does_assoc. eapply then_reading; [exact Ho|exact Hm|].
  apply does_bind. unfold test_conds, does, p_ret. apply HK. by split; [constructor|].
Qed.

(** The end of a test. *)
Lemma then_disconnect v1 v2 sent n turns out vd k g (K : Z -> prog A) :
  stage base sent n (([str "SELECT"; str "9"], v1) :: ([str "FLUSHDB"], v2) :: turns) out vd k g ->
  (forall g', g'.(g_net).(p_open) = base -> g'.(g_net).(p_stray) = [] -> g'.(g_out) = out -> g'.(g_verdicts) = vd -> g'.(g_peers) = k -> does (K (-1)) g' Q) ->
  does (p_bind (disconnect n false) K) g Q.
Proof using Hg.
  intros Hs HK. unfold disconnect. apply does_assoc. eapply then_asserted; [exact Hs|by vm_compute|]. intros n1 g1 Hs1.
  apply does_assoc. eapply then_asserted; [exact Hs1|by vm_compute|]. intros n2 g2 (Ht & <- & <- & <-).
  apply does_assoc, does_bind. eapply does_mono; [by eapply freeing_spec, talks_freeable|].
  intros x g3 (-> & Hop & Hst & (F1 & F2 & _) & F3 & _). apply does_bind, does_ret. by apply HK.
Qed.
End Steps.

Definition select_commands : list (list bytes) := [[str "SELECT"; str "9"]; [str "DBSIZE"]].

(** [connect] over TCP or a Unix socket: the conversation after the database is
    selected, or the exit. *)
Lemma chosen_connect_spec cfg turns v1 g : cfg.(cfg_type) <> CONN_FD -> 0 ∈ base -> g.(g_net).(p_open) = base -> g.(g_net).(p_stray) = [] ->
  Forall speakable turns -> sendable 0 v1 = true -> size (encodes (v1 :: V_integer 0 :: map snd turns)) <= 2 ^ 29 ->
  serves (peer g.(g_peers)) (combine select_commands [v1; V_integer 0] ++ turns) ->
  does (connect cfg) g (fun r g' =>
    match r with
    | inl code => code = 1 /\ g'.(g_peers) = g.(g_peers) /\ g'.(g_net).(p_open) = base /\ g'.(g_verdicts) = g.(g_verdicts)
    | inr n => stage base ((peer g.(g_peers)).(w_sent) ++ requests select_commands) n turns g.(g_out) g.(g_verdicts) (S g.(g_peers)) g'
    end).
Proof using Hg.
  intros Hcfg H0base Hopen Hstray Hturns Hv1 Hsz Hserves. cbn [select_commands combine app] in Hserves.
  set (all := ([str "SELECT"; str "9"], v1) :: ([str "DBSIZE"], V_integer 0) :: turns) in *.
  assert (Forall speakable all) as Hall by (repeat (constructor; [by split|]); done).
  assert (forall k', blocks k' = true -> timeout_ok (timeout_of k') -> does (connecting (connect_by k')) g (fun r g' => exists n, r = inr (Some n) /\ same_program g g' /\
    ((n.(n_c).(c_err) = 0 /\ g'.(g_peers) = S g.(g_peers) /\ talks base (peer g.(g_peers)).(w_sent) n all g') \/
     (n.(n_c).(c_err) <> 0 /\ g'.(g_peers) = g.(g_peers) /\ freeable base n g')))) as Hconn by (intros k' Hb Ht; by apply connecting_spec).
  unfold connect. apply does_bind. eapply does_mono.
  { destruct (cfg_type cfg); [apply (Hconn (c_redisConnect _ _)); done|apply (Hconn (c_redisConnectUnix _)); done|done]. }
  intros r g1 (n & -> & (E1 & E2 & _) & [(He & Hp & Ht)|(He & Hp & Hf)]); cbn beta iota.
  - rewrite He. change (negb (0 =? 0)) with false. cbn iota. unfold select_database.
    eapply then_asserted; [split; [exact Ht|done]|by vm_compute|]. intros n1 g2 Hs1.
    eapply then_command; [exact Hg|exact Hs1|by vm_compute|]. intros o n2 g3 Ho Hs2. apply does_bind. assert (not_null o = true) as -> by (by destruct Ho as (t & -> & _)). apply does_ret.
    eapply (then_reading _ _ _ _ true); [exact Ho|intros r Er Hr; inversion Hr as [|? E3 E4| |]; subst; unfold also, has_type, integer_is; rewrite Er; cbn [mbind res_bind]; by rewrite E3, E4|].
    eapply then_free; [exact Hs2|exact Ho|]. intros n3 Hs3. apply does_ret. unfold requests, select_commands. cbn [map concat]. by rewrite app_nil_r, app_assoc.
  - destruct (Z.eqb_spec (c_err (n_c n)) 0) as [|_]; [done|]. cbn [negb]. apply does_bind. unfold print_line. apply does_ret.
    apply does_bind. eapply does_mono; [by apply (freeing_spec base)|]. intros x g8 (-> & Hop & Hst & (F1 & F2 & _) & F3 & _).
    split_and!; [done|by rewrite F3|done|]. by rewrite F2.
Qed.
End Spec.

(** ** Conditions *)

(** The commands of [test_blocking_connection]. *)
Definition connection_commands : list (list bytes) :=
  [[str "PING"]; [str "SET"; str "foo"; str "bar"]; [str "SET"; str "foo"; str "hello world"]; [str "GET"; str "foo"];
   [str "SET"; str "foo"; hello0world]; [str "GET"; str "foo"]; [str "GET"; str "nokey"]; [str "INCR"; str "mycounter"];
   [str "LPUSH"; str "mylist"; str "foo"]; [str "LPUSH"; str "mylist"; str "bar"]; [str "LRANGE"; str "mylist"; str "0"; str "-1"];
   [str "MULTI"]; [str "LRANGE"; str "mylist"; str "0"; str "-1"]; [str "PING"]; [str "EXEC"]; [str "SELECT"; str "9"]; [str "FLUSHDB"]].

(** A reply with a text, its type and the text; the answers to the commands that the
    test looks at. *)
Abbreviation text_reply := (Z * bytes)%type.
Definition text_value (t : text_reply) : value := V_string t.1 t.2.
Definition pair_value (a b : text_reply) : value := V_array 2 [Some (text_value a); Some (text_value b)].

Record answers : Type := mk_answers {
  a_ping : text_reply; a_set : text_reply; a_get : text_reply; a_get_binary : text_reply; a_nokey : value; a_incr : Z;
  a_range : text_reply * text_reply; a_queued : text_reply * text_reply; a_pong : text_reply }.

(** The replies; what the test ignores may be anything. *)
Definition replies_of (a : answers) (i1 i2 i3 i4 i5 i6 i7 i8 i9 : value) : list value :=
  [text_value a.(a_ping); text_value a.(a_set); i1; text_value a.(a_get); i2; text_value a.(a_get_binary); a.(a_nokey); V_integer a.(a_incr); i3; i4;
   pair_value a.(a_range).1 a.(a_range).2; i5; i6; i7;
   V_array 2 [Some (pair_value a.(a_queued).1 a.(a_queued).2); Some (text_value a.(a_pong))]; i8; i9].

(** What the nine conditions should be. *)
Definition same_letters (t : text_reply) (type : Z) (s : bytes) : bool := (t.1 =? type) && (map toupper (c_str t.2) =s map toupper s).
Definition begins (t : text_reply) (s : bytes) : bool := take (length s) (t.2 ++ [Byte.x00]) =s s.
Definition verdicts_of (a : answers) : list bool :=
  [same_letters a.(a_ping) REPLY_STATUS (str "pong"); same_letters a.(a_set) REPLY_STATUS (str "ok");
   (a.(a_get).1 =? REPLY_STRING) && (c_str a.(a_get).2 =s str "hello world");
   (a.(a_get_binary).1 =? REPLY_STRING) && begins a.(a_get_binary) hello0world; size a.(a_get_binary).2 =? 11;
   match a.(a_nokey) with V_nil => true | _ => false end; a.(a_incr) =? 1;
   begins a.(a_range).1 (str "bar") && begins a.(a_range).2 (str "foo");
   begins a.(a_queued).1 (str "bar") && begins a.(a_queued).2 (str "foo") && same_letters a.(a_pong) REPLY_STATUS (str "pong")].

(** [memcmp] may read the texts, up to their terminators. *)
Definition long_enough (a : answers) : Prop :=
  10 <= size a.(a_get_binary).2 /\ 2 <= size a.(a_range).1.2 /\ 2 <= size a.(a_range).2.2 /\ 2 <= size a.(a_queued).1.2 /\ 2 <= size a.(a_queued).2.2.

Section Conditions.
Context (n : net_context) (o : option obj) (r : redisReply).
Hypothesis Em : member n o = Ok r.

Lemma mem_is_spec r' t x : shows n r' (text_value t) -> size x <= size t.2 + 1 -> mem_is r' x = Ok (begins t x).
Proof using.
  intros Hr Hsz. inversion Hr as [? ? _ Es _| | |]; subst. unfold mem_is. rewrite Es. cbn [live mbind res_bind].
  destruct (Z.ltb_spec (size t.2 + 1) (size x)); [lia|done].
Qed.

Lemma letters_spec t type x : shows n r (text_value t) -> has_type n o type &&& letters_are n o x = Ok (same_letters t type x).
Proof using Em.
  intros Hr. inversion Hr as [? ? Et Es _| | |]; subst. unfold also, has_type, letters_are, same_letters. rewrite Em. cbn [mbind res_bind].
  destruct (r_type r =? type) eqn:E; rewrite <- Et, E; [|done]. unfold text_of. by rewrite Es.
Qed.

Lemma chars_spec t type x : shows n r (text_value t) -> has_type n o type &&& chars_are n o x = Ok ((t.1 =? type) && (c_str t.2 =s x)).
Proof using Em.
  intros Hr. inversion Hr as [? ? Et Es _| | |]; subst. unfold also, has_type, chars_are. rewrite Em. cbn [mbind res_bind].
  destruct (r_type r =? type) eqn:E; rewrite <- Et, E; [|done]. unfold text_of. by rewrite Es.
Qed.

Lemma memory_spec t type x : shows n r (text_value t) -> size x <= size t.2 + 1 -> has_type n o type &&& memory_is n o x = Ok ((t.1 =? type) && begins t x).
Proof using Em.
  intros Hr Hsz. unfold also, has_type, memory_is. rewrite Em. cbn [mbind res_bind].
  rewrite (mem_is_spec r t x Hr Hsz). inversion Hr as [? ? Et Es _| | |]; subst. rewrite Et. by destruct (t.1 =? type).
Qed.

Lemma length_spec t : shows n r (text_value t) -> (let* r := member n o in Ok (r.(r_len) =? 11)) = Ok (size t.2 =? 11).
Proof using Em. intros Hr. rewrite Em. inversion Hr as [? ? _ _ El| | |]. cbn [mbind res_bind]. by rewrite El. Qed.

Lemma nil_spec v : shows n r v -> sendable 0 v = true -> has_type n o REPLY_NIL = Ok (match v with V_nil => true | _ => false end).
Proof using Em.
  intros Hr Hv. unfold has_type. rewrite Em. cbn [mbind res_bind]. inversion Hr as [ty s Et _ _|z Et _|Et|k vs Et _ _ _]; subst; rewrite ?Et; try done.
  cbn [sendable] in Hv. destruct (Z.eqb_spec (r_type r) REPLY_NIL) as [E|]; [|done]. by rewrite E in Hv.
Qed.

Lemma integer_spec z k : shows n r (V_integer z) -> has_type n o REPLY_INTEGER &&& integer_is n o k = Ok (z =? k).
Proof using Em. intros Hr. unfold also, has_type, integer_is. rewrite Em. cbn [mbind res_bind]. inversion Hr as [|? Et Ez| |]. by rewrite Et, Ez. Qed.

(** The two elements of an array of texts. *)
Lemma pair_spec r' a b x y : shows n r' (pair_value a b) -> size x <= size a.2 + 1 -> size y <= size b.2 + 1 ->
  (let* e := element n r' 0 in mem_is e x) &&& (let* e := element n r' 1 in mem_is e y) = Ok (begins a x && begins b y).
Proof using.
  intros Hr Hx Hy. inversion Hr as [| | |? ? _ _ _ Hel]; subst. destruct (Hel 0%nat _ eq_refl) as (e & Ee & He), (Hel 1%nat _ eq_refl) as (f & Ef & Hf).
  change (Z.of_nat 0) with 0 in Ee. change (Z.of_nat 1) with 1 in Ef. unfold also. rewrite Ee, Ef. cbn [mbind res_bind].
  rewrite (mem_is_spec e a x He Hx). cbn [mbind res_bind]. rewrite (mem_is_spec f b y Hf Hy). by destruct (begins a x).
Qed.

Lemma also_true m : Ok true &&& m = m.
Proof using. done. Qed.

Lemma also_assoc a b c : a &&& b &&& c = a &&& (b &&& c).
Proof using. unfold also. destruct a as [[]| |]; cbn; [|done..]. by destruct b as [[]| |]. Qed.

Lemma array_spec k vs : shows n r (V_array k vs) -> has_type n o REPLY_ARRAY &&& elements_are n o k = Ok true.
Proof using Em.
  intros Hr. inversion Hr as [| | |? ? Et En _ _]. unfold also, has_type, elements_are. rewrite Em. cbn [mbind res_bind].
  rewrite Et, En. cbn. by rewrite Z.eqb_refl.
Qed.

Lemma range_spec a b x y : shows n r (pair_value a b) -> size x <= size a.2 + 1 -> size y <= size b.2 + 1 ->
  has_type n o REPLY_ARRAY &&& elements_are n o 2 &&& element_is n o 0 x &&& element_is n o 1 y = Ok (begins a x && begins b y).
Proof using Em.
  intros Hr Hx Hy. rewrite also_assoc. rewrite (array_spec 2 _ Hr), also_true.
  unfold element_is. rewrite Em. by apply pair_spec.
Qed.

Lemma exec_spec a b e x y z : shows n r (V_array 2 [Some (pair_value a b); Some (text_value e)]) -> size x <= size a.2 + 1 -> size y <= size b.2 + 1 ->
  has_type n o REPLY_ARRAY &&& elements_are n o 2 &&&
    (let* r := member n o in let* e := element n r 0 in
     Ok (e.(r_type) =? REPLY_ARRAY) &&& Ok (e.(r_elements) =? 2) &&&
     (let* f := element n e 0 in mem_is f x) &&& (let* f := element n e 1 in mem_is f y)) &&&
    (let* r := member n o in let* e := element n r 1 in
     Ok (e.(r_type) =? REPLY_STATUS) &&& (let* s := text_of e in Ok (map toupper s =s map toupper z))) =
  Ok (begins a x && begins b y && same_letters e REPLY_STATUS z).
Proof using Em.
  intros Hr Hx Hy. rewrite (array_spec 2 _ Hr), also_true.
  rewrite Em. inversion Hr as [| | |? ? _ _ _ Hel]; subst. cbn [mbind res_bind].
  destruct (Hel 0%nat _ eq_refl) as (p & Ep & Hp), (Hel 1%nat _ eq_refl) as (q & Eq & Hq). change (Z.of_nat 0) with 0 in Ep. change (Z.of_nat 1) with 1 in Eq.
  rewrite Ep, Eq. cbn [mbind res_bind]. inversion Hp as [| | |? ? Et En _ _]. rewrite Et, En, also_assoc.
  change (2 =? 2) with true. change (REPLY_ARRAY =? REPLY_ARRAY) with true.  rewrite !also_true, <- also_assoc, (pair_spec p a b x y Hp Hx Hy).
  inversion Hq as [? ? Et2 Es _| | |]; subst. unfold also, same_letters. cbn [mbind res_bind]. destruct (begins a x && begins b y); [|done]. cbn [andb].
  rewrite <- Et2. destruct (r_type q =? REPLY_STATUS); [|done]. unfold text_of. by rewrite Es.
Qed.
End Conditions.

(** ** The property *)

Definition test_commands : list (list bytes) := select_commands ++ connection_commands.

Ltac ask_step Hg Hs o Ho := eapply then_command; [exact Hg|exact Hs|by vm_compute|]; clear Hs; intros o ? ? Ho Hs.
Ltac cond_step Hs Ho tac := eapply then_test; [exact Hs|exact Ho|let Em := fresh in let Hr := fresh in intros ? Em Hr; tac Em Hr|]; clear Hs; intros ? Hs.
Ltac free_step Hs o Ho := eapply then_free; [exact Hs|exact Ho|]; clear Hs Ho o; intros ? Hs.
Ltac test_step Hg Hs tac :=
  let o := fresh in let Ho := fresh in ask_step Hg Hs o Ho; cond_step Hs Ho tac; free_step Hs o Ho.
Ltac freed_step Hg Hs := eapply then_freed; [exact Hg|exact Hs|by vm_compute|]; clear Hs; intros ? ? Hs.


#[local] Instance plain_gai : Gai := fun _ => [].
#[local] Instance no_limit : Allocator := fun _ => true.

(** A server that is not Redis: it answers PING with an error and counts from 7. *)
Definition odd_answers : answers :=
  mk_answers (REPLY_ERROR, str "PONG") (REPLY_STATUS, str "Ok") (REPLY_STRING, str "hello world") (REPLY_STRING, hello0world ++ str "!") V_nil 7
    ((REPLY_STRING, str "bar"), (REPLY_STRING, str "foot")) ((REPLY_STRING, str "bar"), (REPLY_STRING, str "foo")) (REPLY_STATUS, str "PONG").
Definition odd_replies : list value := OK :: V_integer 0 :: replies_of odd_answers OK OK (V_integer 1) (V_integer 2) OK QUEUED QUEUED OK V_nil.
Definition odd_peers : Peers := fun _ => server_of odd_replies [].
Definition odd_start : program := mk_program shell ∅ 0 0 [] [true].

Lemma odd_serves : serves (server_of odd_replies []) (combine test_commands odd_replies).
Proof.
  exists [], (map (fun v => [in_data (encode v)]) odd_replies), (replicate 21 (out_taken 1000)).
  split_and!; [by vm_compute| |by vm_compute|done]. repeat (constructor; [by vm_compute|]). constructor.
Qed.

