(* ===== verification/Calendar.v ===== *)
(** * [std::tm], [std::mktime] and [std::strftime] of the C library.

    The Gregorian calendar is extended to all years.  Years are counted from March
    here, so that a leap day is the last of its year.  The local time zone is an
    offset from UTC that does not change; [tm_isdst], which [mktime] is asked to
    find out, [tm_wday] and [tm_yday] are left out. *)
From S2P Require Import Prelude CxxString.

(** [std::tm]: the year is counted from 1900 and the month from 0. *)
Record tm : Type := mk_tm { tm_year : Z; tm_mon : Z; tm_mday : Z; tm_hour : Z; tm_min : Z; tm_sec : Z }.

(** ** Days *)

Definition is_leap (y : Z) : bool := (y mod 4 =? 0) && negb (y mod 100 =? 0) || (y mod 400 =? 0).

Definition days_in_month (y m : Z) : Z :=
  if m =? 2 then if is_leap y then 29 else 28
  else if (m =? 4) || (m =? 6) || (m =? 9) || (m =? 11) then 30 else 31.

Definition valid_date (y m d : Z) : Prop := 1 <= m <= 12 /\ 1 <= d <= days_in_month y m.

(** The days from March of year 0 to March of [y], and from March to a month. *)
Definition year_start (y : Z) : Z := 365 * y + y / 4 - y / 100 + y / 400.
Definition month_start (m : Z) : Z :=
  match m with
  | 3 => 0 | 4 => 31 | 5 => 61 | 6 => 92 | 7 => 122 | 8 => 153
  | 9 => 184 | 10 => 214 | 11 => 245 | 12 => 275 | 1 => 306 | _ => 337
  end.

(** Days since 1970-01-01; the day may be any number. *)
Definition day_number (y m d : Z) : Z :=
  year_start (if m <=? 2 then y - 1 else y) + month_start m + (d - 1) - 719468.

Definition month_of (day : Z) : Z :=
  if day <? 31 then 3 else if day <? 61 then 4 else if day <? 92 then 5 else if day <? 122 then 6
  else if day <? 153 then 7 else if day <? 184 then 8 else if day <? 214 then 9 else if day <? 245 then 10
  else if day <? 275 then 11 else if day <? 306 then 12 else if day <? 337 then 1 else 2.

(** The year from March in which a day lies: 400 years have 146097 days, and the
    first guess within them is off by one at most. *)
Definition march_year (day : Z) : Z :=
  let era := day / 146097 in
  let guess := day mod 146097 / 366 in
  400 * era + (if year_start (guess + 1) <=? day mod 146097 then guess + 1 else guess).

Definition date_of (n : Z) : Z * Z * Z :=
  let day := n + 719468 in
  let y := march_year day in
  let rest := day - year_start y in
  let m := month_of rest in
  ((if m <=? 2 then y + 1 else y), m, rest - month_start m + 1).

(** ** Seconds *)

(** The local time of a second, and the second of a local time whose fields may
    have any values. *)
Definition tm_of (t : Z) : tm :=
  let '(y, m, d) := date_of (t / 86400) in
  mk_tm (y - 1900) (m - 1) d (t mod 86400 / 3600) (t mod 3600 / 60) (t mod 60).

Definition seconds_of (t : tm) : Z :=
  86400 * day_number (t.(tm_year) + 1900 + t.(tm_mon) / 12) (t.(tm_mon) mod 12 + 1) t.(tm_mday)
  + 3600 * t.(tm_hour) + 60 * t.(tm_min) + t.(tm_sec).

Definition is_int (z : Z) : bool := (- 2 ^ 31 <=? z) && (z <=? INT_MAX).

(** [std::mktime(&t)]: the time, [-1] when there is none, and the fields in their
    ranges.  The year may not fit. *)
Definition mktime (zone : Z) (t : tm) : Z * tm :=
  let s := seconds_of t in
  if is_int (tm_of s).(tm_year) then (s - zone, tm_of s) else (-1, t).

(** What [mktime] leaves. *)
Definition valid_tm (t : tm) : Prop :=
  valid_date (t.(tm_year) + 1900) (t.(tm_mon) + 1) t.(tm_mday) /\
  0 <= t.(tm_hour) < 24 /\ 0 <= t.(tm_min) < 60 /\ 0 <= t.(tm_sec) < 60.

(** ** Lemmas *)

Lemma year_start_era y e : year_start (400 * e + y) = 146097 * e + year_start y.
Proof. unfold year_start. Z.div_mod_to_equations. lia. Qed.

Lemma year_start_next y : year_start (y + 1) - year_start y = if is_leap (y + 1) then 366 else 365.
Proof.
  unfold year_start, is_leap. destruct (Z.eqb_spec ((y + 1) mod 4) 0), (Z.eqb_spec ((y + 1) mod 100) 0), (Z.eqb_spec ((y + 1) mod 400) 0); cbn [negb andb orb];
    Z.div_mod_to_equations; lia.
Qed.

(** The years that a day of the calendar can lie in. *)
Lemma march_year_spec day : year_start (march_year day) <= day < year_start (march_year day + 1).
Proof.
  unfold march_year. set (era := day / 146097). set (doe := day mod 146097). assert (day = 146097 * era + doe /\ 0 <= doe < 146097) as [Hd Hr].
  { subst era doe. Z.div_mod_to_equations. lia. }
  set (g := doe / 366). assert (366 * g <= doe < 366 * g + 366) as Hg by (subst g; Z.div_mod_to_equations; lia).
  destruct (Z.leb_spec (year_start (g + 1)) doe) as [Hle|Hlt]; rewrite <- Z.add_assoc, !year_start_era, Hd.
  - unfold year_start in *. clearbody era doe g. Z.div_mod_to_equations. lia.
  - unfold year_start in *. clearbody era doe g. Z.div_mod_to_equations. lia.
Qed.

Lemma year_start_mono y y' : y <= y' -> year_start y <= year_start y'.
Proof. intros H. unfold year_start. Z.div_mod_to_equations. lia. Qed.

Lemma march_year_unique day y : year_start y <= day < year_start (y + 1) -> march_year day = y.
Proof.
  intros H. pose proof (march_year_spec day) as Hs. destruct (Z.lt_trichotomy (march_year day) y) as [Hlt|[He|Hgt]]; [|done|].
  - pose proof (year_start_mono (march_year day + 1) y). lia.
  - pose proof (year_start_mono (y + 1) (march_year day)). lia.
Qed.

(** The days of a month counted from March; February has one more than it may. *)
Definition march_days (m : Z) : Z := if m =? 2 then 29 else days_in_month 1 m.

Lemma month_of_spec r : 0 <= r < 366 -> 1 <= month_of r <= 12 /\ month_start (month_of r) <= r < month_start (month_of r) + march_days (month_of r).
Proof.
  intros Hr. unfold month_of. repeat match goal with |- context [?a <? ?b] => destruct (Z.ltb_spec a b) end; unfold march_days, days_in_month; cbn; lia.
Qed.

Lemma month_cases m : 1 <= m <= 12 -> m = 1 \/ m = 2 \/ m = 3 \/ m = 4 \/ m = 5 \/ m = 6 \/ m = 7 \/ m = 8 \/ m = 9 \/ m = 10 \/ m = 11 \/ m = 12.
Proof. lia. Qed.

Lemma month_of_start m d : 1 <= m <= 12 -> 0 <= d < march_days m -> month_of (month_start m + d) = m.
Proof.
  intros Hm Hd. destruct (month_cases m Hm) as [->|[->|[->|[->|[->|[->|[->|[->|[->|[->|[->| ->]]]]]]]]]]]; unfold march_days, days_in_month in Hd; cbn in Hd |- *;
    unfold month_of; repeat match goal with |- context [?a <? ?b] => destruct (Z.ltb_spec a b) end; lia.
Qed.

Lemma days_march y m : days_in_month y m <= march_days m.
Proof. unfold march_days, days_in_month. destruct (m =? 2); [by destruct (is_leap y)|done]. Qed.

Lemma month_start_end m : 1 <= m <= 12 -> 0 <= month_start m /\ month_start m + march_days m <= if m =? 2 then 366 else 365.
Proof.
  intros Hm. by destruct (month_cases m Hm) as [->|[->|[->|[->|[->|[->|[->|[->|[->|[->|[->| ->]]]]]]]]]]].
Qed.

(** A date and its number. *)
Lemma date_of_day_number y m d : valid_date y m d -> date_of (day_number y m d) = (y, m, d).
Proof.
  intros [Hm Hd]. pose proof (days_march y m) as Hdm. pose proof (month_start_end m Hm) as [Hs He].
  unfold date_of, day_number. set (my := if m <=? 2 then y - 1 else y). replace (year_start my + month_start m + (d - 1) - 719468 + 719468) with (year_start my + (month_start m + (d - 1))) by lia.
  assert (march_year (year_start my + (month_start m + (d - 1))) = my) as ->.
  { apply march_year_unique. pose proof (year_start_next my) as Hn. destruct (Z.eqb_spec m 2) as [->|Hne].
    - subst my. cbn [Z.leb Z.compare Pos.compare Pos.compare_cont] in Hn |- *. replace (y - 1 + 1) with y in * by lia.
      revert Hd Hs. unfold days_in_month. cbn [Z.eqb Pos.eqb]. change (month_start 2) with 337. destruct (is_leap y); lia.
    - destruct (is_leap (my + 1)); lia. }
  replace (year_start my + (month_start m + (d - 1)) - year_start my) with (month_start m + (d - 1)) by lia.
  rewrite month_of_start by lia. f_equal; [f_equal|]; [|lia]. subst my. destruct (Z.leb_spec m 2); lia.
Qed.

Lemma date_of_spec n : let '(y, m, d) := date_of n in valid_date y m d /\ day_number y m d = n.
Proof.
  unfold date_of. set (day := n + 719468). pose proof (march_year_spec day) as Hy. set (my := march_year day) in *.
  pose proof (year_start_next my) as Hn. set (r := day - year_start my). assert (0 <= r < 366) as Hr by (subst r; destruct (is_leap (my + 1)); lia).
  destruct (month_of_spec r Hr) as [Hm Hd]. set (m := month_of r) in *. unfold valid_date, day_number. split; [split; [done|]|].
  - revert Hd. unfold march_days, days_in_month. destruct (Z.eqb_spec m 2) as [E|E]; [|by lia]. rewrite E. cbn [Z.leb Z.compare Pos.compare Pos.compare_cont month_start].
    subst r. destruct (is_leap (my + 1)); lia.
  - destruct (Z.leb_spec m 2); [replace (my + 1 - 1) with my by lia|]; lia.
Qed.

Lemma valid_tm_of t : valid_tm (tm_of t).
Proof.
  unfold tm_of. pose proof (date_of_spec (t / 86400)) as Hd. destruct (date_of (t / 86400)) as [[y m] d]. destruct Hd as [Hd _].
  unfold valid_tm. cbn [tm_year tm_mon tm_mday tm_hour tm_min tm_sec]. replace (y - 1900 + 1900) with y by lia. replace (m - 1 + 1) with m by lia.
  split; [done|]. Z.div_mod_to_equations. lia.
Qed.

(** The parts of a number of seconds. *)
Lemma clock_split s : s = 86400 * (s / 86400) + 3600 * (s mod 86400 / 3600) + 60 * (s mod 3600 / 60) + s mod 60.
Proof.
  assert (s mod 3600 = (s mod 86400) mod 3600) as E1 by (apply eq_sym, Z.mod_mod_divide; by exists 24).
  assert (s mod 60 = (s mod 3600) mod 60) as E2 by (apply eq_sym, Z.mod_mod_divide; by exists 60).
  pose proof (Z.div_mod s 86400) as H1. pose proof (Z.div_mod (s mod 86400) 3600) as H2. pose proof (Z.div_mod (s mod 3600) 60) as H3. lia.
Qed.

Lemma seconds_of_tm_of s : seconds_of (tm_of s) = s.
Proof.
  unfold tm_of. pose proof (date_of_spec (s / 86400)) as Hd. destruct (date_of (s / 86400)) as [[y m] d]. destruct Hd as [[Hm _] Hn].
  unfold seconds_of. cbn [tm_year tm_mon tm_mday tm_hour tm_min tm_sec]. rewrite Z.div_small, Z.mod_small by lia.
  replace (y - 1900 + 1900 + 0) with y by lia. replace (m - 1 + 1) with m by lia. rewrite Hn. pose proof (clock_split s). lia.
Qed.

(** A valid time is its own normal form. *)
Lemma tm_of_seconds_of t : valid_tm t -> tm_of (seconds_of t) = t.
Proof.
  intros [Hd Ht]. pose proof Hd as [Hm _]. destruct t as [y m d h mi s]. unfold seconds_of, tm_of. cbn [tm_year tm_mon tm_mday tm_hour tm_min tm_sec] in *.
  rewrite (Z.div_small m 12), (Z.mod_small m 12), Z.add_0_r by lia. apply date_of_day_number in Hd. set (n := day_number (y + 1900) (m + 1) d) in *.
  assert ((86400 * n + 3600 * h + 60 * mi + s) / 86400 = n /\ (86400 * n + 3600 * h + 60 * mi + s) mod 86400 = 3600 * h + 60 * mi + s) as [-> Hr] by (Z.div_mod_to_equations; lia).
  rewrite Hd, Hr. f_equal; Z.div_mod_to_equations; lia.
Qed.

Example epoch : tm_of 0 = mk_tm 70 0 1 0 0 0.
Proof. reflexivity. Qed.
Example leap_second_of_february : tm_of 951782400 = mk_tm 100 1 29 0 0 0.
Proof. reflexivity. Qed.
Example thirteenth_month : mktime 0 (mk_tm 115 12 32 25 61 61) = (1454378521, mk_tm 116 1 2 2 2 1).
Proof. reflexivity. Qed.
