(* ===== verification/Datetime.v ===== *)
(** * [mysqlpp::datetime] of [src/src/mysqlpp.hpp].

    A [datetime] is the [MYSQL_TIME] of the client library, whose fields are
    [unsigned int]s.  It is read by [sscanf] into a [std::tm] that nothing
    initialised and brought to its normal form by [mktime]. *)
From S2P Require Import Prelude CxxString Calendar.

(** ** [std::sscanf] of integers *)

Inductive conversion : Type := conv_d | literal (c : byte) | white.

Fixpoint after_digits (s : bytes) : bytes :=
  match s with c :: s' => if isdigit c then after_digits s' else s | [] => [] end.

(** The integers that are converted until something does not match; one that is
    not an [int] is undefined. *)
Fixpoint sscanf (fmt : list conversion) (s : bytes) (acc : list Z) : res (list Z) :=
  match fmt with
  | [] => Ok acc
  | white :: fmt => sscanf fmt (skip_space s) acc
  | literal c :: fmt =>
      match s with c' :: s => if c' =c c then sscanf fmt s acc else Ok acc | [] => Ok acc end
  | conv_d :: fmt =>
      let '(neg, s) := read_sign (skip_space s) in
      match s with
      | c :: _ =>
          if isdigit c then
            let* z := int_result (if neg : bool then - read_digits 10 s 0 else read_digits 10 s 0) in sscanf fmt (after_digits s) (acc ++ [z])
          else Ok acc
      | [] => Ok acc
      end
  end.

(** ["%d-%d-%d %d:%d:%d"] *)
Definition datetime_format : list conversion :=
  [conv_d; literal "-"; conv_d; literal "-"; conv_d; white; conv_d; literal ":"; conv_d; literal ":"; conv_d]%byte.

(** ** [datetime] *)

Record datetime : Type := mk_datetime { year : Z; month : Z; day : Z; hour : Z; minute : Z; second : Z }.

Definition set_time (t : tm) : datetime :=
  mk_datetime (uwrap32 (uwrap32 t.(tm_year) + 1900)) (uwrap32 (uwrap32 t.(tm_mon) + 1)) (uwrap32 t.(tm_mday))
    (uwrap32 t.(tm_hour)) (uwrap32 t.(tm_min)) (uwrap32 t.(tm_sec)).

(** [datetime()], at a time of the clock. *)
Definition datetime_now (zone now : Z) : datetime := set_time (tm_of (now + zone)).

Definition cast_failed : exn := mysqlpp_exception (str "datetime cast failed").

(** [datetime(const std::string& str)]: with three fields [mktime] reads an hour,
    a minute and a second that were not written. *)
Definition datetime_of (zone : Z) (s : bytes) : res datetime :=
  if 19 <? size s then Throw cast_failed
  else
    let* fields := sscanf datetime_format (c_str s) [] in
    match fields with
    | [y; mo; d] => let* _ := int_result (y - 1900) in let* _ := int_result (mo - 1) in UB uninitialised_read
    | [y; mo; d; h; mi; se] =>
        let* y := int_result (y - 1900) in
        let* mo := int_result (mo - 1) in
        let '(t, tm_) := mktime zone (mk_tm y mo d h mi se) in
        if t =? -1 then Throw cast_failed else Ok (set_time tm_)
    | _ => Throw cast_failed
    end.

Definition c_tm (d : datetime) : res tm :=
  let* y := int_result (wrap32 d.(year) - 1900) in
  let* mo := int_result (wrap32 d.(month) - 1) in
  Ok (mk_tm y mo (wrap32 d.(day)) (wrap32 d.(hour)) (wrap32 d.(minute)) (wrap32 d.(second))).

(** Two digits. *)
Definition pad2 (z : Z) : bytes := [digit_char (z / 10); digit_char (z mod 10)].

(** [strftime] with ["%Y-%m-%d %H:%M:%S"], for fields in their ranges; the text of
    others is unspecified. *)
Definition in_ranges (t : tm) : bool :=
  (0 <=? t.(tm_mon)) && (t.(tm_mon) <? 12) && (1 <=? t.(tm_mday)) && (t.(tm_mday) <=? 31) && (0 <=? t.(tm_hour)) && (t.(tm_hour) <? 24)
  && (0 <=? t.(tm_min)) && (t.(tm_min) <? 60) && (0 <=? t.(tm_sec)) && (t.(tm_sec) <=? 60).
Definition strftime (t : tm) : res bytes :=
  if in_ranges t then
    Ok (to_string (t.(tm_year) + 1900) ++ str "-" ++ pad2 (t.(tm_mon) + 1) ++ str "-" ++ pad2 t.(tm_mday) ++ str " "
        ++ pad2 t.(tm_hour) ++ str ":" ++ pad2 t.(tm_min) ++ str ":" ++ pad2 t.(tm_sec))
  else UB uninitialised_read.

(** [datetime::str]; the text is shorter than the buffer. *)
Definition datetime_str (d : datetime) : res bytes := let* t := c_tm d in strftime t.

Example noon : datetime_of 0 (str "2014-02-29 12:00:00") = Ok (mk_datetime 2014 3 1 12 0 0).
Proof. reflexivity. Qed.
Example date_alone : datetime_of 0 (str "2014-02-28") = UB uninitialised_read.
Proof. reflexivity. Qed.
Example second_before_the_epoch : datetime_of 32400 (str "1970-01-01 08:59:59") = Throw cast_failed.
Proof. reflexivity. Qed.
Example strings : datetime_str (mk_datetime 2014 3 1 2 5 9) = Ok (str "2014-03-01 02:05:09").
Proof. reflexivity. Qed.

(** ** Numbers in a text *)

Definition no_digit (t : bytes) : Prop := match t with c :: _ => isdigit c = false | [] => True end.

(** Digits whose value is [n]. *)
Definition digits_of (n : Z) (ds : bytes) : Prop := Forall (fun c => isdigit c = true) ds /\ ds <> [] /\ read_digits 10 ds 0 = n.

Lemma read_digits_stop ds t : Forall (fun c => isdigit c = true) ds -> no_digit t -> forall a, read_digits 10 (ds ++ t) a = read_digits 10 ds a.
Proof.
  intros Hds Ht. induction Hds as [|c ds Hc _ IH]; intros a; cbn [app read_digits].
  - destruct t as [|c t]; [done|]. cbn [read_digits no_digit] in *. assert (is_digit_of 10 c = false) as ->; [|done]. by destruct c.
  - rewrite isdigit_digit_of by done. apply IH.
Qed.

Lemma after_digits_app ds t : Forall (fun c => isdigit c = true) ds -> no_digit t -> after_digits (ds ++ t) = t.
Proof.
  intros Hds Ht. induction Hds as [|c ds Hc _ IH]; cbn [app after_digits].
  - destruct t as [|c t]; [done|]. cbn [after_digits no_digit] in *. by rewrite Ht.
  - by rewrite Hc.
Qed.

Lemma digit_not_mark c : isdigit c = true -> isspace c = false /\ (c =c "-"%byte) = false /\ (c =c "+"%byte) = false.
Proof. destruct c; vm_compute; try done; by repeat split. Qed.

(** A conversion reads the digits in front of it. *)
Lemma sscanf_digits fmt n ds t acc : digits_of n ds -> n <= INT_MAX -> no_digit t ->
  sscanf (conv_d :: fmt) (ds ++ t) acc = sscanf fmt t (acc ++ [n]).
Proof.
  intros (Hds & Hne & Hn) Hmax Ht. cbn [sscanf]. assert (skip_space (ds ++ t) = ds ++ t /\ read_sign (ds ++ t) = (false, ds ++ t)) as [-> ->].
  { destruct ds as [|c ds]; [done|]. apply Forall_cons_iff in Hds as [Hc _]. destruct (digit_not_mark c Hc) as (H1 & H2 & H3). cbn [app skip_space read_sign].
    by rewrite H1, H2, H3. }
  pose proof (read_digits_ge ds 0 Hds ltac:(lia)) as H0. rewrite read_digits_stop, after_digits_app by done. destruct ds as [|c ds]; [done|]. apply Forall_cons_iff in Hds as [Hc _].
  cbn [app]. rewrite Hc, Hn. rewrite Hn in H0. unfold int_result. destruct (Z.leb_spec (- 2 ^ 31) n); [|lia]. by destruct (Z.leb_spec n INT_MAX); [|lia].
Qed.

Lemma sscanf_literal fmt c s acc : sscanf (literal c :: fmt) (c :: s) acc = sscanf fmt s acc.
Proof. cbn [sscanf]. by rewrite eqc_refl. Qed.

Lemma digits_of_to_string n : 0 <= n -> digits_of n (to_string n).
Proof.
  intros Hn. destruct (to_string_decimal n Hn) as [Hd (c & ds & Ec & _) Hv]. split; [done|]. split; [by rewrite Ec|].
  specialize (Hv [] 0). rewrite app_nil_r in Hv. by rewrite Hv.
Qed.

Lemma digits_of_pad2 n : 0 <= n < 100 -> digits_of n (pad2 n).
Proof.
  intros Hn. assert (0 <= n / 10 < 10 /\ 0 <= n mod 10 < 10) as [H1 H2] by (Z.div_mod_to_equations; lia).
  destruct (digit_char_val _ H1) as [Hd1 Hv1], (digit_char_val _ H2) as [Hd2 Hv2]. unfold pad2. split; [by repeat constructor|]. split; [done|].
  cbn [read_digits]. rewrite !isdigit_digit_of, Hv1, Hv2 by done. pose proof (Z.div_mod n 10). lia.
Qed.

(** What [sscanf] returns: an overflow is all that can go wrong. *)
Lemma sscanf_outcome fmt : forall s acc, match sscanf fmt s acc with Ok _ => True | Throw _ => False | UB u => u = signed_overflow end.
Proof.
  induction fmt as [|[|c|] fmt IH]; intros s acc; cbn [sscanf]; [done| | |apply IH].
  - destruct (read_sign (skip_space s)) as [neg [|c s']]; [done|]. destruct (isdigit c); [|done]. unfold int_result. destruct (_ && _); [apply IH|done].
  - destruct s as [|c' s]; [done|]. destruct (c' =c c); [apply IH|done].
Qed.

(** ** What a [datetime] is *)

(** The fields name a day of the calendar and a time of the day; the year is what
    an [unsigned int] keeps of it. *)
Definition typed_as (y : Z) (d : datetime) : Prop :=
  is_int (y - 1900) = true /\ d.(year) = uwrap32 y /\ valid_date y d.(month) d.(day) /\
  0 <= d.(hour) < 24 /\ 0 <= d.(minute) < 60 /\ 0 <= d.(second) < 60.

Lemma days_at_most y m : days_in_month y m <= 31.
Proof. unfold days_in_month. destruct (m =? 2), (is_leap y), ((m =? 4) || (m =? 6) || (m =? 9) || (m =? 11)); lia. Qed.

Lemma set_time_valid t : valid_tm t ->
  set_time t = mk_datetime (uwrap32 (t.(tm_year) + 1900)) (t.(tm_mon) + 1) t.(tm_mday) t.(tm_hour) t.(tm_min) t.(tm_sec).
Proof.
  intros ([Hm Hd] & Hh & Hmi & Hs). pose proof (days_at_most (tm_year t + 1900) (tm_mon t + 1)).
  unfold set_time, uwrap32. rewrite Zplus_mod_idemp_l.
  by rewrite (Z.mod_small (tm_mon t)), (Z.mod_small (tm_mon t + 1)), (Z.mod_small (tm_mday t)), (Z.mod_small (tm_hour t)), (Z.mod_small (tm_min t)), (Z.mod_small (tm_sec t)) by lia.
Qed.

Lemma set_time_typed t : valid_tm t -> is_int t.(tm_year) = true -> typed_as (t.(tm_year) + 1900) (set_time t).
Proof.
  intros Ht Hi. rewrite set_time_valid by done. destruct Ht as (Hd & Hh & Hmi & Hs). unfold typed_as. cbn [year month day hour minute second].
  replace (tm_year t + 1900 - 1900) with (tm_year t) by lia. done.
Qed.

Lemma mktime_valid zone t r t' : mktime zone t = (r, t') -> r <> -1 -> valid_tm t' /\ is_int t'.(tm_year) = true.
Proof.
  unfold mktime. destruct (is_int (tm_year (tm_of (seconds_of t)))) eqn:E; [|by intros [= <- <-]]. intros [= <- <-] _. split; [apply valid_tm_of|done].
Qed.

(** C40: Whatever the text, a [datetime] that is made from it is a day of the
    calendar with a time of the day, however large its fields were; the only
    exception is the one that the constructor throws, and the only undefined
    behaviours are a number that is no [int] and a text with a date alone, whose
    time of the day is read without having been written. *)
Theorem datetime_typed zone s :
  match datetime_of zone s with
  | Ok d => exists y, typed_as y d
  | Throw e => e = cast_failed
  | UB u => u = signed_overflow \/ u = uninitialised_read /\ exists y mo d, sscanf datetime_format (c_str s) [] = Ok [y; mo; d]
  end.
Proof.
  unfold datetime_of. destruct (19 <? size s); [done|]. pose proof (sscanf_outcome datetime_format (c_str s) []) as Ho.
  destruct (sscanf datetime_format (c_str s) []) as [l|e|u]; cbn [mbind res_bind]; [|done|by left].
  destruct l as [|y [|mo [|d [|h [|mi [|se [|x l]]]]]]]; [reflexivity..| |reflexivity|reflexivity| |reflexivity];
    (destruct (int_result_cases (y - 1900)) as [-> | ->]; [|by left]; destruct (int_result_cases (mo - 1)) as [-> | ->]; [|by left]); cbn [mbind res_bind].
  - right. split; [done|]. by exists y, mo, d.
  - destruct (mktime zone _) as [r t] eqn:E. destruct (Z.eqb_spec r (-1)) as [|Hr]; [done|]. destruct (mktime_valid _ _ _ _ E Hr) as [Hv Hi]. eexists. by apply set_time_typed.
Qed.

(** ** Round trip *)

Lemma size_to_string_year y : 0 <= y <= 9999 -> size (to_string y) <= 4.
Proof.
  intros Hy. destruct (to_string_decimal y ltac:(lia)) as [Hd (c & ds & Ec & Hc) Hv]. specialize (Hv [] 0). rewrite app_nil_r in Hv. cbn [read_digits] in Hv.
  rewrite Ec in *. destruct ds as [|c1 [|c2 [|c3 [|c4 ds]]]]; unfold size; cbn [length]; try lia.
  exfalso. repeat match goal with H : Forall _ (_ :: _) |- _ => apply Forall_cons_iff in H as [? H] end.
  revert Hv. cbn [read_digits]. rewrite !isdigit_digit_of by done. repeat match goal with H : isdigit ?x = true |- _ => destruct (digit_val_schar x H); revert H end. intros.
  match type of Hv with read_digits 10 ds ?a = _ => pose proof (read_digits_ge ds a ltac:(done) ltac:(lia)) end.
  destruct (Z.eq_dec y 0) as [->|]; [by destruct (to_string 0) eqn:E0; vm_compute in E0; simplify_eq|]. specialize (Hc ltac:(lia)). lia.
Qed.

Lemma small_int z : - 10000 <= z < 10000 -> int_result z = Ok z.
Proof.
  intros Hz. unfold int_result, INT_MAX. destruct (Z.leb_spec (- 2 ^ 31) z); [|lia]. by destruct (Z.leb_spec z (2 ^ 31 - 1)); [|lia].
Qed.

(** The text of a time within its ranges. *)
Lemma datetime_str_valid y m d h mi se : valid_date y m d -> 0 <= h < 24 -> 0 <= mi < 60 -> 0 <= se < 60 -> 0 <= y <= 9999 ->
  datetime_str (mk_datetime y m d h mi se) =
    Ok (to_string y ++ str "-" ++ pad2 m ++ str "-" ++ pad2 d ++ str " " ++ pad2 h ++ str ":" ++ pad2 mi ++ str ":" ++ pad2 se).
Proof.
  intros [Hm Hd] Hh Hmi Hs Hy. pose proof (days_at_most y m). unfold datetime_str, c_tm. cbn [year month day hour minute second].
  assert (forall z, 0 <= z < 10000 -> wrap32 z = z) as Hw by (intros z Hz; unfold wrap32; rewrite Z.mod_small by lia; lia). rewrite !Hw by lia.
  rewrite !small_int by lia. cbn [mbind res_bind]. unfold strftime. assert (in_ranges (mk_tm (y - 1900) (m - 1) d h mi se) = true) as ->.
  { unfold in_ranges. cbn [tm_year tm_mon tm_mday tm_hour tm_min tm_sec]. lia. }
  cbn [tm_year tm_mon tm_mday tm_hour tm_min tm_sec]. replace (y - 1900 + 1900) with y by lia. by replace (m - 1 + 1) with m by lia.
Qed.

Lemma digits_no_nul n ds : digits_of n ds -> Byte.x00 ∉ ds.
Proof. intros (Hd & _) Hin. rewrite Forall_forall in Hd. by specialize (Hd _ Hin). Qed.

Lemma sscanf_white fmt c s acc : isspace c = true -> skip_space s = s -> sscanf (white :: fmt) (c :: s) acc = sscanf fmt s acc.
Proof. intros Hc Hs. cbn [sscanf skip_space]. by rewrite Hc, Hs. Qed.

Lemma no_space_pad2 n t : 0 <= n < 100 -> skip_space (pad2 n ++ t) = pad2 n ++ t.
Proof.
  intros Hn. destruct (digits_of_pad2 n Hn) as (Hd & _). unfold pad2 in *. apply Forall_cons_iff in Hd as [Hc _].
  cbn [app skip_space]. by destruct (digit_not_mark _ Hc) as (-> & _).
Qed.

(** One field, and the mark after it. *)
Ltac read_field :=
  erewrite sscanf_digits; [|(apply digits_of_to_string || apply digits_of_pad2); lia|unfold INT_MAX; lia|done]; cbn [app].
Ltac read_literal :=
  match goal with |- context [str ?a ++ ?t] => let v := eval vm_compute in (str a) in change (str a ++ t) with (v ++ t) end; cbn [app]; rewrite sscanf_literal.

(** [datetime(d.str())] is [d] again, for any time of the years to 9999; but the
    constructor takes the second before the epoch for an error. *)
Theorem datetime_roundtrip zone y m d h mi se : valid_date y m d -> 0 <= h < 24 -> 0 <= mi < 60 -> 0 <= se < 60 -> 0 <= y <= 9999 ->
  exists text, datetime_str (mk_datetime y m d h mi se) = Ok text /\ datetime_of zone text =
      if seconds_of (mk_tm (y - 1900) (m - 1) d h mi se) - zone =? -1 then Throw cast_failed else Ok (mk_datetime y m d h mi se).
Proof.
  intros Hd Hh Hmi Hs Hy. eexists. split; [by apply datetime_str_valid|]. pose proof Hd as [Hm Hday]. pose proof (days_at_most y m).
  pose proof (size_to_string_year y Hy) as Hsz. set (text := to_string y ++ _). assert (size text <= 19) as Hle by (unfold size in *; subst text; rewrite !length_app; change (length (str _)) with 1%nat; change (length (pad2 _)) with 2%nat; lia).
  pose proof (digits_of_to_string y ltac:(lia)) as Dy.
  assert (c_str text = text) as Hc.
  { apply c_str_no_nul. subst text. rewrite !not_elem_of_app.
    repeat split; first [by eapply digits_no_nul|by (eapply digits_no_nul, digits_of_pad2; lia)|by (vm_compute; intros Hin; repeat (apply elem_of_cons in Hin as [|Hin]; [done|]); by apply not_elem_of_nil in Hin)]. }
  unfold datetime_of. destruct (Z.ltb_spec 19 (size text)); [lia|]. rewrite Hc. unfold datetime_format. subst text. clear Hc Hle.
  do 2 (read_field; read_literal). read_field. change (str " ") with [" "%byte]. cbn [app]. rewrite sscanf_white; [|done|by (apply no_space_pad2; lia)].
  do 2 (read_field; read_literal). rewrite <- (app_nil_r (pad2 se)). read_field. cbn [sscanf mbind res_bind]. rewrite !small_int by lia. cbn [mbind res_bind].
  set (t := mk_tm (y - 1900) (m - 1) d h mi se). assert (valid_tm t) as Ht.
  { unfold valid_tm. subst t. cbn [tm_year tm_mon tm_mday tm_hour tm_min tm_sec]. replace (y - 1900 + 1900) with y by lia. by replace (m - 1 + 1) with m by lia. }
  unfold mktime. rewrite tm_of_seconds_of by done. assert (is_int (tm_year t) = true) as -> by (subst t; unfold is_int, INT_MAX; cbn [tm_year]; lia).
  destruct (seconds_of t - zone =? -1); [done|]. rewrite set_time_valid by done. subst t. cbn [tm_year tm_mon tm_mday tm_hour tm_min tm_sec].
  unfold uwrap32. rewrite Z.mod_small by lia. replace (y - 1900 + 1900) with y by lia. by replace (m - 1 + 1) with m by lia.
Qed.
