(* ===== verification/Mysqlpp.v ===== *)
(** * [src/src/mysqlpp.hpp], [src/src/mysqlpp_connection.cpp],
    [src/src/mysqlpp_statement.cpp], [src/src/mysqlpp_result.cpp]: prepared
    statements and their results.

    The MySQL client library is outside: what it answers is an argument, and what
    it reads of the structures it is given is the result.  Parameters are bound by
    address, so the variables that are alive are a store; statements and results
    are objects, owned by the vectors of their connection and by the smart
    pointers of the routes. *)
From S2P Require Import Prelude CxxString.

(** [empty()] of a vector *)
Definition empty_vector {A} (l : list A) : bool := match l with [] => true | _ => false end.

(** ** Parameters *)

(** [enum_field_types], as far as the source names them. *)
Inductive field_type : Type :=
  | MYSQL_TYPE_DECIMAL (* 0, what a new bind holds *)
  | MYSQL_TYPE_TINY | MYSQL_TYPE_SHORT | MYSQL_TYPE_LONG | MYSQL_TYPE_LONGLONG | MYSQL_TYPE_FLOAT | MYSQL_TYPE_DOUBLE
  | MYSQL_TYPE_STRING | MYSQL_TYPE_BLOB | MYSQL_TYPE_NULL | MYSQL_TYPE_DATETIME | MYSQL_TYPE_OTHER (n : Z).

#[export] Instance field_type_eq_dec : EqDecision field_type.
Proof. solve_decision. Defined.

(** A value of the program: an integer, a floating-point number as its bytes, a
    string. *)
Inductive datum : Type := d_int (z : Z) | d_real (b : bytes) | d_text (s : bytes).

(** The variables alive, by their addresses. *)
Abbreviation store := (gmap nat datum).

(** [st_mysql_bind] of a parameter; [b_length] is the index of the length it points
    to. *)
Record bind : Type := mk_bind {
  buffer_type : field_type; buffer : option nat; buffer_length : Z; b_length : option nat; is_unsigned : bool }.

Definition new_bind : bind := mk_bind MYSQL_TYPE_DECIMAL None 0 None false.

(** [class statement] *)
Record statement : Type := mk_statement { param_count : Z; bind_index : Z; binds : list bind; lengths : list Z }.

(** What [mysql_stmt_init], [mysql_stmt_prepare] and [mysql_stmt_param_count] answer. *)
Inductive prepared : Type := no_stmt | bad_query (error : bytes) | params (n : Z).

Definition new_statement (a : prepared) : res statement :=
  match a with
  | no_stmt => Throw (mysqlpp_exception (str "stmt_init failed"))
  | bad_query e => Throw (mysqlpp_exception e)
  | params n => Ok (mk_statement (wrap32 n) 0 (replicate (Z.to_nat n) new_bind) (replicate (Z.to_nat n) 0))
  end.

(** [get_bind]: the index of the bind, and the statement with the next index. *)
Definition get_bind (s : statement) : res (nat * statement) :=
  if (s.(bind_index) <? 0) || (s.(param_count) <=? s.(bind_index)) then Throw (mysqlpp_exception (str "invalid bind_index"))
  else if s.(bind_index) <? size s.(binds) then
    Ok (Z.to_nat s.(bind_index), mk_statement s.(param_count) (s.(bind_index) + 1) s.(binds) s.(lengths))
  else UB index_out_of_bounds.

Definition set_bind (s : statement) (i : nat) (f : bind -> bind) : statement :=
  mk_statement s.(param_count) s.(bind_index) (alter f i s.(binds)) s.(lengths).

(** [lengths[bind_index - 1] = n; b.length = &lengths[bind_index - 1];] *)
Definition set_length (s : statement) (i : nat) (n : Z) : statement :=
  mk_statement s.(param_count) s.(bind_index) s.(binds) (<[i := n]> s.(lengths)).

(** The overloads of [param] on numbers without a length: the type and the sign. *)
Inductive int_type : Type := t_uint8 | t_int16 | t_uint16 | t_int32 | t_uint32 | t_int64 | t_uint64.

Definition int_field (t : int_type) : field_type * bool :=
  match t with
  | t_uint8 => (MYSQL_TYPE_TINY, true)
  | t_int16 => (MYSQL_TYPE_SHORT, false) | t_uint16 => (MYSQL_TYPE_SHORT, true)
  | t_int32 => (MYSQL_TYPE_LONG, false) | t_uint32 => (MYSQL_TYPE_LONG, true)
  | t_int64 => (MYSQL_TYPE_LONGLONG, false) | t_uint64 => (MYSQL_TYPE_LONGLONG, true)
  end.

Definition param_int (t : int_type) (s : statement) (a : nat) : res statement :=
  let* (i, s) := get_bind s in
  let '(ty, u) := int_field t in
  Ok (set_bind s i (fun b => mk_bind ty (Some a) b.(buffer_length) None u)).

(** [param(const float&)], [param(const double&)] *)
Definition param_real (double_ : bool) (s : statement) (a : nat) : res statement :=
  let* (i, s) := get_bind s in
  let s := set_length s i (if double_ then 8 else 4) in
  Ok (set_bind s i (fun b => mk_bind (if double_ then MYSQL_TYPE_DOUBLE else MYSQL_TYPE_FLOAT) (Some a) b.(buffer_length) (Some i) b.(is_unsigned))).

(** [param(const std::string&)], [param_blob]; [value] is the string at [a] now. *)
Definition param_text (blob : bool) (s : statement) (a : nat) (value : bytes) : res statement :=
  let* (i, s) := get_bind s in
  let s := set_length s i (size value) in
  Ok (set_bind s i (fun b => mk_bind (if blob then MYSQL_TYPE_BLOB else MYSQL_TYPE_STRING) (Some a) (size value) (Some i) b.(is_unsigned))).

(** [param_null]; the library sets the null flag of this type itself. *)
Definition param_null (s : statement) : res statement :=
  let* (i, s) := get_bind s in
  Ok (set_bind s i (fun b => mk_bind MYSQL_TYPE_NULL b.(buffer) b.(buffer_length) b.(b_length) b.(is_unsigned))).

(** What the library reads of a bind when the statement is executed: nothing of an
    unset one. *)
Inductive sent : Type := sent_datum (d : datum) | sent_null | sent_unset.

Definition read_bind (st : store) (lens : list Z) (b : bind) : res sent :=
  if decide (b.(buffer_type) = MYSQL_TYPE_NULL) then Ok sent_null
  else
    match b.(buffer) with
    | None => Ok sent_unset
    | Some a =>
        match st !! a with
        | None => UB dangling_pointer
        | Some (d_text v) =>
            match b.(b_length) with
            | None => Ok (sent_datum (d_text v))
            | Some i =>
                match lens !! i with
                | None => UB index_out_of_bounds
                | Some n => if n <=? size v then Ok (sent_datum (d_text (take (Z.to_nat n) v))) else UB index_out_of_bounds
                end
            end
        | Some d => Ok (sent_datum d)
        end
    end.

Fixpoint read_binds (st : store) (lens : list Z) (bs : list bind) : res (list sent) :=
  match bs with [] => Ok [] | b :: bs => let* x := read_bind st lens b in let* xs := read_binds st lens bs in Ok (x :: xs) end.

(** What the library answers to [mysql_stmt_bind_param] and [mysql_stmt_execute]. *)
Inductive executed : Type := exec_failed (error : bytes) | exec_ok (affected_rows : Z).

(** [execute], and [query] up to the result: the parameters sent. *)
Definition execute (st : store) (s : statement) (a : executed) : res (list sent * Z) :=
  let* l := (if (0 <? s.(param_count)) && negb (empty_vector s.(binds)) then read_binds st s.(lengths) s.(binds) else Ok []) in
  match a with exec_failed e => Throw (mysqlpp_exception e) | exec_ok n => Ok (l, n) end.

(** ** Results *)

(** [st_mysql_column]; the buffer belongs to the library between fetches. *)
Record column : Type := mk_column { col_type : field_type; name : bytes; col_buffer : bytes; col_length : Z; is_null_ : bool }.

(** [st_mysql_field] *)
Record field : Type := mk_field { f_name : bytes; f_type : field_type; f_length : Z }.

(** The loop of [bind]. *)
Definition bind_column (f : field) : column :=
  mk_column (if decide (f.(f_type) = MYSQL_TYPE_DATETIME) then MYSQL_TYPE_STRING else f.(f_type)) f.(f_name)
    (replicate (Z.to_nat f.(f_length)) Byte.x00) f.(f_length) false.

(** [result::bind]; [&columns[i].buffer.front()] of an empty buffer is undefined. *)
Definition bind_result (fields : list field) (error : option bytes) : res (list column * bool) :=
  if empty_vector fields then Ok ([], false)
  else if existsb (fun f => f.(f_length) =? 0) fields then UB back_of_empty
  else match error with Some e => Throw (mysqlpp_exception e) | None => Ok (map bind_column fields, true) end.

(** What the library stores in a buffer: its first bytes change. *)
Definition fill (c : column) (b : bytes) (n : Z) (null : bool) : column :=
  mk_column c.(col_type) c.(name) (take (length c.(col_buffer)) b ++ drop (length b) c.(col_buffer)) n null.

(** The little-endian bytes of an integer. *)
Fixpoint le_bytes (w : nat) (z : Z) : bytes := match w with O => [] | S w => char_of_Z z :: le_bytes w (z / 256) end.
Fixpoint le_value (b : bytes) : Z := match b with [] => 0 | c :: b => uchar c + 256 * le_value b end.

(** [get_column] by index and by name. *)
Definition get_column (cs : list column) (index : Z) : res column :=
  if size cs <=? index then Throw (mysqlpp_exception (str "invalid column_index"))
  else match cs !! Z.to_nat index with Some c => Ok c | None => UB index_out_of_bounds end.

Fixpoint get_column_named (cs : list column) (n : bytes) : res column :=
  match cs with
  | [] => Throw (mysqlpp_exception (str "invalid column_name"))
  | c :: cs => if n =s c_str c.(name) then Ok c else get_column_named cs n
  end.

Definition is_null (cs : list column) (index : Z) : res bool := let* c := get_column cs index in Ok c.(is_null_).
Definition is_null_named (cs : list column) (n : bytes) : res bool := let* c := get_column_named cs n in Ok c.(is_null_).

(** [column.buffer.front()], a [char] *)
Definition front (c : column) : res Z := match c.(col_buffer) with [] => UB back_of_empty | b :: _ => Ok (schar b) end.

(** The overloads of [set_value]. *)
Inductive get_type : Type := g_int8 | g_uint8 | g_int16 | g_uint16 | g_int32 | g_uint32 | g_int64 | g_uint64.

(** An integer as a signed one of [w] bits. *)
Definition signed (w z : Z) : Z := (z + 2 ^ (w - 1)) mod 2 ^ w - 2 ^ (w - 1).

Definition set_value (t : get_type) (c : column) : res Z :=
  let wide (f : Z -> Z) :=
    (if empty_vector c.(col_buffer) then UB back_of_empty
     else if size c.(col_buffer) <? 8 then UB index_out_of_bounds
     else Ok (f (le_value (take 8 c.(col_buffer))))) in
  match t with
  | g_int8 | g_int16 | g_int32 => front c
  | g_uint8 => let* v := front c in Ok (v mod 2 ^ 8)
  | g_uint16 => let* v := front c in Ok (v mod 2 ^ 16)
  | g_uint32 => let* v := front c in Ok (v mod 2 ^ 32)
  | g_int64 => wide (signed 64)
  | g_uint64 => wide (fun v => v)
  end.

(** [set_value(column, std::string&)] *)
Definition set_value_text (c : column) : res bytes :=
  if empty_vector c.(col_buffer) then UB back_of_empty
  else if size c.(col_buffer) <? c.(col_length) then UB index_out_of_bounds
  else Ok (take (Z.to_nat c.(col_length)) c.(col_buffer)).

(** [set_value(column, float&)] and [set_value(column, double&)]: the bytes of the
    number. *)
Definition set_value_real (double_ : bool) (c : column) : res bytes :=
  let w := if double_ then 8 else 4 in
  if empty_vector c.(col_buffer) then UB back_of_empty
  else if size c.(col_buffer) <? w then UB index_out_of_bounds
  else Ok (take (Z.to_nat w) c.(col_buffer)).

(** [get<T>(index)], [get<T>(name)] *)
Definition get_of {A} (set : column -> res A) (c : column) : res A :=
  if c.(is_null_) then Throw (mysqlpp_exception (str "null value field")) else set c.

Definition get {A} (set : column -> res A) (cs : list column) (index : Z) : res A := let* c := get_column cs index in get_of set c.
Definition get_named {A} (set : column -> res A) (cs : list column) (n : bytes) : res A := let* c := get_column_named cs n in get_of set c.

(** ** Objects *)

(** The statements and results alive, and the vectors of a connection. *)
Record session_objects : Type := mk_objects { alive : gset nat; next_id : nat; statements : list nat; results : list nat }.

Definition no_objects : session_objects := mk_objects ∅ 0 [] [].

(** [prepare], [prepare_like] and [__query]: a new object, kept in a vector. *)
Definition prepare (o : session_objects) : nat * session_objects :=
  (o.(next_id), mk_objects ({[o.(next_id)]} ∪ o.(alive)) (S o.(next_id)) (o.(statements) ++ [o.(next_id)]) o.(results)).
Definition query (o : session_objects) : nat * session_objects :=
  (o.(next_id), mk_objects ({[o.(next_id)]} ∪ o.(alive)) (S o.(next_id)) o.(statements) (o.(results) ++ [o.(next_id)])).

(** [delete] *)
Definition delete_object (o : session_objects) (i : nat) : res session_objects :=
  if decide (i ∈ o.(alive)) then Ok (mk_objects (o.(alive) ∖ {[i]}) o.(next_id) o.(statements) o.(results)) else UB double_free.

Definition delete_objects (o : session_objects) (l : list nat) : res session_objects :=
  foldl (fun m i => let* o := m in delete_object o i) (Ok o) l.

(** [connection::clear], which [~scoped_db] calls *)
Definition clear (o : session_objects) : res session_objects :=
  let* o := delete_objects o o.(results) in
  let o := mk_objects o.(alive) o.(next_id) o.(statements) [] in
  let* o := delete_objects o o.(statements) in
  Ok (mk_objects o.(alive) o.(next_id) [] o.(results)).

(** The block of a route: it declares a [scoped_db], then smart pointers to the
    statements and results it makes, in order.  They are destroyed in reverse. *)
Inductive declared : Type := a_stmt_ptr | an_rs_ptr | a_pointer_to_statement | a_pointer_to_result.

Fixpoint declare (l : list declared) (o : session_objects) : list nat * session_objects :=
  match l with
  | [] => ([], o)
  | d :: l =>
      let '(i, o) := match d with a_stmt_ptr | a_pointer_to_statement => prepare o | _ => query o end in
      let '(ps, o) := declare l o in
      (match d with a_stmt_ptr | an_rs_ptr => i :: ps | _ => ps end, o)
  end.

Definition block (l : list declared) (o : session_objects) : res session_objects :=
  let '(ps, o) := declare l o in
  let* o := delete_objects o (rev ps) in clear o.

(** ** Lemmas on objects *)

Lemma foldl_stuck {A B} (f : A -> B -> res A) l u : foldl (fun m i => let* o := m in f o i) (UB u) l = UB u.
Proof. induction l as [|i l IH]; [done|]. exact IH. Qed.

Definition with_alive (o : session_objects) (s : gset nat) : session_objects := mk_objects s o.(next_id) o.(statements) o.(results).

(** Deleting different objects: all must be alive. *)
Lemma delete_objects_spec l : forall o, NoDup l ->
  delete_objects o l = if decide (Forall (fun i => i ∈ o.(alive)) l) then Ok (with_alive o (o.(alive) ∖ list_to_set l)) else UB double_free.
Proof.
  unfold delete_objects. induction l as [|i l IH]; intros o Hnd; cbn [foldl].
  - rewrite decide_True by constructor. cbn. unfold with_alive. rewrite difference_empty_L. by destruct o.
  - apply NoDup_cons in Hnd as [Hi Hnd]. cbn [mbind res_bind]. unfold delete_object at 2. destruct (decide (i ∈ alive o)) as [Ha|Ha].
    + rewrite IH by done. cbn [alive]. unfold with_alive. cbn [next_id statements results].
      destruct (decide (Forall _ l)) as [Hl|Hl].
      * rewrite decide_True.
        -- f_equal. f_equal. cbn [list_to_set]. set_solver.
        -- constructor; [done|]. eapply Forall_impl; [exact Hl|]. set_solver.
      * rewrite decide_False; [done|]. intros [_ Hl']%Forall_cons_iff. destruct Hl. apply Forall_forall. intros j Hj.
        rewrite Forall_forall in Hl'. specialize (Hl' j Hj). set_solver.
    + rewrite foldl_stuck, decide_False; [done|]. by intros [? _]%Forall_cons_iff.
Qed.

Definition smart (d : declared) : bool := match d with a_stmt_ptr | an_rs_ptr => true | _ => false end.

Lemma declare_spec l : forall o, let '(ps, o') := declare l o in
  o'.(alive) = o.(alive) ∪ list_to_set (seq o.(next_id) (length l)) /\
  o'.(results) ++ o'.(statements) ≡ₚ (o.(results) ++ o.(statements)) ++ seq o.(next_id) (length l) /\
  NoDup ps /\ (forall i, i ∈ ps -> i ∈ seq o.(next_id) (length l)) /\ (ps = [] <-> existsb smart l = false).
Proof.
  induction l as [|d l IH]; intros o; cbn [declare].
  - cbn. rewrite union_empty_r_L, app_nil_r. split_and!; [done|done|constructor|by intros i ?%elem_of_nil|done].
  - set (p := match d with a_stmt_ptr | a_pointer_to_statement => prepare o | _ => query o end).
    assert (p.1 = next_id o /\ next_id p.2 = S (next_id o) /\ alive p.2 = {[next_id o]} ∪ alive o /\
      results p.2 ++ statements p.2 ≡ₚ (results o ++ statements o) ++ [next_id o]) as (E1 & E2 & E3 & E4).
    { unfold p, prepare, query. destruct d; cbn; (split_and!; [done|done|done|]); rewrite <- ?app_assoc; try done; by rewrite (Permutation_app_comm [_]). }
    destruct p as [i o1]. cbn [fst snd] in *. subst i. specialize (IH o1). destruct (declare l o1) as [ps o2].
    destruct IH as (A1 & A2 & A3 & A4 & A5). rewrite E2 in *. cbn [length seq list_to_set]. split_and!.
    + rewrite A1, E3. set_solver.
    + rewrite A2, E4. by rewrite <- app_assoc.
    + destruct d; try done; (apply NoDup_cons; split; [|done]); intros Hi%A4%elem_of_seq; lia.
    + intros i Hi. apply elem_of_cons. destruct d; try (apply elem_of_cons in Hi as [->|Hi]; [by left|]); right; by apply A4.
    + cbn [existsb]. destruct d; cbn [smart orb]; try exact A5; by split.
Qed.

(** C19: The smart pointers of a route and the vectors of its connection own the same
    objects: a block that declares a statement or a result as a [unique_ptr] after
    its [scoped_db] deletes it twice when it ends, whatever else it declares.  A
    block that leaves them to the connection deletes each object once. *)
Theorem routes_delete_twice l :
  if existsb smart l then block l no_objects = UB double_free
  else exists o, block l no_objects = Ok o /\ o.(alive) = ∅ /\ o.(statements) = [] /\ o.(results) = [].
Proof.
  unfold block. pose proof (declare_spec l no_objects) as Hd. destruct (declare l no_objects) as [ps o].
  destruct Hd as (A1 & A2 & A3 & A4 & A5). cbn [alive results statements next_id no_objects app] in *. rewrite union_empty_l_L in A1.
  assert (NoDup (results o ++ statements o)) as Hnd by (rewrite A2; apply NoDup_seq).
  apply NoDup_app in Hnd as (Hnr & Hrs & Hns).
  assert (forall i, i ∈ results o ++ statements o <-> i ∈ seq 0 (length l)) as Hin by (intros i; by rewrite A2).
  assert (NoDup (rev ps)) as Hr by (by rewrite <- Permutation_rev).
  rewrite delete_objects_spec, decide_True by (try done; apply Forall_forall; intros i Hi; rewrite A1; apply elem_of_list_to_set, A4; by rewrite (Permutation_rev ps)).
  cbn [mbind res_bind]. unfold clear. rewrite delete_objects_spec by done. cbn [with_alive alive].
  destruct (existsb smart l) eqn:Es.
  - assert (exists i, i ∈ ps) as [i Hi].
    { destruct ps as [|i ps]; [|exists i; by left]. pose proof (proj1 A5 eq_refl). congruence. }
    assert (i ∈ results o ++ statements o) as [Hir|His]%elem_of_app by (by apply Hin, A4).
    + rewrite decide_False; [done|]. intros Hf. rewrite Forall_forall in Hf. specialize (Hf i Hir).
      apply elem_of_difference in Hf as [_ Hf]. apply Hf, elem_of_list_to_set. by rewrite <- Permutation_rev.
    + case_decide; [|done]. cbn [mbind res_bind]. rewrite delete_objects_spec by done.
      rewrite decide_False; [done|]. intros Hf. cbn in Hf. rewrite Forall_forall in Hf. specialize (Hf i His).
      apply elem_of_difference in Hf as [[_ Hf]%elem_of_difference _]. apply Hf, elem_of_list_to_set. by rewrite <- Permutation_rev.
  - assert (ps = []) as -> by by apply A5. cbn [rev list_to_set]. rewrite A1.
    rewrite decide_True; [|apply Forall_forall; intros i Hi; apply elem_of_difference; split; [|apply not_elem_of_empty];
      apply elem_of_list_to_set, Hin, elem_of_app; by left].
    cbn [mbind res_bind]. rewrite delete_objects_spec by done. cbn [with_alive alive statements].
    rewrite decide_True; [|apply Forall_forall; intros i Hi; rewrite !elem_of_difference; split; [split; [|apply not_elem_of_empty]|];
      [apply elem_of_list_to_set, Hin, elem_of_app; by right|rewrite elem_of_list_to_set; intros Hir; by apply (Hrs i)]].
    eexists. split; [reflexivity|]. cbn. split; [|done]. apply elem_of_equiv_empty_L. intros i.
    rewrite !elem_of_difference, !elem_of_list_to_set, <- Hin, elem_of_app. tauto.
Qed.

(** ** Parameters and what is sent *)

(** A parameter: the overload, and the value at its address when it is bound. *)
Inductive arg : Type := arg_int (t : int_type) (z : Z) | arg_real (double_ : bool) (b : bytes) | arg_text (blob : bool) (s : bytes) | arg_null.

Definition datum_of (x : arg) : option datum :=
  match x with arg_int _ z => Some (d_int z) | arg_real _ b => Some (d_real b) | arg_text _ s => Some (d_text s) | arg_null => None end.

Definition bind_arg (s : statement) (p : arg * nat) : res statement :=
  match p.1 with
  | arg_int t _ => param_int t s p.2
  | arg_real d _ => param_real d s p.2
  | arg_text blob v => param_text blob s p.2 v
  | arg_null => param_null s
  end.

Fixpoint bind_args (s : statement) (l : list (arg * nat)) : res statement :=
  match l with [] => Ok s | p :: l => let* s := bind_arg s p in bind_args s l end.

(** What a statement with these parameters sends. *)
Definition arg_sent (x : arg) : sent := match datum_of x with Some d => sent_datum d | None => sent_null end.

Definition bound (lens : list Z) (p : arg * nat) (b : bind) : Prop :=
  match p.1 with
  | arg_null => b.(buffer_type) = MYSQL_TYPE_NULL
  | arg_text _ v => b.(buffer_type) <> MYSQL_TYPE_NULL /\ b.(buffer) = Some p.2 /\ exists i, b.(b_length) = Some i /\ lens !! i = Some (size v)
  | _ => b.(buffer_type) <> MYSQL_TYPE_NULL /\ b.(buffer) = Some p.2
  end.

Definition alive_arg (st : store) (p : arg * nat) : bool :=
  match datum_of p.1 with None => true | Some _ => bool_decide (is_Some (st !! p.2)) end.

Lemma read_bind_spec st lens p b : bound lens p b -> (forall d, datum_of p.1 = Some d -> st !! p.2 = None \/ st !! p.2 = Some d) ->
  read_bind st lens b = if alive_arg st p then Ok (arg_sent p.1) else UB dangling_pointer.
Proof.
  destruct p as [x a]. unfold bound, read_bind, alive_arg, arg_sent. cbn [fst snd]. intros Hb Hst.
  destruct x as [t z|d r|blob v|]; cbn [datum_of] in *.
  4: { by rewrite decide_True. }
  all: destruct Hb as [Ht Hb]; rewrite decide_False by done; specialize (Hst _ eq_refl).
  1,2: rewrite Hb; (destruct Hst as [->| ->]; [by rewrite bool_decide_eq_false_2 by (by intros [? ?])|by rewrite bool_decide_eq_true_2 by by eexists]).
  destruct Hb as (-> & i & -> & ->). destruct Hst as [->| ->]; [by rewrite bool_decide_eq_false_2 by (by intros [? ?])|].
  rewrite bool_decide_eq_true_2 by by eexists. rewrite Z.leb_refl, size_to_nat. by rewrite take_ge by lia.
Qed.

Lemma read_binds_spec st lens l : forall bs k, Forall2 (bound lens) l bs ->
  (forall p d, p ∈ l -> datum_of p.1 = Some d -> st !! p.2 = None \/ st !! p.2 = Some d) ->
  read_binds st lens (bs ++ replicate k new_bind) =
  if forallb (alive_arg st) l then Ok (map (fun p => arg_sent p.1) l ++ replicate k sent_unset) else UB dangling_pointer.
Proof.
  induction l as [|p l IH]; intros bs k Hb Hst; inversion Hb as [|? b ? bs' Hpb Hbs]; subst; cbn [app read_binds forallb map].
  - clear. induction k as [|k IH]; [done|]. cbn [replicate read_binds]. by rewrite IH.
  - rewrite (read_bind_spec _ _ p) by (done || intros d; apply Hst; by left). destruct (alive_arg st p); [|done]. cbn [mbind res_bind andb].
    rewrite IH by (done || intros q d Hq; apply Hst; by right). by destruct (forallb _ l).
Qed.

(** A bind that does not move the lengths of the earlier ones. *)
Definition bound_at (s : statement) (pre : list bind) (k : nat) : Prop :=
  s.(binds) = pre ++ replicate k new_bind /\ s.(bind_index) = size pre /\ s.(param_count) = size pre + Z.of_nat k /\ length s.(lengths) = (length pre + k)%nat.

Lemma bind_arg_spec s pre k p : bound_at s pre (S k) -> exists b s', bind_arg s p = Ok s' /\ bound_at s' (pre ++ [b]) k /\
  (forall i, (i < length pre)%nat -> s'.(lengths) !! i = s.(lengths) !! i) /\
  match p.1 with arg_text _ v => b.(b_length) = Some (length pre) /\ s'.(lengths) !! length pre = Some (size v) | _ => True end /\
  (forall lens, match p.1 with arg_text _ v => b.(b_length) = Some (length pre) -> lens !! length pre = Some (size v) -> bound lens p b | _ => bound lens p b end).
Proof.
  intros (Hb & Hi & Hc & Hl). pose proof (size_nonneg pre).
  assert (get_bind s = Ok (length pre, mk_statement s.(param_count) (size pre + 1) s.(binds) s.(lengths))) as Hg.
  { unfold get_bind. rewrite Hi. destruct (Z.ltb_spec (size pre) 0); [lia|]. destruct (Z.leb_spec (param_count s) (size pre)); [lia|].
    assert (size (binds s) = size pre + 1 + Z.of_nat k) as -> by (rewrite Hb; unfold size; rewrite length_app, length_replicate; lia).
    destruct (Z.ltb_spec (size pre) (size pre + 1 + Z.of_nat k)); [|lia]. cbn [orb]. by rewrite size_to_nat. }
  assert (forall f, alter f (length pre) (pre ++ replicate (S k) new_bind) = (pre ++ [f new_bind]) ++ replicate k new_bind) as Ha.
  { intros f. cbn [replicate]. rewrite <- app_assoc. cbn [app]. rewrite alter_app_r_alt by lia. by rewrite Nat.sub_diag. }
  assert (length (lengths s) = S (length pre + k)) as Hl' by lia.
  destruct p as [[t z|d r|blob v|] a]; unfold bind_arg, param_int, param_real, param_text, param_null; cbn [fst snd]; rewrite Hg; cbn [mbind res_bind];
    [destruct (int_field t) as [ty u] eqn:Et|..]; unfold set_bind, set_length; cbn [param_count bind_index binds lengths]; rewrite Hb, Ha;
    eexists _, _; (split; [reflexivity|]); unfold bound_at; cbn [param_count bind_index binds lengths]; rewrite ?size_app, ?length_app, ?length_insert;
    change (size [_]) with 1; cbn [length].
  all: split; [split_and!; [done|lia|lia|lia]|].
  all: split; [intros i Hlt; rewrite ?list_lookup_insert_ne by lia; done|].
  - split; [done|]. intros lens. split; [|done]. by destruct t; injection Et as <- <-.
  - split; [done|]. intros lens. split; [|done]. by destruct d.
  - split; [split; [done|]; apply list_lookup_insert_eq; lia|]. intros lens E1 E2. split; [by destruct blob|]. split; [done|]. by exists (length pre).
  - split; [done|]. by intros lens.
Qed.

Lemma bind_args_spec l : forall s pre k, bound_at s pre k ->
  if Nat.leb (length l) k then
    exists s' bs, bind_args s l = Ok s' /\ bound_at s' (pre ++ bs) (k - length l) /\ Forall2 (bound s'.(lengths)) l bs /\
      (forall i, (i < length pre)%nat -> s'.(lengths) !! i = s.(lengths) !! i)
  else bind_args s l = Throw (mysqlpp_exception (str "invalid bind_index")).
Proof.
  induction l as [|p l IH]; intros s pre k Hs; cbn [length bind_args].
  - exists s, []. rewrite app_nil_r, Nat.sub_0_r. split_and!; [done|done|constructor|done].
  - destruct k as [|k].
    + destruct Hs as (Hb & Hi & Hc & Hl). assert (get_bind s = Throw (mysqlpp_exception (str "invalid bind_index"))) as Hg.
      { unfold get_bind. destruct (Z.leb_spec (param_count s) (bind_index s)); [|lia]. by rewrite orb_true_r. }
      destruct p as [[t z|d r|blob v|] a]; unfold bind_arg, param_int, param_real, param_text, param_null; cbn [fst snd]; by rewrite Hg.
    + destruct (bind_arg_spec s pre k p Hs) as (b & s1 & -> & Hs1 & Hpre & Hlen & Hb). cbn [mbind res_bind].
      specialize (IH s1 (pre ++ [b]) k Hs1). cbn [Nat.leb]. destruct (Nat.leb (length l) k); [|done].
      destruct IH as (s' & bs & E & Hs' & Hbs & Hpre'). exists s', (b :: bs). rewrite length_app in Hpre'. cbn [length] in Hpre'.
      split; [done|]. split; [by rewrite <- app_assoc in Hs'|]. split; [|intros i Hi; rewrite Hpre' by lia; by apply Hpre].
      constructor; [|done]. specialize (Hb (lengths s')). destruct p as [[t z|d r|blob v|] a]; cbn [fst] in *; try done.
      destruct Hlen as [H1 H2]. apply Hb; [done|]. rewrite Hpre' by lia. done.
Qed.



(** ** Values of columns *)

Lemma length_le_bytes w : forall z, length (le_bytes w z) = w.
Proof. induction w as [|w IH]; intros z; [done|]. cbn. by rewrite IH. Qed.

Lemma le_value_bytes w : forall z, le_value (le_bytes w z) = z mod 256 ^ Z.of_nat w.
Proof.
  induction w as [|w IH]; intros z; [cbn; by rewrite Z.mod_1_r|]. cbn [le_bytes le_value]. rewrite IH, uchar_char_of_Z.
  rewrite Nat2Z.inj_succ, Z.pow_succ_r by lia. rewrite (Z.rem_mul_r z 256 (256 ^ Z.of_nat w)) by lia. done.
Qed.

Lemma schar_char_of_Z z : schar (char_of_Z z) = signed 8 z.
Proof.
  unfold schar, signed. rewrite uchar_char_of_Z. change (2 ^ (8 - 1)) with 128. change (2 ^ 8) with 256.
  pose proof (Z.mod_pos_bound z 256 ltac:(lia)). pose proof (Z.mod_pos_bound (z + 128) 256 ltac:(lia)).
  pose proof (Z.div_mod z 256 ltac:(lia)). pose proof (Z.div_mod (z + 128) 256 ltac:(lia)). destruct (Z.ltb_spec (z mod 256) 128); lia.
Qed.

Lemma signed_mod w z : 0 < w -> signed w (z mod 2 ^ w) = signed w z.
Proof. intros Hw. unfold signed. by rewrite Z.add_mod_idemp_l by (apply Z.pow_nonzero; lia). Qed.

Lemma fill_buffer c b n null : (length b <= length c.(col_buffer))%nat -> (fill c b n null).(col_buffer) = b ++ drop (length b) c.(col_buffer).
Proof. intros Hb. cbn. by rewrite take_ge by lia. Qed.

Lemma signed_mod_8 z : signed 8 z mod 2 ^ 8 = z mod 2 ^ 8.
Proof.
  unfold signed. rewrite Zminus_mod_idemp_l. f_equal. change (2 ^ (8 - 1)) with 128. lia.
Qed.

(** An integer [z] that the library stores in [w] bytes of a column's buffer is
    read back whole only by the 64-bit overloads, from 8 bytes.  The narrower
    overloads convert the first [char] of the buffer: an [int32_t] comes back as it
    is exactly when it fits in a [signed char], and a [uint32_t] when it is below
    128 or among the largest 128. *)
Theorem get_integer c w z :
  (1 <= w <= length c.(col_buffer))%nat ->
  let c' := fill c (le_bytes w z) (Z.of_nat w) false in
  get_of (set_value g_int8) c' = Ok (signed 8 z) /\ get_of (set_value g_uint8) c' = Ok (z mod 2 ^ 8) /\
  get_of (set_value g_int32) c' = Ok (signed 8 z) /\ get_of (set_value g_uint32) c' = Ok (signed 8 z mod 2 ^ 32) /\
  (- 2 ^ 31 <= z < 2 ^ 31 -> (get_of (set_value g_int32) c' = Ok z <-> -128 <= z < 128)) /\
  (0 <= z < 2 ^ 32 -> (get_of (set_value g_uint32) c' = Ok z <-> z < 128 \/ 2 ^ 32 - 128 <= z)) /\
  (w = 8%nat -> get_of (set_value g_int64) c' = Ok (signed 64 z) /\ get_of (set_value g_uint64) c' = Ok (z mod 2 ^ 64)).
Proof.
  intros Hw c'. assert (col_buffer c' = le_bytes w z ++ drop w c.(col_buffer)) as Eb.
  { unfold c'. rewrite fill_buffer by (rewrite length_le_bytes; lia). by rewrite length_le_bytes. }
  assert (is_null_ c' = false) as En by done. clearbody c'. unfold get_of. rewrite En.
  assert (front c' = Ok (signed 8 z)) as Hf.
  { unfold front. rewrite Eb. destruct w as [|w]; [lia|]. cbn [le_bytes app]. by rewrite schar_char_of_Z. }
  unfold set_value. rewrite Hf. cbn [mbind res_bind].
  assert (signed 8 z = (z + 128) mod 256 - 128) as Es by done.
  pose proof (Z.mod_pos_bound (z + 128) 256 ltac:(lia)) as Hm. pose proof (Z.div_mod (z + 128) 256 ltac:(lia)) as Hd.
  split; [done|]. split; [f_equal; apply signed_mod_8|]. split; [done|]. split; [done|]. split; [|split].
  - intros Hz. rewrite Es. split; [intros [= E]; lia|]. intros Hr. f_equal. rewrite Z.mod_small; lia.
  - intros Hz. assert (0 <= signed 8 z mod 2 ^ 32 < 2 ^ 32) as Hb by (apply Z.mod_pos_bound; lia).
    split.
    + intros [= E]. destruct (Z.leb_spec 0 (signed 8 z)) as [Hp|Hp].
      * rewrite Z.mod_small in E by lia. left. lia.
      * right. rewrite <- (Z.mod_add _ 1), Z.mod_small in E by lia. lia.
    + intros [Hr|Hr]; f_equal.
      * rewrite Es, (Z.mod_small (z + 128)) by lia. replace (z + 128 - 128) with z by lia. apply Z.mod_small. lia.
      * assert (signed 8 z = z - 2 ^ 32) as ->; [|rewrite <- (Z.mod_add _ 1), Z.mod_small by lia; lia].
        rewrite Es. replace (z + 128) with ((z - 2 ^ 32 + 128) + 2 ^ 24 * 256) by lia. rewrite Z.mod_add, Z.mod_small by lia. lia.
  - intros ->. rewrite Eb. assert (take 8 (le_bytes 8 z ++ drop 8 (col_buffer c)) = le_bytes 8 z) as -> by (apply take_app_length'; by rewrite length_le_bytes).
    rewrite le_value_bytes. change (256 ^ Z.of_nat 8) with (2 ^ 64). rewrite signed_mod by lia.
    assert (size (le_bytes 8 z ++ drop 8 (col_buffer c)) <? 8 = false) as ->; [|done].
    apply Z.ltb_ge. unfold size. rewrite length_app, length_le_bytes. lia.
Qed.

(** The last key of a forum, as [route_dir_forum.cpp] reads it. *)
Lemma get_integer_witness :
  get_of (set_value g_uint32) (fill (mk_column MYSQL_TYPE_LONGLONG (str "last_key") (replicate 20 Byte.x00) 20 false) (le_bytes 8 300) 8 false) = Ok 44.
Proof.
  destruct (get_integer (mk_column MYSQL_TYPE_LONGLONG (str "last_key") (replicate 20 Byte.x00) 20 false) 8 300 ltac:(cbn; lia))
    as (_ & _ & _ & E & _). cbn zeta in E. change (Z.of_nat 8) with 8 in E. rewrite E. by vm_compute.
Defined.
