(* ===== verification/MysqlppHandles.v ===== *)
(** * [src/src/mysqlpp_connection.cpp], [mysqlpp_statement.cpp],
    [mysqlpp_result.cpp]: the handles of the client library.

    A connection opens a [MYSQL], each of its statements a [MYSQL_STMT] and each
    result the [MYSQL_RES] of its metadata; the destructors close them.  The library
    is the set of handles that are open; closing one that is not is [double_free],
    using it is [dangling_pointer].  What the library answers is an argument.  The
    parameters of statements and the values of columns are in [Mysqlpp]. *)
From S2P Require Import Prelude CxxString Mysqlpp.

(** ** The library *)

Record library : Type := mk_library { opened : gset nat; next_handle : nat }.

Definition open_handle : stres library nat := fun l =>
  (Ok l.(next_handle), mk_library ({[l.(next_handle)]} ∪ l.(opened)) (S l.(next_handle))).
Definition close_handle (h : nat) : stres library unit := fun l =>
  if decide (h ∈ l.(opened)) then (Ok tt, mk_library (l.(opened) ∖ {[h]}) l.(next_handle)) else (UB double_free, l).
Definition use_handle (h : nat) : stres library unit := fun l =>
  if decide (h ∈ l.(opened)) then (Ok tt, l) else (UB dangling_pointer, l).

(** [try { m } catch (...) { cleanup; throw; }] *)
Definition catching {A} (m : stres library A) (cleanup : stres library unit) : stres library A := fun l =>
  match m l with (Throw e, l) => st_bind cleanup (fun _ => st_lift (Throw e)) l | r => r end.

Definition fails {St} (error : option bytes) : stres St unit :=
  match error with Some e => st_lift (Throw (mysqlpp_exception e)) | None => st_ret tt end.

(** ** Statements and results *)

(** [statement::statement], [statement::~statement] *)
Definition open_statement (a : prepared) : stres library nat :=
  match a with
  | no_stmt => st_lift (Throw (mysqlpp_exception (str "stmt_init failed")))
  | _ => st* h := open_handle in st* _ := catching (st_lift (new_statement a)) (close_handle h) in st_ret h
  end.

(** The statement that a result reads, its metadata - [None] after it was freed and
    there was no other - and its columns. *)
Record result : Type := mk_result { r_stmt : nat; r_metadata : option nat; r_columns : list column }.

(** [mysql_stmt_result_metadata], and [mysql_stmt_bind_result]. *)
Inductive metadata : Type := no_metadata (error : bytes) | has_metadata (fields : list field) (bind_error : option bytes).

(** [result::result]; what [bind] returns is not looked at. *)
Definition new_result (stmt : nat) (a : metadata) (store_error : option bytes) : stres library result :=
  st* _ := use_handle stmt in
  match a with
  | no_metadata e => st_lift (Throw (mysqlpp_exception e))
  | has_metadata fields bind_error =>
      st* h := open_handle in
      st* columns := catching (st* (columns, _) := st_lift (bind_result fields bind_error) in st* _ := fails store_error in st_ret columns)
        (close_handle h) in
      st_ret (mk_result stmt (Some h) columns)
  end.

(** [mysql_free_result], of [NULL] too *)
Definition free_result (m : option nat) : stres library unit := match m with Some h => close_handle h | None => st_ret tt end.

(** What [mysql_stmt_fetch] answers: a value for each column, no data, or an error. *)
Inductive fetched : Type := a_row (values : list (bytes * Z * bool)) | no_data | fetch_error.

Definition fill_row (columns : list column) (values : list (bytes * Z * bool)) : list column :=
  zip_with (fun c '(b, n, null) => fill c b n null) columns values.

(** ** Connections *)

(** [class connection]; the time of its last release is in seconds. *)
Record dbconn : Type := mk_dbconn { mysql_ : nat; released : Z; pooled : bool; dc_statements : list nat; dc_results : list result }.

Definition set_released (c : dbconn) (t : Z) : dbconn := mk_dbconn c.(mysql_) t c.(pooled) c.(dc_statements) c.(dc_results).
Definition set_pooled (c : dbconn) (b : bool) : dbconn := mk_dbconn c.(mysql_) c.(released) b c.(dc_statements) c.(dc_results).
Definition set_objects (c : dbconn) (ss : list nat) (rs : list result) : dbconn := mk_dbconn c.(mysql_) c.(released) c.(pooled) ss rs.

(** [mysql_init], [mysql_real_connect] and [mysql_set_character_set]. *)
Inductive connecting : Type := no_memory | refused (error : bytes) | bad_charset (error : bytes) | connected.

Definition connect_error (a : connecting) : option bytes := match a with refused e | bad_charset e => Some e | _ => None end.

(** [connection::connection]: what [mysql_init] returns is not checked. *)
Definition new_dbconn (a : connecting) (now : Z) (pooled_ : bool) : stres library dbconn :=
  match a with
  | no_memory => st_lift (UB null_pointer)
  | _ =>
      st* h := open_handle in
      st* _ := catching (fails (connect_error a)) (close_handle h) in
      st_ret (set_pooled (set_released (mk_dbconn h 0 false [] []) now) pooled_)
  end.

(** The methods change the library and the connection. *)
Definition method (A : Type) : Type := stres (library * dbconn) A.
Definition on_library {A} (m : stres library A) : method A := fun s => let (r, l) := m s.1 in (r, (l, s.2)).
Definition this : method dbconn := fun s => (Ok s.2, s).
Definition set_this (c : dbconn) : method unit := fun s => (Ok tt, (s.1, c)).

Definition ping (ok : bool) : method bool := st* c := this in st* _ := on_library (use_handle c.(mysql_)) in st_ret ok.

(** [connection::prepare] *)
Definition prepare_statement (a : prepared) : method nat :=
  st* c := this in
  st* _ := on_library (use_handle c.(mysql_)) in
  st* h := on_library (open_statement a) in
  st* _ := set_this (set_objects c (c.(dc_statements) ++ [h]) c.(dc_results)) in st_ret h.

(** The text that [prepare_like] prepares; [escape] is [mysql_real_escape_string],
    whose result is printed up to its NUL. *)
Definition like_text (escape : bytes -> bytes) (query : bytes) (left_percent : bool) (keyword : bytes) (right_percent : bool) : bytes :=
  query ++ str " '" ++ (if left_percent then str "%" else []) ++ c_str (escape keyword) ++ (if right_percent then str "%" else []) ++ str "'".
Definition prepare_like (answer : bytes -> prepared) (escape : bytes -> bytes) (query : bytes) (l : bool) (keyword : bytes) (r : bool) : method nat :=
  prepare_statement (answer (like_text escape query l keyword r)).

(** [connection::__query] *)
Definition query_result (stmt : nat) (a : metadata) (store_error : option bytes) : method unit :=
  st* rs := on_library (new_result stmt a store_error) in
  st* c := this in set_this (set_objects c c.(dc_statements) (c.(dc_results) ++ [rs])).

Definition exec_error (x : executed) : option bytes := match x with exec_failed e => Some e | exec_ok _ => None end.

(** [statement::query], [statement::execute], once the parameters are read *)
Definition statement_execute (stmt : nat) (x : executed) : method unit :=
  st* _ := on_library (use_handle stmt) in fails (exec_error x).
Definition statement_query (stmt : nat) (x : executed) (a : metadata) (store_error : option bytes) : method unit :=
  st* _ := statement_execute stmt x in query_result stmt a store_error.

(** A result of the connection, and its new value. *)
Definition set_result (k : nat) (r : result) : method unit :=
  st* c := this in set_this (set_objects c c.(dc_statements) (<[k := r]> c.(dc_results))).

(** [result::fetch_stmt_result]: an error is a row too. *)
Definition fetch_stmt_result (k : nat) (r : result) (f : fetched) : method bool :=
  st* _ := on_library (use_handle r.(r_stmt)) in
  match f with
  | no_data => st_ret false
  | fetch_error => st_ret true
  | a_row values => st* _ := set_result k (mk_result r.(r_stmt) r.(r_metadata) (fill_row r.(r_columns) values)) in st_ret true
  end.

(** [result::fetch_proc_result]: the rows up to the end, and the answer of
    [mysql_stmt_next_result]. *)
Definition fetch_proc_result (k : nat) (r : result) (a : metadata) (rows : list (list (bytes * Z * bool))) (next_error : option bytes) : method bool :=
  st* _ := on_library (free_result r.(r_metadata)) in
  st* _ := on_library (use_handle r.(r_stmt)) in
  match a with
  | no_metadata e =>
      st* _ := set_result k (mk_result r.(r_stmt) None r.(r_columns)) in st_lift (Throw (mysqlpp_exception e))
  | has_metadata fields bind_error =>
      st* h := on_library open_handle in
      let r := mk_result r.(r_stmt) (Some h) r.(r_columns) in
      st* _ := set_result k r in
      if empty_vector fields then st_ret false
      else
        st* _ := set_result k (mk_result r.(r_stmt) r.(r_metadata) (map bind_column fields)) in
        st* _ := st_lift (bind_result fields bind_error) in
        st* _ := set_result k (mk_result r.(r_stmt) r.(r_metadata) (foldl fill_row (map bind_column fields) rows)) in
        st* _ := fails next_error in st_ret true
  end.

(** [connection::clear]: [delete] of the results, then of the statements. *)
Fixpoint free_results (l : list result) : stres library unit :=
  match l with [] => st_ret tt | r :: l => st* _ := free_result r.(r_metadata) in free_results l end.
Fixpoint close_statements (l : list nat) : stres library unit :=
  match l with [] => st_ret tt | h :: l => st* _ := close_handle h in close_statements l end.

Definition clear_connection : method unit :=
  st* c := this in
  st* _ := on_library (free_results c.(dc_results)) in
  st* _ := set_this (set_objects c c.(dc_statements) []) in
  st* _ := on_library (close_statements c.(dc_statements)) in
  set_this (set_objects c [] []).

(** [connection::~connection] *)
Definition delete_connection : method unit :=
  st* _ := clear_connection in st* c := this in on_library (close_handle c.(mysql_)).

(** ** Sessions *)

(** What a program does with a connection; its pointers to statements and results
    are places in the vectors, those it does not have do nothing. *)
Inductive call : Type :=
  | call_ping (ok : bool)
  | call_prepare (a : prepared)
  | call_execute (i : nat) (x : executed)
  | call_query (i : nat) (x : executed) (a : metadata) (store_error : option bytes)
  | call_fetch (k : nat) (f : fetched)
  | call_fetch_proc (k : nat) (a : metadata) (rows : list (list (bytes * Z * bool))) (next_error : option bytes)
  | call_clear.

Definition ignoring {A} (m : method A) : method unit := st* _ := m in st_ret tt.

Definition run_call (x : call) : method unit :=
  st* c := this in
  match x with
  | call_ping ok => ignoring (ping ok)
  | call_prepare a => ignoring (prepare_statement a)
  | call_execute i x => match c.(dc_statements) !! i with Some h => statement_execute h x | None => st_ret tt end
  | call_query i x a e => match c.(dc_statements) !! i with Some h => statement_query h x a e | None => st_ret tt end
  | call_fetch k f => match c.(dc_results) !! k with Some r => ignoring (fetch_stmt_result k r f) | None => st_ret tt end
  | call_fetch_proc k a rows e => match c.(dc_results) !! k with Some r => ignoring (fetch_proc_result k r a rows e) | None => st_ret tt end
  | call_clear => clear_connection
  end.

(** Exceptions are caught by the program, which goes on with the connection. *)
Fixpoint run_calls (l : list call) : method unit := fun s =>
  match l with
  | [] => (Ok tt, s)
  | x :: l => let (r, s) := run_call x s in match r with UB u => (UB u, s) | _ => run_calls l s end
  end.

(** A connection's life. *)
Definition use_connection (a : connecting) (now : Z) (pooled_ : bool) (l : list call) : stres library unit :=
  st* c := new_dbconn a now pooled_ in
  fun lib => let (r, s) := st_bind (run_calls l) (fun _ => delete_connection) (lib, c) in (r, s.1).

(** ** What a connection owns *)

Definition handles (c : dbconn) : list nat := c.(mysql_) :: c.(dc_statements) ++ omap r_metadata c.(dc_results).

(** [hs] are the handles that were opened since [before] was what was open. *)
Record owns (before : gset nat) (l : library) (hs : list nat) : Prop := {
  o_nodup : NoDup hs;
  o_open : l.(opened) = before ∪ list_to_set hs;
  o_apart : before ## list_to_set hs;
  o_next : forall h, h ∈ l.(opened) -> (h < l.(next_handle))%nat }.

(** The connection owns its handles, and its results read its statements. *)
Definition owned (before : gset nat) (s : library * dbconn) : Prop :=
  owns before s.1 (handles s.2) /\ Forall (fun r => r.(r_stmt) ∈ s.2.(dc_statements)) s.2.(dc_results).

(** A column that has no room. *)
Definition no_room (a : metadata) : bool := match a with has_metadata fields _ => existsb (fun f => f.(f_length) =? 0) fields | _ => false end.
Definition asks_no_room (x : call) : bool := match x with call_query _ _ a _ | call_fetch_proc _ a _ _ => no_room a | _ => false end.

Section Handles.
Context (before : gset nat).

Lemma owns_perm l hs hs' : hs ≡ₚ hs' -> owns before l hs -> owns before l hs'.
Proof using.
  intros Hp [H1 H2 H3 H4]. constructor; [by rewrite <- Hp| | |done].
  - by rewrite H2, (list_to_set_perm_L _ _ Hp).
  - by rewrite <- (list_to_set_perm_L _ _ Hp).
Qed.

Lemma open_owns l hs : owns before l hs -> exists h l', open_handle l = (Ok h, l') /\ owns before l' (h :: hs).
Proof using.
  intros [H1 H2 H3 H4]. eexists _, _. split; [done|]. assert (next_handle l ∉ opened l) as Hn by (intros Hin; apply H4 in Hin; lia).
  rewrite H2 in Hn. constructor; cbn [opened next_handle].
  - constructor; [|done]. intros Hin. apply Hn. set_solver.
  - rewrite H2. set_solver.
  - set_solver.
  - intros h [Hh%elem_of_singleton|Hh]%elem_of_union; [lia|]. apply H4 in Hh. lia.
Qed.

Lemma close_owns l h hs : owns before l (h :: hs) -> exists l', close_handle h l = (Ok tt, l') /\ owns before l' hs.
Proof using.
  intros [H1 H2 H3 H4]. unfold close_handle. apply NoDup_cons in H1 as [Hh Hn]. rewrite decide_True by (rewrite H2; set_solver).
  eexists. split; [done|]. constructor; cbn [opened next_handle]; [done| |set_solver|].
  - rewrite H2. cbn [list_to_set foldr]. assert (h ∉ before) by set_solver. assert (h ∉ (list_to_set hs : gset nat)) by set_solver. set_solver.
  - intros h' Hh'. apply H4. set_solver.
Qed.

Lemma use_owns l hs h : owns before l hs -> h ∈ hs -> use_handle h l = (Ok tt, l).
Proof using. intros [_ H2 _ _] Hh. unfold use_handle. rewrite decide_True; [done|]. rewrite H2. set_solver. Qed.

(** ** Each method *)

(** What a method leaves: a connection that owns its handles, or a column without
    room was bound. *)
Definition kept {A} (b : bool) (o : res A * (library * dbconn)) : Prop :=
  match o with (UB u, _) => u = back_of_empty /\ b = true | (_, s) => owned before s end.

Lemma open_statement_owns a l hs : owns before l hs ->
  match open_statement a l with (Ok h, l') => owns before l' (h :: hs) | (Throw _, l') => owns before l' hs | (UB _, _) => False end.
Proof using.
  intros H. unfold open_statement, catching, st_bind, st_lift, st_ret. destruct a as [|e|n]; [done| |].
  - destruct (open_owns l hs H) as (h & l1 & -> & H1). cbn [new_statement]. destruct (close_owns l1 h hs H1) as (l2 & -> & H2). done.
  - destruct (open_owns l hs H) as (h & l1 & -> & H1). done.
Qed.

Lemma bind_result_outcome fields e : match bind_result fields e with UB u => u = back_of_empty /\ existsb (fun f => f.(f_length) =? 0) fields = true | _ => True end.
Proof using.
  unfold bind_result. destruct (empty_vector fields); [done|]. destruct (existsb _ fields) eqn:E; [done|]. by destruct e.
Qed.

Lemma new_result_owns stmt a e l hs : owns before l hs -> stmt ∈ hs ->
  match new_result stmt a e l with
  | (Ok r, l') => r.(r_stmt) = stmt /\ exists h, r.(r_metadata) = Some h /\ owns before l' (h :: hs)
  | (Throw _, l') => owns before l' hs
  | (UB u, _) => u = back_of_empty /\ no_room a = true
  end.
Proof using.
  intros H Hs. unfold new_result, catching, st_bind, st_lift, st_ret. rewrite (use_owns l hs stmt H Hs). destruct a as [e'|fields be]; [done|].
  destruct (open_owns l hs H) as (h & l1 & -> & H1). destruct (close_owns l1 h hs H1) as (l2 & Hc & H2).
  pose proof (bind_result_outcome fields be) as Hb. destruct (bind_result fields be) as [[columns b]|e'|u]; [| |done].
  - destruct e as [e'|]; cbn [fails st_lift st_ret]; [by rewrite Hc|]. unfold st_ret. cbn. split; [done|]. by exists h.
  - by rewrite Hc.
Qed.
(** The sequence of two methods, the first of which has an outcome in the library. *)
Lemma owned_uses s h : owned before s -> h ∈ handles s.2 -> on_library (use_handle h) s = (Ok tt, s).
Proof using. destruct s as [l c]. intros [H _] Hh. unfold on_library. cbn [fst snd]. by rewrite (use_owns l _ h H Hh). Qed.

Lemma handles_statement c h : h ∈ c.(dc_statements) -> h ∈ handles c.
Proof using. intros Hh. unfold handles. set_solver. Qed.

Lemma kept_ignoring {A} b (m : method A) s : kept b (m s) -> kept b (ignoring m s).
Proof using. unfold ignoring, st_bind. destruct (m s) as [[a|e|u] s']; done. Qed.

Lemma kept_fails e s : owned before s -> kept false (fails (St := library * dbconn) e s).
Proof using. by destruct e. Qed.

Lemma kept_ping ok s : owned before s -> kept false (ping ok s).
Proof using. intros H. unfold ping, st_bind, this, st_ret. rewrite owned_uses; [done|done|]. unfold handles. set_solver. Qed.

Lemma kept_prepare a s : owned before s -> kept false (prepare_statement a s).
Proof using.
  intros H. unfold prepare_statement, st_bind, this. rewrite owned_uses; [|done|unfold handles; set_solver]. destruct s as [l c], H as [H Hr]. unfold on_library. cbn [fst snd] in *.
  pose proof (open_statement_owns a l _ H) as Ho. destruct (open_statement a l) as [[h|e|u] l']; [|done|done]. split; cbn [fst snd].
  - eapply owns_perm; [|exact Ho]. unfold handles. cbn [set_objects mysql_ dc_statements dc_results]. solve_Permutation.
  - cbn [set_objects dc_results dc_statements]. eapply Forall_impl; [exact Hr|]. set_solver.
Qed.

Lemma kept_execute h x s : owned before s -> h ∈ s.2.(dc_statements) -> kept false (statement_execute h x s).
Proof using.
  intros H Hh. unfold statement_execute, st_bind. rewrite owned_uses by (done || by apply handles_statement). by apply kept_fails.
Qed.

Lemma kept_query h x a e s : owned before s -> h ∈ s.2.(dc_statements) -> kept (no_room a) (statement_query h x a e s).
Proof using.
  intros H Hh. unfold statement_query, st_bind. pose proof (kept_execute h x s H Hh) as Hx. unfold statement_execute, st_bind in *.
  rewrite owned_uses in * by (done || by apply handles_statement). destruct (exec_error x); [done|]. cbn [fails]. unfold st_ret.
  unfold query_result, st_bind, on_library, this, set_this. destruct s as [l c], H as [H Hr]. cbn [fst snd] in *.
  pose proof (new_result_owns h a e l _ H (handles_statement c h Hh)) as Ho. destruct (new_result h a e l) as [[r|e'|u] l']; [|done|done].
  destruct Ho as (Es & m & Em & Ho). split; cbn [fst snd set_objects dc_results dc_statements].
  - eapply owns_perm; [|exact Ho]. unfold handles. cbn [set_objects mysql_ dc_statements dc_results]. rewrite omap_app. cbn [omap list_omap]. rewrite Em. solve_Permutation.
  - apply Forall_app. split; [done|]. constructor; [by rewrite Es|done].
Qed.

(** A result of the connection, and one in its place. *)
Lemma result_place c k r : c.(dc_results) !! k = Some r -> exists hs,
  (forall h, h ∈ c.(dc_statements) -> h ∈ hs) /\ handles c ≡ₚ option_list r.(r_metadata) ++ hs /\
  forall r', handles (set_objects c c.(dc_statements) (<[k := r']> c.(dc_results))) ≡ₚ option_list r'.(r_metadata) ++ hs.
Proof using.
  intros Hk. pose proof (take_drop_middle _ _ _ Hk) as E. pose proof (length_take_le (dc_results c) k) as Hlen.
  specialize (Hlen ltac:(apply lookup_lt_Some in Hk; lia)). exists (mysql_ c :: dc_statements c ++ omap r_metadata (take k (dc_results c)) ++ omap r_metadata (drop (S k) (dc_results c))).
  assert (forall r', mysql_ c :: dc_statements c ++ omap r_metadata (take k (dc_results c) ++ r' :: drop (S k) (dc_results c)) ≡ₚ
    option_list (r_metadata r') ++ mysql_ c :: dc_statements c ++ omap r_metadata (take k (dc_results c)) ++ omap r_metadata (drop (S k) (dc_results c))) as Hp.
  { intros r'. rewrite omap_app. cbn [omap list_omap]. destruct (r_metadata r') as [h|]; cbn [option_list app]; solve_Permutation. }
  split; [set_solver|]. split; [unfold handles; rewrite <- E at 1; apply Hp|]. intros r'. rewrite <- Hp. unfold handles. cbn [set_objects mysql_ dc_statements dc_results].
  rewrite <- E at 1. by rewrite insert_app_r_alt, Hlen, Nat.sub_diag by lia.
Qed.

Definition put_result (c : dbconn) (k : nat) (r : result) : dbconn := set_objects c c.(dc_statements) (<[k := r]> c.(dc_results)).

Lemma set_result_eq k r s : set_result k r s = (Ok tt, (s.1, put_result s.2 k r)).
Proof using. done. Qed.

(** A new value of a result, which reads the same statement. *)
Lemma owned_put l c k r r' hs : c.(dc_results) !! k = Some r -> Forall (fun r => r.(r_stmt) ∈ c.(dc_statements)) c.(dc_results) ->
  (forall r', handles (put_result c k r') ≡ₚ option_list r'.(r_metadata) ++ hs) -> r'.(r_stmt) = r.(r_stmt) ->
  owns before l (option_list r'.(r_metadata) ++ hs) -> owned before (l, put_result c k r').
Proof using.
  intros Hk Hr Hp Es Ho. split; cbn [fst snd].
  - eapply owns_perm; [|exact Ho]. by rewrite Hp.
  - cbn [put_result set_objects dc_results dc_statements]. apply Forall_insert; [done|]. rewrite Es. rewrite Forall_lookup in Hr. by eapply Hr.
Qed.

Lemma kept_fetch k r f s : owned before s -> s.2.(dc_results) !! k = Some r -> kept false (fetch_stmt_result k r f s).
Proof using.
  intros H Hk. destruct s as [l c]. pose proof H as [Ho Hr]. cbn [fst snd] in *. destruct (result_place c k r Hk) as (hs & Hin & Hp & Hp').
  assert (r_stmt r ∈ handles c) as Hh by (apply handles_statement; rewrite Forall_lookup in Hr; by eapply Hr).
  unfold fetch_stmt_result, st_bind. rewrite owned_uses by done. destruct f as [values| |]; [|done..]. rewrite set_result_eq. cbn [fst snd].
  unfold st_ret, kept. eapply owned_put; [done|done|done|done|]. cbn [r_metadata]. by eapply owns_perm.
Qed.

Lemma free_owns l m hs : owns before l (option_list m ++ hs) -> exists l', free_result m l = (Ok tt, l') /\ owns before l' hs.
Proof using. destruct m as [h|]; [apply close_owns|]. intros H. by exists l. Qed.

Lemma put_twice c k r r' : put_result (put_result c k r) k r' = put_result c k r'.
Proof using. unfold put_result, set_objects. cbn. by rewrite list_insert_insert_eq. Qed.

Lemma kept_fetch_proc k r a rows e s : owned before s -> s.2.(dc_results) !! k = Some r -> kept (no_room a) (fetch_proc_result k r a rows e s).
Proof using.
  intros [Ho Hr] Hk. destruct s as [l c]. cbn [fst snd] in *. destruct (result_place c k r Hk) as (hs & Hin & Hp & Hp').
  assert (r_stmt r ∈ hs) as Hh.
  { apply Hin. rewrite Forall_lookup in Hr. by eapply Hr. }
  destruct (free_owns l (r_metadata r) hs) as (l1 & Ef & H1); [by eapply owns_perm|].
  unfold fetch_proc_result, st_bind at 1 2, on_library at 1 2. cbn [fst snd]. rewrite Ef. cbn [fst snd]. rewrite (use_owns l1 hs _ H1 Hh).
  destruct a as [e'|fields be].
  - unfold st_bind. rewrite set_result_eq. cbn [fst snd kept st_lift]. by eapply owned_put.
  - destruct (open_owns l1 hs H1) as (h & l2 & Eo & H2). unfold st_bind at 1, on_library. cbn [fst snd]. rewrite Eo.
    pose proof (bind_result_outcome fields be) as Hb. unfold st_bind. rewrite set_result_eq. cbn [fst snd r_stmt r_metadata r_columns].
    destruct (empty_vector fields); [by eapply owned_put|]. rewrite set_result_eq. cbn [fst snd]. rewrite put_twice. unfold st_lift.
    destruct (bind_result fields be) as [x|e'|u]; [|by eapply owned_put|done]. rewrite set_result_eq. cbn [fst snd]. rewrite put_twice.
    destruct e as [e'|]; by eapply owned_put.
Qed.
(** ** The end of a connection *)

Lemma free_results_owns l rs hs : owns before l (omap r_metadata rs ++ hs) -> exists l', free_results rs l = (Ok tt, l') /\ owns before l' hs.
Proof using.
  revert l. induction rs as [|r rs IH]; intros l H; [by exists l|]. cbn [free_results omap list_omap] in *. unfold st_bind.
  destruct (free_owns l (r_metadata r) (omap r_metadata rs ++ hs)) as (l1 & -> & H1); [by destruct (r_metadata r)|]. by apply IH.
Qed.

Lemma close_statements_owns l ss hs : owns before l (ss ++ hs) -> exists l', close_statements ss l = (Ok tt, l') /\ owns before l' hs.
Proof using.
  revert l. induction ss as [|h ss IH]; intros l H; [by exists l|]. cbn [close_statements app] in *. unfold st_bind.
  destruct (close_owns l h (ss ++ hs) H) as (l1 & -> & H1). by apply IH.
Qed.

Lemma clear_owns s : owned before s -> exists l', clear_connection s = (Ok tt, (l', set_objects s.2 [] [])) /\ owns before l' [s.2.(mysql_)].
Proof using.
  intros [H _]. destruct s as [l c]. cbn [fst snd] in *. destruct (free_results_owns l (dc_results c) (dc_statements c ++ [mysql_ c])) as (l1 & E1 & H1).
  { eapply owns_perm; [|exact H]. unfold handles. solve_Permutation. }
  destruct (close_statements_owns l1 _ _ H1) as (l2 & E2 & H2). exists l2. split; [|done].
  unfold clear_connection, st_bind, this, on_library, set_this. cbn [fst snd]. rewrite E1. cbn [fst snd]. by rewrite E2.
Qed.

Lemma kept_clear s : owned before s -> kept false (clear_connection s).
Proof using. intros H. destruct (clear_owns s H) as (l' & -> & Ho). by split. Qed.

Lemma delete_owns s : owned before s -> exists l' c', delete_connection s = (Ok tt, (l', c')) /\ owns before l' [].
Proof using.
  intros H. destruct (clear_owns s H) as (l1 & E1 & H1). destruct (close_owns l1 _ _ H1) as (l2 & E2 & H2). exists l2, (set_objects s.2 [] []). split; [|done].
  unfold delete_connection, st_bind, this, on_library. rewrite E1. cbn [fst snd set_objects mysql_]. by rewrite E2.
Qed.

(** ** Runs *)

Lemma kept_weaken {A} (b b' : bool) (o : res A * (library * dbconn)) : (b = true -> b' = true) -> kept b o -> kept b' o.
Proof using. intros Hb. destruct o as [[a|e|u] s]; cbn; [done|done|]. intros [Hu Ht]. auto. Qed.

Lemma kept_call x s : owned before s -> kept (asks_no_room x) (run_call x s).
Proof using.
  intros H. unfold run_call, st_bind at 1, this at 1. destruct x as [ok|a|i x|i x a e|k f|k a rows e|]; cbn [asks_no_room].
  - by apply kept_ignoring, kept_ping.
  - by apply kept_ignoring, kept_prepare.
  - destruct (dc_statements s.2 !! i) as [h|] eqn:E; [|done]. apply kept_execute; [done|]. by apply list_elem_of_lookup_2 in E.
  - destruct (dc_statements s.2 !! i) as [h|] eqn:E; [|done]. apply kept_query; [done|]. by apply list_elem_of_lookup_2 in E.
  - destruct (dc_results s.2 !! k) as [r|] eqn:E; [|done]. by apply kept_ignoring, kept_fetch.
  - destruct (dc_results s.2 !! k) as [r|] eqn:E; [|done]. by apply kept_ignoring, kept_fetch_proc.
  - by apply kept_clear.
Qed.

Lemma kept_calls l : forall s, owned before s -> kept (existsb asks_no_room l) (run_calls l s).
Proof using.
  induction l as [|x l IH]; intros s H; [done|]. cbn [run_calls existsb]. pose proof (kept_call x s H) as Hx.
  destruct (run_call x s) as [[[]|e|u] s']; cbn [kept] in Hx.
  - eapply kept_weaken; [|by apply IH]. intros ->. by rewrite orb_true_r.
  - eapply kept_weaken; [|by apply IH]. intros ->. by rewrite orb_true_r.
  - destruct Hx as [-> ->]. done.
Qed.

Lemma run_calls_ends l s : match run_calls l s with (Throw _, _) => False | _ => True end.
Proof using. revert s. induction l as [|x l IH]; intros s; [done|]. cbn [run_calls]. destruct (run_call x s) as [[a|e|u] s']; [apply IH|apply IH|done]. Qed.

Lemma new_dbconn_owns a now p l : owns before l [] ->
  match new_dbconn a now p l with
  | (Ok c, l') => owned before (l', c)
  | (Throw _, l') => owns before l' []
  | (UB u, _) => u = null_pointer /\ a = no_memory
  end.
Proof using.
  intros H. unfold new_dbconn, st_bind, catching, st_ret, st_lift. destruct (open_owns l [] H) as (h & l1 & E & H1).
  destruct (close_owns l1 h [] H1) as (l2 & Ec & H2). destruct a as [|e|e|]; [done|..]; rewrite E; cbn [connect_error fails st_lift]; unfold st_bind; rewrite ?Ec; done.
Qed.
End Handles.


(** A procedure that fails after its metadata was freed, a result, a bad query. *)
Definition sample_calls : list call :=
  [call_prepare (params 1); call_prepare (bad_query (str "syntax")); call_query 0 (exec_ok 1) (has_metadata [mk_field (str "seq") MYSQL_TYPE_LONG 8] None) None;
   call_query 0 (exec_ok 1) (has_metadata [mk_field (str "seq") MYSQL_TYPE_LONG 8] None) (Some (str "gone")); call_fetch 0 (a_row [(str "1", 8, false)]);
   call_fetch_proc 0 (no_metadata (str "no result")) [] None; call_fetch 0 fetch_error; call_prepare (params 0); call_execute 1 (exec_failed (str "lock"))].

