(* ===== verification/Routes.v ===== *)
(** * [src/src/route_dir_forum.cpp], [route_dir_user.cpp],
    [route_dir_performance.cpp]: the route functions.

    A route runs in a [visit]: the configuration, the request and the response that
    it was given by reference, and what the database was sent.  An exception leaves
    the visit as it is then.  boost's property tree and its JSON writer are the
    class [PropertyTree]; MySQL answers through [Mysql]; the time and the random
    bytes of a session are a [moment].  The smart pointers of a block and the
    connection delete the same objects ([Mysqlpp.block]), so a block that made a
    statement ends undefined.  The performance checker only logs. *)
From S2P Require Import Prelude CxxString CxxTime Utility Request RequestContent Response Config Router RequestHandler Session Pool Database Mysqlpp.

(** ** The libraries *)

Class PropertyTree : Type := {
  ptree : Type;
  pt_empty : ptree;
  pt_put : bytes -> bytes -> ptree -> ptree;
  pt_put_int : bytes -> Z -> ptree -> ptree;
  pt_put_child : bytes -> ptree -> ptree -> ptree;
  pt_push_back : bytes -> ptree -> ptree -> ptree;
  write_json : ptree -> res bytes;
}.

(** The argument of [scoped_db]. *)
Inductive db_key : Type := by_dbname (n : dbname_type) | by_string (shard_key : bytes).

(** What the server answers to a statement: to its preparation, to its execution,
    the rows of the result, and the last row of the result of a procedure. *)
Record db_answer : Type := mk_db_answer {
  a_prepared : prepared; a_executed : executed; a_result : res (list (list column)); a_proc : res (option (list column)) }.

(** Getting a connection; the answer to a statement, given how many were before. *)
Class Mysql : Type := { open_db : db_key -> res unit; db_answers : nat -> bytes -> db_answer }.

(** The time and the random bytes of a session. *)
Record moment : Type := mk_moment { m_uuid : bytes; m_now : Z; m_now' : Z }.

(** ** Visits *)

Record visit : Type := mk_visit { v_cfg : config; v_req : request; v_res : response; v_sent : list (db_key * bytes * list sent) }.

Abbreviation route := (stres visit).

Definition put_req (req : request) : route unit := fun v => (Ok tt, mk_visit v.(v_cfg) req v.(v_res) v.(v_sent)).
Definition put_res (r : response) : route unit := fun v => (Ok tt, mk_visit v.(v_cfg) v.(v_req) r v.(v_sent)).
Definition put_cfg (cfg : config) : route unit := fun v => (Ok tt, mk_visit cfg v.(v_req) v.(v_res) v.(v_sent)).
Definition modify_res (f : response -> response) : route unit := st* v := st_get in put_res (f v.(v_res)).

(** [req.param(n)] *)
Definition req_param (n : bytes) : route bytes :=
  st* v := st_get in let '(req, x) := param v.(v_req) n in st* _ := put_req req in st_ret x.

Definition redirect (url : bytes) : route unit := modify_res (fun r => redirect_to r url).

Section Routes.
Context `{FileSystem} `{SessionEnv} `{PropertyTree} `{Mysql} (m : moment).

Definition file (path : bytes) : route unit :=
  st* v := st_get in st* (_, r) := st_lift (get_file v.(v_cfg) v.(v_res) path) in put_res r.
Definition jsonp : route unit := st* v := st_get in put_res (set_jsonp v.(v_req) v.(v_res)).
Definition error_page (e : error_type) : route unit :=
  st* v := st_get in st* (cfg, r) := st_lift (router_err_msg v.(v_cfg) v.(v_res) e) in st* _ := put_cfg cfg in put_res r.
Definition message (e : error_type) : route bytes :=
  st* v := st_get in let '(cfg, x) := err_msg v.(v_cfg) e in st* _ := put_cfg cfg in st_ret x.

(** [waspp::session sess(cfg, req, res);]: the session's own vector. *)
Definition new_sess : route (list name_value) :=
  st* v := st_get in
  st* s := st_lift (new_session v.(v_cfg) m.(m_uuid) m.(m_now) m.(m_now') v.(v_req) v.(v_res)) in
  st* _ := put_req s.(s_req) in st* _ := put_res s.(s_res) in st_ret s.(session_).

(** [sess.put(n, x)] *)
Definition sess_put (l : list name_value) (n x : bytes) : route (list name_value) :=
  st* v := st_get in
  let s := session_put v.(v_cfg) (mk_session v.(v_req) v.(v_res) l) n x in
  st* _ := put_res s.(s_res) in st_ret s.(session_).

(** ** Pages and JSON *)

Definition signin : bytes := str "/dir/user/signin".

(** The three pages of the forum. *)
Definition forum_page (path : bytes) : route unit :=
  st* l := new_sess in
  let '(l, userid) := nv_get (str "userid") l in
  if is_empty userid then redirect signin
  else
    st* _ := file (str "dir_include_header.html") in st* _ := file path in
    st* _ := jsonp in file (str "dir_include_footer.html").

Definition index_html : route unit := forum_page (str "dir_forum_index.html").
Definition show_html : route unit := forum_page (str "dir_forum_show.html").
Definition form_html : route unit := forum_page (str "dir_forum_form.html").

(** The end of a JSONP function. *)
Definition emit (json : ptree) : route unit :=
  st* text := st_lift (write_json json) in
  modify_res (fun r => set_content_extension (append_content (append_content (append_content r jsonp_start) text) jsonp_end) (str "js")).

Definition error_tree (e : error_type) : route ptree :=
  st* x := message e in st_ret (pt_put (str "_message") x (pt_put_int (str "_code") (error_code e) pt_empty)).

Definition unauthorized_json : route unit :=
  st* error := error_tree err_unauthorized in emit (pt_put_child (str "_error") error pt_empty).

Definition session_tree (l : list name_value) : list name_value * ptree :=
  let '(l, userid) := nv_get (str "userid") l in
  let '(l, username) := nv_get (str "username") l in
  (l, pt_put (str "_username") username (pt_put (str "_userid") userid pt_empty)).

(** [for (auto& rest_param : req.rest_params)]: [param] is one variable. *)
Fixpoint params_tree (rest : list bytes) (param params : ptree) : ptree :=
  match rest with
  | [] => params
  | x :: rest => let param := pt_put [] x param in params_tree rest param (pt_push_back [] param params)
  end.

Definition params_jsonp : route unit :=
  st* l := new_sess in
  let '(l, userid) := nv_get (str "userid") l in
  if is_empty userid then unauthorized_json
  else
    st* error := error_tree err_none in
    let '(l, session) := session_tree l in
    st* v := st_get in
    emit (pt_put_child (str "_params") (params_tree v.(v_req).(rest_params) pt_empty pt_empty)
         (pt_put_child (str "_session") session (pt_put_child (str "_error") error pt_empty))).

Definition show_jsonp : route unit := params_jsonp.
Definition form_jsonp : route unit := params_jsonp.

Definition del : route unit := st_ret tt.

Definition user_page (path : bytes) : route unit :=
  st* _ := file (str "dir_include_header.html") in st* _ := file path in file (str "dir_include_footer.html").
Definition signin_html : route unit := user_page (str "dir_user_signin.html").
Definition signup_html : route unit := user_page (str "dir_user_signup.html").

Definition signout : route unit :=
  st* v := st_get in st* _ := modify_res (fun r => delete_cookie r v.(v_cfg).(sess_cookie_)) in redirect signin.

(** ** Statements *)

(** [conn->prepare(sql)] *)
Definition prepare_stmt (sql : bytes) : route (statement * db_answer) :=
  st* v := st_get in
  let a := db_answers (length v.(v_sent)) sql in
  st* s := st_lift (new_statement a.(a_prepared)) in st_ret (s, a).

(** A parameter that is a variable of the route, or a temporary that is gone when
    the statement is executed. *)
Inductive passed : Type := variable (x : arg) | temporary (x : arg).
Definition passed_arg (p : passed) : arg := match p with variable x | temporary x => x end.

Fixpoint addresses (i : nat) (l : list passed) : list (arg * nat) :=
  match l with [] => [] | p :: l => (passed_arg p, i) :: addresses (S i) l end.
Fixpoint variables (i : nat) (l : list passed) : store :=
  match l with
  | [] => ∅
  | variable x :: l => match datum_of x with Some d => <[i := d]> (variables (S i) l) | None => variables (S i) l end
  | temporary _ :: l => variables (S i) l
  end.

(** The calls of [param] and [execute], or [query] up to the result. *)
Definition run_stmt (key : db_key) (sql : bytes) (s : statement) (l : list passed) (a : db_answer) : route Z :=
  st* s := st_lift (bind_args s (addresses 0 l)) in
  st* (xs, rows) := st_lift (execute (variables 0 l) s a.(a_executed)) in
  fun v => (Ok rows, mk_visit v.(v_cfg) v.(v_req) v.(v_res) (v.(v_sent) ++ [(key, sql, xs)])).

(** [stmt->query()] and its rows. *)
Definition query_rows (key : db_key) (sql : bytes) (s : statement) (l : list passed) (a : db_answer) : route (list (list column)) :=
  st* _ := run_stmt key sql s l a in st_lift a.(a_result).

(** [stmt.reset(conn->prepare(sql)); ... rs.reset(stmt->query());] *)
Definition query_sql (key : db_key) (sql : bytes) (l : list passed) : route (list (list column)) :=
  st* (s, a) := prepare_stmt sql in query_rows key sql s l a.

(** [rs->fetch(true)] after such a query *)
Definition query_proc (key : db_key) (sql : bytes) (l : list passed) : route (option (list column)) :=
  st* (s, a) := prepare_stmt sql in st* _ := query_rows key sql s l a in st_lift a.(a_proc).

(** The block of a [scoped_db] whose first statement is [sql]: when that is there,
    the destructors run whatever happens in the block. *)
Definition in_block (pointers : list declared) {A} (body : route A) : route A := fun v =>
  let (r, v) := body v in
  match r, block pointers no_objects with
  | UB u, _ | _, UB u => (UB u, v)
  | r, _ => (r, v)
  end.
Definition with_db (key : db_key) (sql : bytes) (pointers : list declared) (body : statement -> db_answer -> route unit) : route unit :=
  st* _ := st_lift (open_db key) in st* (s, a) := prepare_stmt sql in in_block pointers (body s a).

Definition get_int (t : get_type) (row : list column) (n : bytes) : res Z := get_named (Mysqlpp.set_value t) row n.
Definition get_text (row : list column) (n : bytes) : res bytes := get_named set_value_text row n.

(** ** The index of the forum *)

(** The loop over the posts; [forum_item] is one variable. *)
Fixpoint posts_tree (t : get_type) (rows : list (list column)) (forum_item forum_index : ptree) : res ptree :=
  match rows with
  | [] => Ok forum_index
  | row :: rows =>
      let* seq := get_int t row (str "seq") in let* title := get_text row (str "title") in
      let* username := get_text row (str "username") in let* updatetime := get_text row (str "updatetime") in
      let forum_item := pt_put (str "_updatetime") updatetime (pt_put (str "_username") username
        (pt_put (str "_title") title (pt_put_int (str "_seq") seq forum_item))) in
      posts_tree t rows forum_item (pt_push_back [] forum_item forum_index)
  end.

Definition count_sql : bytes := str "SELECT COUNT(seq) AS total_count FROM forum".
Definition posts_sql : bytes := str "SELECT * FROM forum ORDER BY seq DESC".

(** From [std::string field, keyword] on. *)
Definition index_json (key : db_key) (t : get_type) (error session : ptree) : route unit :=
  st* v := st_get in
  let '(field, keyword) := match v.(v_req).(rest_params) with
    | _ :: _ :: _ :: _ :: f :: k :: _ => (f, k)
    | _ => ([], [])
    end in
  let forum_search := pt_put (str "_keyword") keyword (pt_put (str "_field") field pt_empty) in
  with_db key count_sql [a_stmt_ptr; an_rs_ptr] (fun s a =>
    st* rows := query_rows key count_sql s [] a in
    st* total_count := (match rows with [] => st_ret 0 | row :: _ => st_lift (get_int t row (str "total_count")) end) in
    st* rows := query_sql key posts_sql [] in
    st* forum_index := st_lift (posts_tree t rows pt_empty pt_empty) in
    let pagination := pt_put_int (str "_link_count") 10 (pt_put_int (str "_page_count") 10 (pt_put_int (str "_total_count") total_count pt_empty)) in
    emit (pt_put_child (str "_pagination") pagination (pt_put_child (str "_forum_index") forum_index
      (pt_put_child (str "_forum_search") forum_search (pt_put_child (str "_session") session (pt_put_child (str "_error") error pt_empty)))))).

Definition index_jsonp : route unit :=
  st* l := new_sess in
  let '(l, userid) := nv_get (str "userid") l in
  if is_empty userid then unauthorized_json
  else
    st* error := error_tree err_none in
    let '(l, session) := session_tree l in
    index_json (by_dbname db_etc) g_uint64 error session.

(** [dir_performance::test]; its [scoped_db] takes a [std::string]. *)
Definition test : route unit :=
  st* l := new_sess in
  st* l := sess_put l (str "userid") (str "test") in
  st* error := error_tree err_none in
  let '(l, session) := session_tree l in
  index_json (by_string (str "db_etc")) g_int64 error session.

(** ** Posting *)

Definition keys_sql (table : bytes) : bytes := str "CALL USP_GET_UNIQUE_KEYS('" ++ table ++ str "', ?)".
Definition forum_insert_sql : bytes :=
  str "INSERT INTO forum(seq, title, content, file1, file2, userid, username, inserttime, updatetime) VALUES(?, ?, ?, ?, ?, ?, ?, NOW(), NOW())".
Definition forum_update_sql : bytes :=
  str "UPDATE forum SET title = ?, content = ?, file1 = ?, file2 = ?, username = ?, updatetime = NOW() WHERE seq = ? AND userid = ?".

Definition text_arg (s : bytes) : arg := arg_text false s.

Definition forum_insert (key : db_key) (l : list name_value) (userid : Z) : route unit :=
  with_db key (keys_sql (str "forum")) [a_stmt_ptr; an_rs_ptr] (fun s a =>
    st* _ := query_rows key (keys_sql (str "forum")) s [temporary (arg_int t_int32 1)] a in
    st* row := st_lift a.(a_proc) in
    st* seq := (match row with Some row => st_lift (get_int g_uint32 row (str "last_key")) | None => st_ret 0 end) in
    st* (s, a) := prepare_stmt forum_insert_sql in
    st* title := req_param (str "title") in st* content := req_param (str "content") in
    let '(l, username) := nv_get (str "username") l in
    st* affected_rows := run_stmt key forum_insert_sql s [variable (arg_int t_uint64 seq); variable (text_arg title); variable (text_arg content);
      temporary (text_arg []); temporary (text_arg []); variable (arg_int t_uint64 userid); variable (text_arg username)] a in
    if affected_rows =? 0 then error_page err_forum_insert_failed else redirect (str "/dir/forum/index")).

Definition forum_update (key : db_key) (seq userid : Z) : route unit :=
  with_db key forum_update_sql [a_stmt_ptr] (fun s a =>
    st* title := req_param (str "title") in st* content := req_param (str "content") in st* username := req_param (str "username") in
    st* _ := run_stmt key forum_update_sql s [variable (text_arg title); variable (text_arg content); temporary (text_arg []); temporary (text_arg []);
      variable (text_arg username); variable (arg_int t_uint64 seq); variable (arg_int t_uint64 userid)] a in
    redirect (str "/dir/forum/index")).

(** [dir_forum::post] *)
Definition forum_post_ : route unit :=
  st* l := new_sess in
  let '(l, userid) := nv_get (str "userid") l in
  if is_empty userid then redirect signin
  else
    let userid := strtoul (c_str userid) in
    st* seq := req_param (str "seq") in
    let seq := if is_empty seq then 0 else strtoul (c_str seq) in
    st* title := req_param (str "title") in
    if is_empty title then error_page err_title_required
    else
      st* content := req_param (str "content") in
      if is_empty content then error_page err_content_required
      else if seq =? 0 then forum_insert (by_string (str "db_etc")) l userid else forum_update (by_string (str "db_etc")) seq userid.

(** ** Users *)

Definition user_sql : bytes := str "SELECT userid FROM users WHERE username = ?".
Definition auth_sql : bytes := str "SELECT userid FROM users WHERE userid = ? AND passwd = ?".
Definition user_insert_sql : bytes :=
  str "INSERT INTO users(userid, platformid, username, passwd, platformtype, inserttime, updatetime) VALUES(?, ?, ?, ?, ?, NOW(), NOW())".

Definition auth : route unit :=
  st* username := req_param (str "username") in
  if is_empty username then error_page err_username_required
  else
    st* passwd := req_param (str "passwd") in
    if is_empty passwd then error_page err_passwd_required
    else
      let passwd := md5_digest MD5 passwd in
      st* shard := req_param (str "userid") in
      let key := by_string shard in
      with_db key user_sql [a_stmt_ptr; an_rs_ptr] (fun s a =>
        st* rows := query_rows key user_sql s [variable (text_arg username)] a in
        match rows with
        | [] => error_page err_username_not_found
        | row :: _ =>
            st* userid := st_lift (get_int g_uint64 row (str "userid")) in
            st* rows := query_sql key auth_sql [variable (arg_int t_uint64 userid); variable (text_arg passwd)] in
            match rows with
            | [] => error_page err_auth_failed
            | _ =>
                st* l := new_sess in
                st* l := sess_put l (str "userid") (to_string userid) in
                st* username := req_param (str "username") in
                st* _ := sess_put l (str "username") username in redirect (str "/dir/forum/index")
            end
        end).

(** [dir_user::post] *)
Definition user_post_ : route unit :=
  st* platformid := req_param (str "platformid") in
  if is_empty platformid then error_page err_platformid_required
  else
    st* platformtype := req_param (str "platformtype") in
    if is_empty platformtype then error_page err_platformtype_required
    else
      st* username := req_param (str "username") in
      if is_empty username then error_page err_username_required
      else
        st* passwd := req_param (str "passwd") in
        if is_empty passwd then error_page err_passwd_required
        else
          st* retypepasswd := req_param (str "retypepasswd") in
          if negb (passwd =s retypepasswd) then error_page err_passwds_not_identical
          else
            let md5_passwd := md5_digest MD5 passwd in
            let key := by_string username in
            with_db key user_sql [a_stmt_ptr; an_rs_ptr] (fun s a =>
              st* rows := query_rows key user_sql s [variable (text_arg username)] a in
              match rows with
              | _ :: _ => error_page err_username_not_available
              | [] =>
                  st* row := query_proc key (keys_sql (str "users")) [temporary (arg_int t_int32 1)] in
                  st* userid := (match row with Some row => st_lift (get_int g_uint64 row (str "last_key")) | None => st_ret 0 end) in
                  st* (s, a) := prepare_stmt user_insert_sql in
                  st* affected_rows := run_stmt key user_insert_sql s [variable (arg_int t_uint64 userid); variable (text_arg (to_string userid));
                    variable (text_arg username); variable (text_arg md5_passwd); temporary (arg_int t_int64 (strtol (c_str platformtype)))] a in
                  if affected_rows =? 0 then error_page err_users_insert_failed else redirect signin
              end).

(** ** The functions of [router::routes] *)

Definition route_of (f : route_func) : route unit :=
  match f with
  | forum_index_html => index_html | forum_index_jsonp => index_jsonp
  | forum_show_html => show_html | forum_show_jsonp => show_jsonp
  | forum_form_html => form_html | forum_form_jsonp => form_jsonp
  | forum_del => del | forum_post => forum_post_
  | user_signin_html => signin_html | user_auth => auth
  | user_signup_html => signup_html | user_post => user_post_
  | user_signout => signout
  | performance_test => test
  end.

(** A route function as [request_handler] calls it. *)
Definition run_route (f : route_func) : func_ptr := fun cfg req r =>
  match route_of f (mk_visit cfg req r []) with
  | (Ok tt, v) => returned v.(v_cfg) v.(v_req) v.(v_res)
  | (Throw e, v) => raised e v.(v_cfg) v.(v_req)
  | (UB u, _) => undefined u
  end.
End Routes.

(** ** Who may use the forum *)

Section Unsigned.
Context `{FileSystem} `{Hlaws : SessionLaws} `{PropertyTree} `{Mysql} (m : moment).

(** The forum's functions, but [del], which does nothing. *)
Definition needs_session (f : route_func) : bool :=
  match f with
  | forum_index_html | forum_index_jsonp | forum_show_html | forum_show_jsonp | forum_form_html | forum_form_jsonp | forum_post => true
  | _ => false
  end.
Definition answers_json (f : route_func) : bool :=
  match f with forum_index_jsonp | forum_show_jsonp | forum_form_jsonp => true | _ => false end.

(** The session cookie is signed with the key. *)
Definition signed_cookie (cfg : config) (req : request) : Prop :=
  exists body, nv_lookup cfg.(sess_cookie_) req.(cookies) = Some (body ++ md5_digest MD5 (body ++ cfg.(encrypt_key_))).

(** A request without such a cookie gets a new session, or an exception. *)
Lemma unsigned_session cfg req r : (forall v, nv_lookup cfg.(sess_cookie_) req.(cookies) = Some v -> size v < npos) -> ~ signed_cookie cfg req ->
  (exists e, new_session cfg m.(m_uuid) m.(m_now) m.(m_now') req r = Throw e) \/
  (exists s, new_session cfg m.(m_uuid) m.(m_now) m.(m_now') req r = Ok s /\ nv_lookup (str "userid") s.(session_) = None).
Proof using Hlaws.
  intros Hsz Hun. unfold new_session. pose proof (load_outcome cfg m.(m_now) (mk_session req r [])) as Ho.
  destruct (load cfg (m_now m) (mk_session req r [])) as [[s' b]|e|u] eqn:El; [|left; by exists e|done]. destruct b.
  - destruct (load_true cfg (m_now m) req r s' Hsz El) as (value & Hv & Hacc). destruct (acc_signed _ _ _ _ _ Hacc) as (body & -> & _).
    destruct Hun. by exists body.
  - right. cbn [mbind res_bind negb]. rewrite create_spec. eexists. split; [done|]. by vm_compute.
Qed.

Lemma new_sess_ok cfg req r s : new_session cfg m.(m_uuid) m.(m_now) m.(m_now') req r = Ok s ->
  new_sess m (mk_visit cfg req r []) = (Ok s.(session_), mk_visit cfg s.(s_req) s.(s_res) []).
Proof using. intros E. unfold new_sess, st_bind, st_get, st_lift, put_req, put_res, st_ret. cbn. by rewrite E. Qed.

Lemma new_sess_throws cfg req r e : new_session cfg m.(m_uuid) m.(m_now) m.(m_now') req r = Throw e ->
  new_sess m (mk_visit cfg req r []) = (Throw e, mk_visit cfg req r []).
Proof using. intros E. unfold new_sess, st_bind, st_get, st_lift. cbn. by rewrite E. Qed.

Definition unauthorized_tree (cfg : config) : ptree :=
  pt_put_child (str "_error") (pt_put (str "_message") (err_msg cfg err_unauthorized).2 (pt_put_int (str "_code") (error_code err_unauthorized) pt_empty)) pt_empty.

Lemma unauthorized_spec cfg req r text : write_json (unauthorized_tree cfg) = Ok text ->
  unauthorized_json (mk_visit cfg req r []) =
    (Ok tt, mk_visit (err_msg cfg err_unauthorized).1 req
      (set_content_extension (append_content (append_content (append_content r jsonp_start) text) jsonp_end) (str "js")) []).
Proof using.
  unfold unauthorized_tree, unauthorized_json, error_tree, message, emit, modify_res, put_cfg, put_res, st_bind, st_get, st_lift, st_ret. cbn.
  destruct (err_msg cfg err_unauthorized) as [cfg' x]. cbn. by intros ->.
Qed.

(** What the forum answers to a visitor without a user. *)
Lemma unsigned_visit f cfg req r s text : needs_session f = true ->
  new_session cfg m.(m_uuid) m.(m_now) m.(m_now') req r = Ok s -> nv_lookup (str "userid") s.(session_) = None -> write_json (unauthorized_tree cfg) = Ok text ->
  route_of m f (mk_visit cfg req r []) =
    (Ok tt, if answers_json f
      then mk_visit (err_msg cfg err_unauthorized).1 s.(s_req)
        (set_content_extension (append_content (append_content (append_content s.(s_res) jsonp_start) text) jsonp_end) (str "js")) []
      else mk_visit cfg s.(s_req) (redirect_to s.(s_res) signin) []).
Proof using.
  intros Hf Es Eu Et.
  assert (nv_get (str "userid") s.(session_) = (s.(session_) ++ [mk_name_value (str "userid") []], [])) as Eget by (unfold nv_get; by rewrite Eu).
  destruct f; try done; unfold route_of, index_html, show_html, form_html, forum_page, show_jsonp, form_jsonp, params_jsonp, index_jsonp, forum_post_;
    unfold st_bind at 1; rewrite (new_sess_ok _ _ _ _ Es); rewrite Eget; cbn [is_empty answers_json]; try done; by apply unauthorized_spec.
Qed.
End Unsigned.

(** C14: A request whose session cookie is not signed with the configured key, or that
    has none, gets nothing of the forum: the pages and posting redirect to the
    sign-in page, the JSON functions answer the error alone, no file of the forum
    is read into the response and no statement is sent; a cookie too short to be
    signed is an exception. *)
Theorem forum_needs_signature `{FileSystem} `{Hlaws : SessionLaws} `{PropertyTree} `{Mysql} m f cfg req r :
  needs_session f = true -> (forall v, nv_lookup cfg.(sess_cookie_) req.(cookies) = Some v -> size v < npos) -> ~ signed_cookie cfg req ->
  (exists text, write_json (unauthorized_tree cfg) = Ok text) ->
  match route_of m f (mk_visit cfg req r []) with
  | (Ok _, v) => v.(v_sent) = [] /\ exists s text, new_session cfg m.(m_uuid) m.(m_now) m.(m_now') req r = Ok s /\ write_json (unauthorized_tree cfg) = Ok text /\
      v.(v_res) = if answers_json f
        then set_content_extension (append_content (append_content (append_content s.(s_res) jsonp_start) text) jsonp_end) (str "js")
        else redirect_to s.(s_res) signin
  | (Throw e, v) => v = mk_visit cfg req r [] /\ new_session cfg m.(m_uuid) m.(m_now) m.(m_now') req r = Throw e
  | (UB _, _) => False
  end.
Proof.
  intros Hf Hsz Hun [text Et]. destruct (unsigned_session m cfg req r Hsz Hun) as [[e Ee]|(s & Es & Eu)].
  - assert (route_of m f (mk_visit cfg req r []) = (Throw e, mk_visit cfg req r [])) as ->; [|done].
    destruct f; try done; unfold route_of, index_html, show_html, form_html, forum_page, show_jsonp, form_jsonp, params_jsonp, index_jsonp, forum_post_;
      unfold st_bind at 1; by rewrite (new_sess_throws _ _ _ _ _ Ee).
  - rewrite (unsigned_visit m f cfg req r s text Hf Es Eu Et). split; [by destruct (answers_json f)|]. exists s, text. split_and!; [done|done|by destruct (answers_json f)].
Qed.

Section Witness.

(** The trees of a plain JSON writer. *)
#[local] Instance sample_trees : PropertyTree := {|
  ptree := bytes; pt_empty := []; pt_put p x t := t ++ p ++ str ":" ++ x ++ str " "; pt_put_int p x t := t ++ p ++ str ":" ++ to_string x ++ str " ";
  pt_put_child p c t := t ++ p ++ str ":{" ++ c ++ str "} "; pt_push_back p c t := t ++ str "{" ++ c ++ str "} "; write_json t := Ok t |}.
#[local] Instance no_files : FileSystem := fun _ => None.
#[local] Instance sample_mysql : Mysql := {| open_db _ := Ok tt; db_answers _ _ := mk_db_answer (params 9) (exec_ok 1) (Ok []) (Ok None) |}.

(** A forged cookie: the user is in the session, the digest is made without the key. *)
Definition forged : bytes := percent_encode (str "userid=1") ++ replicate 32 "0"%byte.
Definition forged_request : request := set_cookies first_request [mk_name_value (str "waspp_sess") forged].
Definition sample_moment : moment := mk_moment [] 1000 1000.

Lemma forged_not_signed : ~ signed_cookie (env := sample_env) session_config forged_request.
Proof.
  intros [body E]. injection E as E. apply app_inj_2 in E as [Eb Ed]; [|by rewrite (md5_digest_length (env := sample_env)), length_replicate].
  subst body. revert Ed. vm_compute. discriminate.
Qed.

Lemma forum_needs_signature_witness :
  match route_of (H0 := sample_env) sample_moment forum_post (mk_visit session_config forged_request (response_init 0) []) with
  | (Ok _, v) => v.(v_sent) = [] /\ v.(v_res).(res_content) = str " " /\
      last v.(v_res).(res_headers) = Some (mk_name_value (str "Refresh") (str "0; url=/dir/user/signin"))
  | _ => False
  end.
Proof.
  pose proof (forum_needs_signature (Hlaws := sample_laws) sample_moment forum_post session_config forged_request (response_init 0) eq_refl
    ltac:(intros v [= <-]; vm_compute; reflexivity) forged_not_signed (ex_intro _ _ eq_refl)) as Hp.
  destruct (route_of sample_moment forum_post _) as [[u|e|u] v] eqn:E; [|destruct Hp as [_ Hp]; vm_compute in Hp; discriminate Hp|destruct Hp].
  destruct Hp as (Hs & s & text & _ & _ & Hr). rewrite Hs, Hr. cbn [answers_json redirect_to set_content_extension set_res_content res_content res_headers push_header set_res_headers].
  split; [reflexivity|]. split; [reflexivity|]. by rewrite last_snoc.
Defined.

(** The request, from [handle_request] to the response that is sent. *)
Example forged_post_handled :
  match handle_request (fun s => s) (run_route (H0 := sample_env) sample_moment) session_config (set_uri forged_request (str "/dir/forum/post")) (response_init 0) with
  | Ok (_, _, r) => r.(status) = 200 /\ r.(res_content) = str " "
  | _ => False
  end.
Proof. by vm_compute. Qed.
End Witness.

(** ** The routes that use the database *)

(** Whatever happens in a block that owns a statement by a smart pointer, it does
    not end well: once the first statement is prepared, the visit is undefined. *)
Theorem with_db_undefined `{FileSystem} `{SessionEnv} `{PropertyTree} `{Mysql} key sql pointers body v n :
  pointers = [a_stmt_ptr] \/ pointers = [a_stmt_ptr; an_rs_ptr] -> open_db key = Ok tt -> (db_answers (length v.(v_sent)) sql).(a_prepared) = params n ->
  exists u v', with_db key sql pointers body v = (UB u, v').
Proof.
  intros Hp Ho Ha. unfold with_db, prepare_stmt, st_bind, st_lift, st_get, st_ret. rewrite Ho. cbn [mbind res_bind]. rewrite Ha. cbn [new_statement].
  unfold in_block. destruct (body _ _ v) as [r v']. assert (block pointers no_objects = UB double_free) as -> by (by destruct Hp as [-> | ->]; vm_compute).
  destruct r; by eexists _, _.
Qed.
