(* ===== verification/Site.v ===== *)
(** * The whole site: the server of [src/src/server.cpp] over the route functions of
    [src/src/route_dir_*.cpp].

    [Server.isolated_run] asks of the route functions that they leave the shared
    configuration alone.  They do when every error has a text: [config::err_msg]
    inserts an empty one for a code that is missing. *)
From S2P Require Import Prelude CxxString CxxTime Utility Request RequestParser RequestContent Response Config Router RequestHandler Session Connection Server Pool Database Mysqlpp Routes.

(** The error file has every code of [error_type]; [err_end] only ends the list. *)
Definition has_texts (cfg : config) : Prop := forall e, e <> err_end -> is_Some (cfg.(err_) !! error_code e).

(** A route that leaves such a configuration alone. *)
Definition keeps {A} (r : route A) : Prop := forall v, has_texts v.(v_cfg) -> (r v).2.(v_cfg) = v.(v_cfg).

Create HintDb keeps.

Lemma keeps_ret {A} (a : A) : keeps (st_ret a).
Proof. done. Qed.
Lemma keeps_lift {A} (r : res A) : keeps (st_lift r).
Proof. done. Qed.
Lemma keeps_get : keeps st_get.
Proof. done. Qed.
Lemma keeps_req req : keeps (put_req req).
Proof. done. Qed.
Lemma keeps_res r : keeps (put_res r).
Proof. done. Qed.

Lemma keeps_bind {A B} (r : route A) (f : A -> route B) : keeps r -> (forall a, keeps (f a)) -> keeps (st_bind r f).
Proof.
  intros Hr Hf v Hv. unfold st_bind. specialize (Hr v Hv). destruct (r v) as [[a|e|u] v']; try done. cbn [snd] in Hr.
  rewrite (Hf a v'); [done|]. by rewrite Hr.
Qed.

#[export] Hint Resolve keeps_ret keeps_lift keeps_get keeps_req keeps_res keeps_bind : keeps.

Lemma keeps_in_block pointers {A} (body : route A) : keeps body -> keeps (in_block pointers body).
Proof.
  intros Hb v Hv. unfold in_block. specialize (Hb v Hv). destruct (body v) as [r v']. cbn [snd] in Hb.
  by destruct r, (block pointers no_objects).
Qed.

(** One step into a route: its sequence, its tests, its destructured values. *)
Ltac keeps_step :=
  match goal with
  | |- keeps (st_bind _ _) => apply keeps_bind; [|intros ?]
  | |- keeps (in_block _ _) => apply keeps_in_block
  | |- keeps (if ?b then _ else _) => destruct b
  | |- keeps (let '(_, _) := ?p in _) => destruct p
  | |- keeps (match ?p with _ => _ end) => destruct p
  end.
Ltac keeps_run := repeat (solve [auto with keeps] || keeps_step).

Lemma err_msg_keeps cfg e : e <> err_end -> has_texts cfg -> (err_msg cfg e).1 = cfg.
Proof. intros He Hc. unfold err_msg. by destruct (Hc e He) as [x ->]. Qed.

Section Keeps.
Context `{FileSystem} `{SessionEnv} `{PropertyTree} `{Mysql} (m : moment).

Lemma keeps_file path : keeps (file path).
Proof using. unfold file. keeps_run. Qed.

Lemma keeps_message e : e <> err_end -> keeps (message e).
Proof using.
  intros Hne v Hv. pose proof (err_msg_keeps (v_cfg v) e Hne Hv) as He. unfold message, st_bind, st_get, put_cfg, st_ret.
  destruct (err_msg (v_cfg v) e) as [cfg x]. exact He.
Qed.

Lemma router_err_msg_keeps cfg r e cfg' r' : e <> err_end -> has_texts cfg -> router_err_msg cfg r e = Ok (cfg', r') -> cfg' = cfg.
Proof using.
  intros Hne Hc. unfold router_err_msg. destruct (get_file _ _ _) as [[b r1]| |]; cbn [mbind res_bind]; try done.
  pose proof (err_msg_keeps cfg e Hne Hc) as He. destruct (err_msg cfg e) as [cfg1 x]. cbn [fst] in He. subst cfg1.
  destruct (get_file _ _ _) as [[b' r2]| |]; cbn [mbind res_bind]; try done. by intros [= <- _].
Qed.

Lemma keeps_error_page e : e <> err_end -> keeps (error_page e).
Proof using.
  intros Hne v Hv. unfold error_page, st_bind, st_get, st_lift, put_cfg, put_res.
  destruct (router_err_msg (v_cfg v) (v_res v) e) as [[cfg r]|x|u] eqn:E; [|done..]. by apply router_err_msg_keeps in E.
Qed.

Lemma keeps_run_stmt key sql s l a : keeps (run_stmt key sql s l a).
Proof using. unfold run_stmt. keeps_run. Qed.

#[local] Hint Resolve keeps_file keeps_message keeps_error_page keeps_run_stmt : keeps.
#[local] Hint Extern 1 (_ <> err_end) => discriminate : keeps.

Lemma keeps_new_sess : keeps (new_sess m).
Proof using. unfold new_sess. keeps_run. Qed.
Lemma keeps_redirect url : keeps (redirect url).
Proof using. unfold redirect, modify_res. keeps_run. Qed.
Lemma keeps_req_param n : keeps (req_param n).
Proof using. unfold req_param. keeps_run. Qed.
Lemma keeps_emit json : keeps (emit json).
Proof using. unfold emit, modify_res. keeps_run. Qed.
Lemma keeps_error_tree e : e <> err_end -> keeps (error_tree e).
Proof using. intros He. unfold error_tree. keeps_run. Qed.
Lemma keeps_sess_put l n x : keeps (sess_put l n x).
Proof using. unfold sess_put. keeps_run. Qed.
Lemma keeps_prepare sql : keeps (prepare_stmt sql).
Proof using. unfold prepare_stmt. keeps_run. Qed.
#[local] Hint Resolve keeps_new_sess keeps_redirect keeps_req_param keeps_emit keeps_error_tree keeps_sess_put keeps_prepare : keeps.

Lemma keeps_query_rows key sql s l a : keeps (query_rows key sql s l a).
Proof using. unfold query_rows. keeps_run. Qed.
#[local] Hint Resolve keeps_query_rows : keeps.

Lemma keeps_query_sql key sql l : keeps (query_sql key sql l).
Proof using. unfold query_sql. keeps_run. Qed.
Lemma keeps_query_proc key sql l : keeps (query_proc key sql l).
Proof using. unfold query_proc. keeps_run. Qed.
#[local] Hint Resolve keeps_query_sql keeps_query_proc : keeps.

Lemma keeps_index_json key t error session : keeps (index_json key t error session).
Proof using. unfold index_json, with_db. keeps_run. Qed.
#[local] Hint Resolve keeps_index_json : keeps.

Lemma route_keeps f : keeps (route_of m f).
Proof using.
  destruct f; cbn [route_of]; unfold index_html, show_html, form_html, forum_page, index_jsonp, show_jsonp, form_jsonp, params_jsonp, unauthorized_json,
    forum_post_, forum_insert, forum_update, del, signin_html, signup_html, user_page, auth, user_post_, signout, test, with_db, jsonp, modify_res; keeps_run.
Qed.
End Keeps.

(** What the world answers to a route: the time and the database. *)
Definition answers : Type := moment * Mysql.
Definition site_routes `{FileSystem} `{SessionEnv} `{PropertyTree} (a : answers) : route_func -> func_ptr := run_route (H2 := a.2) a.1.

Lemma site_keeps `{FileSystem} `{SessionEnv} `{PropertyTree} cfg : has_texts cfg -> routes_keep_config site_routes cfg.
Proof.
  intros Hc [m db] f req r. unfold site_routes, run_route. cbn [fst snd]. pose proof (route_keeps m f (mk_visit cfg req r []) Hc) as Hk.
  by destruct (route_of m f (mk_visit cfg req r [])) as [[[]|e|u] v].
Qed.

(** C11: The clients of the site do not see each other: in any interleaving of the
    handlers, whatever time and database answer, a connection is what its own
    completions, in their order, make of a fresh one with the configuration that
    the server was started with, which nothing changes - provided every error has
    a text. *)
Theorem site_isolates `{FileSystem} `{SessionEnv} `{PropertyTree} gzip ssl cfg es s k cl :
  has_texts cfg -> server_run gzip site_routes ssl (new_server cfg) es = Some (Ok s) -> s.(s_clients) !! k = Some cl ->
  s.(s_cfg) = cfg /\
  exists req0 res0, accepts es !! k = Some (cl.(cl_ip), cl.(cl_port), req0, res0) /\
    run_alone gzip site_routes ssl cl.(cl_ip) cl.(cl_port) (start ssl cfg req0 res0) (events_of k es) = Some (Ok cl.(cl_connection)).
Proof.
  intros Hc Hrun Hk. destruct (isolated_run gzip site_routes ssl cfg (site_keeps cfg Hc) es s Hrun) as [Hcfg _ _ Hcl].
  split; [done|]. by destruct (Hcl k cl Hk) as (_ & Hev).
Qed.

Section Witness.

#[local] Instance no_files : FileSystem := fun _ => None.
#[local] Instance site_trees : PropertyTree := {|
  ptree := bytes; pt_empty := []; pt_put p x t := t ++ p ++ x; pt_put_int p x t := t ++ p ++ to_string x;
  pt_put_child p c t := t ++ p ++ c; pt_push_back p c t := t ++ c; write_json t := Ok t |}.
#[local] Instance site_env : SessionEnv := sample_env.

(** The texts of [src/err/en_us.json]. *)
Definition en_us : list (Z * bytes) :=
  [(0, str "none"); (1, str "unknown"); (1001, str "unauthorized"); (1101, str "username required"); (1102, str "passwd required");
   (1103, str "username not found"); (1104, str "auth failed"); (1105, str "platformtype required"); (1106, str "platformid required");
   (1107, str "passwd not identical"); (1108, str "username not available"); (1109, str "users_idx insert failed"); (1110, str "users insert failed");
   (1201, str "title required"); (1202, str "content required"); (1203, str "forum insert failed"); (9999, str "end")].
Definition site_config : config := set_err_ session_config (list_to_map en_us).

(** The database refuses. *)
Definition refusing (now : Z) : answers :=
  (mk_moment (replicate 16 Byte.x00) now now, {| open_db _ := Throw (runtime_error (str "refused")); db_answers _ _ := mk_db_answer (params 9) (exec_ok 1) (Ok []) (Ok None) |}).

(** Two clients: one asks for the forum in two pieces, between which the other
    signs in without a name. *)
Definition site_events : list (server_event answers) :=
  [accepted false (str "10.0.0.1") 4001 request_init (response_init 0); completed 0 (refusing 1000) (read_done false (str "GET /dir/forum/in"));
   accepted true (str "10.0.0.9") 4009 request_init (response_init 0); accepted false (str "10.0.0.2") 4002 request_init (response_init 0);
   completed 1 (refusing 1001) (read_done false (str "GET /dir/user/auth HTTP/1.1" ++ line_end ++ line_end)); signalled SIGHUP;
   completed 0 (refusing 1002) (read_done false (str "dex HTTP/1.1" ++ line_end ++ line_end)); completed 1 (refusing 1003) (write_done false);
   completed 0 (refusing 1004) (write_done false); signalled 15].

Lemma site_texts : has_texts site_config.
Proof.
  intros e He. assert (bool_decide (is_Some (site_config.(err_) !! error_code e)) = true) as Hb by (by destruct e; vm_compute).
  by apply bool_decide_eq_true in Hb.
Qed.

Lemma site_isolates_witness :
  match server_run (fun s => s) site_routes false (new_server site_config) site_events with
  | Some (Ok s) => exists cl req0 res0, s.(s_clients) !! 0%nat = Some cl /\
      run_alone (fun s => s) site_routes false (str "10.0.0.1") 4001 (start false site_config req0 res0)
        [(refusing 1000, read_done false (str "GET /dir/forum/in")); (refusing 1002, read_done false (str "dex HTTP/1.1" ++ line_end ++ line_end));
         (refusing 1004, write_done false)] = Some (Ok cl.(cl_connection))
  | _ => False
  end.
Proof.
  destruct (server_run (fun s => s) site_routes false (new_server site_config) site_events) as [[s|x|u]|] eqn:E; [|vm_compute in E; discriminate E..].
  destruct (s_clients s !! 0%nat) as [cl|] eqn:Ek; [|exfalso; apply (f_equal (fun o => match o with Some (Ok s) => bool_decide (is_Some (s_clients s !! 0%nat)) | _ => true end)) in E; cbn beta iota in E; rewrite Ek in E; vm_compute in E; discriminate E].
  destruct (site_isolates (fun s => s) false site_config site_events s 0 cl site_texts E Ek) as (_ & req0 & res0 & Ha & Hr).
  exists cl, req0, res0. split; [reflexivity|].
  assert (cl_ip cl = str "10.0.0.1") as Hip by exact (eq_sym (f_equal (fun o => match o with Some (ip, _, _, _) => ip | None => [] end) Ha)).
  assert (cl_port cl = 4001) as Hport by exact (eq_sym (f_equal (fun o => match o with Some (_, port, _, _) => port | None => 4001 end) Ha)).
  rewrite Hip, Hport in Hr. exact Hr.
Defined.

(** What the clients are sent, and that the server does not stop. *)
Example site_answers :
  match server_run (fun s => s) site_routes false (new_server site_config) site_events with
  | Some (Ok s) => s.(s_running) = true /\
      map (fun cl => negb (CxxString.find cl.(cl_connection).(c_wire) (str "username required") 0 =? npos)) s.(s_clients) = [false; true]
  | _ => False
  end.
Proof. by vm_compute. Qed.
End Witness.
