(* ===== verification/Main.v ===== *)
(** * [src/src/main.cpp]: the process.

    The global objects, the steps of the start in their order, the server, and the
    destructors at the end.  What the process finds - its arguments, the client
    library of MySQL, the servers of the databases, whether it can listen - is
    [Outside].  What is logged is a list of the logger's events; the thread that
    writes them is in Logger. *)
From S2P Require Import Prelude CxxString Request Response Config Router Session Connection Server Pool Database Mysqlpp Routes Site Logger HiredisReader HiredisContext.

(** What is outside: the arguments after the program's name; what
    [mysql_library_init] returns; the files and conversions of the configuration;
    the answers to the connections of each pool and what the threads do with them;
    what listening throws, if it does; the time of each line logged, with its text;
    the texts of the exceptions and of [__FILE__]. *)
Class Outside : Type := {
  argv : list bytes; mysql_library_init : Z;
  out_exists : bytes -> bool; out_json : bytes -> option Config.ptree; out_cast : bytes -> option bool;
  db_connects : nat -> nat -> answer MYSQL; rd_connects : nat -> nat -> answer redisContext;
  db_uses : nat -> list (pool_event MYSQL); rd_uses : nat -> list (pool_event redisContext);
  listens : config -> option exn;
  clock : nat -> tm * bytes; what : exn -> bytes; FILE : bytes }.

(** The objects that the locator finds, and what was logged. *)
Record globals : Type := mk_globals { g_log : list log_event; g_cfg : config; g_db : database; g_rd : redis }.

Definition new_globals : globals := mk_globals [] config_init new_shards new_shards.

(** How the process ends: [main] returns, an exception leaves it or a thread, or it
    does not end; [impossible] when the server has no such events. *)
Inductive ending : Type := ends (code : Z) | dies | runs_on (s : server) | impossible.

Section Main.
Context `{Outside} `{FileSystem} `{SessionEnv} `{PropertyTree} (gzip : bytes -> bytes).

Definition set_log (g : globals) (l : list log_event) : globals := mk_globals l g.(g_cfg) g.(g_db) g.(g_rd).
Definition set_config (g : globals) (c : config) : globals := mk_globals g.(g_log) c g.(g_db) g.(g_rd).
Definition set_database (g : globals) (d : database) : globals := mk_globals g.(g_log) g.(g_cfg) d g.(g_rd).
Definition set_redis (g : globals) (r : redis) : globals := mk_globals g.(g_log) g.(g_cfg) g.(g_db) r.

(** [log(level) << texts] *)
Definition log_texts (level : log_level_type) (texts : list bytes) : stres globals unit :=
  st* g := st_get in
  let '(t, time) := clock (length g.(g_log)) in
  st_put (set_log g (g.(g_log) ++ [ev_log level t time texts])).

(** [text << "," << __FILE__ << ":" << __LINE__] *)
Definition fatal_at (line : Z) (text : bytes) : stres globals unit := log_texts fatal [text; str ","; FILE; str ":"; to_string line].

(** [if (!init) { log(fatal) << "failed.."; return 1; }] *)
Definition or_fail (line : Z) (failed : bytes) (init : stres globals bool) (rest : stres globals ending) : stres globals ending :=
  st* ok := init in
  if negb ok then st* _ := fatal_at line failed in st_ret (ends 1) else rest.

(** [cfg.init(address, cfg_file)] *)
Definition init_config (address cfg_file : bytes) : stres globals bool :=
  st* g := st_get in
  st* (ok, c) := st_lift (Config.init out_exists out_json out_cast g.(g_cfg) address cfg_file) in
  st* _ := st_put (set_config g c) in st_ret ok.

(** [log_.init()] *)
Definition init_logger : stres globals bool :=
  st* g := st_get in
  let level := g.(g_cfg).(log_level_) in
  let rotation := g.(g_cfg).(log_rotation_) in
  st* _ := st_put (set_log g (g.(g_log) ++ [ev_init level rotation])) in
  st_ret (logger_init (new_logger (clock 0).1) level rotation).1.

Definition num_threads (g : globals) : nat := Z.to_nat g.(g_cfg).(num_threads_).

(** [db.init({ "db_000", "db_001", "db_etc" })] *)
Definition init_database : stres globals bool := fun g =>
  let '(r, d) := database_init g.(g_cfg) (num_threads g) [str "db_000"; str "db_001"; str "db_etc"] db_connects g.(g_db) in (r, set_database g d).

(** [rd.init({ "rd_rnk" })] *)
Definition init_redis : stres globals bool := fun g =>
  let '(r, d) := redis_init g.(g_cfg) (num_threads g) [str "rd_rnk"] rd_connects g.(g_rd) in (r, set_redis g d).

(** The threads use the pools while the server runs. *)
Definition use_databases : stres globals unit :=
  st* g := st_get in
  st* db := st_lift (use_pools 0 db_uses g.(g_db).(pools)) in
  st* rd := st_lift (use_pools 0 rd_uses g.(g_rd).(pools)) in
  st_put (set_redis (set_database g (mk_shards g.(g_db).(shard_count) g.(g_db).(shard_format) db)) (mk_shards g.(g_rd).(shard_count) g.(g_rd).(shard_format) rd)).

(** [server::run]: without threads nothing runs; with them, the handlers run until
    a signal stops them or an exception leaves a thread. *)
Definition run_server (es : list (server_event answers)) : stres globals ending :=
  st* g := st_get in
  if (num_threads g =? 0)%nat then st_ret (ends 0)
  else
    match server_run gzip site_routes g.(g_cfg).(ssl_) (new_server g.(g_cfg)) es with
    | None => st_ret impossible
    | Some (Throw _) => st_ret dies
    | Some (UB u) => st_lift (UB u)
    | Some (Ok s) =>
        st* _ := st_put (set_config g s.(s_cfg)) in
        st* _ := use_databases in
        if s.(s_running) then st_ret (runs_on s)
        else if existsb (fun cl => Server.ended cl.(cl_connection)) s.(s_clients) then st_ret dies
        else st* _ := log_texts info [str "server stopping.."] in st_ret (ends 0)
    end.

(** The server is made, which listens, and runs. *)
Definition start_server (es : list (server_event answers)) : stres globals ending :=
  st* g := st_get in
  st* _ := st_lift (match listens g.(g_cfg) with None => Ok tt | Some x => Throw x end) in
  st* _ := log_texts info [str (if g.(g_cfg).(ssl_) then "server_ssl starting.." else "server starting..")] in
  run_server es.

(** The arguments, and the files they name; the logger is given its file before
    anything can be logged. *)
Definition phase_address : bytes * bytes := match argv with [phase; address] => (phase, address) | _ => (str "develop", str "0.0.0.0") end.
Definition log_file : bytes := str "../log/" ++ phase_address.1 ++ str ".csv".
Definition cfg_file : bytes := str "../cfg/" ++ phase_address.1 ++ str ".json".

(** The block that catches. *)
Definition start_up (es : list (server_event answers)) : stres globals ending :=
  or_fail 70 (str "config::init failed") (init_config phase_address.2 cfg_file)
  (or_fail 76 (str "logger::init failed") init_logger
  (or_fail 82 (str "database::init failed") init_database
  (or_fail 88 (str "redis::init failed") init_redis
  (start_server es)))).

(** The destructors of [rd] and [db]. *)
Definition destroy_globals (g : globals) : res globals :=
  let* rd := delete_redis g.(g_rd) in
  let* db := delete_database g.(g_db) in Ok (set_database (set_redis g rd) db).

(** [main]; the constructor of [db] is outside the block that catches. *)
Definition main (es : list (server_event answers)) : res (ending * globals) :=
  if negb (mysql_library_init =? 0) then Ok (dies, new_globals)
  else
    let '(r, g) := start_up es new_globals in
    let* (e, g) := (match r with
      | Ok e => Ok (e, g)
      | Throw x => Ok (ends 0, (fatal_at 107 (what x) g).2)
      | UB u => UB u
      end) in
    match e with ends _ => let* g := destroy_globals g in Ok (e, g) | _ => Ok (e, g) end.

(** ** What becomes of the process *)

(** The pools of a database are filled as the configuration says. *)
Definition filled {P Hd} `{PoolKind P Hd} (cfg : config) (names : list bytes) (l : list (pool_of P Hd)) : Prop :=
  Forall2 (fun name p => exists c, cfg.(cfg_) !! name = Some c /\ init_pool new_settings c = (p.(settings), true)) names l /\ Forall pool_good l.

(** Everything was initialised: the configuration is that of the file, the logger
    knows its level and rotation, the pools are full, and the server listens. *)
Record started (cfg : config) : Prop := {
  sd_reads : reads out_json out_cast cfg;
  sd_logger : is_Some (level_of cfg.(log_level_)) /\ is_Some (rotation_of cfg.(log_rotation_));
  sd_db : exists l : list (pool_of dbconn_pool MYSQL), filled cfg [str "db_000"; str "db_001"; str "db_etc"] l;
  sd_rd : exists l : list (pool_of redis_pool redisContext), filled cfg [str "rd_rnk"] l;
  sd_listens : listens cfg = None }.

(** The last line logged. *)
Definition last_logged (g : globals) (level : log_level_type) (texts : list bytes) : Prop :=
  exists l t time, g.(g_log) = l ++ [ev_log level t time texts].
Definition fatal_texts (line : Z) (text : bytes) : list bytes := [text; str ","; FILE; str ":"; to_string line].

Definition init_steps : list (Z * bytes) :=
  [(70, str "config::init failed"); (76, str "logger::init failed"); (82, str "database::init failed"); (88, str "redis::init failed")].

Inductive fate (es : list (server_event answers)) : ending -> globals -> Prop :=
  | fate_failed line text g : (line, text) ∈ init_steps -> last_logged g fatal (fatal_texts line text) -> fate es (ends 1) g
  | fate_threw x g : last_logged g fatal (fatal_texts 107 (what x)) -> fate es (ends 0) g
  | fate_no_threads cfg g : started cfg -> Z.to_nat cfg.(num_threads_) = 0%nat -> fate es (ends 0) g
  | fate_stopped cfg n g : started cfg -> first_signal es = Some n -> n <> SIGHUP -> last_logged g info [str "server stopping.."] -> fate es (ends 0) g
  | fate_runs cfg s g : started cfg -> server_run gzip site_routes cfg.(ssl_) (new_server cfg) es = Some (Ok s) -> s.(s_running) = true -> fate es (runs_on s) g
  | fate_thread cfg s g : started cfg -> server_run gzip site_routes cfg.(ssl_) (new_server cfg) es = Some (Ok s) ->
      Exists (fun cl => Server.ended cl.(cl_connection) = true) s.(s_clients) -> fate es dies g
  | fate_thread_threw cfg x g : started cfg -> server_run gzip site_routes cfg.(ssl_) (new_server cfg) es = Some (Throw x) -> fate es dies g
  | fate_library g : mysql_library_init <> 0 -> fate es dies g
  | fate_impossible cfg g : started cfg -> server_run gzip site_routes cfg.(ssl_) (new_server cfg) es = None -> fate es impossible g.

(** No thread is in a pool. *)
Definition pools_whole (g : globals) : Prop := (Forall pool_good (pools g.(g_db)) /\ Forall pool_idle (pools g.(g_db))) /\ Forall pool_good (pools g.(g_rd)) /\ Forall pool_idle (pools g.(g_rd)).

(** The causes of undefined behaviour. *)
Definition cause (es : list (server_event answers)) (u : ub) : Prop :=
  (u = index_out_of_bounds /\ exists t, out_json cfg_file = Some t /\ element (read_sections (pt_children t) ∅) (str "server") (str "doc_root") = Some []) \/
  exists cfg, started cfg /\ server_run gzip site_routes cfg.(ssl_) (new_server cfg) es = Some (UB u).

Context (es : list (server_event answers)).
Hypothesis doc_root_size : forall t d, out_json cfg_file = Some t -> element (read_sections (pt_children t) ∅) (str "server") (str "doc_root") = Some d -> size d < npos.
Hypothesis db_done : forall l l', use_pools 0 db_uses l = Ok l' -> Forall pool_idle l -> Forall pool_idle l'.
Hypothesis rd_done : forall l l', use_pools 0 rd_uses l = Ok l' -> Forall pool_idle l -> Forall pool_idle l'.

(** A part of the start: what it leaves, with [K] when it is done. *)
Definition lands {A} (K : A -> globals -> Prop) (r : res A) (g : globals) : Prop :=
  pools_whole g /\ match r with Ok a => K a g | Throw _ => True | UB u => cause es u end.

Lemma lands_bind {A B} (m : stres globals A) (f : A -> stres globals B) g K K' :
  leaves m g (lands K) -> (forall a g', pools_whole g' -> K a g' -> leaves (f a) g' (lands K')) -> leaves (st_bind m f) g (lands K').
Proof using. intros Hm Hf. eapply leaves_bind; [exact Hm|intros a g' [Hw HK]; by apply Hf|done|done]. Qed.

Lemma lands_ret {A} (a : A) g (K : A -> globals -> Prop) : pools_whole g -> K a g -> leaves (st_ret a) g (lands K).
Proof using. done. Qed.

Lemma lands_get {A} (f : globals -> stres globals A) g K : leaves (f g) g (lands K) -> leaves (st_bind st_get f) g (lands K).
Proof using. done. Qed.

Lemma lands_put {A} (f : unit -> stres globals A) g g' K : leaves (f tt) g' (lands K) -> leaves (st_bind (st_put g') f) g (lands K).
Proof using. done. Qed.

Lemma log_state level texts g : (log_texts level texts g).1 = Ok tt /\ last_logged (log_texts level texts g).2 level texts /\ exists l, (log_texts level texts g).2 = set_log g l.
Proof using. unfold log_texts, st_bind, st_get, st_put. destruct (clock _) as [t time]. split; [done|]. split; [by eexists _, t, time|by eexists]. Qed.

Lemma log_lands level texts g : pools_whole g -> leaves (log_texts level texts) g (lands (fun _ g' => last_logged g' level texts /\ exists l, g' = set_log g l)).
Proof using. intros Hw. unfold leaves, lands. destruct (log_state level texts g) as (-> & Hl & l & El). split; [by rewrite El|]. split; [done|by exists l]. Qed.

Lemma or_fail_lands line text init rest g K : (line, text) ∈ init_steps -> leaves init g (lands (fun ok g' => ok = true -> K g')) ->
  (forall g', pools_whole g' -> K g' -> leaves rest g' (lands (fate es))) -> leaves (or_fail line text init rest) g (lands (fate es)).
Proof using.
  intros Hin Hi Hr. unfold or_fail. eapply lands_bind; [exact Hi|]. intros [] g' Hw HK; cbn [negb]; [by apply Hr, HK|].
  eapply lands_bind; [by apply log_lands|]. intros _ g'' Hw'' [Hl _]. apply lands_ret; [done|]. by eapply fate_failed.
Qed.

(** *** The steps *)

Lemma init_config_lands g : g.(g_cfg) = config_init -> pools_whole g ->
  leaves (init_config phase_address.2 cfg_file) g (lands (fun ok g' => ok = true -> reads out_json out_cast g'.(g_cfg) /\ g' = set_config g g'.(g_cfg))).
Proof using doc_root_size.
  intros Ec Hw. unfold init_config, st_bind, st_get, st_lift, st_put, st_ret, leaves, lands. rewrite Ec.
  pose proof (init_outcome out_exists out_json out_cast phase_address.2 cfg_file (fun t d => doc_root_size t d)) as Ho.
  destruct (Config.init _ _ _ _ _ _) as [[ok c]|x|u]; cbn [fst snd]; (split; [done|]); [|done|by left].
  intros ->. split; [apply Ho|done].
Qed.

Lemma init_logger_lands g : pools_whole g ->
  leaves init_logger g (lands (fun ok g' => ok = true -> (is_Some (level_of g.(g_cfg).(log_level_)) /\ is_Some (rotation_of g.(g_cfg).(log_rotation_))) /\ exists l, g' = set_log g l)).
Proof using.
  intros Hw. unfold init_logger, st_bind, st_get, st_put, st_ret, leaves, lands. cbn [fst snd]. split; [done|].
  unfold logger_init. destruct (level_of _) as [level|]; [|done]. destruct (rotation_of _) as [rotation|]; [|done]. intros _. split; [by split; eexists|by eexists].
Qed.

Lemma init_shards_whole {P Hd} `{PoolKind P Hd} cfg k names ans : count_key <> format_key ->
  let '(r, d) := init_shards cfg k names ans new_shards in
  (forall u, r <> UB u) /\ (Forall pool_good (pools d) /\ Forall pool_idle (pools d)) /\ (r = Ok true -> filled cfg names (pools d)).
Proof using.
  intros Hk. pose proof (init_shards_spec cfg k names ans Hk) as Hs. unfold leaves in Hs. destruct (init_shards _ _ _ _ _) as [r d]. cbn [fst snd] in Hs.
  destruct Hs as (Hu & Hf & Hn). assert (Forall pool_good (pools d) /\ Forall pool_idle (pools d)) as Hg by
    (split; (eapply Forall_impl; [exact Hf|]); intros p Hp; by destruct (full_good k p Hp)).
  split; [done|]. split; [done|]. intros Hr. split; [by apply Hn|apply Hg].
Qed.

Lemma init_database_lands g : g.(g_db) = new_shards -> pools_whole g ->
  leaves init_database g (lands (fun ok g' => ok = true -> filled g.(g_cfg) [str "db_000"; str "db_001"; str "db_etc"] (pools g'.(g_db)) /\ g' = set_database g g'.(g_db))).
Proof using.
  intros Ed [_ Hw]. unfold init_database, database_init, leaves, lands. rewrite Ed.
  pose proof (init_shards_whole (H3 := database_kind) g.(g_cfg) (num_threads g) [str "db_000"; str "db_001"; str "db_etc"] db_connects ltac:(by intros E; vm_compute in E)) as Hs.
  destruct (init_shards _ _ _ _ _) as [r d]. destruct Hs as (Hu & Hg & Hn). cbn [fst snd]. split; [by split|]. destruct r as [ok| |u]; [|done|by destruct (Hu u)].
  intros ->. by split; [apply Hn|].
Qed.

Lemma init_redis_lands g : g.(g_rd) = new_shards -> pools_whole g ->
  leaves init_redis g (lands (fun ok g' => ok = true -> filled g.(g_cfg) [str "rd_rnk"] (pools g'.(g_rd)) /\ g' = set_redis g g'.(g_rd))).
Proof using.
  intros Ed [Hw _]. unfold init_redis, redis_init, leaves, lands. rewrite Ed.
  pose proof (init_shards_whole (H3 := redis_kind) g.(g_cfg) (num_threads g) [str "rd_rnk"] rd_connects ltac:(by intros E; vm_compute in E)) as Hs.
  destruct (init_shards _ _ _ _ _) as [r d]. destruct Hs as (Hu & Hg & Hn). cbn [fst snd]. split; [by split|]. destruct r as [ok| |u]; [|done|by destruct (Hu u)].
  intros ->. by split; [apply Hn|].
Qed.

Lemma use_lands g : pools_whole g -> leaves use_databases g (lands (fun _ g' => g'.(g_cfg) = g.(g_cfg))).
Proof using db_done rd_done.
  intros [[Hd Hdi] [Hr Hri]]. unfold use_databases, st_bind, st_get, st_lift, st_put, leaves, lands.
  destruct (use_pools_good db_uses _ 0 Hd) as (db & Edb & Hdb). destruct (use_pools_good rd_uses _ 0 Hr) as (rd & Erd & Hrd). rewrite Edb, Erd. cbn [fst snd].
  split; [|done]. split; (split; [done|]); [by eapply db_done|by eapply rd_done].
Qed.

Lemma run_lands g : started g.(g_cfg) -> pools_whole g -> leaves (run_server es) g (lands (fate es)).
Proof using db_done rd_done.
  intros Hst Hw. unfold run_server. apply lands_get. unfold num_threads. destruct (Nat.eqb_spec (Z.to_nat (num_threads_ (g_cfg g))) 0) as [E0|_].
  { apply lands_ret; [done|]. by eapply fate_no_threads. }
  destruct (server_run gzip site_routes (ssl_ (g_cfg g)) (new_server (g_cfg g)) es) as [[s|x|u]|] eqn:Es.
  - apply lands_put. eapply lands_bind; [by apply use_lands|]. intros _ g1 Hw1 _. pose proof (signals_run gzip site_routes _ _ es s Es) as Hsig.
    destruct (s_running s) eqn:Er; [apply lands_ret; [done|]; by eapply fate_runs|].
    destruct (existsb _ (s_clients s)) eqn:Ex.
    + apply lands_ret; [done|]. eapply fate_thread; [done|done|]. apply existsb_exists in Ex as (cl & Hin & Hcl). apply Exists_exists. exists cl. split; [by apply list_elem_of_In|done].
    + eapply lands_bind; [by apply log_lands|]. intros _ g2 Hw2 [Hlast _]. apply lands_ret; [done|].
      destruct Hsig as [(n & Hn & Hne)|(cl & Hin & Hcl)%Exists_exists]; [by eapply fate_stopped|].
      apply not_true_iff_false in Ex. destruct Ex. apply existsb_exists. exists cl. split; [by apply list_elem_of_In|done].
  - apply lands_ret; [done|]. by eapply fate_thread_threw.
  - split; [done|]. right. by exists (g_cfg g).
  - apply lands_ret; [done|]. by eapply fate_impossible.
Qed.

(** What the steps before the server have established. *)
Definition ready (g : globals) : Prop :=
  reads out_json out_cast g.(g_cfg) /\ (is_Some (level_of g.(g_cfg).(log_level_)) /\ is_Some (rotation_of g.(g_cfg).(log_rotation_))) /\
  filled g.(g_cfg) [str "db_000"; str "db_001"; str "db_etc"] (pools g.(g_db)) /\ filled g.(g_cfg) [str "rd_rnk"] (pools g.(g_rd)).

Lemma start_server_lands g : pools_whole g -> ready g -> leaves (start_server es) g (lands (fate es)).
Proof using db_done rd_done.
  intros Hw (H1' & H2' & H3' & H4'). unfold start_server. apply lands_get. destruct (listens (g_cfg g)) as [x|] eqn:El; [done|].
  eapply (lands_bind _ _ _ (fun _ g' => g' = g)); [done|]. intros _ g0 _ ->. eapply lands_bind; [by apply log_lands|]. intros _ g1 Hw1 [_ [l ->]].
  apply run_lands; [|done]. constructor; [done|done|by eexists|by eexists|done].
Qed.

Lemma new_whole : pools_whole new_globals.
Proof using. split; by split. Qed.

Lemma start_lands : leaves (start_up es) new_globals (lands (fate es)).
Proof using doc_root_size db_done rd_done.
  assert (forall i line text, init_steps !! i = Some (line, text) -> (line, text) ∈ init_steps) as Hin by (intros i line text E; by eapply list_elem_of_lookup_2).
  unfold start_up. eapply or_fail_lands; [by apply (Hin 0%nat)|by apply init_config_lands, new_whole|]. intros g1 Hw1 [Hc1 E1].
  eapply or_fail_lands; [by apply (Hin 1%nat)|by apply init_logger_lands|]. intros g2 Hw2 [Hl2 [l2 E2]].
  eapply or_fail_lands; [by apply (Hin 2%nat)|by apply init_database_lands; [rewrite E2, E1|]|]. intros g3 Hw3 [Hd3 E3].
  eapply or_fail_lands; [by apply (Hin 3%nat)|by apply init_redis_lands; [rewrite E3, E2, E1|]|]. intros g4 Hw4 [Hr4 E4].
  assert (g_cfg g4 = g_cfg g1 /\ g_db g4 = g_db g3) as [Ec Ed].
  { rewrite E4. cbn. split; [|done]. rewrite E3. cbn. by rewrite E2. }
  apply start_server_lands; [done|]. unfold ready. rewrite Ec, Ed. split; [done|]. split; [done|]. split; [rewrite E2 in Hd3; exact Hd3|].
  rewrite E3, E2 in Hr4. exact Hr4.
Qed.

Lemma destroy_whole g : pools_whole g -> exists g', destroy_globals g = Ok g' /\ g'.(g_log) = g.(g_log) /\ Forall pool_deleted (pools g'.(g_db)) /\ Forall pool_deleted (pools g'.(g_rd)).
Proof using.
  intros [[Hd Hdi] [Hr Hri]]. unfold destroy_globals, delete_redis, delete_database. destruct (delete_pools_all _ Hr Hri) as (rd & -> & Hrd). destruct (delete_pools_all _ Hd Hdi) as (db & -> & Hdb).
  cbn [mbind res_bind]. by eexists.
Qed.

Lemma fate_log e g g' : g'.(g_log) = g.(g_log) -> fate es e g -> fate es e g'.
Proof using.
  intros E Hf. assert (forall level texts, last_logged g level texts -> last_logged g' level texts) as Hl by (intros level texts (l & t & time & Hg); exists l, t, time; congruence).
  destruct Hf; [eapply fate_failed|eapply fate_threw|eapply fate_no_threads|eapply fate_stopped|eapply fate_runs|eapply fate_thread|eapply fate_thread_threw|
    eapply fate_library|eapply fate_impossible]; eauto.
Qed.

(** The end of [main]. *)
Lemma returned_code code g : pools_whole g -> fate es (ends code) g -> exists g', destroy_globals g = Ok g' /\
  fate es (ends code) g' /\ Forall pool_deleted (pools g'.(g_db)) /\ Forall pool_deleted (pools g'.(g_rd)).
Proof using.
  intros Hw Hf. destruct (destroy_whole g Hw) as (g' & E & El & Hdel). exists g'. split; [done|]. split; [by eapply fate_log|done].
Qed.

End Main.

(** A step that fails, and an exception, are on the disk at the end: in the log file
    or in one that it was rotated to, whatever else was logged in between. *)
Lemma failure_kept `{Outside} `{Permissions} start es now fs g texts :
  last_logged g fatal texts -> (forall e, e ∈ g.(g_log) -> e ∈ es) -> (forall p, may_read p = true) -> may_append log_file = true ->
  exists time fs' archives before after, logging start log_file es now fs = Ok fs' /\
    concat (map (contents fs') archives) ++ contents fs' log_file = before ++ (time ++ str "FATAL," ++ concat texts ++ [Byte.x0a]) ++ after.
Proof.
  intros (l & t & time & El) Hall Hread Happend. exists time. apply (fatal_kept start log_file es now fs t time texts); [done|done|intros r d; apply dated_log_file|].
  apply Hall. rewrite El. apply elem_of_app. right. by left.
Qed.

(** ** The shipped configuration *)

Definition db_section (n : bytes) : Config.ptree :=
  PTree [] [(str "host", leaf (str "127.0.0.1")); (str "userid", leaf (str "waspp_dbuser")); (str "passwd", leaf (str "waspp_passwd"));
    (str "database", leaf (str "develop_waspp_" ++ n)); (str "port", leaf (str "3306")); (str "charset", leaf (str "utf8"));
    (str "pool_size", leaf (str "4")); (str "wait_timeout_sec", leaf (str "28800"))].

(** The sections of [cfg/develop.json], and [err/en_us.json]. *)
Definition shipped_json (file : bytes) : option Config.ptree :=
  if file =s str "../cfg/develop.json" then Some (PTree [] (pt_children develop_json ++
    [(str "db_shard", PTree [] [(str "db_shard_count", leaf (str "2")); (str "db_shard_format", leaf (str "db_%03d"))]);
     (str "db_000", db_section (str "000")); (str "db_001", db_section (str "001")); (str "db_etc", db_section (str "etc"));
     (str "rd_shard", PTree [] [(str "rd_shard_count", leaf (str "2")); (str "rd_shard_format", leaf (str "rd_%03d"))]);
     (str "rd_rnk", PTree [] [(str "host", leaf (str "127.0.0.1")); (str "port", leaf (str "6379")); (str "pool_size", leaf (str "4")); (str "timeout_sec", leaf (str "0"))])]))
  else if file =s str "../err/en_us.json" then Some (PTree [] (map (fun e => (to_string e.1, leaf e.2)) en_us)) else None.

(** Everything answers. *)
Definition shipped : Outside := {|
  argv := []; mysql_library_init := 0; out_exists f := bool_decide (is_Some (shipped_json f)); out_json := shipped_json; out_cast := sample_cast;
  db_connects _ _ := mk_answer 10 true (inr (mysql_handle 9)); rd_connects _ _ := mk_answer 10 true (inr (mk_context 0 [] 7 0 None None));
  db_uses _ := []; rd_uses _ := []; listens _ := None;
  clock n := (mk_tm 124 0 15 10 0, str "10:00,"); what x := (match x with runtime_error w => w | _ => str "error" end); FILE := str "main.cpp" |}.

Lemma unused {P Hd} `{PoolKind P Hd} (l : list (pool_of P Hd)) : forall i, use_pools i (fun _ => []) l = Ok l.
Proof. induction l as [|[p c] l IH]; intros i; cbn [use_pools]; [done|]. cbn [run_pool mbind res_bind conns]. by rewrite IH. Qed.

Lemma shipped_root t d : out_json (Outside := shipped) (cfg_file (H := shipped)) = Some t ->
  element (read_sections (pt_children t) ∅) (str "server") (str "doc_root") = Some d -> size d < npos.
Proof.
  intros Et Ed. assert (match out_json (Outside := shipped) (cfg_file (H := shipped)) with
    | Some t => match element (read_sections (pt_children t) ∅) (str "server") (str "doc_root") with Some d => size d <? npos | None => true end
    | None => true end = true) as Hb by by vm_compute.
  rewrite Et, Ed in Hb. by apply Z.ltb_lt.
Qed.

Definition one_client : list (server_event answers) := [accepted false (str "10.0.0.1") 4001 request_init (response_init 0); signalled 15].

