(* ===== verification/Async.v ===== *)
(** * [src/win/hiredis/async.h], [src/win/hiredis/async.c]: asynchronous contexts.

    Commands register a callback; replies that arrive run the callbacks in order,
    messages of subscriptions the callbacks of their channel.  What the callbacks
    do is a parameter: given all the calls so far, the calls the last one makes
    back into the library.  The callbacks of a connection get a constant context,
    so they make none.  The socket is the [world] of HiredisContext; the calls to
    the event library and to the program are logged. *)
From S2P Require Import Prelude CxxString Sds SdsText HiredisFormat HiredisReply HiredisReader HiredisProtocol HiredisReaderRefine HiredisContext Dict.

Definition REDIS_DISCONNECTING : Z := 4.
Definition REDIS_FREEING : Z := 8.
Definition REDIS_IN_CALLBACK : Z := 16.
Definition REDIS_SUBSCRIBED : Z := 32.
Definition REDIS_MONITORING : Z := 64.

(** [redisCallback]: the function, [None] when [NULL], and its data. *)
Record redisCallback : Type := mk_callback { cb_fn : option nat; cb_privdata : nat }.

Definition no_callback : redisCallback := mk_callback None 0.

(** The hooks of the event library. *)
Inductive hook : Type := addRead | delRead | addWrite | delWrite | cleanup.

(** What the program sees: its commands accepted, its callbacks called. *)
Inductive logged : Type :=
  | l_command (cb : redisCallback)
  | l_reply (fn privdata : nat) (reply : option value)
  | l_connect (status : Z)
  | l_disconnect (status : Z).

(** [redisAsyncContext]; [a_freed] when its memory is given back. *)
Record redisAsyncContext : Type := mk_async {
  a_c : redisContext; a_err : Z; a_hooks : bool; a_onConnect : bool; a_onDisconnect : bool;
  a_replies : list redisCallback; a_invalid : list redisCallback;
  a_channels : dict bytes redisCallback; a_patterns : dict bytes redisCallback;
  a_ev : list hook; a_log : list logged; a_freed : bool }.

(** The calls that a callback makes. *)
Inductive action : Type := act_command (fn : option nat) (privdata : nat) (cmd : bytes) | act_disconnect | act_free.

Class Program : Type := program : list logged -> list action.

Section Async.
Context `{Allocator} `{Strerror} `{Program}.

Definition set_c (ac : redisAsyncContext) (c : redisContext) : redisAsyncContext :=
  let '(mk_async _ e h oc od r i ch pa ev lg f) := ac in mk_async c e h oc od r i ch pa ev lg f.
Definition set_replies (ac : redisAsyncContext) (l : list redisCallback) : redisAsyncContext :=
  let '(mk_async c e h oc od _ i ch pa ev lg f) := ac in mk_async c e h oc od l i ch pa ev lg f.
Definition set_invalid (ac : redisAsyncContext) (l : list redisCallback) : redisAsyncContext :=
  let '(mk_async c e h oc od r _ ch pa ev lg f) := ac in mk_async c e h oc od r l ch pa ev lg f.
Definition set_sub (ac : redisAsyncContext) (pvariant : bool) (d : dict bytes redisCallback) : redisAsyncContext :=
  let '(mk_async c e h oc od r i ch pa ev lg f) := ac in
  if pvariant then mk_async c e h oc od r i ch d ev lg f else mk_async c e h oc od r i d pa ev lg f.
Definition get_sub (ac : redisAsyncContext) (pvariant : bool) : dict bytes redisCallback := if pvariant then ac.(a_patterns) else ac.(a_channels).
Definition log (ac : redisAsyncContext) (l : logged) : redisAsyncContext :=
  let '(mk_async c e h oc od r i ch pa ev lg f) := ac in mk_async c e h oc od r i ch pa ev (lg ++ [l]) f.
Definition el (ac : redisAsyncContext) (k : hook) : redisAsyncContext :=
  let '(mk_async c e h oc od r i ch pa ev lg f) := ac in mk_async c e h oc od r i ch pa (if h then ev ++ [k] else ev) lg f.

(** [c->flags] *)
Definition has_flag (ac : redisAsyncContext) (flag : Z) : bool := negb (Z.land ac.(a_c).(c_flags) flag =? 0).
Definition with_flags (c : redisContext) (z : Z) : redisContext := mk_context c.(c_err) c.(c_errstr) c.(c_fd) z c.(c_obuf) c.(c_reader).
Definition set_flag (ac : redisAsyncContext) (flag : Z) : redisAsyncContext := set_c ac (with_flags ac.(a_c) (Z.lor ac.(a_c).(c_flags) flag)).
Definition clear_flag (ac : redisAsyncContext) (flag : Z) : redisAsyncContext := set_c ac (with_flags ac.(a_c) (Z.ldiff ac.(a_c).(c_flags) flag)).

(** ** Beginning *)

Definition async_size : Z := 336.

(** [redisAsyncInitialize]; [redisAsyncConnect] frees the context when it fails,
    and copies the error when it does not. *)
Definition redisAsyncInitialize (c : redisContext) : res (option redisAsyncContext) :=
  if negb (alloc_ok async_size) then Ok None
  else
    let* channels := dictCreate in
    let* patterns := dictCreate in
    Ok (Some (mk_async (with_flags c (Z.ldiff c.(c_flags) REDIS_CONNECTED)) 0 false false false [] [] channels patterns [] [] false)).

(** [__redisAsyncCopyError] *)
Definition redisAsyncCopyError (ac : redisAsyncContext) : redisAsyncContext :=
  let '(mk_async c _ h oc od r i ch pa ev lg f) := ac in mk_async c c.(c_err) h oc od r i ch pa ev lg f.

(** The rest of [redisAsyncConnect], given what [redisConnectNonBlock] returned. *)
Definition async_of_context (c : option redisContext) : io (option redisAsyncContext) :=
  match c with
  | None => done None
  | Some c =>
      io* o := lift (redisAsyncInitialize c) in
      match o with
      | None => io* _ := redisFree c in done None
      | Some ac => done (Some (redisAsyncCopyError ac))
      end
  end.

(** The event library is attached. *)
Definition attach (ac : redisAsyncContext) : redisAsyncContext :=
  let '(mk_async c e _ oc od r i ch pa ev lg f) := ac in mk_async c e true oc od r i ch pa ev lg f.

Definition redisAsyncSetConnectCallback (ac : redisAsyncContext) : Z * redisAsyncContext :=
  if ac.(a_onConnect) then (REDIS_ERR, ac)
  else
    let '(mk_async c e h _ od r i ch pa ev lg f) := ac in
    (REDIS_OK, el (mk_async c e h true od r i ch pa ev lg f) addWrite).

Definition redisAsyncSetDisconnectCallback (ac : redisAsyncContext) : Z * redisAsyncContext :=
  if ac.(a_onDisconnect) then (REDIS_ERR, ac)
  else
    let '(mk_async c e h oc _ r i ch pa ev lg f) := ac in (REDIS_OK, mk_async c e h oc true r i ch pa ev lg f).

(** ** Lists of callbacks *)

Definition callback_node : Z := 24.

(** [__redisPushCallback] *)
Definition redisPushCallback (list : list redisCallback) (source : redisCallback) : Z * Datatypes.list redisCallback :=
  if negb (alloc_ok callback_node) then (REDIS_ERR_OOM, list) else (REDIS_OK, list ++ [source]).

(** [__redisShiftCallback] *)
Definition redisShiftCallback (list : list redisCallback) : option redisCallback * Datatypes.list redisCallback :=
  match list with [] => (None, []) | cb :: list => (Some cb, list) end.

(** ** Commands *)

(** The byte at [p] of the C string [m]; its terminator is at its end. *)
Definition char_at (m : bytes) (p : Z) : res byte :=
  if (0 <=? p) && (p <=? size m) then Ok (nth (Z.to_nat p) m Byte.x00) else UB index_out_of_bounds.

(** [strchr] from [p]; [s] is what is left of the memory. *)
Fixpoint strchr_in (s : bytes) (c : byte) (p : Z) : option Z :=
  match s with
  | [] => None
  | x :: s => if x =c c then Some p else if x =c Byte.x00 then None else strchr_in s c (p + 1)
  end.
Definition strchr (m : bytes) (p : Z) (c : byte) : res (option Z) :=
  let* _ := char_at m p in Ok (strchr_in (drop (Z.to_nat p) m) c p).

(** [strtol(s, NULL, 10)] *)
Definition strtol10 (s : bytes) : Z :=
  let '(neg, s) := read_sign (skip_space s) in
  let m := read_digits 10 s 0 in if neg : bool then Z.max LONG_MIN (- m) else Z.min LONG_MAX m.

(** [nextArgument]: the argument, its length as an [int], and what comes after it;
    the pointer can be anywhere. *)
Definition nextArgument (m : bytes) (start : Z) : res (option (Z * Z * Z)) :=
  let* c := char_at m start in
  let* o := (if negb (c =c "$"%byte) then strchr m start "$"%byte else Ok (Some start)) in
  match o with
  | None => Ok None
  | Some p =>
      let len := wrap32 (strtol10 (drop (Z.to_nat (p + 1)) m)) in
      let* o := strchr m p CR in
      match o with
      | None => UB assertion_failed
      | Some p => Ok (Some (p + 2, len, p + 2 + len + 2))
      end
  end.

(** [strncasecmp(p, s, strlen(s)) == 0] *)
Fixpoint starts_nocase (m : bytes) (p : Z) (s : bytes) : res bool :=
  match s with
  | [] => Ok true
  | x :: s => let* c := char_at m p in if tolower c =c tolower x then starts_nocase m (p + 1) s else Ok false
  end.

(** [while ((p = nextArgument(p,&astr,&alen)) != NULL)]: the channels are added. *)
Fixpoint subscribe_loop (fuel : nat) (m : bytes) (p : Z) (cb : redisCallback) (d : dict bytes redisCallback) : res (dict bytes redisCallback) :=
  match fuel with
  | O => UB no_fuel
  | S fuel =>
      let* o := nextArgument m p in
      match o with
      | None => Ok d
      | Some (astr, alen, p) =>
          let* name := mem_read (map Some (m ++ [Byte.x00])) astr (wrap64 alen) in
          let* o := sdsnewlen (Some name) (size name) in
          let* _ := live o in
          let* (_, d) := dictReplace d name cb in
          subscribe_loop fuel m p cb d
      end
  end.

(** The flags and callbacks that the command changes, or [None] when it is refused. *)
Definition register (ac : redisAsyncContext) (cb : redisCallback) (cmd : bytes) : res (option redisAsyncContext) :=
  let* o := nextArgument cmd 0 in
  match o with
  | None => UB assertion_failed
  | Some (cstr, clen, p) =>
      let* next := char_at cmd p in
      let* c0 := char_at cmd cstr in
      let hasnext := (next =c "$"%byte) in
      let pvariant := (tolower c0 =c "p"%byte) in
      let cstr := if pvariant then cstr + 1 else cstr in
      let* sub := (if hasnext then starts_nocase cmd cstr (str "subscribe" ++ crlf) else Ok false) in
      if sub : bool then
        let ac := set_flag ac REDIS_SUBSCRIBED in
        let* d := subscribe_loop (S (length cmd)) cmd p cb (get_sub ac pvariant) in
        Ok (Some (set_sub ac pvariant d))
      else
        let* unsub := starts_nocase cmd cstr (str "unsubscribe" ++ crlf) in
        if unsub : bool then Ok (if has_flag ac REDIS_SUBSCRIBED then Some ac else None)
        else
          let* mon := starts_nocase cmd cstr (str "monitor" ++ crlf) in
          if mon : bool then
            let ac := set_flag ac REDIS_MONITORING in Ok (Some (set_replies ac (redisPushCallback ac.(a_replies) cb).2))
          else if has_flag ac REDIS_SUBSCRIBED then Ok (Some (set_invalid ac (redisPushCallback ac.(a_invalid) cb).2))
          else Ok (Some (set_replies ac (redisPushCallback ac.(a_replies) cb).2))
  end.

(** [__redisAsyncCommand] *)
Definition redisAsyncCommand_ (ac : redisAsyncContext) (fn : option nat) (privdata : nat) (cmd : bytes) : res (Z * redisAsyncContext) :=
  if has_flag ac (Z.lor REDIS_DISCONNECTING REDIS_FREEING) then Ok (REDIS_ERR, ac)
  else
    let cb := mk_callback fn privdata in
    let* o := register ac cb cmd in
    match o with
    | None => Ok (REDIS_ERR, ac)
    | Some ac =>
        let* (_, c) := redisAppend ac.(a_c) cmd in
        Ok (REDIS_OK, log (el (set_c ac c) addWrite) (l_command cb))
    end.

(** [redisAsyncCommandArgv], [redisvAsyncCommand]; [cmd] is not set when the
    formatters fail, and only the second one looks. *)
Definition redisAsyncCommandArgv (ac : redisAsyncContext) (fn : option nat) (privdata : nat) (argv : list bytes) (argvlen : option (list Z)) : res (Z * redisAsyncContext) :=
  let* (len, target) := redisFormatSdsCommandArgv argv argvlen in
  match target with
  | None => UB uninitialised_read
  | Some s => let* cmd := mem_read s.(sds_buf) 0 (wrap64 len) in redisAsyncCommand_ ac fn privdata cmd
  end.

Definition redisvAsyncCommand `{Printf} (ac : redisAsyncContext) (fn : option nat) (privdata : nat) (format : bytes) (ap : list va) : res (Z * redisAsyncContext) :=
  let* (len, target) := redisvFormatCommand format ap in
  if len <? 0 then Ok (REDIS_ERR, ac)
  else let* m := live target in let* cmd := mem_read m 0 (wrap64 len) in redisAsyncCommand_ ac fn privdata cmd.

(** The variadic function, and the one for a command that is formatted already. *)
Definition redisAsyncCommand `{Printf} (ac : redisAsyncContext) (fn : option nat) (privdata : nat) (format : bytes) (ap : list va) : res (Z * redisAsyncContext) :=
  let* (status, ac) := redisvAsyncCommand ac fn privdata format ap in Ok (status, ac).

Definition redisAsyncFormattedCommand (ac : redisAsyncContext) (fn : option nat) (privdata : nat) (cmd : bytes) (len : Z) : res (Z * redisAsyncContext) :=
  let* cmd := mem_read (map Some cmd) 0 (wrap64 len) in redisAsyncCommand_ ac fn privdata cmd.

(** ** Callbacks *)

(** [api] is what the calls of a callback do. *)
Section Callbacks.
Variable api : action -> redisAsyncContext -> io redisAsyncContext.

Fixpoint run_actions (l : list action) (ac : redisAsyncContext) : io redisAsyncContext :=
  match l with [] => done ac | a :: l => io* ac := api a ac in run_actions l ac end.

(** [__redisRunCallback] *)
Definition redisRunCallback (ac : redisAsyncContext) (cb : redisCallback) (reply : option value) : io redisAsyncContext :=
  match cb.(cb_fn) with
  | None => done ac
  | Some fn =>
      let ac := log (set_flag ac REDIS_IN_CALLBACK) (l_reply fn cb.(cb_privdata) reply) in
      io* ac := run_actions (program ac.(a_log)) ac in
      done (clear_flag ac REDIS_IN_CALLBACK)
  end.

(** [while (__redisShiftCallback(&ac->replies,&cb) == REDIS_OK) __redisRunCallback(ac,&cb,NULL);]
    and the same for the callbacks of invalid commands. *)
Fixpoint flush_replies (fuel : nat) (ac : redisAsyncContext) : io redisAsyncContext :=
  match fuel with
  | O => lift (UB no_fuel)
  | S fuel =>
      match redisShiftCallback ac.(a_replies) with
      | (None, _) => done ac
      | (Some cb, l) => io* ac := redisRunCallback (set_replies ac l) cb None in flush_replies fuel ac
      end
  end.

Fixpoint flush_invalid (fuel : nat) (ac : redisAsyncContext) : io redisAsyncContext :=
  match fuel with
  | O => lift (UB no_fuel)
  | S fuel =>
      match redisShiftCallback ac.(a_invalid) with
      | (None, _) => done ac
      | (Some cb, l) => io* ac := redisRunCallback (set_invalid ac l) cb None in flush_invalid fuel ac
      end
  end.

(** [while ((de = dictNext(it)) != NULL) __redisRunCallback(ac,dictGetEntryVal(de),NULL);] *)
Fixpoint flush_sub (fuel : nat) (pvariant : bool) (it : dictIterator bytes redisCallback) (ac : redisAsyncContext) : io redisAsyncContext :=
  match fuel with
  | O => lift (UB no_fuel)
  | S fuel =>
      io* (o, it) := lift (dictNext (get_sub ac pvariant) it) in
      match o with
      | None => done ac
      | Some (_, cb) => io* ac := redisRunCallback ac cb None in flush_sub fuel pvariant it ac
      end
  end.

(** The callbacks of a dictionary run, and the dictionary is released. *)
Definition release_sub (pvariant : bool) (ac : redisAsyncContext) : io redisAsyncContext :=
  io* it := lift dictGetIterator in
  io* ac := flush_sub (S (Z.to_nat (get_sub ac pvariant).(used))) pvariant it ac in
  io* d := lift (dictClear (get_sub ac pvariant)) in
  done (set_sub ac pvariant d).

(** [__redisAsyncFree] *)
Definition redisAsyncFree_ (ac : redisAsyncContext) : io redisAsyncContext :=
  if ac.(a_freed) then lift (UB dangling_pointer)
  else
    io* ac := flush_replies (S (length ac.(a_replies))) ac in
    io* ac := flush_invalid (S (length ac.(a_invalid))) ac in
    io* ac := release_sub false ac in
    io* ac := release_sub true ac in
    let ac := el ac cleanup in
    let ac := (if ac.(a_onDisconnect) && has_flag ac REDIS_CONNECTED then
        log ac (l_disconnect (if has_flag ac REDIS_FREEING then REDIS_OK else if ac.(a_err) =? 0 then REDIS_OK else REDIS_ERR))
      else ac) in
    io* _ := redisFree ac.(a_c) in
    let '(mk_async c e h oc od r i ch pa ev lg _) := ac in done (mk_async c e h oc od r i ch pa ev lg true).

(** [redisAsyncFree] *)
Definition redisAsyncFree (ac : redisAsyncContext) : io redisAsyncContext :=
  if ac.(a_freed) then lift (UB dangling_pointer)
  else
    let ac := set_flag ac REDIS_FREEING in
    if negb (has_flag ac REDIS_IN_CALLBACK) then redisAsyncFree_ ac else done ac.

(** [__redisAsyncDisconnect] *)
Definition redisAsyncDisconnect_ (ac : redisAsyncContext) : io redisAsyncContext :=
  let ac := redisAsyncCopyError ac in
  if ac.(a_err) =? 0 then
    match redisShiftCallback ac.(a_replies) with
    | (None, l) => redisAsyncFree_ (set_replies ac l)
    | (Some _, _) => lift (UB assertion_failed)
    end
  else redisAsyncFree_ (set_flag ac REDIS_DISCONNECTING).

(** [redisAsyncDisconnect] *)
Definition redisAsyncDisconnect (ac : redisAsyncContext) : io redisAsyncContext :=
  if ac.(a_freed) then lift (UB dangling_pointer)
  else
    let ac := set_flag ac REDIS_DISCONNECTING in
    if negb (has_flag ac REDIS_IN_CALLBACK) && match ac.(a_replies) with [] => true | _ => false end
    then redisAsyncDisconnect_ ac else done ac.

(** ** Replies *)

(** [reply->element[i]]; [NULL] is dereferenced by what follows. *)
Definition element (vs : list (option value)) (i : nat) : res value :=
  match vs !! i with Some (Some v) => Ok v | Some None => UB null_pointer | None => UB index_out_of_bounds end.

Definition string_of (v : value) : res bytes :=
  match v with V_string ty s => if ty =? REPLY_STRING then Ok s else UB assertion_failed | _ => UB assertion_failed end.

(** [strcasecmp(s, t) == 0] *)
Definition equals_nocase (s t : bytes) : bool := (map tolower (c_str s) =s map tolower t).

(** [__redisGetSubscribeCallback]: the callback, if there is one to copy. *)
Definition redisGetSubscribeCallback (ac : redisAsyncContext) (reply : value) (cb : redisCallback) : res (redisCallback * redisAsyncContext) :=
  match reply with
  | V_array n vs =>
      if n <? 2 then UB assertion_failed
      else
        let* stype := (let* v := element vs 0 in string_of v) in
        let pvariant := (tolower (nth 0 (c_str stype) Byte.x00) =c "p"%byte) in
        let* name := (let* v := element vs 1 in string_of v) in
        let* o := sdsnewlen (Some name) (size name) in
        let* _ := live o in
        let* de := dictFind (get_sub ac pvariant) name in
        match de with
        | None => Ok (cb, ac)
        | Some (_, cb) =>
            if equals_nocase (if pvariant then drop 1 (c_str stype) else c_str stype) (str "unsubscribe") then
              let* (_, d) := dictDelete (get_sub ac pvariant) name in
              let ac := set_sub ac pvariant d in
              let* v := element vs 2 in
              match v with
              | V_integer z => Ok (cb, if z =? 0 then clear_flag ac REDIS_SUBSCRIBED else ac)
              | _ => UB assertion_failed
              end
            else Ok (cb, ac)
        end
  | _ => match redisShiftCallback ac.(a_invalid) with (None, _) => Ok (cb, ac) | (Some cb, l) => Ok (cb, set_invalid ac l) end
  end.

(** [freeObject(reply)] *)
Definition free_reply (ac : redisAsyncContext) (p : nat) : res redisAsyncContext :=
  let* r := live ac.(a_c).(c_reader) in
  let* h := freeReplyObject (S (length r.(rd_heap))) r.(rd_heap) p in
  Ok (set_c ac (set_reader ac.(a_c) (set_heap r h))).

Definition is_error (v : value) : option bytes :=
  match v with V_string ty s => if ty =? REPLY_ERROR then Some s else None | _ => None end.

(** [redisProcessCallbacks]; [cb] is the callback of the turn before. *)
Fixpoint process_callbacks (fuel : nat) (cb : redisCallback) (ac : redisAsyncContext) : io redisAsyncContext :=
  match fuel with
  | O => lift (UB no_fuel)
  | S fuel =>
      io* (status, o, c) := redisGetReply ac.(a_c) in
      let ac := set_c ac c in
      if negb (status =? REDIS_OK) then redisAsyncDisconnect_ ac
      else
        match o with
        | None =>
            io* obuf := lift (live ac.(a_c).(c_obuf)) in
            if has_flag ac REDIS_DISCONNECTING && (sdslen obuf =? 0) && match ac.(a_replies) with [] => true | _ => false end
            then redisAsyncDisconnect_ ac
            else done (if has_flag ac REDIS_MONITORING then set_replies ac (redisPushCallback ac.(a_replies) cb).2 else ac)
        | Some (obj_const _) => lift (UB dangling_pointer)
        | Some (obj_reply p) =>
            io* r := lift (live ac.(a_c).(c_reader)) in
            io* reply := lift (live (read_reply (S (length r.(rd_heap))) r.(rd_heap) p)) in
            (* the callback and the context, or the context of a spontaneous error *)
            io* next := lift (
              match redisShiftCallback ac.(a_replies) with
              | (Some cb, l) => Ok (Some cb, set_replies ac l)
              | (None, _) =>
                  match is_error reply with
                  | Some text =>
                      let c := ac.(a_c) in
                      let* ac := free_reply (set_c ac (mk_context REDIS_ERR_OTHER (take 127 (c_str text)) c.(c_fd) c.(c_flags) c.(c_obuf) c.(c_reader))) p in
                      Ok (None, ac)
                  | None =>
                      if negb (has_flag ac REDIS_SUBSCRIBED || has_flag ac REDIS_MONITORING) then UB assertion_failed
                      else if has_flag ac REDIS_SUBSCRIBED then
                        let* (cb, ac) := redisGetSubscribeCallback ac reply cb in Ok (Some cb, ac)
                      else Ok (Some cb, ac)
                  end
              end) in
            match next with
            | (None, ac) => redisAsyncDisconnect_ ac
            | (Some cb, ac) =>
                match cb.(cb_fn) with
                | Some _ =>
                    io* ac := redisRunCallback ac cb (Some reply) in
                    io* ac := lift (free_reply ac p) in
                    if has_flag ac REDIS_FREEING then redisAsyncFree_ ac else process_callbacks fuel cb ac
                | None => io* ac := lift (free_reply ac p) in process_callbacks fuel cb ac
                end
            end
        end
  end.

(** Every turn takes a reply of at least a byte from the reader. *)
Definition redisProcessCallbacks (ac : redisAsyncContext) : io redisAsyncContext := fun w =>
  process_callbacks (S (S (Z.to_nat match ac.(a_c).(c_reader) with Some r => r.(rd_len) | None => 0 end))) no_callback ac w.

(** ** Events *)

(** What [SO_ERROR] says of the socket. *)
Inductive sock_status : Type := sock_ok | sock_error (e : errno).

(** [EINPROGRESS] *)
Definition in_progress (e : errno) : bool := match e with errno_other n => n =? 115 | _ => false end.

(** [redisCheckSocketError] and [__redisAsyncHandleConnect]; the connection is
    given up, or not. *)
Definition redisAsyncHandleConnect (st : sock_status) (ac : redisAsyncContext) : io (bool * redisAsyncContext) :=
  match st with
  | sock_error e =>
      io* c := lift (redisSetError ac.(a_c) REDIS_ERR_IO (Some (take 127 (strerror e))) e) in
      let ac := set_c ac c in
      if in_progress e then done (true, ac)
      else
        let ac := if ac.(a_onConnect) then log ac (l_connect REDIS_ERR) else ac in
        io* ac := redisAsyncDisconnect_ ac in done (false, ac)
  | sock_ok =>
      let ac := set_flag ac REDIS_CONNECTED in
      done (true, if ac.(a_onConnect) then log ac (l_connect REDIS_OK) else ac)
  end.

(** The beginning of both handlers: whether to go on. *)
Definition check_connected (st : sock_status) (ac : redisAsyncContext) : io (bool * redisAsyncContext) :=
  if has_flag ac REDIS_CONNECTED then done (true, ac)
  else
    io* (go, ac) := redisAsyncHandleConnect st ac in
    done (go && has_flag ac REDIS_CONNECTED, ac).

Definition redisAsyncHandleRead (st : sock_status) (ac : redisAsyncContext) : io redisAsyncContext :=
  io* (go, ac) := check_connected st ac in
  if negb go then done ac
  else
    io* (k, c) := redisBufferRead ac.(a_c) in
    let ac := set_c ac c in
    if k =? REDIS_ERR then redisAsyncDisconnect_ ac else redisProcessCallbacks (el ac addRead).

Definition redisAsyncHandleWrite (st : sock_status) (ac : redisAsyncContext) : io redisAsyncContext :=
  io* (go, ac) := check_connected st ac in
  if negb go then done ac
  else
    io* (k, wdone, c) := redisBufferWrite ac.(a_c) in
    let ac := set_c ac c in
    if k =? REDIS_ERR then redisAsyncDisconnect_ ac
    else done (el (el ac (if wdone : bool then delWrite else addWrite)) addRead).
End Callbacks.

(** What a call from the program does.  Callbacks run with [REDIS_IN_CALLBACK], so
    a call from a callback runs none; [fuel] is the depth. *)
Fixpoint api (fuel : nat) (a : action) (ac : redisAsyncContext) : io redisAsyncContext :=
  match fuel with
  | O => lift (UB no_fuel)
  | S fuel =>
      match a with
      | act_command fn privdata cmd =>
          if ac.(a_freed) then lift (UB dangling_pointer) else lift (let* (_, ac) := redisAsyncCommand_ ac fn privdata cmd in Ok ac)
      | act_disconnect => redisAsyncDisconnect (api fuel) ac
      | act_free => redisAsyncFree (api fuel) ac
      end
  end.

Definition depth : nat := 2.

(** The program's own calls and the events of the socket, until the context is
    freed. *)
Inductive async_event : Type := e_call (a : action) | e_readable (st : sock_status) | e_writable (st : sock_status).

Definition async_step (e : async_event) (ac : redisAsyncContext) : io redisAsyncContext :=
  match e with
  | e_call a => api depth a ac
  | e_readable st => redisAsyncHandleRead (api depth) st ac
  | e_writable st => redisAsyncHandleWrite (api depth) st ac
  end.

Fixpoint async_run (es : list async_event) (ac : redisAsyncContext) : io redisAsyncContext :=
  match es with
  | [] => done ac
  | e :: es => if ac.(a_freed) then done ac else io* ac := async_step e ac in async_run es ac
  end.
End Async.
