(* ===== verification/Adapters.v ===== *)
(** * [src/win/hiredis/adapters]: asynchronous contexts on event libraries.

    An adapter keeps a record behind the hooks of a context ([ev] of [async.h]) and
    turns the hooks into calls of its event library.  The libraries are outside:
    [EventLoop] is what the descriptors of a loop are watched for, [EventLoopLaws]
    that each call means what its documentation says ([meaning]).  Every adapter is
    an instance of [Adapter], and [AdapterLaws] what it owes to the context.  Events
    of libevent and the write callback of macOS last for one event: [meaning] does not
    end them, and the handlers of a context ask again for what they still need. *)
From S2P Require Import Prelude Sds HiredisReply HiredisReader HiredisContext Async.

(** ** Event libraries *)

Inductive kind : Type := k_read | k_write.
#[export] Instance kind_eq_dec : EqDecision kind.
Proof. solve_decision. Defined.

Inductive library_call : Type :=
  | aeCreateFileEvent (fd : Z) (k : kind) | aeDeleteFileEvent (fd : Z) (k : kind)
  | ev_io_start (fd : Z) (k : kind) | ev_io_stop (fd : Z) (k : kind)
  | event_add (fd : Z) (k : kind) | event_del (fd : Z) (k : kind)
  | uv_poll_start (fd : Z) (events : Z) | uv_poll_stop (fd : Z) | uv_close (fd : Z)
  | iv_fd_register (fd : Z) (handler_in handler_out : bool) | iv_fd_set_handler (fd : Z) (k : kind) (handler : bool) | iv_fd_unregister (fd : Z)
  | g_source_add_poll (fd : Z) (events : Z) | g_main_context_wakeup (fd : Z) (events : Z) | g_source_remove_poll (fd : Z)
  | CFRunLoopAddSource (fd : Z) | CFRunLoopSourceInvalidate (fd : Z) | CFSocketEnableCallBacks (fd : Z) (k : kind) | CFSocketDisableCallBacks (fd : Z) (k : kind) | CFSocketInvalidate (fd : Z)
  | new_QSocketNotifier (fd : Z) (k : kind) | delete_QSocketNotifier (fd : Z) (k : kind).

Definition UV_READABLE : Z := 1.
Definition UV_WRITABLE : Z := 2.
Definition G_IO_IN : Z := 1.
Definition G_IO_OUT : Z := 4.

Definition has (events flag : Z) : bool := negb (Z.land events flag =? 0).

Definition call_fd (c : library_call) : Z :=
  match c with
  | aeCreateFileEvent fd _ | aeDeleteFileEvent fd _ | ev_io_start fd _ | ev_io_stop fd _ | event_add fd _ | event_del fd _ => fd
  | uv_poll_start fd _ | uv_poll_stop fd | uv_close fd | iv_fd_register fd _ _ | iv_fd_set_handler fd _ _ | iv_fd_unregister fd => fd
  | g_source_add_poll fd _ | g_main_context_wakeup fd _ | g_source_remove_poll fd | CFRunLoopAddSource fd | CFRunLoopSourceInvalidate fd | CFSocketEnableCallBacks fd _ | CFSocketDisableCallBacks fd _ | CFSocketInvalidate fd => fd
  | new_QSocketNotifier fd _ | delete_QSocketNotifier fd _ => fd
  end.

Definition by_kind (k : kind) (r w : bool) : bool := match k with k_read => r | k_write => w end.
Definition only (k' k : kind) (b : bool) : option bool := if decide (k' = k) then Some b else None.

(** Whether a call makes the loop watch its descriptor, or stop watching; [None] for
    a kind that it does not concern.  The main context of glib polls the events that
    it finds in the source when it is woken. *)
Definition meaning (c : library_call) (k : kind) : option bool :=
  match c with
  | aeCreateFileEvent _ k' | ev_io_start _ k' | event_add _ k' | CFSocketEnableCallBacks _ k' | new_QSocketNotifier _ k' => only k' k true
  | aeDeleteFileEvent _ k' | ev_io_stop _ k' | event_del _ k' | CFSocketDisableCallBacks _ k' | delete_QSocketNotifier _ k' => only k' k false
  | uv_poll_start _ ev => Some (by_kind k (has ev UV_READABLE) (has ev UV_WRITABLE))
  | g_source_add_poll _ ev | g_main_context_wakeup _ ev => Some (by_kind k (has ev G_IO_IN) (has ev G_IO_OUT))
  | iv_fd_register _ r w => Some (by_kind k r w)
  | iv_fd_set_handler _ k' b => only k' k b
  | CFRunLoopAddSource _ => Some true
  | uv_poll_stop _ | uv_close _ | iv_fd_unregister _ | g_source_remove_poll _ | CFRunLoopSourceInvalidate _ | CFSocketInvalidate _ => Some false
  end.

Class EventLoop : Type := { loop : Type; do_call : library_call -> loop -> loop; watches : loop -> Z -> kind -> bool }.

Class EventLoopLaws `{EventLoop} : Prop :=
  calls_mean : forall c l fd k, watches (do_call c l) fd k = if decide (fd = call_fd c) then default (watches l fd k) (meaning c k) else watches l fd k.

(** ** Adapters *)

(** [ev] of a context: its data and whether the hooks are there. *)
Inductive ev_data (E : Type) : Type := no_data | has_data (e : E) | freed_data.
Arguments no_data {E}.
Arguments has_data {E} e.
Arguments freed_data {E}.
Record ev (E : Type) : Type := mk_ev { ev_data_ : ev_data E; ev_hooks : bool }.
Arguments mk_ev {E}.
Arguments ev_data_ {E}.
Arguments ev_hooks {E}.

(** The hooks change the record and make calls; [cleanup_] also says whether it
    frees the record, which otherwise belongs to the library or the program.
    [attach_] is given the descriptor, and has the memory and handles it asks for. *)
Class Adapter (E : Type) : Type := {
  attach_ : Z -> ev E -> Z * ev E * list library_call;
  addRead_ : E -> E * list library_call; delRead_ : E -> E * list library_call;
  addWrite_ : E -> E * list library_call; delWrite_ : E -> E * list library_call;
  cleanup_ : E -> bool * E * list library_call;
}.

Definition hook_ `{Adapter E} (h : hook) (e : E) : ev_data E * list library_call :=
  match h with
  | addRead => let '(e, c) := addRead_ e in (has_data e, c) | delRead => let '(e, c) := delRead_ e in (has_data e, c)
  | addWrite => let '(e, c) := addWrite_ e in (has_data e, c) | delWrite => let '(e, c) := delWrite_ e in (has_data e, c)
  | cleanup => let '(freed, e, c) := cleanup_ e in (if freed : bool then freed_data else has_data e, c)
  end.

(** "Nothing should be attached when something is already attached" *)
Definition attach_once {E} (e : E) (calls : list library_call) (v : ev E) : Z * ev E * list library_call :=
  match v.(ev_data_) with no_data => (REDIS_OK, mk_ev (has_data e) true, calls) | _ => (REDIS_ERR, v, []) end.

(** *** [ae.h] *)

Record redisAeEvents : Type := mk_ae { ae_fd : Z; ae_reading : bool; ae_writing : bool }.

Definition redisAeAddRead (e : redisAeEvents) : redisAeEvents * list library_call :=
  if negb e.(ae_reading) then (mk_ae e.(ae_fd) true e.(ae_writing), [aeCreateFileEvent e.(ae_fd) k_read]) else (e, []).
Definition redisAeDelRead (e : redisAeEvents) : redisAeEvents * list library_call :=
  if e.(ae_reading) then (mk_ae e.(ae_fd) false e.(ae_writing), [aeDeleteFileEvent e.(ae_fd) k_read]) else (e, []).
Definition redisAeAddWrite (e : redisAeEvents) : redisAeEvents * list library_call :=
  if negb e.(ae_writing) then (mk_ae e.(ae_fd) e.(ae_reading) true, [aeCreateFileEvent e.(ae_fd) k_write]) else (e, []).
Definition redisAeDelWrite (e : redisAeEvents) : redisAeEvents * list library_call :=
  if e.(ae_writing) then (mk_ae e.(ae_fd) e.(ae_reading) false, [aeDeleteFileEvent e.(ae_fd) k_write]) else (e, []).
Definition redisAeCleanup (e : redisAeEvents) : bool * redisAeEvents * list library_call :=
  let '(e, c1) := redisAeDelRead e in let '(e, c2) := redisAeDelWrite e in (true, e, c1 ++ c2).
Definition redisAeAttach (fd : Z) : ev redisAeEvents -> Z * ev redisAeEvents * list library_call := attach_once (mk_ae fd false false) [].

(** *** [libev.h] *)

Record redisLibevEvents : Type := mk_libev { libev_fd : Z; libev_reading : bool; libev_writing : bool }.

Definition redisLibevAddRead (e : redisLibevEvents) : redisLibevEvents * list library_call :=
  if negb e.(libev_reading) then (mk_libev e.(libev_fd) true e.(libev_writing), [ev_io_start e.(libev_fd) k_read]) else (e, []).
Definition redisLibevDelRead (e : redisLibevEvents) : redisLibevEvents * list library_call :=
  if e.(libev_reading) then (mk_libev e.(libev_fd) false e.(libev_writing), [ev_io_stop e.(libev_fd) k_read]) else (e, []).
Definition redisLibevAddWrite (e : redisLibevEvents) : redisLibevEvents * list library_call :=
  if negb e.(libev_writing) then (mk_libev e.(libev_fd) e.(libev_reading) true, [ev_io_start e.(libev_fd) k_write]) else (e, []).
Definition redisLibevDelWrite (e : redisLibevEvents) : redisLibevEvents * list library_call :=
  if e.(libev_writing) then (mk_libev e.(libev_fd) e.(libev_reading) false, [ev_io_stop e.(libev_fd) k_write]) else (e, []).
Definition redisLibevCleanup (e : redisLibevEvents) : bool * redisLibevEvents * list library_call :=
  let '(e, c1) := redisLibevDelRead e in let '(e, c2) := redisLibevDelWrite e in (true, e, c1 ++ c2).
Definition redisLibevAttach (fd : Z) : ev redisLibevEvents -> Z * ev redisLibevEvents * list library_call := attach_once (mk_libev fd false false) [].

(** *** [libevent.h] *)

(** [rev] and [wev] are events of the descriptor. *)
Record redisLibeventEvents : Type := mk_libevent { event_fd : Z }.

Definition redisLibeventAddRead (e : redisLibeventEvents) : redisLibeventEvents * list library_call := (e, [event_add e.(event_fd) k_read]).
Definition redisLibeventDelRead (e : redisLibeventEvents) : redisLibeventEvents * list library_call := (e, [event_del e.(event_fd) k_read]).
Definition redisLibeventAddWrite (e : redisLibeventEvents) : redisLibeventEvents * list library_call := (e, [event_add e.(event_fd) k_write]).
Definition redisLibeventDelWrite (e : redisLibeventEvents) : redisLibeventEvents * list library_call := (e, [event_del e.(event_fd) k_write]).
Definition redisLibeventCleanup (e : redisLibeventEvents) : bool * redisLibeventEvents * list library_call :=
  (true, e, [event_del e.(event_fd) k_read; event_del e.(event_fd) k_write]).
Definition redisLibeventAttach (fd : Z) : ev redisLibeventEvents -> Z * ev redisLibeventEvents * list library_call := attach_once (mk_libevent fd) [].

(** *** [libuv.h] *)

(** [events] is an [int]; [handle] polls the descriptor. *)
Record redisLibuvEvents : Type := mk_libuv { uv_fd : Z; uv_events : Z }.

Definition set_events (p : redisLibuvEvents) (events : Z) : redisLibuvEvents := mk_libuv p.(uv_fd) events.
Definition uv_start (p : redisLibuvEvents) : redisLibuvEvents * list library_call := (p, [uv_poll_start p.(uv_fd) p.(uv_events)]).
Definition uv_start_or_stop (p : redisLibuvEvents) : redisLibuvEvents * list library_call :=
  if negb (p.(uv_events) =? 0) then uv_start p else (p, [uv_poll_stop p.(uv_fd)]).

Definition redisLibuvAddRead (p : redisLibuvEvents) : redisLibuvEvents * list library_call := uv_start (set_events p (Z.lor p.(uv_events) UV_READABLE)).
Definition redisLibuvDelRead (p : redisLibuvEvents) : redisLibuvEvents * list library_call := uv_start_or_stop (set_events p (Z.ldiff p.(uv_events) UV_READABLE)).
Definition redisLibuvAddWrite (p : redisLibuvEvents) : redisLibuvEvents * list library_call := uv_start (set_events p (Z.lor p.(uv_events) UV_WRITABLE)).
Definition redisLibuvDelWrite (p : redisLibuvEvents) : redisLibuvEvents * list library_call := uv_start_or_stop (set_events p (Z.ldiff p.(uv_events) UV_WRITABLE)).

(** [uv_close] calls [on_close], which frees the record, in a later turn of the loop. *)
Definition redisLibuvCleanup (p : redisLibuvEvents) : bool * redisLibuvEvents * list library_call := (false, p, [uv_close p.(uv_fd)]).

(** The hooks are set before the memory and the handle are there. *)
Definition redisLibuvAttach (malloc_ok init_ok : bool) (fd : Z) (v : ev redisLibuvEvents) : Z * ev redisLibuvEvents * list library_call :=
  match v.(ev_data_) with
  | no_data =>
      let v := mk_ev no_data true in
      if negb malloc_ok then (REDIS_ERR, v, [])
      else if negb init_ok then (REDIS_ERR, v, [])
      else (REDIS_OK, mk_ev (has_data (mk_libuv fd 0)) true, [])
  | _ => (REDIS_ERR, v, [])
  end.

(** *** [ivykis.h] *)

Record redisIvykisEvents : Type := mk_ivykis { iv_fd : Z }.

Definition redisIvykisAddRead (e : redisIvykisEvents) : redisIvykisEvents * list library_call := (e, [iv_fd_set_handler e.(iv_fd) k_read true]).
Definition redisIvykisDelRead (e : redisIvykisEvents) : redisIvykisEvents * list library_call := (e, [iv_fd_set_handler e.(iv_fd) k_read false]).
Definition redisIvykisAddWrite (e : redisIvykisEvents) : redisIvykisEvents * list library_call := (e, [iv_fd_set_handler e.(iv_fd) k_write true]).
Definition redisIvykisDelWrite (e : redisIvykisEvents) : redisIvykisEvents * list library_call := (e, [iv_fd_set_handler e.(iv_fd) k_write false]).
Definition redisIvykisCleanup (e : redisIvykisEvents) : bool * redisIvykisEvents * list library_call := (true, e, [iv_fd_unregister e.(iv_fd)]).

(** The descriptor is registered with both handlers. *)
Definition redisIvykisAttach (fd : Z) : ev redisIvykisEvents -> Z * ev redisIvykisEvents * list library_call :=
  attach_once (mk_ivykis fd) [iv_fd_register fd true true].

(** *** [glib.h] *)

(** [poll_fd] of the source. *)
Record RedisSource : Type := mk_source { poll_fd : Z; poll_events : Z }.

Definition wake (s : RedisSource) : RedisSource * list library_call := (s, [g_main_context_wakeup s.(poll_fd) s.(poll_events)]).
Definition redis_source_add_read (s : RedisSource) : RedisSource * list library_call := wake (mk_source s.(poll_fd) (Z.lor s.(poll_events) G_IO_IN)).
Definition redis_source_del_read (s : RedisSource) : RedisSource * list library_call := wake (mk_source s.(poll_fd) (Z.ldiff s.(poll_events) G_IO_IN)).
Definition redis_source_add_write (s : RedisSource) : RedisSource * list library_call := wake (mk_source s.(poll_fd) (Z.lor s.(poll_events) G_IO_OUT)).
Definition redis_source_del_write (s : RedisSource) : RedisSource * list library_call := wake (mk_source s.(poll_fd) (Z.ldiff s.(poll_events) G_IO_OUT)).

(** The source stays with its main context. *)
Definition redis_source_cleanup (s : RedisSource) : bool * RedisSource * list library_call :=
  let '(s, c1) := redis_source_del_read s in
  let '(s, c2) := redis_source_del_write s in
  if 0 <=? s.(poll_fd) then (false, mk_source (-1) s.(poll_events), c1 ++ c2 ++ [g_source_remove_poll s.(poll_fd)]) else (false, s, c1 ++ c2).

(** [redis_source_new]: what is attached already is not looked at. *)
Definition redis_source_new (fd : Z) (v : ev RedisSource) : Z * ev RedisSource * list library_call := (REDIS_OK, mk_ev (has_data (mk_source fd 0)) true, [g_source_add_poll fd 0]).

(** *** [macosx.h] *)

(** [socketRef] and [sourceRef] are of the descriptor. *)
Record RedisRunLoop : Type := mk_runloop { cf_fd : Z }.

Definition redisMacOSAddRead (r : RedisRunLoop) : RedisRunLoop * list library_call := (r, [CFSocketEnableCallBacks r.(cf_fd) k_read]).
Definition redisMacOSDelRead (r : RedisRunLoop) : RedisRunLoop * list library_call := (r, [CFSocketDisableCallBacks r.(cf_fd) k_read]).
Definition redisMacOSAddWrite (r : RedisRunLoop) : RedisRunLoop * list library_call := (r, [CFSocketEnableCallBacks r.(cf_fd) k_write]).
Definition redisMacOSDelWrite (r : RedisRunLoop) : RedisRunLoop * list library_call := (r, [CFSocketDisableCallBacks r.(cf_fd) k_write]).
Definition redisMacOSCleanup (r : RedisRunLoop) : bool * RedisRunLoop * list library_call := (true, r, [CFRunLoopSourceInvalidate r.(cf_fd); CFSocketInvalidate r.(cf_fd)]).

(** [freeRedisRunLoop] invalidates what there is, and frees what [ev.data] points to by then. *)
Definition redisMacOSAttach (malloc_ok socket_ok source_ok : bool) (fd : Z) (v : ev RedisRunLoop) : Z * ev RedisRunLoop * list library_call :=
  match v.(ev_data_) with
  | no_data =>
      if negb malloc_ok then (REDIS_ERR, v, [])
      else if negb socket_ok then (REDIS_ERR, mk_ev freed_data true, [])
      else if negb source_ok then (REDIS_ERR, mk_ev freed_data true, [CFSocketInvalidate fd])
      else (REDIS_OK, mk_ev (has_data (mk_runloop fd)) true, [CFRunLoopAddSource fd])
  | _ => (REDIS_ERR, v, [])
  end.

(** *** [qt.h] *)

(** [RedisQtAdapter]: whether [m_read] and [m_write] are there. *)
Record RedisQtAdapter : Type := mk_qt { m_fd : Z; m_read : bool; m_write : bool }.

Definition RedisQtAddRead (a : RedisQtAdapter) : RedisQtAdapter * list library_call :=
  if a.(m_read) then (a, []) else (mk_qt a.(m_fd) true a.(m_write), [new_QSocketNotifier a.(m_fd) k_read]).
Definition RedisQtDelRead (a : RedisQtAdapter) : RedisQtAdapter * list library_call :=
  if negb a.(m_read) then (a, []) else (mk_qt a.(m_fd) false a.(m_write), [delete_QSocketNotifier a.(m_fd) k_read]).
Definition RedisQtAddWrite (a : RedisQtAdapter) : RedisQtAdapter * list library_call :=
  if a.(m_write) then (a, []) else (mk_qt a.(m_fd) a.(m_read) true, [new_QSocketNotifier a.(m_fd) k_write]).
Definition RedisQtDelWrite (a : RedisQtAdapter) : RedisQtAdapter * list library_call :=
  if negb a.(m_write) then (a, []) else (mk_qt a.(m_fd) a.(m_read) false, [delete_QSocketNotifier a.(m_fd) k_write]).
Definition RedisQtCleanup (a : RedisQtAdapter) : bool * RedisQtAdapter * list library_call :=
  let '(a, c1) := RedisQtDelRead a in let '(a, c2) := RedisQtDelWrite a in (false, a, c1 ++ c2).
Definition setContext (fd : Z) : ev RedisQtAdapter -> Z * ev RedisQtAdapter * list library_call := attach_once (mk_qt fd false false) [].

(** *** The instances *)

#[export] Instance redisAe : Adapter redisAeEvents := {| attach_ := redisAeAttach; addRead_ := redisAeAddRead; delRead_ := redisAeDelRead; addWrite_ := redisAeAddWrite; delWrite_ := redisAeDelWrite; cleanup_ := redisAeCleanup |}.
#[export] Instance redisLibev : Adapter redisLibevEvents := {| attach_ := redisLibevAttach; addRead_ := redisLibevAddRead; delRead_ := redisLibevDelRead; addWrite_ := redisLibevAddWrite; delWrite_ := redisLibevDelWrite; cleanup_ := redisLibevCleanup |}.
#[export] Instance redisLibevent : Adapter redisLibeventEvents := {| attach_ := redisLibeventAttach; addRead_ := redisLibeventAddRead; delRead_ := redisLibeventDelRead; addWrite_ := redisLibeventAddWrite; delWrite_ := redisLibeventDelWrite; cleanup_ := redisLibeventCleanup |}.
#[export] Instance redisLibuv : Adapter redisLibuvEvents := {| attach_ := redisLibuvAttach true true; addRead_ := redisLibuvAddRead; delRead_ := redisLibuvDelRead; addWrite_ := redisLibuvAddWrite; delWrite_ := redisLibuvDelWrite; cleanup_ := redisLibuvCleanup |}.
#[export] Instance redisIvykis : Adapter redisIvykisEvents := {| attach_ := redisIvykisAttach; addRead_ := redisIvykisAddRead; delRead_ := redisIvykisDelRead; addWrite_ := redisIvykisAddWrite; delWrite_ := redisIvykisDelWrite; cleanup_ := redisIvykisCleanup |}.
#[export] Instance redisMacOS : Adapter RedisRunLoop := {| attach_ := redisMacOSAttach true true true; addRead_ := redisMacOSAddRead; delRead_ := redisMacOSDelRead; addWrite_ := redisMacOSAddWrite; delWrite_ := redisMacOSDelWrite; cleanup_ := redisMacOSCleanup |}.
#[export] Instance RedisQt : Adapter RedisQtAdapter := {| attach_ := setContext; addRead_ := RedisQtAddRead; delRead_ := RedisQtDelRead; addWrite_ := RedisQtAddWrite; delWrite_ := RedisQtDelWrite; cleanup_ := RedisQtCleanup |}.
#[export] Instance redis_source : Adapter RedisSource := {| attach_ := redis_source_new; addRead_ := redis_source_add_read; delRead_ := redis_source_del_read; addWrite_ := redis_source_add_write; delWrite_ := redis_source_del_write; cleanup_ := redis_source_cleanup |}.

(** ** Running the hooks *)

Section Run.
Context `{EventLoop}.

Definition do_calls (l : loop) (calls : list library_call) : loop := foldl (fun l c => do_call c l) l calls.

(** [_EL_ADD_READ] and the others: the hook, if it is there, with the data. *)
Definition run_hook `{Adapter E} (h : hook) (s : ev E * loop) : res (ev E * loop) :=
  let '(v, l) := s in
  if negb v.(ev_hooks) then Ok (v, l)
  else
    match v.(ev_data_) with
    | no_data => UB null_pointer
    | freed_data => UB dangling_pointer
    | has_data e => let '(d, calls) := hook_ h e in Ok (mk_ev d true, do_calls l calls)
    end.

Fixpoint run_hooks `{Adapter E} (hs : list hook) (s : ev E * loop) : res (ev E * loop) :=
  match hs with [] => Ok s | h :: hs => let* s := run_hook h s in run_hooks hs s end.

Lemma run_hooks_app `{Adapter E} hs hs' : forall s, run_hooks (hs ++ hs') s = (let* s := run_hooks hs s in run_hooks hs' s).
Proof using. induction hs as [|h hs IH]; intros s; [done|]. cbn [app run_hooks]. destruct (run_hook h s); [apply IH|done..]. Qed.

(** A new context is attached. *)
Definition attach_to `{Adapter E} (fd : Z) (l : loop) : ev E * loop :=
  let '(_, v, calls) := attach_ fd (mk_ev no_data false) in (v, do_calls l calls).
End Run.

(** ** What the hooks ask for *)

Definition asks (h : hook) (k : kind) : option bool :=
  match h, k with
  | addRead, k_read | addWrite, k_write => Some true
  | delRead, k_read | delWrite, k_write | cleanup, _ => Some false
  | _, _ => None
  end.

(** What is to be watched after some hooks, from [b] on. *)
Definition asked (b : bool) (k : kind) (hs : list hook) : bool := foldl (fun b h => default b (asks h k)) b hs.

(** What calls make of it that a kind is watched. *)
Definition effect (k : kind) (b : bool) (calls : list library_call) : bool := foldl (fun b c => default b (meaning c k)) b calls.

Definition on_fd (fd : Z) (calls : list library_call) : Prop := Forall (fun c => call_fd c = fd) calls.

(** ** The interface *)

(** [shows e fd r w]: the record is of a descriptor that it has watched for [r] and
    [w]; [initially] is what is watched as soon as it is attached. *)
Class AdapterLaws (E : Type) `{Adapter E} : Type := {
  initially : bool;
  shows : E -> Z -> bool -> bool -> Prop;
  law_attach fd : 0 <= fd -> exists e calls, attach_ fd (mk_ev no_data false) = (REDIS_OK, mk_ev (has_data e) true, calls) /\
    shows e fd initially initially /\ on_fd fd calls /\ forall k, effect k false calls = initially;
  law_hook h e fd r w : 0 <= fd -> h <> cleanup -> shows e fd r w -> exists e' calls, hook_ h e = (has_data e', calls) /\
    shows e' fd (default r (asks h k_read)) (default w (asks h k_write)) /\ on_fd fd calls /\
    forall k, effect k (by_kind k r w) calls = default (by_kind k r w) (asks h k);
  law_cleanup e fd r w : 0 <= fd -> shows e fd r w -> exists freed e' calls, cleanup_ e = (freed, e', calls) /\ on_fd fd calls /\
    forall k, effect k (by_kind k r w) calls = false;
}.

Section Follow.
Context `{Hloop : EventLoop} {Hmean : EventLoopLaws} {E : Type} `{Hadapter : Adapter E} {Hlaws : AdapterLaws E}.

Lemma do_calls_watches calls : forall l fd, on_fd fd calls ->
  (forall k, watches (do_calls l calls) fd k = effect k (watches l fd k) calls) /\
  (forall fd' k, fd' <> fd -> watches (do_calls l calls) fd' k = watches l fd' k).
Proof using All.
  induction calls as [|c calls IH]; intros l fd Hon; [done|]. apply Forall_cons_iff in Hon as [Hc Hon].
  destruct (IH (do_call c l) fd Hon) as [H1 H2]. unfold do_calls, effect in *. cbn [foldl]. split.
  - intros k. rewrite H1, calls_mean, decide_True by done. done.
  - intros fd' k Hne. rewrite H2, calls_mean, decide_False by congruence. done.
Qed.

(** The loop watches what the record shows. *)
Definition in_step (fd : Z) (b : kind -> bool) (l0 : loop) (s : ev E * loop) : Prop :=
  exists e, s.1 = mk_ev (has_data e) true /\ shows e fd (b k_read) (b k_write) /\ (forall k, watches s.2 fd k = b k) /\
    forall fd' k, fd' <> fd -> watches s.2 fd' k = watches l0 fd' k.

Lemma by_kind_eq (b : kind -> bool) k : by_kind k (b k_read) (b k_write) = b k.
Proof using. by destruct k. Qed.

Lemma attach_in_step fd l : 0 <= fd -> (forall k, watches l fd k = false) -> in_step fd (fun _ => initially) l (attach_to fd l).
Proof using All.
  intros Hfd Hl. destruct (law_attach fd Hfd) as (e & calls & E1 & Hs & Hon & He). unfold attach_to. rewrite E1.
  destruct (do_calls_watches calls l fd Hon) as [H1 H2]. exists e. split_and!; [done|done| |done].
  intros k. cbn [snd]. by rewrite H1, Hl.
Qed.

Lemma hook_in_step h fd b l0 s : 0 <= fd -> h <> cleanup -> in_step fd b l0 s ->
  exists s', run_hook h s = Ok s' /\ in_step fd (fun k => default (b k) (asks h k)) l0 s'.
Proof using All.
  intros Hfd Hh (e & Ee & Hs & Hw & Ho). destruct s as [v l]. cbn [fst snd] in *. subst v.
  destruct (law_hook h e fd _ _ Hfd Hh Hs) as (e' & calls & E1 & Hs' & Hon & He). unfold run_hook. cbn [ev_hooks negb ev_data_]. rewrite E1.
  destruct (do_calls_watches calls l fd Hon) as [H1 H2]. eexists. split; [done|]. exists e'. split_and!; [done|done| |].
  - intros k. cbn [snd]. rewrite H1, Hw. specialize (He k). by rewrite by_kind_eq in He.
  - intros fd' k Hne. cbn [snd]. by rewrite H2, Ho.
Qed.

Lemma hooks_in_step hs : forall fd b l0 s, 0 <= fd -> cleanup ∉ hs -> in_step fd b l0 s ->
  exists s', run_hooks hs s = Ok s' /\ in_step fd (fun k => asked (b k) k hs) l0 s'.
Proof using All.
  induction hs as [|h hs IH]; intros fd b l0 s Hfd Hc Hs; [by exists s|]. apply not_elem_of_cons in Hc as [Hne Hc].
  destruct (hook_in_step h fd b l0 s Hfd ltac:(congruence) Hs) as (s1 & E1 & H1). cbn [run_hooks]. rewrite E1. cbn [mbind res_bind].
  destruct (IH fd _ l0 s1 Hfd Hc H1) as (s2 & E2 & H2'). exists s2. by split.
Qed.

Lemma cleanup_in_step fd b l0 s : 0 <= fd -> in_step fd b l0 s ->
  exists v l, run_hook cleanup s = Ok (v, l) /\ (forall k, watches l fd k = false) /\ forall fd' k, fd' <> fd -> watches l fd' k = watches l0 fd' k.
Proof using All.
  intros Hfd (e & Ee & Hs & Hw & Ho). destruct s as [v l]. cbn [fst snd] in *. subst v.
  destruct (law_cleanup e fd _ _ Hfd Hs) as (freed & e' & calls & E1 & Hon & He). unfold run_hook, hook_. cbn [ev_hooks negb ev_data_]. rewrite E1.
  destruct (do_calls_watches calls l fd Hon) as [H1 H2]. eexists _, _. split; [done|]. split.
  - intros k. rewrite H1, Hw. specialize (He k). by rewrite by_kind_eq in He.
  - intros fd' k Hne. by rewrite H2, Ho.
Qed.
End Follow.

(** ** The eight adapters *)

(** An adapter whose record is a function of what it has watched owes its laws by
    running it in each of the four cases. *)
Ltac adapter_calls := repeat (constructor; [reflexivity|]); constructor.
Ltac adapter_kinds := let k := fresh "k" in intros k; destruct k; reflexivity.
Ltac adapter_laws init record :=
  refine {| initially := init; shows e fd r w := e = record fd r w |};
  [ intros fd Hfd; eexists _, _; split; [reflexivity|]; split; [reflexivity|]; split; [adapter_calls|adapter_kinds]
  | intros h e fd r w Hfd Hh ->; destruct h, r, w; try (contradiction Hh; reflexivity); eexists _, _; (split; [reflexivity|]); (split; [reflexivity|]); (split; [adapter_calls|adapter_kinds])
  | intros e fd r w Hfd ->; cbn [cleanup_];
    (destruct r, w; eexists _, _, _; (split; [cbn; rewrite ?(proj2 (Z.leb_le 0 fd)) by exact Hfd; reflexivity|]); (split; [adapter_calls|adapter_kinds])) ].

Definition uv_bits (r w : bool) : Z := (if r then UV_READABLE else 0) + (if w then UV_WRITABLE else 0).
Definition g_bits (r w : bool) : Z := (if r then G_IO_IN else 0) + (if w then G_IO_OUT else 0).

#[export] Instance ae_laws : AdapterLaws redisAeEvents.
Proof. adapter_laws false mk_ae. Defined.
#[export] Instance libev_laws : AdapterLaws redisLibevEvents.
Proof. adapter_laws false mk_libev. Defined.
#[export] Instance libevent_laws : AdapterLaws redisLibeventEvents.
Proof. adapter_laws false (fun fd (_ _ : bool) => mk_libevent fd). Defined.
#[export] Instance libuv_laws : AdapterLaws redisLibuvEvents.
Proof. adapter_laws false (fun fd r w => mk_libuv fd (uv_bits r w)). Defined.
#[export] Instance ivykis_laws : AdapterLaws redisIvykisEvents.
Proof. adapter_laws true (fun fd (_ _ : bool) => mk_ivykis fd). Defined.
#[export] Instance macos_laws : AdapterLaws RedisRunLoop.
Proof. adapter_laws true (fun fd (_ _ : bool) => mk_runloop fd). Defined.
#[export] Instance qt_laws : AdapterLaws RedisQtAdapter.
Proof. adapter_laws false mk_qt. Defined.
#[export] Instance glib_laws : AdapterLaws RedisSource.
Proof. adapter_laws false (fun fd r w => mk_source fd (g_bits r w)). Defined.

(** An adapter that does what the hooks ask, from [init] on. *)
Definition follows `{EventLoop} (E : Type) `{Adapter E} (init : bool) : Prop :=
  forall fd l hs, 0 <= fd -> (forall k, watches l fd k = false) -> cleanup ∉ hs ->
    exists v l', run_hooks hs (attach_to fd l) = Ok (v, l') /\ (forall k, watches l' fd k = asked init k hs) /\
      (forall fd' k, fd' <> fd -> watches l' fd' k = watches l fd' k) /\
      exists v' l'', run_hook cleanup (v, l') = Ok (v', l'') /\ (forall k, watches l'' fd k = false) /\
        forall fd' k, fd' <> fd -> watches l'' fd' k = watches l fd' k.

(** C36: Every adapter does for its event library what the context asks of it: after
    any calls of the hooks the loop watches the descriptor for exactly what the last
    hooks asked, and for nothing once [cleanup] was called; the other descriptors of
    the loop are left alone, and no hook meets data that is not there.  ivykis and
    the run loop of macOS watch everything at first, the others nothing. *)
Theorem adapters_follow `{EventLoopLaws} :
  follows redisAeEvents false /\ follows redisLibevEvents false /\ follows redisLibeventEvents false /\ follows redisLibuvEvents false /\
  follows redisIvykisEvents true /\ follows RedisRunLoop true /\ follows RedisQtAdapter false /\ follows RedisSource false.
Proof.
  assert (forall E (HA : Adapter E) (HL : AdapterLaws E), follows E initially) as Hall.
  { intros E HA HL fd l hs Hfd Hl Hc. destruct (hooks_in_step hs fd _ l _ Hfd Hc (attach_in_step fd l Hfd Hl)) as ([v l'] & E1 & H1).
    exists v, l'. destruct (cleanup_in_step fd _ l _ Hfd H1) as (v' & l'' & E2 & H2). destruct H1 as (e & _ & _ & Hw & Ho).
    split_and!; [done|done|done|]. by exists v', l''. }
  split_and!; [exact (Hall _ _ ae_laws)|exact (Hall _ _ libev_laws)|exact (Hall _ _ libevent_laws)|exact (Hall _ _ libuv_laws)|
    exact (Hall _ _ ivykis_laws)|exact (Hall _ _ macos_laws)|exact (Hall _ _ qt_laws)|exact (Hall _ _ glib_laws)].
Qed.

(** A loop that is a table. *)
#[local] Instance table_loop : EventLoop := {|
  loop := Z -> kind -> bool; do_call c l := fun fd k => if decide (fd = call_fd c) then default (l fd k) (meaning c k) else l fd k; watches l := l |}.
#[local] Instance table_laws : EventLoopLaws.
Proof. done. Qed.

Lemma adapters_follow_witness :
  exists v l', run_hooks (E := redisLibuvEvents) [addWrite; addRead; delWrite; addRead] (attach_to (E := redisLibuvEvents) 7 (fun _ _ => false)) = Ok (v, l') /\
    watches l' 7 k_read = true /\ watches l' 7 k_write = false.
Proof.
  pose proof adapters_follow as (_ & _ & _ & Hf & _).
  destruct (Hf 7 (fun _ _ => false) [addWrite; addRead; delWrite; addRead]) as (v & l' & E & Hw & _); [lia|done| |].
  { intros Hin. repeat (apply elem_of_cons in Hin as [Hin|Hin]; [discriminate Hin|]). by apply elem_of_nil in Hin. }
  exists v, l'. split; [exact E|]. split; apply Hw.
Defined.

(** Attaching may fail after the hooks are set: a hook that is called then has no
    data, or data that was freed. *)
Example libuv_attach_fails `{EventLoop} l : let '(k, v, _) := redisLibuvAttach true false 7 (mk_ev no_data false) in k = REDIS_ERR /\ run_hook addWrite (v, l) = UB null_pointer.
Proof. done. Qed.
Example macos_attach_fails `{EventLoop} l : let '(k, v, _) := redisMacOSAttach true false true 7 (mk_ev no_data false) in k = REDIS_ERR /\ run_hook addWrite (v, l) = UB dangling_pointer.
Proof. done. Qed.

(** ** What the libraries call *)

Inductive handler : Type := handle_read | handle_write.

(** [redisLibuvPoll] *)
Definition redisLibuvPoll (status events : Z) : list handler :=
  if negb (status =? 0) then []
  else (if has events UV_READABLE then [handle_read] else []) ++ (if has events UV_WRITABLE then [handle_write] else []).

(** [redis_source_dispatch] *)
Definition redis_source_dispatch (revents : Z) : list handler :=
  (if has revents G_IO_OUT then [handle_write] else []) ++ (if has revents G_IO_IN then [handle_read] else []).

(** [redis_source_prepare], [redis_source_check] *)
Definition redis_source_check (s : RedisSource) (revents : Z) : bool := has s.(poll_events) revents.

(** [redisMacOSAsyncCallback]; the others call one handler for one event. *)
Definition redisMacOSAsyncCallback (k : kind) : list handler := match k with k_read => [handle_read] | k_write => [handle_write] end.

(** The handlers use the context, whatever the one before did with it. *)
Fixpoint dispatch `{Allocator} `{Strerror} `{Program} (st : sock_status) (l : list handler) (ac : redisAsyncContext) : io redisAsyncContext :=
  match l with
  | [] => done ac
  | h :: l =>
      if ac.(a_freed) then lift (UB dangling_pointer)
      else io* ac := async_step (match h with handle_read => e_readable st | handle_write => e_writable st end) ac in dispatch st l ac
  end.
