(* ===== verification/AsyncCommand.v ===== *)
(** * What [__redisAsyncCommand] makes of a request.

    [nextArgument] finds the arguments of a formatted request, and an ordinary
    command - not one of the pub/sub ones - is queued with its callback. *)
From S2P Require Import Prelude CxxString Sds SdsRefine SdsText HiredisFormat HiredisReply HiredisReader HiredisProtocol HiredisContext Dict Async.

(** ** Bytes of a C string *)

Lemma drop_size {A} (pre x : list A) : drop (Z.to_nat (size pre)) (pre ++ x) = x.
Proof. by rewrite size_to_nat, drop_app_length. Qed.

Lemma char_at_cons pre c rest : char_at (pre ++ c :: rest) (size pre) = Ok c.
Proof.
  unfold char_at. pose proof (size_nonneg pre). pose proof (size_nonneg rest). rewrite size_app, size_cons.
  destruct (Z.leb_spec 0 (size pre)); [|lia]. destruct (Z.leb_spec (size pre) (size pre + (1 + size rest))); [|lia]. cbn [andb].
  by rewrite size_to_nat, nth_middle.
Qed.

Lemma char_at_terminator m : char_at m (size m) = Ok Byte.x00.
Proof.
  unfold char_at. pose proof (size_nonneg m). rewrite Z.leb_refl. destruct (Z.leb_spec 0 (size m)); [|lia]. cbn [andb].
  by rewrite size_to_nat, nth_overflow.
Qed.

Lemma char_at_ok pre x : exists c, char_at (pre ++ x) (size pre) = Ok c.
Proof. destruct x as [|c x]; [rewrite app_nil_r; eexists; apply char_at_terminator | eexists; apply char_at_cons]. Qed.

Lemma strchr_in_app a c rest : forall p, c ∉ a -> Byte.x00 ∉ a -> strchr_in (a ++ c :: rest) c p = Some (p + size a).
Proof.
  induction a as [|x a IH]; intros p; cbn [app strchr_in].
  - intros _ _. rewrite eqc_refl. f_equal. change (size (@nil byte)) with 0. lia.
  - rewrite !not_elem_of_cons. intros [H1 H2] [H3 H4].
    destruct (eqc_spec x c); [congruence|]. destruct (eqc_spec x Byte.x00); [congruence|]. rewrite IH by done. f_equal. rewrite size_cons. lia.
Qed.

Lemma strchr_app pre a c rest : c ∉ a -> Byte.x00 ∉ a -> strchr (pre ++ a ++ c :: rest) (size pre) c = Ok (Some (size pre + size a)).
Proof.
  intros H1 H2. unfold strchr. destruct (char_at_ok pre (a ++ c :: rest)) as (x & ->). cbn [mbind res_bind].
  by rewrite drop_size, strchr_in_app.
Qed.

Lemma strtol10_to_string n t : 0 <= n <= LONG_MAX -> strtol10 (to_string n ++ CR :: t) = n.
Proof.
  intros Hn. destruct (to_string_decimal n ltac:(lia)) as [Hf (c & ds & E & _) Hv]. unfold strtol10.
  specialize (Hv (CR :: t) 0). rewrite E in *. apply Forall_cons_iff in Hf as [Hc _].
  assert (isspace c = false) as Hs by (clear -Hc; revert Hc; destruct c; vm_compute; done).
  destruct (isdigit_not_special c Hc) as (_ & H1 & H2 & _). cbn [app skip_space] in *. rewrite Hs. cbn [read_sign]. rewrite H1, H2, Hv.
  change (read_digits 10 (CR :: t) (0 * 10 ^ size (c :: ds) + n)) with (0 + n). lia.
Qed.

(** ** Arguments *)

(** From before the bulk string [d], [nextArgument] finds it. *)
Lemma nextArgument_bulk pre a d rest : "$"%byte ∉ a -> Byte.x00 ∉ a -> size d <= INT_MAX ->
  nextArgument (pre ++ a ++ bulk d ++ rest) (size pre) =
  Ok (Some (size (pre ++ a ++ "$"%byte :: to_string (size d) ++ crlf), size d, size (pre ++ a ++ bulk d))).
Proof.
  intros Ha Hn Hd. unfold nextArgument. pose proof (size_nonneg d). set (num := to_string (size d)).
  assert (pre ++ a ++ bulk d ++ rest = pre ++ a ++ "$"%byte :: num ++ CR :: NL :: d ++ crlf ++ rest) as ->.
  { unfold bulk. fold num. unfold crlf. repeat (cbn [app]; rewrite <- !app_assoc). done. }
  destruct (char_at_ok pre (a ++ "$"%byte :: num ++ CR :: NL :: d ++ crlf ++ rest)) as (x & Ex). rewrite Ex. cbn [mbind res_bind].
  assert ((if negb (x =c "$"%byte) then strchr (pre ++ a ++ "$"%byte :: num ++ CR :: NL :: d ++ crlf ++ rest) (size pre) "$"%byte
    else Ok (Some (size pre))) = Ok (Some (size (pre ++ a)))) as ->.
  { destruct a as [|y a].
    - cbn [app] in *. rewrite char_at_cons in Ex. injection Ex as <-. cbn. by rewrite app_nil_r.
    - cbn [app] in Ex. rewrite char_at_cons in Ex. injection Ex as <-. apply not_elem_of_cons in Ha as Ha'. destruct Ha' as [Hy _].
      destruct (eqc_spec y "$"%byte); [congruence|]. cbn [negb]. by rewrite strchr_app, size_app. }
  assert (forall x, drop (Z.to_nat (size (pre ++ a) + 1)) (pre ++ a ++ "$"%byte :: x) = x) as Hdrop.
  { intros y. replace (size (pre ++ a) + 1) with (size (pre ++ a ++ ["$"%byte])) by (rewrite !size_app; change (size ["$"%byte]) with 1; lia).
    replace (pre ++ a ++ "$"%byte :: y) with ((pre ++ a ++ ["$"%byte]) ++ y) by (by rewrite <- !app_assoc). apply drop_size. }
  cbn [mbind res_bind]. pose proof (strtol10_to_string (size d) (NL :: d ++ crlf ++ rest) ltac:(unfold INT_MAX, LONG_MAX in *; lia)) as En. fold num in En.
  rewrite Hdrop, En, wrap32_id by (unfold INT_MAX in *; lia). clear Hdrop En.
  replace (pre ++ a ++ "$"%byte :: num ++ CR :: NL :: d ++ crlf ++ rest) with ((pre ++ a) ++ ("$"%byte :: num) ++ CR :: NL :: d ++ crlf ++ rest) by (by rewrite <- !app_assoc).
  assert (forall c, isdigit c = false -> c <> "$"%byte -> c ∉ "$"%byte :: num) as Hnum.
  { intros c Hc Hne. apply not_elem_of_cons. split; [done|]. by apply to_string_avoids. }
  rewrite strchr_app by (by apply Hnum). cbn [mbind res_bind]. unfold bulk. fold num. do 3 f_equal; [f_equal|];
    rewrite !size_app, !size_cons, !size_app; change (size crlf) with 2; lia.
Qed.

Lemma starts_nocase_spec s : forall pre t, Byte.x00 ∉ s ->
  starts_nocase (pre ++ t) (size pre) s = Ok (is_prefix (map tolower s) (map tolower t)).
Proof.
  induction s as [|x s IH]; intros pre t; [by destruct t|]. rewrite not_elem_of_cons. intros [Hx Hs]. cbn [starts_nocase map is_prefix].
  destruct t as [|y t].
  - rewrite app_nil_r, char_at_terminator. cbn [mbind res_bind map].
    destruct (eqc_spec (tolower Byte.x00) (tolower x)) as [E|]; [|done]. exfalso. clear -Hx E. revert Hx E. destruct x; vm_compute; congruence.
  - rewrite char_at_cons. cbn [mbind res_bind map].
    assert ((tolower y =c tolower x) = (tolower x =c tolower y)) as -> by (destruct (eqc_spec (tolower y) (tolower x)) as [->|]; [by rewrite eqc_refl | symmetry; by apply eqc_false]).
    destruct (tolower x =c tolower y); [|done]. cbn [andb].
    replace (size pre + 1) with (size (pre ++ [y])) by (rewrite size_app; change (size [y]) with 1; lia).
    replace (pre ++ y :: t) with ((pre ++ [y]) ++ t) by (by rewrite <- app_assoc). by apply IH.
Qed.

(** ** Ordinary commands *)

(** The name without the [p] of the variants for patterns. *)
Definition strip_p (name : bytes) : bytes :=
  match name with c :: name' => if tolower c =c "p"%byte then name' else name | [] => [] end.

(** Not one of the commands treated differently. *)
Definition plain (name : bytes) : bool :=
  forallb (fun c => negb (c =c CR)) name &&
  forallb (fun k => negb (map tolower (strip_p name) =s k)) [str "subscribe"; str "unsubscribe"; str "monitor"].

Lemma tolower_CR c : tolower c = CR -> c = CR.
Proof. destruct c; vm_compute; congruence. Qed.

Lemma cut_first {A} (c : A) a : forall b x y, c ∉ a -> c ∉ b -> a ++ c :: x = b ++ c :: y -> a = b.
Proof.
  induction a as [|d a IH]; intros [|e b] x y; rewrite ?not_elem_of_cons; intros Ha Hb E; cbn [app] in E; injection E; intros; subst; try tauto.
  f_equal. eapply IH; [tauto..|done].
Qed.

Lemma keyword_differs k name rest : CR ∉ k -> CR ∉ name -> map tolower name <> map tolower k ->
  is_prefix (map tolower (k ++ crlf)) (map tolower (name ++ crlf ++ rest)) = false.
Proof.
  intros Hk Hn Hne. apply not_true_is_false. intros (t & E)%is_prefix_true. apply Hne. rewrite !map_app in E. symmetry.
  assert (forall l, CR ∉ l -> CR ∉ map tolower l) as Hmap.
  { intros l Hl Hin. apply list_elem_of_In, in_map_iff in Hin as (c & Hc & Hin). apply tolower_CR in Hc as ->. by apply Hl, list_elem_of_In. }
  change (map tolower crlf) with [CR; NL] in E. rewrite <- app_assoc in E. symmetry in E. cbn [app] in E.
  eapply cut_first; [by apply Hmap..|]. by symmetry.
Qed.

Lemma plain_keywords name : plain name = true ->
  CR ∉ strip_p name /\ forall k, k ∈ [str "subscribe"; str "unsubscribe"; str "monitor"] -> map tolower (strip_p name) <> map tolower k.
Proof.
  intros [Hcr Hk]%andb_true_iff. rewrite forallb_forall in Hcr, Hk. split.
  - assert (CR ∉ name) as Hn. { intros Hin%list_elem_of_In. apply Hcr in Hin. by vm_compute in Hin. }
    destruct name as [|c name]; [done|]. cbn. apply not_elem_of_cons in Hn as Hn'. destruct (tolower c =c "p"%byte); tauto.
  - intros k Hin E. assert (map tolower k = k) as Ek by (repeat (apply elem_of_cons in Hin as [->|Hin]; [done|]); by apply elem_of_nil in Hin).
    apply list_elem_of_In, Hk in Hin. rewrite Ek in E. rewrite E in Hin. unfold eqs in Hin. by rewrite bool_decide_eq_true_2 in Hin.
Qed.

Section Commands.
Context `{Allocator}.
Hypothesis Hg : granted.

(** The callback of an ordinary command waits for its reply. *)
Lemma register_plain ac cb name args : plain name = true -> size name <= INT_MAX -> has_flag ac REDIS_SUBSCRIBED = false ->
  register ac cb (request_bytes (name :: args)) = Ok (Some (set_replies ac (ac.(a_replies) ++ [cb]))).
Proof using Hg.
  intros Hp Hsz Hsub. destruct (plain_keywords name Hp) as [Hcr Hkey]. unfold register, request_bytes. cbn [map concat].
  set (head := "*"%byte :: to_string (size (name :: args)) ++ crlf). set (rest := concat (map bulk args)).
  assert ("*"%byte :: to_string (size (name :: args)) ++ crlf ++ bulk name ++ rest = [] ++ head ++ bulk name ++ rest) as ->.
  { unfold head. cbn [app]. by rewrite <- !app_assoc. }
  assert (forall c, isdigit c = false -> c ∉ [CR; NL; "*"%byte] -> c ∉ head) as Hhead.
  { intros c Hc Hin. unfold head, crlf. rewrite not_elem_of_cons, elem_of_app. pose proof (to_string_avoids (size (name :: args)) c (size_nonneg _) Hc). set_solver. }
  rewrite nextArgument_bulk; [|by apply Hhead; [done|]; rewrite !not_elem_of_cons; split_and!; [done..|apply not_elem_of_nil]|by apply Hhead; [done|]; rewrite !not_elem_of_cons; split_and!; [done..|apply not_elem_of_nil]|done]. cbn [mbind res_bind app].
  set (num := "$"%byte :: to_string (size name) ++ crlf).
  assert (head ++ bulk name ++ rest = (head ++ num) ++ name ++ crlf ++ rest) as Es by (unfold bulk, num; rewrite <- !app_assoc; cbn [app]; by rewrite <- !app_assoc).
  destruct (char_at_ok (head ++ bulk name) rest) as (c1 & E1). rewrite <- app_assoc in E1. rewrite E1. cbn [mbind res_bind].
  rewrite Es. destruct (char_at_ok (head ++ num) (name ++ crlf ++ rest)) as (c0 & E0). rewrite E0. cbn [mbind res_bind].
  set (cstr := if tolower c0 =c "p"%byte then _ else _).
  assert (exists pre, (head ++ num) ++ name ++ crlf ++ rest = pre ++ strip_p name ++ crlf ++ rest /\ cstr = size pre) as (pre & Epre & Ecstr).
  { unfold cstr. destruct name as [|c name].
    - cbn [app] in E0. change (crlf ++ rest) with (CR :: NL :: rest) in E0. rewrite char_at_cons in E0. injection E0 as <-. by exists (head ++ num).
    - cbn [app] in E0. rewrite char_at_cons in E0. injection E0 as <-. cbn [strip_p]. destruct (tolower c =c "p"%byte); [|by exists (head ++ num)].
      exists ((head ++ num) ++ [c]). split; [by rewrite <- !app_assoc|]. rewrite (size_app _ [c]). by change (size [c]) with 1. }
  rewrite Epre, Ecstr.
  assert (forall k, k ∈ [str "subscribe"; str "unsubscribe"; str "monitor"] ->
    starts_nocase (pre ++ strip_p name ++ crlf ++ rest) (size pre) (k ++ crlf) = Ok false) as Hno.
  { intros k Hk. assert (Byte.x00 ∉ k ++ crlf /\ CR ∉ k) as [H0 Hc].
    { repeat (apply elem_of_cons in Hk as [->|Hk]; [by split; apply (bool_decide_unpack _); vm_compute|]). by apply elem_of_nil in Hk. }
    rewrite starts_nocase_spec by done. f_equal. apply keyword_differs; [done..|by apply Hkey]. }
  assert ((if c1 =c "$"%byte then starts_nocase (pre ++ strip_p name ++ crlf ++ rest) (size pre) (str "subscribe" ++ crlf) else Ok false) = Ok false) as ->.
  { destruct (c1 =c "$"%byte); [apply Hno; set_solver | done]. }
  cbn [mbind res_bind]. rewrite !Hno by set_solver. cbn [mbind res_bind]. rewrite Hsub.
  unfold redisPushCallback. by rewrite Hg.
Qed.
End Commands.
