(* ===== verification/AsyncSpec.v ===== *)
(** * Every command is answered once, in order.

    The callbacks of ordinary commands against the replies of the stream, for any
    events, any program and any bytes. *)
From S2P Require Import Prelude CxxString Sds SdsRefine SdsText HiredisFormat HiredisReply HiredisReader HiredisReaderInput HiredisReplyTree HiredisReaderSpec HiredisProtocol HiredisReaderRefine HiredisStream HiredisContext HiredisPipeline Dict Async AsyncCommand.

(** ** What the program sees *)

(** A callback: its function and its data. *)
Definition key (cb : redisCallback) : option (nat * nat) := (fun fn => (fn, cb.(cb_privdata))) <$> cb.(cb_fn).

(** The commands accepted, the callbacks called, the replies they got. *)
Definition commands (l : list logged) : list (nat * nat) := omap (fun e => match e with l_command cb => key cb | _ => None end) l.
Definition callbacks (l : list logged) : list (nat * nat) := omap (fun e => match e with l_reply fn p _ => Some (fn, p) | _ => None end) l.
Definition answers (l : list logged) : list (option value) := omap (fun e => match e with l_reply _ _ r => Some r | _ => None end) l.

(** A command other than those of pub/sub, with a callback. *)
Definition ordinary (a : action) : Prop :=
  match a with
  | act_command fn _ cmd => is_Some fn /\ exists name args, cmd = request_bytes (name :: args) /\ plain name = true
  | _ => True
  end.

(** A call that does not free the context. *)
Definition stays (a : action) : Prop := match a with act_free => False | _ => True end.

(** Answers of the system that are no failure; a read takes all that has arrived. *)
Definition calm_in (e : in_event) : Prop :=
  match e with in_data d => (0 < length d <= read_size)%nat | in_errno EAGAIN | in_errno EINTR => True | _ => False end.
Definition calm_out (e : out_event) : Prop := match e with out_taken _ | out_errno EAGAIN | out_errno EINTR => True | _ => False end.

(** The bytes that calls ask to send. *)
Definition cost (a : action) : Z := match a with act_command _ _ cmd => size cmd | _ => 0 end.
Definition costs (l : list action) : Z := foldr (fun a n => cost a + n) 0 l.

(** The bytes that the callbacks of a log asked to send. *)
Fixpoint spent_from `{Program} (pre l : list logged) : Z :=
  match l with
  | [] => 0
  | e :: l => (match e with l_reply _ _ _ => costs (program (pre ++ [e])) | _ => 0 end) + spent_from (pre ++ [e]) l
  end.
Definition spent `{Program} (l : list logged) : Z := spent_from [] l.

(** The bytes that arrive. *)
Definition incoming (l : list in_event) : bytes := concat (map (fun e => match e with in_data d => d | _ => [] end) l).

Lemma cost_nonneg a : 0 <= cost a.
Proof. destruct a; [apply size_nonneg | done..]. Qed.

Lemma costs_nonneg l : 0 <= costs l.
Proof. induction l as [|a l IH]; [done|]. cbn. pose proof (cost_nonneg a). fold (costs l). lia. Qed.

Lemma spent_from_snoc `{Program} l e : forall pre,
  spent_from pre (l ++ [e]) = spent_from pre l + match e with l_reply _ _ _ => costs (program (pre ++ l ++ [e])) | _ => 0 end.
Proof.
  induction l as [|x l IH]; intros pre; cbn [app spent_from].
  - destruct e; lia.
  - rewrite IH, <- (app_assoc pre [x] (l ++ [e])). cbn [app]. lia.
Qed.

Lemma spent_snoc `{Program} l e :
  spent (l ++ [e]) = spent l + match e with l_reply _ _ _ => costs (program (l ++ [e])) | _ => 0 end.
Proof. apply (spent_from_snoc l e []). Qed.

(** The program's own calls, and the events of the socket. *)
Definition calls (es : list async_event) : list action := omap (fun e => match e with e_call a => Some a | _ => None end) es.
Definition readable (es : list async_event) : nat := length (omap (fun e => match e with e_readable _ => Some tt | _ => None end) es).
Definition writable (es : list async_event) : nat := length (omap (fun e => match e with e_writable _ => Some tt | _ => None end) es).

(** A context over a descriptor whose connection is being opened, with the hooks of
    an event library or none and the callbacks of the connection or none; then the
    events. *)
Definition async_session `{Allocator} `{Strerror} `{Program} (fd : Z) (hooks on_connect on_disconnect : bool) (es : list async_event) : io (option redisAsyncContext) :=
  io* o := redisContextInit in
  match o with
  | None => done None
  | Some c =>
      io* o := async_of_context (Some (mk_context c.(c_err) c.(c_errstr) fd REDIS_CONNECTED c.(c_obuf) c.(c_reader))) in
      match o with
      | None => done None
      | Some ac =>
          let ac := if hooks then attach ac else ac in
          let ac := if on_connect then (redisAsyncSetConnectCallback ac).2 else ac in
          let ac := if on_disconnect then (redisAsyncSetDisconnectCallback ac).2 else ac in
          io* ac := async_run es ac in done (Some ac)
      end
  end.

(** ** Flags *)

Definition bit (ac : redisAsyncContext) (k : Z) : bool := Z.testbit ac.(a_c).(c_flags) k.

Lemma land_bit x k : 0 <= k -> negb (Z.land x (2 ^ k) =? 0) = Z.testbit x k.
Proof.
  intros Hk. destruct (Z.testbit x k) eqn:E.
  - apply negb_true_iff, Z.eqb_neq. intros E0. apply (f_equal (fun z => Z.testbit z k)) in E0.
    by rewrite Z.land_spec, E, Z.pow2_bits_true, Z.bits_0 in E0.
  - apply negb_false_iff, Z.eqb_eq, Z.bits_inj'. intros n Hn. rewrite Z.land_spec, Z.bits_0.
    destruct (Z.eq_dec n k) as [->|Hne]; [by rewrite E | by rewrite Z.pow2_bits_false, andb_false_r by lia].
Qed.

Lemma has_flag_bit ac k : 0 <= k -> has_flag ac (2 ^ k) = bit ac k.
Proof. intros Hk. by apply land_bit. Qed.

Lemma land_or x a b : negb (Z.land x (Z.lor a b) =? 0) = negb (Z.land x a =? 0) || negb (Z.land x b =? 0).
Proof.
  rewrite Z.land_lor_distr_r. destruct (Z.eqb_spec (Z.lor (Z.land x a) (Z.land x b)) 0) as [E|E].
  - apply Z.lor_eq_0_iff in E as [-> ->]. done.
  - destruct (Z.eqb_spec (Z.land x a) 0) as [E1|]; [|done]. destruct (Z.eqb_spec (Z.land x b) 0) as [E2|]; [|done].
    by rewrite E1, E2 in E.
Qed.

(** No new commands are accepted. *)
Definition closing (ac : redisAsyncContext) : bool := bit ac 2 || bit ac 3.

Lemma has_flag_closing ac : has_flag ac (Z.lor REDIS_DISCONNECTING REDIS_FREEING) = closing ac.
Proof. unfold has_flag. rewrite land_or. change REDIS_DISCONNECTING with (2 ^ 2). change REDIS_FREEING with (2 ^ 3). by rewrite !land_bit. Qed.

Lemma bit_set ac f k : bit (set_flag ac f) k = bit ac k || Z.testbit f k.
Proof. unfold bit, set_flag. destruct ac. cbn. apply Z.lor_spec. Qed.

Lemma bit_clear ac f k : bit (clear_flag ac f) k = bit ac k && negb (Z.testbit f k).
Proof. unfold bit, clear_flag. destruct ac. cbn. apply Z.ldiff_spec. Qed.

(** ** Callbacks and what they call *)

Section Fifo.
Context `{HA : Allocator} `{HE : Strerror} `{HP : Program}.
Hypothesis Hg : granted.
(** What the program's own calls ask to send, in all. *)
Variable limit : Z.
Hypothesis Hlimit : forall l, limit + spent l + 128 <= 2 ^ 29.
Hypothesis Hprogram : forall l, Forall ordinary (program l).
(** When the run is to be calm, the callbacks free nothing. *)
Variable calm : Prop.
Hypothesis Hstays : forall l, calm -> Forall stays (program l).

(** The books of a context, with callbacks [pend] taken and not called yet: nothing
    is subscribed, and the commands accepted are the callbacks called and the
    waiting ones, in order. *)
Record booked (ic : bool) (ac : redisAsyncContext) (pend : list redisCallback) : Prop := {
  b_freed : ac.(a_freed) = false;
  b_flags : bit ac 0 = false /\ bit ac 4 = ic /\ bit ac 5 = false /\ bit ac 6 = false;
  b_invalid : ac.(a_invalid) = [];
  b_sub : ac.(a_channels) = empty_dict /\ ac.(a_patterns) = empty_dict;
  b_fns : Forall (fun cb => is_Some cb.(cb_fn)) ac.(a_replies);
  b_queue : commands ac.(a_log) = callbacks ac.(a_log) ++ omap key (pend ++ ac.(a_replies)) }.

(** The output buffer, when [rem] bytes more may be asked for. *)
Definition writes (ac : redisAsyncContext) (rem : Z) : Prop :=
  exists s o, ac.(a_c).(c_obuf) = Some s /\ repr s o /\ 0 <= rem /\ size o + rem <= limit + spent ac.(a_log).

Lemma writes_less ac rem n : 0 <= rem -> 0 <= n -> writes ac (rem + n) -> writes ac rem.
Proof using. intros Hr Hn (s & o & H1 & H2 & H3 & H4). exists s, o. split_and!; [done..|lia]. Qed.

(** What calls from callbacks leave as it is. *)
Record kept (ac ac' : redisAsyncContext) : Prop := {
  k_reader : ac'.(a_c).(c_reader) = ac.(a_c).(c_reader);
  k_err : ac'.(a_c).(c_err) = ac.(a_c).(c_err);
  k_answers : answers ac'.(a_log) = answers ac.(a_log);
  k_commands : commands ac.(a_log) `prefix_of` commands ac'.(a_log);
  k_closing : closing ac = true -> closing ac' = true /\ ac'.(a_replies) = ac.(a_replies) /\ commands ac'.(a_log) = commands ac.(a_log);
  k_freeing : calm -> bit ac' 3 = bit ac 3 }.

Lemma kept_refl ac : kept ac ac.
Proof using. by constructor. Qed.

Lemma kept_trans a b c : kept a b -> kept b c -> kept a c.
Proof using.
  intros [A1 A2 A3 A4 A5 A6] [B1 B2 B3 B4 B5 B6]. constructor; [congruence..|by etransitivity| |].
  - intros Hc. destruct (A5 Hc) as (Hc' & E & E2). destruct (B5 Hc') as (Hc'' & E' & E2'). split; [done|split; congruence].
  - intros Hc. by rewrite B6, A6.
Qed.

(** Setting a flag of a call: [REDIS_DISCONNECTING] or [REDIS_FREEING]. *)
Lemma set_flag_kept ic ac pend f : booked ic ac pend -> f = 2 ^ 2 \/ (f = 2 ^ 3 /\ ~ calm) ->
  booked ic (set_flag ac f) pend /\ kept ac (set_flag ac f) /\ closing (set_flag ac f) = true /\ (forall rem, writes ac rem -> writes (set_flag ac f) rem).
Proof using.
  intros [B1 B2 B3 B4 B5 B6] Hf. assert (closing (set_flag ac f) = true) as Hc.
  { unfold closing. rewrite !bit_set. destruct Hf as [-> | [-> _]]; [by rewrite orb_true_r | by rewrite !orb_true_r]. }
  split_and!; [|constructor; rewrite ?Hc; try by destruct ac|done|by destruct ac].
  - constructor; try by destruct ac. rewrite !bit_set. destruct B2 as (-> & -> & -> & ->). by destruct Hf as [-> | [-> _]]; rewrite ?orb_false_r.
  - intros Hcalm. rewrite bit_set. destruct Hf as [-> | [_ Hf]]; [by rewrite orb_false_r | done].
Qed.

Lemma command_spec ic ac fn p cmd rem : ordinary (act_command fn p cmd) -> booked ic ac [] -> 0 <= rem ->
  closing ac = true \/ writes ac (rem + size cmd) ->
  exists k ac', redisAsyncCommand_ ac fn p cmd = Ok (k, ac') /\ booked ic ac' [] /\ kept ac ac' /\ (writes ac (rem + size cmd) -> writes ac' rem) /\
    (forall i, bit ac' i = bit ac i) /\ (closing ac = false -> commands ac'.(a_log) = commands ac.(a_log) ++ omap key [mk_callback fn p]).
Proof using Hg Hlimit.
  intros [[f ->] (name & args & -> & Hp)] Hb Hrem Hw. unfold redisAsyncCommand_. rewrite has_flag_closing. set (cmd := request_bytes (name :: args)) in *.
  destruct (closing ac) eqn:Hc.
  { exists REDIS_ERR, ac. split; [done|]. split; [done|]. split; [apply kept_refl|]. split; [by apply writes_less, size_nonneg|]. by split. }
  destruct Hw as [|(s & o & Eo & Hr & _ & Hle)]; [done|]. destruct Hb as [B1 (F0 & F4 & F5 & F6) B3 B4 B5 B6].
  assert (size cmd + size o + rem + 128 <= 2 ^ 29) as Hsz by (specialize (Hlimit ac.(a_log)); lia). pose proof (size_nonneg o).
  assert (size name <= size cmd) as Hname.
  { unfold cmd, request_bytes. cbn [map concat]. rewrite size_cons, !size_app. pose proof (bulk_larger name). pose proof (size_nonneg (concat (map bulk args))). size_lia. }
  pose proof (register_plain Hg ac (mk_callback (Some f) p) name args Hp ltac:(unfold INT_MAX; lia) ltac:(by rewrite (has_flag_bit _ 5))) as E.
  fold cmd in E. rewrite E. clear E. cbn [mbind res_bind].
  destruct ac as [c e h oc od r i ch pa ev lg fr]. cbn [a_c a_log a_replies a_freed a_invalid a_channels a_patterns set_replies set_c] in *. unfold redisAppend. rewrite Eo. cbn [live mbind res_bind].
  pose proof (sdscatlen_spec s o cmd Hr ltac:(lia)) as Hpost. unfold post in Hpost.
  destruct (sdscatlen s cmd) as [[s'|]| |]; cbn [mbind res_bind]; try done; [|by destruct (granted_not_refused Hg)].
  eexists REDIS_OK, _. split; [reflexivity|]. split_and!.
  - constructor; cbn [a_c a_log a_replies a_freed a_invalid a_channels a_patterns log el]; try done.
    + apply Forall_app. split; [done|]. by repeat constructor.
    + unfold commands, callbacks in *. rewrite !omap_app, B6. cbn. by rewrite app_nil_r, <- app_assoc.
  - constructor; cbn [a_c a_log a_replies log el]; try done.
    + unfold answers. by rewrite omap_app, app_nil_r.
    + unfold commands. rewrite omap_app. by eexists.
    + unfold closing, bit in *. cbn in *. congruence.
  - intros _. exists s', (o ++ cmd). split_and!; [done..|]. change (size (o ++ cmd) + rem <= limit + spent (lg ++ [l_command (mk_callback (Some f) p)])).
    rewrite spent_snoc, size_app. lia.
  - done.
  - intros _. cbn [a_log log el]. unfold commands. by rewrite omap_app.
Qed.
(** A call from a callback, and all of them. *)
Lemma act_spec fuel a ac w rem : ordinary a -> (calm -> stays a) -> booked true ac [] -> 0 <= rem -> closing ac = true \/ writes ac (rem + cost a) ->
  exists ac', api (S fuel) a ac w = Ok (Some (ac', w)) /\ booked true ac' [] /\ kept ac ac' /\ (writes ac (rem + cost a) -> writes ac' rem).
Proof using Hg Hlimit.
  intros Ha Hs Hb Hrem Hw. pose proof Hb as [B1 (_ & B4 & _) _ _ _ _]. destruct a as [fn p cmd| |]; cbn [api cost] in *.
  - rewrite B1. destruct (command_spec true ac fn p cmd rem Ha Hb Hrem Hw) as (k & ac' & E & H1 & H2 & H3 & _). exists ac'. split; [|done].
    unfold lift. by rewrite E.
  - destruct (set_flag_kept true ac [] REDIS_DISCONNECTING Hb ltac:(by left)) as (H1 & H2 & _ & H3). eexists. split; [|split; [exact H1|split; [exact H2|]]].
    + unfold redisAsyncDisconnect. rewrite B1. change REDIS_IN_CALLBACK with (2 ^ 4). rewrite has_flag_bit, bit_set, B4 by done. done.
    + intros Hw'. apply H3. by rewrite Z.add_0_r in Hw'.
  - destruct (set_flag_kept true ac [] REDIS_FREEING Hb (or_intror (conj eq_refl Hs))) as (H1 & H2 & _ & H3). eexists. split; [|split; [exact H1|split; [exact H2|]]].
    + unfold redisAsyncFree. rewrite B1. change REDIS_IN_CALLBACK with (2 ^ 4). rewrite has_flag_bit, bit_set, B4 by done. done.
    + intros Hw'. apply H3. by rewrite Z.add_0_r in Hw'.
Qed.

Lemma run_actions_spec fuel l : forall ac w rem, Forall ordinary l -> (calm -> Forall stays l) -> booked true ac [] -> 0 <= rem -> closing ac = true \/ writes ac (rem + costs l) ->
  exists ac', run_actions (api (S fuel)) l ac w = Ok (Some (ac', w)) /\ booked true ac' [] /\ kept ac ac' /\ (writes ac (rem + costs l) -> writes ac' rem).
Proof using Hg Hlimit.
  induction l as [|a l IH]; intros ac w rem Hl Hs Hb Hrem Hw; cbn [run_actions].
  - exists ac. split; [done|]. split; [done|]. split; [apply kept_refl|]. cbn. by rewrite Z.add_0_r.
  - apply Forall_cons_iff in Hl as [Ha Hl]. assert ((calm -> stays a) /\ (calm -> Forall stays l)) as [Hsa Hsl] by (split; intros Hc; by apply Hs, Forall_cons_iff in Hc as [? ?]).
    change (costs (a :: l)) with (cost a + costs l) in *. pose proof (costs_nonneg l).
    replace (rem + (cost a + costs l)) with (rem + costs l + cost a) in * by lia.
    destruct (act_spec fuel a ac w (rem + costs l) Ha Hsa Hb ltac:(lia) Hw) as (ac1 & E1 & Hb1 & K1 & W1). rewrite (io_bind_done _ _ _ _ _ E1).
    destruct (IH ac1 w rem Hl Hsl Hb1 Hrem) as (ac2 & E2 & Hb2 & K2 & W2).
    { destruct Hw as [Hc|Hw]; [left; by apply K1 | right; by apply W1]. }
    exists ac2. split; [done|]. split; [done|]. split; [by eapply kept_trans|]. intros Hw'. by apply W2, W1.
Qed.

(** [__redisRunCallback] of a callback taken from the queue. *)
Lemma run_callback_spec fuel ac cb reply w rem : booked false ac [cb] -> is_Some cb.(cb_fn) -> 0 <= rem -> closing ac = true \/ writes ac rem ->
  exists ac', redisRunCallback (api (S fuel)) ac cb reply w = Ok (Some (ac', w)) /\ booked false ac' [] /\ (writes ac rem -> writes ac' rem) /\
    ac'.(a_c).(c_reader) = ac.(a_c).(c_reader) /\ ac'.(a_c).(c_err) = ac.(a_c).(c_err) /\
    answers ac'.(a_log) = answers ac.(a_log) ++ [reply] /\ commands ac.(a_log) `prefix_of` commands ac'.(a_log) /\
    (closing ac = true -> closing ac' = true /\ ac'.(a_replies) = ac.(a_replies) /\ commands ac'.(a_log) = commands ac.(a_log)) /\ (calm -> bit ac' 3 = bit ac 3).
Proof using Hg Hlimit Hprogram Hstays.
  intros [B1 (F0 & F4 & F5 & F6) B3 B4 B5 B6] [fn Efn] Hrem Hw. unfold redisRunCallback. rewrite Efn.
  set (e := l_reply fn (cb_privdata cb) reply). set (ac1 := log (set_flag ac REDIS_IN_CALLBACK) e).
  assert (forall k, bit ac1 k = bit ac k || Z.testbit REDIS_IN_CALLBACK k) as Hbit.
  { intros k. rewrite <- bit_set. unfold ac1. by destruct (set_flag ac REDIS_IN_CALLBACK). }
  assert (a_log ac1 = a_log ac ++ [e] /\ a_replies ac1 = a_replies ac) as [El Er] by (unfold ac1; by destruct ac).
  assert (closing ac1 = closing ac) as Hcl. { unfold closing. by rewrite !Hbit, !orb_false_r. }
  assert (booked true ac1 []) as Hb1.
  { constructor; try (unfold ac1; by destruct ac).
    - rewrite !Hbit, F0, F4, F5, F6. by split_and!.
    - rewrite El, Er. unfold commands, callbacks in *. rewrite !omap_app, B6. cbn. unfold key at 1. rewrite Efn. cbn. by rewrite app_nil_r, <- app_assoc. }
  assert (writes ac rem -> writes ac1 (rem + costs (program (a_log ac1)))) as Hw1.
  { intros (s & o & H1 & H2 & H3 & H4). exists s, o. rewrite El. assert (spent (a_log ac ++ [e]) = spent (a_log ac) + costs (program (a_log ac ++ [e]))) as Es by exact (spent_snoc (a_log ac) e). pose proof (costs_nonneg (program (a_log ac ++ [e]))).
    split_and!; [unfold ac1; by destruct ac|done|lia|lia]. }
  destruct (run_actions_spec fuel (program (a_log ac1)) ac1 w rem (Hprogram _) (Hstays _) Hb1 Hrem) as (ac2 & E2 & Hb2 & [K1 K2 K3 K4 K5 K6] & W2).
  { rewrite Hcl. destruct Hw as [Hw|Hw]; [by left | right; by apply Hw1]. }
  rewrite (io_bind_done _ _ _ _ _ E2). eexists. split; [reflexivity|].
  assert (commands (a_log ac1) = commands (a_log ac)) as Ecmd by (rewrite El; unfold commands; by rewrite omap_app, app_nil_r).
  assert (forall k, bit (clear_flag ac2 REDIS_IN_CALLBACK) k = bit ac2 k && negb (Z.testbit REDIS_IN_CALLBACK k)) as Hbit2 by (intros; apply bit_clear).
  assert (closing (clear_flag ac2 REDIS_IN_CALLBACK) = closing ac2) as Hcl2. { unfold closing. by rewrite !Hbit2, !andb_true_r. }
  split_and!.
  - destruct Hb2 as [C1 (G0 & G4 & G5 & G6) C3 C4 C5 C6]. constructor; try by destruct ac2.
    rewrite !Hbit2, G0, G4, G5, G6. by split_and!.
  - intros Hw'. apply Hw1, W2 in Hw'. by destruct ac2.
  - transitivity (c_reader (a_c ac2)); [by destruct ac2|]. rewrite K1. unfold ac1. by destruct ac.
  - transitivity (c_err (a_c ac2)); [by destruct ac2|]. rewrite K2. unfold ac1. by destruct ac.
  - transitivity (answers (a_log ac2)); [by destruct ac2|]. rewrite K3, El. unfold answers. by rewrite omap_app.
  - transitivity (commands (a_log ac2)); [|by destruct ac2]. etransitivity; [|exact K4]. by rewrite Ecmd.
  - intros Hc. rewrite Hcl2. destruct K5 as (Hc2 & E & E'); [by rewrite Hcl|]. split; [done|].
    split; [transitivity (a_replies ac2); [by destruct ac2|]; by rewrite E|transitivity (commands (a_log ac2)); [by destruct ac2|]; by rewrite E', Ecmd].
  - intros Hc. by rewrite Hbit2, (K6 Hc), Hbit, andb_true_r, orb_false_r.
Qed.
(** ** The end of a context *)

Definition freeable (o : option reader) : Prop := exists r h, o = Some r /\ redisReaderFree r = Ok h.

(** A freed context that accepted [cs]: [vs] were delivered, the other [k] callbacks
    got [NULL]. *)
Definition final (vs : list value) (k : nat) (cs : list (nat * nat)) (ac : redisAsyncContext) : Prop :=
  ac.(a_freed) = true /\ ac.(a_replies) = [] /\ commands ac.(a_log) = cs /\ callbacks ac.(a_log) = cs /\ answers ac.(a_log) = map Some vs ++ replicate k None.

(** The first callback of the queue is taken. *)
Lemma shift_booked ac cb l : booked false ac [] -> ac.(a_replies) = cb :: l ->
  booked false (set_replies ac l) [cb] /\ is_Some cb.(cb_fn) /\ closing (set_replies ac l) = closing ac /\
  (forall rem, writes ac rem -> writes (set_replies ac l) rem).
Proof using.
  intros [B1 B2 B3 B4 B5 B6] E. rewrite E in *. apply Forall_cons_iff in B5 as [Hcb B5]. split_and!; [|done|by destruct ac..].
  destruct ac. constructor; done.
Qed.

Lemma flush_replies_spec fuel n : forall ac w, (length ac.(a_replies) < n)%nat -> booked false ac [] -> closing ac = true ->
  exists ac', flush_replies (api (S fuel)) n ac w = Ok (Some (ac', w)) /\ booked false ac' [] /\ closing ac' = true /\ ac'.(a_replies) = [] /\
    ac'.(a_c).(c_reader) = ac.(a_c).(c_reader) /\ answers ac'.(a_log) = answers ac.(a_log) ++ replicate (length ac.(a_replies)) None /\
    commands ac'.(a_log) = commands ac.(a_log).
Proof using Hg Hlimit Hprogram Hstays.
  induction n as [|n IH]; intros ac w Hn Hb Hc; [lia|]. cbn [flush_replies]. destruct (a_replies ac) as [|cb l] eqn:E; cbn [redisShiftCallback].
  - exists ac. cbn. by rewrite app_nil_r.
  - destruct (shift_booked ac cb l Hb E) as (Hb1 & Hcb & Hc1 & _). rewrite Hc in Hc1.
    destruct (run_callback_spec fuel (set_replies ac l) cb None w 0 Hb1 Hcb ltac:(lia) (or_introl Hc1)) as (ac1 & E1 & Hb2 & _ & Hr & _ & Ha & _ & Hcl & _).
    rewrite (io_bind_done _ _ _ _ _ E1). destruct (Hcl Hc1) as (Hc2 & Er & Ecmd). assert (a_replies ac1 = l) as El by (rewrite Er; by destruct ac).
    destruct (IH ac1 w) as (ac2 & E2 & Hb3 & Hc3 & Hr3 & Hrd & Ha3 & Ecmd3); [rewrite El; cbn in Hn; lia|done|done|].
    exists ac2. split_and!; [done..| | |rewrite Ecmd3, Ecmd; by destruct ac].
    + rewrite Hrd, Hr. by destruct ac.
    + rewrite Ha3, Ha, El. cbn [length replicate]. rewrite <- app_assoc. by destruct ac.
Qed.

(** Nothing is subscribed. *)
Lemma release_sub_spec fuel pvariant ac w : get_sub ac pvariant = empty_dict ->
  release_sub (api (S fuel)) pvariant ac w = Ok (Some (set_sub ac pvariant empty_dict, w)).
Proof using Hg.
  intros E. unfold release_sub. rewrite (io_bind_done _ _ new_iterator w w) by (unfold lift, dictGetIterator; by rewrite Hg).
  rewrite E, (io_bind_done _ _ ac w w).
  - unfold io_bind, lift. by rewrite E.
  - cbn [used empty_dict Z.to_nat flush_sub]. unfold io_bind, lift. by rewrite E.
Qed.

Lemma redisAsyncFree_spec fuel ac w vs : booked false ac [] -> closing ac = true -> answers ac.(a_log) = map Some vs -> freeable ac.(a_c).(c_reader) ->
  exists ac' w', redisAsyncFree_ (api (S fuel)) ac w = Ok (Some (ac', w')) /\ final vs (length ac.(a_replies)) (commands ac.(a_log)) ac'.
Proof using Hg Hlimit Hprogram Hstays.
  intros Hb Hc Ha (r & h & Er & Eh). unfold redisAsyncFree_. rewrite (b_freed _ _ _ Hb).
  destruct (flush_replies_spec fuel (S (length (a_replies ac))) ac w ltac:(lia) Hb Hc) as (ac1 & E1 & [C1 C2 C3 [C4 C4'] C5 C6] & Hc1 & Hr1 & Hrd & Ha1 & Ecmd).
  rewrite (io_bind_done _ _ _ _ _ E1), C3. cbn [flush_invalid length]. rewrite C3. cbn [redisShiftCallback].
  rewrite (io_bind_done _ _ ac1 w w eq_refl), (io_bind_done _ _ _ _ _ (release_sub_spec fuel false ac1 w C4)).
  assert (set_sub ac1 false empty_dict = ac1) as -> by (destruct ac1; cbn in *; by rewrite C4).
  rewrite (io_bind_done _ _ _ _ _ (release_sub_spec fuel true ac1 w C4')).
  assert (set_sub ac1 true empty_dict = ac1) as -> by (destruct ac1; cbn in *; by rewrite C4').
  set (ac2 := if a_onDisconnect (el ac1 cleanup) && _ then _ else _).
  assert (a_c ac2 = a_c ac1 /\ a_replies ac2 = a_replies ac1 /\ (a_log ac2 = a_log ac1 \/ exists z, a_log ac2 = a_log ac1 ++ [l_disconnect z])) as (Ec & Er2 & El).
  { unfold ac2. destruct (_ && _); destruct ac1; cbn; (split; [done|]); (split; [done|]); [right; by eexists | by left]. }
  clearbody ac2. assert (redisFree (a_c ac2) w = Ok (Some (h, if 0 <? c_fd (a_c ac2) then sys_close w (c_fd (a_c ac2)) else w))) as Efree.
  { unfold redisFree. by rewrite Ec, Hrd, Er, Eh. }
  rewrite (io_bind_done _ _ _ _ _ Efree). destruct ac2 as [c2 e2 h2 oc2 od2 r2 i2 ch2 pa2 ev2 lg2 fr2]. cbn [a_log a_replies] in *.
  eexists _, _. split; [reflexivity|]. split; [done|]. split; [by cbn; rewrite Er2|]. cbn [a_log]. rewrite Hr1 in C6. cbn in C6. rewrite app_nil_r in C6.
  assert (commands lg2 = commands (a_log ac1) /\ callbacks lg2 = callbacks (a_log ac1) /\ answers lg2 = answers (a_log ac1)) as (-> & -> & ->).
  { destruct El as [-> |(z & ->)]; [done|]. unfold commands, callbacks, answers. rewrite !omap_app. cbn. by rewrite !app_nil_r. }
  split; [exact Ecmd|]. split; [by rewrite <- C6, Ecmd|]. by rewrite Ha1, Ha.
Qed.

(** [__redisAsyncDisconnect]: after an error, or with nothing waiting. *)
Lemma redisAsyncDisconnect_spec fuel ac w vs : booked false ac [] -> ac.(a_c).(c_err) <> 0 \/ (ac.(a_replies) = [] /\ closing ac = true) ->
  answers ac.(a_log) = map Some vs -> freeable ac.(a_c).(c_reader) ->
  exists ac' w', redisAsyncDisconnect_ (api (S fuel)) ac w = Ok (Some (ac', w')) /\ final vs (length ac.(a_replies)) (commands ac.(a_log)) ac'.
Proof using Hg Hlimit Hprogram Hstays.
  intros Hb He Ha Hf. unfold redisAsyncDisconnect_.
  assert (booked false (redisAsyncCopyError ac) [] /\ closing (redisAsyncCopyError ac) = closing ac /\ answers (a_log (redisAsyncCopyError ac)) = map Some vs /\
    a_err (redisAsyncCopyError ac) = c_err (a_c ac) /\ a_replies (redisAsyncCopyError ac) = a_replies ac /\ freeable (c_reader (a_c (redisAsyncCopyError ac)))) as (Hb1 & Hc1 & Ha1 & He1 & Hr1 & Hf1).
  { destruct ac. split; [|done]. destruct Hb. by constructor. }
  assert (commands (a_log (redisAsyncCopyError ac)) = commands (a_log ac)) as Hcmd1 by (by destruct ac).
  rewrite He1, Hr1. destruct (Z.eqb_spec (c_err (a_c ac)) 0) as [E0|Hne].
  - destruct He as [|[Hr Hc]]; [done|]. rewrite Hr. cbn [redisShiftCallback].
    assert (set_replies (redisAsyncCopyError ac) [] = redisAsyncCopyError ac) as -> by (destruct ac; cbn in *; by rewrite Hr).
    replace (length []) with (length (a_replies (redisAsyncCopyError ac))) by (by rewrite Hr1, Hr). rewrite <- Hcmd1. apply redisAsyncFree_spec; [done|congruence|done..].
  - destruct (set_flag_kept false _ [] REDIS_DISCONNECTING Hb1 ltac:(by left)) as (Hb2 & [K1 K2 K3 K4 K5] & Hc2 & _).
    replace (length (a_replies ac)) with (length (a_replies (set_flag (redisAsyncCopyError ac) REDIS_DISCONNECTING))) by (by destruct ac).
    replace (commands (a_log ac)) with (commands (a_log (set_flag (redisAsyncCopyError ac) REDIS_DISCONNECTING))) by (by destruct ac).
    apply redisAsyncFree_spec; [done|done|congruence|by rewrite K1].
Qed.
(** ** Replies *)

(** All the replies of the stream, and how it ends. *)
Variable total : list value * outcome.
(** The commands that a calm run begins with. *)
Variable base : list (nat * nat).

(** A context without errors over a system without failures. *)
Record quiet (ac : redisAsyncContext) (w : world) : Prop := {
  q_err : ac.(a_c).(c_err) = 0;
  q_freeing : bit ac 3 = false;
  q_in : Forall calm_in w.(w_in);
  q_out : Forall calm_out w.(w_out);
  q_commands : base `prefix_of` commands ac.(a_log) }.

Lemma quiet_kept ac ac' w : quiet ac w -> ac'.(a_c).(c_err) = ac.(a_c).(c_err) -> bit ac' 3 = bit ac 3 ->
  commands ac.(a_log) `prefix_of` commands ac'.(a_log) -> quiet ac' w.
Proof using. intros [Q1 Q2 Q3 Q4 Q5] E1 E2 Hle. constructor; [by rewrite E1|by rewrite E2|done|done|by etransitivity]. Qed.

Lemma quiet_same ac ac' w : quiet ac w -> ac'.(a_c).(c_err) = ac.(a_c).(c_err) -> (forall k, bit ac' k = bit ac k) -> ac'.(a_log) = ac.(a_log) -> quiet ac' w.
Proof using. intros [Q1 Q2 Q3 Q4 Q5] E1 E2 E3. constructor; [by rewrite E1|by rewrite E2|done|done|by rewrite E3]. Qed.

Definition prefixed (vs : list value) (p : list value * outcome) : list value * outcome := (vs ++ p.1, p.2).

(** [vs] are delivered; the reader has at most [n] bytes of what comes next. *)
Definition reads (n : nat) (o : option reader) (w : world) (vs : list value) : Prop :=
  exists r ls ty d, o = Some r /\ state r ls ty d /\ (length d <= n)%nat /\ r.(rd_len) + size (incoming w.(w_in)) <= 2 ^ 29 /\
    total = prefixed vs (parse_all ls ty (d ++ incoming w.(w_in))).

(** The reply [v] is out, at [p]. *)
Definition holds (n : nat) (r : reader) (w : world) (vs : list value) (p : nat) (v : value) : Prop :=
  exists t d, root t = p /\ tree_value t = v /\ state r [] (-1) d /\ r.(rd_ridx) = -1 /\ heap_has r.(rd_heap) t /\ NoDup (nodes t) /\
    (length d < n)%nat /\ r.(rd_len) + size (incoming w.(w_in)) <= 2 ^ 29 /\ total = prefixed (vs ++ [v]) (parse_all [] (-1) (d ++ incoming w.(w_in))).

Lemma reads_prefix n o w vs : reads n o w vs -> vs `prefix_of` total.1.
Proof using. intros (r & ls & ty & d & _ & _ & _ & _ & ->). by eexists. Qed.

Lemma reads_freeable n o w vs : reads n o w vs -> freeable o.
Proof using. intros (r & ls & ty & d & -> & Hst & _). destruct (free_reader _ _ _ _ Hst) as (h & E). by exists r, h. Qed.

Lemma failed_freeable r code : failed r code -> freeable (Some r).
Proof using. intros (_ & _ & _ & _ & Hrep & _). exists r. unfold redisReaderFree. rewrite Hrep. by eexists. Qed.

Lemma next_reply_spec n c w vs : blocking c = false -> reads n c.(c_reader) w vs ->
  (exists r m, redisGetReply c w = Ok (Some ((REDIS_OK, None, set_reader c r), w)) /\ reads m (Some r) w vs /\ (incoming w.(w_in) = [] -> vs = total.1)) \/
  (exists r p v, redisGetReply c w = Ok (Some ((REDIS_OK, Some (obj_reply p), set_reader c r), w)) /\ holds n r w vs p v) \/
  (exists c', redisGetReply c w = Ok (Some ((REDIS_ERR, None, c'), w)) /\ c'.(c_err) <> 0 /\ freeable c'.(c_reader) /\
    c'.(c_flags) = c.(c_flags) /\ c'.(c_obuf) = c.(c_obuf) /\ total.2 = o_protocol) \/
  (exists u, redisGetReply c w = UB u /\ total.2 = o_undefined u).
Proof using Hg.
  intros Hbl (r & ls & ty & d & Er & Hst & Hn & Hlen & Et). unfold redisGetReply, redisGetReplyFromReader. rewrite Er. cbn [live mbind res_bind].
  pose proof (size_nonneg (incoming (w_in w))). pose proof (state_ready _ _ _ _ Hst) as Hready.
  destruct (getReply_spec r ls ty d Hst ltac:(lia)) as [Hr|[Href _]]; [|by destruct (granted_not_refused Hg)].
  rewrite parse_all_eq, parse_app in Et by done. destruct (parse ls ty d) as [ls' ty' d'|v d'| |u] eqn:Ep; cbn [outcome_app] in Et.
  - destruct Hr as (r' & -> & Hst' & Hle). left. exists r', (length d'). cbn [mbind res_bind REDIS_OK REDIS_ERR Z.eqb]. change (blocking (set_reader c r')) with (blocking c). rewrite Hbl. split; [done|].
    split; [exists r', ls', ty', d'; split_and!; [done|done|lia|lia|]; rewrite Et, (parse_all_eq ls') by (by eapply state_ready); done|].
    intros Hnil. rewrite Hnil, app_nil_r in Et. rewrite (parse_wait_again _ _ _ _ _ _ Hready Ep) in Et. rewrite Et. unfold prefixed. cbn. by rewrite app_nil_r.
  - destruct Hr as (r' & t & -> & Hst' & Hle & Ht & Hnd & Hv & Hi). right; left. exists r', (root t), v. split; [done|].
    exists t, d'. apply parse_reply in Ep; [|done]. split_and!; [done..|lia|lia|]. rewrite Et. destruct (parse_all _ _ _) as [vs' o]. unfold prefixed. cbn. by rewrite <- app_assoc.
  - destruct Hr as (r' & -> & Hf). right; right; left. pose proof Hf as (He & _). cbn. rewrite He. cbn. eexists. split; [done|]. split; [done|].
    split; [by eapply failed_freeable|]. split_and!; [done..|]. by rewrite Et.
  - right; right; right. exists u. rewrite Hr. split; [done|]. by rewrite Et.
Qed.

(** Only the reader changes. *)
Lemma set_c_booked ic ac pend c : booked ic ac pend -> c.(c_flags) = ac.(a_c).(c_flags) -> booked ic (set_c ac c) pend /\ closing (set_c ac c) = closing ac.
Proof using.
  intros [B1 B2 B3 B4 B5 B6] Ef. assert (forall k, bit (set_c ac c) k = bit ac k) as Hbit by (intros k; unfold bit; destruct ac; cbn in *; by rewrite Ef).
  split; [|unfold closing; by rewrite !Hbit]. constructor; try by destruct ac. by rewrite !Hbit.
Qed.

(** The reply is freed when its callback returned. *)
Lemma free_reply_spec n ac r w vs p v : ac.(a_c).(c_reader) = Some r -> holds n r w vs p v ->
  exists r', free_reply ac p = Ok (set_c ac (set_reader ac.(a_c) r')) /\ reads (pred n) (Some r') w (vs ++ [v]) /\
    read_reply (S (length r.(rd_heap))) r.(rd_heap) p = Some v.
Proof using.
  intros Er (t & d & <- & <- & Hst & Hi & Ht & Hnd & Hn & Hlen & Et). unfold free_reply. rewrite Er. cbn [live mbind res_bind].
  destruct (free_state r t d Hst Hi Ht Hnd) as (h & E & Hst2). rewrite E. cbn [mbind res_bind]. exists (set_heap r h). split; [done|]. split.
  - exists (set_heap r h), [], (-1), d. split_and!; [done|done|lia|done|done].
  - apply read_tree; [done|]. pose proof (nodes_heap_length _ _ Ht Hnd). lia.
Qed.
(** A context between events. *)
Definition going (rem : Z) (ac : redisAsyncContext) (w : world) : Prop :=
  exists vs n, booked false ac [] /\ writes ac rem /\ reads n ac.(a_c).(c_reader) w vs /\ answers ac.(a_log) = map Some vs /\
    (calm -> quiet ac w /\ (incoming w.(w_in) = [] -> vs = total.1)).

(** A freed one, with what was delivered. *)
Definition ended (ac : redisAsyncContext) : Prop :=
  exists vs k cs, vs `prefix_of` total.1 /\ final vs k cs ac /\ (calm -> k = 0%nat /\ vs = total.1 /\ base `prefix_of` cs).

(** The stream is bad, or has a reply more than the [m] commands. *)
Definition bad (m : nat) (u : ub) : Prop := ~ calm /\ (total.2 = o_undefined u \/ (u = assertion_failed /\ (m < length total.1)%nat)).

(** What an event leaves, when reads and writes took nothing. *)
Definition outcome_of (m : nat) (rem : Z) (w : world) (o : res (option (redisAsyncContext * world))) : Prop :=
  match o with
  | Ok (Some (ac, w')) => (w' = w /\ going rem ac w) \/ ended ac
  | UB u => bad m u
  | _ => False
  end.

Lemma outcome_ended m rem w o vs k cs : vs `prefix_of` total.1 -> (calm -> k = 0%nat /\ vs = total.1 /\ base `prefix_of` cs) ->
  (exists ac' w', o = Ok (Some (ac', w')) /\ final vs k cs ac') -> outcome_of m rem w o.
Proof using. intros Hp Hc (ac & w' & -> & Hf). right. by exists vs, k, cs. Qed.

Lemma length_callbacks l : length (callbacks l) = length (answers l).
Proof using. unfold callbacks, answers. induction l as [|[] l IH]; cbn; [done|done|by f_equal|done|done]. Qed.

Lemma length_queue ic ac : booked ic ac [] -> ac.(a_replies) = [] -> length (commands ac.(a_log)) = length (answers ac.(a_log)).
Proof using. intros [_ _ _ _ _ B6] E. rewrite B6, E. cbn. rewrite app_nil_r. apply length_callbacks. Qed.

Lemma holds_prefix n r w vs p v : holds n r w vs p v -> vs `prefix_of` total.1 /\ (length vs < length total.1)%nat.
Proof using.
  intros (t & d & _ & _ & _ & _ & _ & _ & _ & _ & E). rewrite E. unfold prefixed. cbn. rewrite <- app_assoc. split; [by eexists|].
  rewrite !length_app. cbn. lia.
Qed.

(** A calm run has a stream of whole replies, or with a piece of one at its end, and
    a command for each. *)
Definition steady : Prop := (exists ls ty d, total.2 = o_wait ls ty d) /\ (length total.1 <= length base)%nat.
Hypothesis Hwaits : calm -> steady.

Lemma no_protocol_error : total.2 = o_protocol -> ~ calm.
Proof using Hwaits. intros E Hc. destruct (Hwaits Hc) as [(? & ? & ? & E') _]. congruence. Qed.

Lemma undefined_bad m u : total.2 = o_undefined u -> bad m u.
Proof using Hwaits. intros E. split; [|by left]. intros Hc. destruct (Hwaits Hc) as [(? & ? & ? & E') _]. congruence. Qed.

(** With nothing waiting every reply was delivered. *)
Lemma answered_all ic ac w vs : booked ic ac [] -> ac.(a_replies) = [] -> answers ac.(a_log) = map Some vs -> vs `prefix_of` total.1 -> calm -> quiet ac w ->
  length ac.(a_replies) = 0%nat /\ vs = total.1 /\ base `prefix_of` commands ac.(a_log).
Proof using Hwaits.
  intros Hb Eq Ha [ws E] Hc Hq. pose proof (length_queue _ _ Hb Eq) as Hlen. rewrite Ha, length_map in Hlen.
  pose proof (prefix_length _ _ (q_commands _ _ Hq)) as Hle. destruct (Hwaits Hc) as [_ Hle2].
  rewrite Eq. split; [done|]. split; [|apply Hq]. rewrite E, length_app in Hle2. destruct ws; [by rewrite E, app_nil_r|cbn in Hle2; lia].
Qed.

Lemma process_spec f fuel : forall n cb ac w rem vs m, (n < fuel)%nat -> booked false ac [] -> 0 <= rem -> writes ac rem ->
  reads n ac.(a_c).(c_reader) w vs -> answers ac.(a_log) = map Some vs -> (m <= length (commands ac.(a_log)))%nat -> (calm -> quiet ac w) ->
  outcome_of m rem w (process_callbacks (api (S f)) fuel cb ac w).
Proof using Hg Hlimit Hprogram Hstays Hwaits.
  induction fuel as [|fuel IH]; intros n cb ac w rem vs m Hn Hb Hrem Hw Hr Ha Hm Hq; [lia|]. cbn [process_callbacks].
  pose proof (reads_prefix _ _ _ _ Hr) as Hpre. assert (blocking (a_c ac) = false) as Hbl by apply Hb.
  destruct (next_reply_spec n (a_c ac) w vs Hbl Hr) as [(r & k & E & Hr1 & Hall)|[(r & p & v & E & Hh)|[(c' & E & He & Hfr & Ef & Eo & Hproto)|(u & E & Hu)]]].
  4:{ unfold io_bind. rewrite E. by apply undefined_bad. }
  3:{ rewrite (io_bind_done _ _ _ _ _ E). cbn [REDIS_OK REDIS_ERR Z.eqb negb].
    destruct (set_c_booked false ac [] c' Hb Ef) as [Hb1 _]. eapply outcome_ended; [exact Hpre|by intros ?%no_protocol_error|].
    apply redisAsyncDisconnect_spec; [done|left; by destruct ac|by destruct ac|by destruct ac]. }
  all: rewrite (io_bind_done _ _ _ _ _ E); cbn [REDIS_OK Z.eqb negb];
    destruct (set_c_booked false ac [] (set_reader (a_c ac) r) Hb eq_refl) as [Hb1 Hc1];
    assert (a_c (set_c ac (set_reader (a_c ac) r)) = set_reader (a_c ac) r) as Ec by (by destruct ac);
    assert (a_log (set_c ac (set_reader (a_c ac) r)) = a_log ac /\ a_replies (set_c ac (set_reader (a_c ac) r)) = a_replies ac) as [El Ep] by (by destruct ac);
    assert (writes (set_c ac (set_reader (a_c ac) r)) rem) as Hw1 by (by destruct ac);
    assert (calm -> quiet (set_c ac (set_reader (a_c ac) r)) w) as Hq1 by (intros Hc; eapply quiet_same; [by apply Hq|by destruct ac..]);
    set (ac1 := set_c ac (set_reader (a_c ac) r)) in *; clearbody ac1.
  - (* no reply *)
    rewrite <- El in Ha. assert (reads k (c_reader (a_c ac1)) w vs) as Hr2 by (by rewrite Ec).
    destruct Hw1 as (s & o & Es & Hs & Hw1). rewrite Es. cbn [live]. rewrite (io_bind_done _ _ s w w eq_refl).
    change REDIS_DISCONNECTING with (2 ^ 2). change REDIS_MONITORING with (2 ^ 6). rewrite !has_flag_bit by done.
    destruct (bit ac1 2 && (sdslen s =? 0) && _) eqn:Ed.
    + apply andb_true_iff in Ed as [[Hd _]%andb_true_iff Hnone]. assert (a_replies ac1 = []) as Eq by (by destruct (a_replies ac1)).
      eapply outcome_ended; [exact Hpre|intros Hc; by eapply answered_all; [..|by apply Hq1]|]. apply redisAsyncDisconnect_spec; [done| |done|by eapply reads_freeable].
      right. split; [done|]. unfold closing. by rewrite Hd.
    + destruct (b_flags _ _ _ Hb1) as (_ & _ & _ & ->). left. split; [done|]. exists vs, k. split_and!; [done| |done|done|by intros Hc; split; [apply Hq1|]]. by exists s, o.
  - (* a reply *)
    rewrite <- El in Ha, Hm. assert (c_reader (a_c ac1) = Some r) as Er by (by rewrite Ec). destruct (holds_prefix _ _ _ _ _ _ Hh) as [_ Hlt].
    destruct (free_reply_spec n ac1 r w vs p v Er Hh) as (_ & _ & _ & Eread).
    rewrite Er. cbn [live]. rewrite (io_bind_done _ _ r w w eq_refl), Eread. cbn [live]. rewrite (io_bind_done _ _ v w w eq_refl).
    destruct (a_replies ac1) as [|cb1 l] eqn:Eq; cbn [redisShiftCallback].
    + pose proof (length_queue _ _ Hb1 Eq) as Hlen. rewrite Ha, length_map in Hlen.
      assert (~ calm) as Hnc by (intros Hc; pose proof (prefix_length _ _ (q_commands _ _ (Hq1 Hc))); destruct (Hwaits Hc) as [_ ?]; lia). destruct (is_error v) as [text|].
      * set (c' := mk_context _ _ _ _ _ _). destruct (set_c_booked false ac1 [] c' Hb1 eq_refl) as [Hb2 _].
        destruct (free_reply_spec n (set_c ac1 c') r w vs p v) as (r' & -> & Hr2 & _); [by destruct ac1|done|]. unfold lift at 1. unfold io_bind at 1. cbn [mbind res_bind].
        eapply outcome_ended; [exact Hpre|done|]. apply redisAsyncDisconnect_spec; [|left; by destruct ac1|by destruct ac1|].
        -- apply set_c_booked; [done|by destruct ac1].
        -- apply reads_freeable in Hr2. by destruct ac1.
      * change REDIS_SUBSCRIBED with (2 ^ 5). change REDIS_MONITORING with (2 ^ 6). rewrite !has_flag_bit by done.
        destruct (b_flags _ _ _ Hb1) as (_ & _ & -> & ->). split; [done|]. right. split; [done|]. lia.
    + destruct (shift_booked ac1 cb1 l Hb1 Eq) as (Hb2 & [fn Hcb] & _ & Hw2). rewrite (io_bind_done _ _ (Some cb1, set_replies ac1 l) w w eq_refl), Hcb.
      destruct (run_callback_spec f (set_replies ac1 l) cb1 (Some v) w rem Hb2 ltac:(by eexists) Hrem) as (ac2 & E2 & Hb3 & Hw3 & Hrd & Herr & Ha2 & Hm2 & _ & Hf2); [right; by apply Hw2|].
      rewrite (io_bind_done _ _ _ _ _ E2).
      destruct (free_reply_spec n ac2 r w vs p v) as (r' & E3 & Hr3 & _); [rewrite Hrd; by destruct ac1|done|].
      rewrite E3, (io_bind_done _ _ (set_c ac2 (set_reader (a_c ac2) r')) w w eq_refl).
      destruct (set_c_booked false ac2 [] (set_reader (a_c ac2) r') Hb3 eq_refl) as [Hb4 Hc4]. set (ac3 := set_c ac2 (set_reader (a_c ac2) r')) in *.
      assert (c_reader (a_c ac3) = Some r' /\ answers (a_log ac3) = map Some (vs ++ [v])) as [Er3 Ha3].
      { unfold ac3. split; [by destruct ac2|]. transitivity (answers (a_log ac2)); [by destruct ac2|]. rewrite Ha2, map_app, <- Ha. by destruct ac1. }
      assert (calm -> quiet ac3 w) as Hq3.
      { intros Hc. eapply quiet_kept; [by apply Hq1| | |]; unfold ac3.
        - destruct ac1, ac2. cbn in *. congruence.
        - transitivity (bit ac2 3); [by destruct ac2|]. rewrite (Hf2 Hc). by destruct ac1.
        - transitivity (commands (a_log ac2)); [|by destruct ac2]. by destruct ac1. }
      rewrite <- Er3 in Hr3. change REDIS_FREEING with (2 ^ 3). rewrite has_flag_bit by done. destruct (bit ac3 3) eqn:Ef3.
      * eapply outcome_ended; [by eapply reads_prefix|by intros Hc; pose proof (q_freeing _ _ (Hq3 Hc)); congruence|]. apply redisAsyncFree_spec; [done|unfold closing; by rewrite Ef3, orb_true_r|done|by eapply reads_freeable].
      * destruct Hh as (? & ? & _ & _ & _ & _ & _ & _ & Hlt' & _). apply (IH (pred n) cb1 ac3 w rem (vs ++ [v]) m); try done; [lia| |].
        -- specialize (Hw3 (Hw2 rem Hw1)). unfold ac3. by destruct ac2.
        -- apply prefix_length in Hm2. unfold ac3. destruct ac1, ac2. cbn in *. lia.
Qed.
(** ** The socket *)

(** At most one answer of the system is used; a calm one is used up. *)
Definition reads_one (w w' : world) : Prop := w'.(w_out) = w.(w_out) /\ (length w.(w_in) <= S (length w'.(w_in)))%nat /\
  (calm -> length w.(w_in) = S (length w'.(w_in)) /\ Forall calm_in w'.(w_in)).
Definition writes_one (w w' : world) : Prop := w'.(w_in) = w.(w_in) /\ (length w.(w_out) <= S (length w'.(w_out)))%nat /\
  (Forall calm_out w.(w_out) -> Forall calm_out w'.(w_out)).

Lemma quiet_read ac w w' : quiet ac w -> calm -> reads_one w w' -> quiet ac w'.
Proof using. intros [Q1 Q2 Q3 Q4 Q5] Hc (E & _ & Hin). destruct (Hin Hc) as [_ H']. constructor; [done..|by rewrite E|done]. Qed.

Lemma quiet_write ac w w' : quiet ac w -> writes_one w w' -> quiet ac w'.
Proof using. intros [Q1 Q2 Q3 Q4 Q5] (E & _ & Hout). constructor; [done..|by rewrite E|by apply Hout|done]. Qed.

Lemma calm_again c e : blocking c = false -> calm_in (in_errno e) \/ calm_out (out_errno e) -> try_again c e = true.
Proof using. intros Hb He. unfold try_again. rewrite Hb. by destruct He as [He|He], e. Qed.

Definition same_context (c c' : redisContext) : Prop := c'.(c_flags) = c.(c_flags) /\ c'.(c_obuf) = c.(c_obuf).

Lemma buffer_read_spec n c w vs : reads n c.(c_reader) w vs -> w.(w_in) <> [] ->
  (calm -> c.(c_err) = 0 /\ blocking c = false /\ Forall calm_in w.(w_in)) ->
  exists k c' w', redisBufferRead c w = Ok (Some ((k, c'), w')) /\ same_context c c' /\ reads_one w w' /\
    (k = REDIS_OK /\ c'.(c_err) = c.(c_err) /\ (exists n', reads n' c'.(c_reader) w' vs) \/ k = REDIS_ERR /\ ~ calm /\ c'.(c_err) <> 0 /\ freeable c'.(c_reader)).
Proof using Hg.
  intros Hr Hin Hcalm. unfold redisBufferRead. destruct (Z.eqb_spec (c_err c) 0) as [He|He]; cbn [negb].
  2:{ assert (~ calm) as Hnc by (by intros [? _]%Hcalm). exists REDIS_ERR, c, w. split; [done|]. split; [done|]. split; [by split; [|split; [lia|]]|].
    right. split; [done|]. split; [done|]. split; [done|by eapply reads_freeable]. }
  pose proof (reads_freeable _ _ _ _ Hr) as Hf. destruct Hr as (r & ls & ty & d & Er & Hst & Hn & Hlen & Et).
  unfold io_bind, sys, sys_read. destruct (w_in w) as [|e l] eqn:Ew; [done|]. pose proof (size_nonneg (incoming l)).
  assert (calm -> blocking c = false /\ calm_in e /\ Forall calm_in l) as Hhead by (intros Hc; destruct (Hcalm Hc) as (_ & ? & [? ?]%Forall_cons_iff); done).
  assert (reads_one w (HiredisContext.set_in w l)) as Hone by (split; [done|]; rewrite Ew; split; [cbn; lia|by intros Hc; destruct (Hhead Hc) as (_ & _ & ?)]).
  destruct e as [x| |e]; cbn [mbind res_bind].
  - change (incoming (in_data x :: l)) with (x ++ incoming l) in *. rewrite size_app in Hlen. pose proof (size_nonneg x).
    destruct (take read_size x) as [|b y] eqn:Ex.
    + assert (x = []) as -> by (destruct x; [done|discriminate]). eexists REDIS_ERR, _, _. split; [reflexivity|]. split; [done|]. split; [exact Hone|].
      right. split; [done|]. split; [by intros Hc; destruct (Hhead Hc) as (_ & [? _] & _); cbn in *; lia|]. by rewrite Er in Hf |- *.
    + rewrite Er. unfold lift. cbn [live mbind res_bind]. rewrite <- Ex. pose proof (take_drop read_size x) as Etd. apply (f_equal size) in Etd as Esz. rewrite size_app in Esz.
      pose proof (size_nonneg (drop read_size x)).
      destruct (feed_spec r ls ty d (take read_size x) Hst ltac:(lia)) as [(r' & -> & Hst' & Hle)|[Href _]]; [|by destruct (granted_not_refused Hg)].
      cbn [mbind res_bind REDIS_OK Z.eqb negb]. eexists _, _, _. split; [reflexivity|]. split; [done|].
      assert (incoming (w_in (HiredisContext.set_in w (if (length x <=? read_size)%nat then l else in_data (drop read_size x) :: l))) = drop read_size x ++ incoming l) as Ein.
      { destruct (Nat.leb_spec (length x) read_size); [by rewrite drop_ge | done]. }
      split.
      { split; [done|]. rewrite Ew. split; [cbn; destruct (_ <=? _)%nat; cbn; lia|]. intros Hc. destruct (Hhead Hc) as (_ & [_ Hle2] & Hl). by apply Nat.leb_le in Hle2 as ->. }
      left. split; [done|]. split; [done|]. exists (length (d ++ take read_size x)), r', ls, ty, (d ++ take read_size x).
      split_and!; [done|done|lia|rewrite Ein, size_app; lia|]. by rewrite Et, Ein, <- (app_assoc d), (app_assoc (take read_size x)), take_drop.
  - unfold lift. cbn. eexists REDIS_ERR, _, _. split; [reflexivity|]. split; [done|]. split; [exact Hone|]. right. split; [done|]. split; [by intros Hc; destruct (Hhead Hc) as (_ & [] & _)|]. by rewrite Er in Hf |- *.
  - destruct (try_again c e) eqn:Etry.
    + exists REDIS_OK, c, (HiredisContext.set_in w l). split; [done|]. split; [done|]. split; [exact Hone|]. left. split; [done|]. split; [done|]. exists n, r, ls, ty, d. by split_and!.
    + unfold lift. cbn. eexists REDIS_ERR, _, _. split; [reflexivity|]. split; [done|]. split; [exact Hone|]. right. split; [done|]. split; [|by rewrite Er in Hf |- *].
      intros Hc. destruct (Hhead Hc) as (Hb & He2 & _). rewrite (calm_again c e Hb) in Etry by (by left). done.
Qed.

Lemma buffer_write_spec c w s o : c.(c_obuf) = Some s -> repr s o -> size o <= 2 ^ 29 -> w.(w_out) <> [] ->
  (calm -> c.(c_err) = 0 /\ blocking c = false /\ Forall calm_out w.(w_out)) ->
  exists k b c' w', redisBufferWrite c w = Ok (Some ((k, b, c'), w')) /\ c'.(c_flags) = c.(c_flags) /\ c'.(c_reader) = c.(c_reader) /\ writes_one w w' /\
    (k = REDIS_OK /\ c'.(c_err) = c.(c_err) /\ (exists s' o', c'.(c_obuf) = Some s' /\ repr s' o' /\ size o' <= size o) \/ k = REDIS_ERR /\ ~ calm /\ c'.(c_err) <> 0).
Proof using Hg.
  intros Es Hs Hsz Hout Hcalm. unfold redisBufferWrite. destruct (Z.eqb_spec (c_err c) 0) as [He|He]; cbn [negb].
  2:{ assert (~ calm) as Hnc by (by intros [? _]%Hcalm). exists REDIS_ERR, false, c, w. split; [done|]. split; [done|]. split; [done|]. split; [by split; [|split; [lia|]]|]. by right. }
  rewrite Es. cbn [live]. rewrite (io_bind_done _ _ s w w eq_refl), (repr_sdslen _ _ Hs). pose proof (size_nonneg o) as Hsz0.
  set (m := if 0 <? size o then _ else _).
  assert (exists k c' w', m w = Ok (Some ((k, c'), w')) /\ c'.(c_flags) = c.(c_flags) /\ c'.(c_reader) = c.(c_reader) /\ writes_one w w' /\
    (k = REDIS_OK /\ c'.(c_err) = c.(c_err) /\ (exists s' o', c'.(c_obuf) = Some s' /\ repr s' o' /\ size o' <= size o) \/ k = REDIS_ERR /\ ~ calm /\ c'.(c_err) <> 0)) as (k & c' & w' & E & H1 & H2 & H3 & H4).
  { unfold m. destruct (Z.ltb_spec 0 (size o)) as [Hpos|].
    2:{ exists REDIS_OK, c, w. split; [done|]. split; [done|]. split; [done|]. split; [by split; [|split; [lia|]]|]. left. split; [done|]. split; [done|]. exists s, o. by split_and!. }
    unfold io_bind, lift, sys, sys_write. rewrite (sds_bytes_repr _ _ Hs). cbn [mbind res_bind]. destruct (w_out w) as [|e l] eqn:Ew; [done|].
    assert (forall d, writes_one w (mk_world (w_in w) l d (w_closed w))) as Hone by (intros d; split; [done|]; rewrite Ew; split; [cbn; lia|by intros [_ ?]%Forall_cons_iff]).
    destruct e as [n|e]; cbn [mbind res_bind].
    - destruct (Z.ltb_spec 0 (Z.of_nat (n `min` length o)%nat)) as [Hn|Hn].
      + destruct (Z.of_nat (n `min` length o)%nat =? wrap32 (size o)).
        * pose proof (sdsnewlen_spec [] ltac:(by rewrite size_nil)) as Hp. unfold post in Hp.
          change (sdsnewlen (Some []) (size [])) with sdsempty in Hp. destruct sdsempty as [[s'|]| |]; cbn [mbind res_bind]; try done;
            [|by destruct (granted_not_refused Hg)].
          eexists REDIS_OK, _, _. split; [reflexivity|]. split; [done|]. split; [done|]. split; [by apply Hone|]. left. split; [done|]. split; [done|]. exists s', []. by split_and!.
        * destruct (sdsrange_spec s o (Z.of_nat (n `min` length o)%nat) (-1) Hs) as (s' & -> & Hs'); [unfold INT_MAX, size in *; lia..|]. cbn [mbind res_bind].
          eexists REDIS_OK, _, _. split; [reflexivity|]. split; [done|]. split; [done|]. split; [by apply Hone|]. left. split; [done|]. split; [done|]. eexists s', _. split_and!; [done|done|].
          replace (Z.of_nat (n `min` length o)%nat) with (size (take n o)) by apply size_take_min. rewrite <- (take_drop n o) at 1. rewrite range_of_end.
          unfold size. rewrite length_drop. lia.
      + exists REDIS_OK. eexists _, _. split; [reflexivity|]. split; [done|]. split; [done|]. split; [by apply Hone|]. left. split; [done|]. split; [done|]. exists s, o. by split_and!.
    - destruct (try_again c e) eqn:Etry.
      + exists REDIS_OK. eexists _, _. split; [reflexivity|]. split; [done|]. split; [done|]. split; [by apply Hone|]. left. split; [done|]. split; [done|]. exists s, o. by split_and!.
      + eexists REDIS_ERR, _, _. split; [reflexivity|]. split; [done|]. split; [done|]. split; [by apply Hone|]. right. split; [done|]. split; [|done].
        intros Hc. destruct (Hcalm Hc) as (_ & Hb & [He2 _]%Forall_cons_iff). rewrite (calm_again c e Hb) in Etry by (by right). done. }
  clearbody m. rewrite (io_bind_done _ _ _ _ _ E). destruct H4 as [(-> & Ee & s' & o' & Eo & Hs' & Hle)|(-> & Hnc & Hne)]; cbn [REDIS_OK REDIS_ERR Z.eqb].
  - rewrite Eo. cbn [live]. rewrite (io_bind_done _ _ s' w' w' eq_refl). eexists REDIS_OK, _, c', w'. split; [reflexivity|]. split; [done|]. split; [done|]. split; [done|].
    left. split; [done|]. split; [done|]. by exists s', o'.
  - exists REDIS_ERR, false, c', w'. split; [done|]. split; [done|]. split; [done|]. split; [done|]. by right.
Qed.
(** ** Events *)

(** What an event leaves; it ends with the context alive and [P] of the world, or
    freed. *)
Definition stepped (m : nat) (rem : Z) (P : world -> Prop) (o : res (option (redisAsyncContext * world))) : Prop :=
  match o with
  | Ok (Some (ac, w')) => (going rem ac w' /\ P w') \/ ended ac
  | UB u => bad m u
  | _ => False
  end.

Lemma stepped_of m rem w o (P : world -> Prop) : P w -> outcome_of m rem w o -> stepped m rem P o.
Proof using. intros Hp. destruct o as [[[ac w']|]| |]; cbn; try done. intros [[-> Hgo]|He]; [by left | by right]. Qed.

Lemma stepped_ended m rem P o vs k cs : vs `prefix_of` total.1 -> (calm -> k = 0%nat /\ vs = total.1 /\ base `prefix_of` cs) ->
  (exists ac' w', o = Ok (Some (ac', w')) /\ final vs k cs ac') -> stepped m rem P o.
Proof using. intros Hp Hc (ac & w' & -> & Hf). right. by exists vs, k, cs. Qed.

(** Nothing that the books are about changes. *)
Definition same_books (ac ac' : redisAsyncContext) : Prop :=
  (forall rem w, going rem ac w -> going rem ac' w) /\ commands ac'.(a_log) = commands ac.(a_log) /\ ac'.(a_replies) = ac.(a_replies).

Lemma el_books ac k : same_books ac (el ac k).
Proof using.
  split; [|by destruct ac]. intros rem w (vs & n & [B1 B2 B3 B4 B5 B6] & Hw & Hr & Ha & Hq). exists vs, n. split; [constructor; by destruct ac|].
  split; [by destruct ac|]. split; [by destruct ac|]. split; [by destruct ac|].
  intros Hc. destruct (Hq Hc) as [Q ?]. split; [|done]. eapply quiet_same; [exact Q|by destruct ac..].
Qed.

Lemma connect_books ac z : same_books ac (log ac (l_connect z)).
Proof using.
  assert (commands (a_log (log ac (l_connect z))) = commands (a_log ac) /\ callbacks (a_log (log ac (l_connect z))) = callbacks (a_log ac) /\
    answers (a_log (log ac (l_connect z))) = answers (a_log ac) /\ spent (a_log (log ac (l_connect z))) = spent (a_log ac)) as (E1 & E2 & E3 & E4).
  { destruct ac as [c e h oc od r i ch pa ev lg fr]. cbn [log a_log]. rewrite spent_snoc, Z.add_0_r. unfold commands, callbacks, answers. rewrite !omap_app. cbn. by rewrite !app_nil_r. }
  split; [|split; [done|by destruct ac]].
  intros rem w (vs & n & [B1 B2 B3 B4 B5 B6] & (s & o & Hw) & Hr & Ha & Hq). exists vs, n. split_and!; [|exists s, o; rewrite E4; by destruct ac|by destruct ac|by rewrite E3|].
  - constructor; try by destruct ac. rewrite E1, E2, B6. by destruct ac.
  - intros Hc. destruct (Hq Hc) as [Q ?]. split; [|done]. eapply quiet_kept; [exact Q|by destruct ac..|by rewrite E1].
Qed.

Lemma connected_books ac : same_books ac (set_flag ac REDIS_CONNECTED).
Proof using.
  split; [|by destruct ac]. intros rem w (vs & n & [B1 B2 B3 B4 B5 B6] & Hw & Hr & Ha & Hq). exists vs, n. split; [|split; [by destruct ac|]; split; [by destruct ac|]; split; [by destruct ac|]].
  - constructor; try by destruct ac. rewrite !bit_set. by destruct B2 as (-> & -> & -> & ->).
  - intros Hc. destruct (Hq Hc) as [Q ?]. split; [|done]. eapply quiet_kept; [exact Q|by destruct ac|by rewrite bit_set, orb_false_r|by destruct ac].
Qed.

(** The beginning of the handlers. *)
Lemma check_spec f st ac w rem : going rem ac w -> (calm -> st = sock_ok) ->
  (exists go ac', check_connected (api (S f)) st ac w = Ok (Some ((go, ac'), w)) /\ going rem ac' w /\ commands ac'.(a_log) = commands ac.(a_log) /\ (calm -> go = true)) \/
  (exists ac' w', check_connected (api (S f)) st ac w = Ok (Some ((false, ac'), w')) /\ ended ac').
Proof using Hg Hlimit Hprogram Hstays Hwaits.
  intros Hgo Hst. unfold check_connected. change REDIS_CONNECTED with (2 ^ 1). rewrite has_flag_bit by done. destruct (bit ac 1).
  { left. by exists true, ac. }
  destruct st as [|e]; cbn [redisAsyncHandleConnect].
  - set (ac1 := if a_onConnect (set_flag ac _) then _ else _).
    assert (going rem ac1 w /\ commands (a_log ac1) = commands (a_log ac)) as [H1 H2].
    { destruct (connected_books ac) as (F1 & F2 & _). unfold ac1. destruct (a_onConnect _); [|split; [by apply F1|done]].
      destruct (connect_books (set_flag ac REDIS_CONNECTED) REDIS_OK) as (G1 & G2 & _). split; [by apply G1, F1|congruence]. }
    assert (bit ac1 1 = true) as H3.
    { unfold ac1. transitivity (bit (set_flag ac REDIS_CONNECTED) 1); [destruct (a_onConnect _); by destruct ac|]. by rewrite bit_set, orb_true_r. }
    left. rewrite (io_bind_done _ _ (true, ac1) w w eq_refl). eexists _, _. split; [reflexivity|]. rewrite has_flag_bit, H3 by done. done.
  - assert (~ calm) as Hnc by (by intros Hc%Hst). unfold redisSetError, io_bind, lift. cbn [mbind res_bind]. set (c := mk_context _ _ _ _ _ _).
    destruct Hgo as (vs & n & Hb & Hw & Hr & Ha & _). destruct (set_c_booked false ac [] c Hb eq_refl) as [Hb1 _]. pose proof (reads_prefix _ _ _ _ Hr) as Hpre.
    assert (going rem (set_c ac c) w /\ commands (a_log (set_c ac c)) = commands (a_log ac) /\ c_err (a_c (set_c ac c)) <> 0) as (H1 & H2 & H3).
    { split; [|by destruct ac]. exists vs, n. split; [done|]. by destruct ac. }
    set (ac1 := set_c ac c) in *. clearbody ac1. destruct (in_progress e).
    + left. cbn. eexists _, _. split; [reflexivity|]. done.
    + right.
      assert (going rem (if a_onConnect ac1 then log ac1 (l_connect REDIS_ERR) else ac1) w /\ c_err (a_c (if a_onConnect ac1 then log ac1 (l_connect REDIS_ERR) else ac1)) <> 0) as [(vs2 & n2 & Hb2 & _ & Hr2 & Ha2 & _) He2].
      { destruct (a_onConnect ac1); [|done]. split; [by apply connect_books|by destruct ac1]. }
      set (ac2 := if a_onConnect ac1 then _ else _) in *.
      destruct (redisAsyncDisconnect_spec f ac2 w vs2 Hb2 (or_introl He2) Ha2 (reads_freeable _ _ _ _ Hr2)) as (ac3 & w3 & E & Hf).
      eexists _, _. rewrite E. cbn. split; [reflexivity|]. eexists vs2, _, _. split; [by eapply reads_prefix|]. split; [exact Hf|done].
Qed.

Definition ordinary_event (e : async_event) : Prop := match e with e_call a => ordinary a | _ => True end.
Definition calm_event (e : async_event) : Prop := match e with e_call a => stays a | e_readable st | e_writable st => st = sock_ok end.
Definition event_cost (e : async_event) : Z := match e with e_call a => cost a | _ => 0 end.
Definition event_world (e : async_event) (w w' : world) : Prop :=
  match e with e_call _ => w' = w | e_readable _ => reads_one w w' | e_writable _ => writes_one w w' end.

Lemma reads_length n o w vs : reads n o w vs -> exists r, o = Some r /\ reads (Z.to_nat r.(rd_len)) o w vs.
Proof using.
  intros (r & ls & ty & d & -> & Hst & _ & H2). exists r. split; [done|]. exists r, ls, ty, d. pose proof (state_size _ _ _ _ Hst) as Hd.
  split_and!; [done|done|unfold size in Hd; lia|apply H2..].
Qed.

Lemma going_freed rem ac w : going rem ac w -> ac.(a_freed) = false.
Proof using. intros (vs & n & Hb & _). apply Hb. Qed.

Lemma handle_read_spec f st ac w rem m : 0 <= rem -> going rem ac w -> (calm -> st = sock_ok) -> w.(w_in) <> [] -> (m <= length (commands ac.(a_log)))%nat ->
  stepped m rem (reads_one w) (redisAsyncHandleRead (api (S f)) st ac w).
Proof using Hg Hlimit Hprogram Hstays Hwaits.
  intros Hrem Hgo Hst Hin Hm. unfold redisAsyncHandleRead.
  destruct (check_spec f st ac w rem Hgo Hst) as [(go & ac1 & E & Hgo1 & Hc1 & Hgoes)|(ac1 & w1 & E & He)]; rewrite (io_bind_done _ _ _ _ _ E); cbn [negb].
  2:{ by right. }
  destruct go; cbn [negb]. 2:{ left. split; [done|]. split; [done|split; [lia|by intros ?%Hgoes]]. }
  destruct Hgo1 as (vs & n & Hb & Hw & Hr & Ha & Hq). pose proof (reads_prefix _ _ _ _ Hr) as Hpre.
  destruct (buffer_read_spec n (a_c ac1) w vs Hr Hin ltac:(intros Hc; destruct (Hq Hc) as [[] _]; split_and!; [done|apply Hb|done])) as (k & c' & w' & E' & [Ef Eo] & Hone & Hk). rewrite (io_bind_done _ _ _ _ _ E').
  destruct (set_c_booked false ac1 [] c' Hb Ef) as [Hb2 _]. destruct Hk as [(-> & Ee & n' & Hr')|(-> & Hnc & Hne & Hf)]; cbn [REDIS_OK REDIS_ERR Z.eqb].
  - set (ac2 := el (set_c ac1 c') addRead).
    assert (booked false ac2 [] /\ writes ac2 rem /\ reads n' ac2.(a_c).(c_reader) w' vs /\ answers ac2.(a_log) = map Some vs /\ commands (a_log ac2) = commands (a_log ac1)) as (Hb3 & Hw3 & Hr3 & Ha3 & Hc2).
    { destruct Hb2, Hw as (s & o & Hw). destruct ac1. cbn in *. split; [by constructor|]. split_and!; [exists s, o; cbn; by rewrite Eo|done..]. }
    assert (calm -> quiet ac2 w') as Hq2.
    { intros Hc. eapply quiet_read; [|exact Hc|exact Hone]. eapply quiet_kept; [by apply Hq| | |by rewrite Hc2]; unfold ac2, bit; destruct ac1; cbn in *; [done|by rewrite Ef]. }
    clearbody ac2. apply reads_length in Hr3 as (r & Er & Hr3).
    apply stepped_of with (w := w'); [done|]. unfold redisProcessCallbacks. rewrite Er.
    eapply process_spec; [|exact Hb3|done|exact Hw3|exact Hr3|exact Ha3|rewrite Hc2, Hc1; lia|exact Hq2]. lia.
  - eapply stepped_ended; [exact Hpre|done|]. apply redisAsyncDisconnect_spec; [done|left; by destruct ac1|by destruct ac1|by destruct ac1].
Qed.

Lemma handle_write_spec f st ac w rem m : 0 <= rem -> going rem ac w -> (calm -> st = sock_ok) -> w.(w_out) <> [] ->
  stepped m rem (writes_one w) (redisAsyncHandleWrite (api (S f)) st ac w).
Proof using Hg Hlimit Hprogram Hstays Hwaits.
  intros Hrem Hgo Hst Hout. unfold redisAsyncHandleWrite.
  destruct (check_spec f st ac w rem Hgo Hst) as [(go & ac1 & E & Hgo1 & Hc1 & _)|(ac1 & w1 & E & He)]; rewrite (io_bind_done _ _ _ _ _ E); cbn [negb].
  2:{ by right. }
  destruct go; cbn [negb]. 2:{ left. split; [done|]. split; [done|by split; [lia|]]. }
  destruct Hgo1 as (vs & n & Hb & (s & o & Es & Hs & _ & Hle) & Hr & Ha & Hq). pose proof (reads_prefix _ _ _ _ Hr) as Hpre. pose proof (reads_freeable _ _ _ _ Hr) as Hfr.
  destruct (buffer_write_spec (a_c ac1) w s o Es Hs) as (k & b & c' & w' & E' & Ef & Er & Hone & Hk); [specialize (Hlimit (a_log ac1)); lia|done|intros Hc; destruct (Hq Hc) as [[] _]; split_and!; [done|apply Hb|done]|].
  rewrite (io_bind_done _ _ _ _ _ E'). destruct (set_c_booked false ac1 [] c' Hb Ef) as [Hb2 _].
  destruct Hk as [(-> & Ee & s' & o' & Es' & Hs' & Hle')|(-> & Hnc & Hne)]; cbn [REDIS_OK REDIS_ERR Z.eqb].
  - left. split; [|done]. apply el_books, el_books. exists vs, n. split; [done|]. split; [destruct ac1; exists s', o'; cbn in *; split_and!; [done..|lia]|].
    pose proof Hone as [Hin _]. unfold reads. rewrite Hin. split; [destruct ac1; cbn in *; by rewrite Er|]. split; [by destruct ac1|].
    intros Hc. destruct (Hq Hc) as [Q Hn]. split; [|done]. eapply quiet_write; [|exact Hone]. eapply quiet_same; [exact Q|by destruct ac1| |by destruct ac1].
    intros k. unfold bit. destruct ac1. cbn in *. by rewrite Ef.
  - eapply stepped_ended; [exact Hpre|done|]. apply redisAsyncDisconnect_spec; [done|left; by destruct ac1|by destruct ac1|]. destruct ac1. cbn in *. by rewrite Er.
Qed.

Lemma call_spec f a ac w rem m : ordinary a -> (calm -> stays a) -> 0 <= rem -> going (rem + cost a) ac w ->
  stepped m rem (eq w) (api (S (S f)) a ac w).
Proof using Hg Hlimit Hprogram Hstays Hwaits.
  intros Ha Hs Hrem Hgo. pose proof (going_freed _ _ _ Hgo) as Hfreed. destruct Hgo as (vs & n & Hb & Hw & Hr & Hans & Hq). pose proof (reads_prefix _ _ _ _ Hr) as Hpre.
  pose proof (reads_freeable _ _ _ _ Hr) as Hfr. pose proof (b_flags _ _ _ Hb) as (_ & B4 & _).
  destruct a as [fn p cmd| |]; cbn [api cost] in *.
  - rewrite Hfreed. destruct (command_spec false ac fn p cmd rem Ha Hb Hrem (or_intror Hw)) as (k & ac' & E & Hb' & [K1 K2 K3 K4 K5 K6] & W & _).
    unfold lift. rewrite E. cbn. left. split; [|done]. exists vs, n. split_and!; [done|by apply W|by rewrite K1|by rewrite K3|].
    intros Hc. destruct (Hq Hc) as [Q ?]. split; [|done]. eapply quiet_kept; [exact Q|done|by apply K6|done].
  - rewrite Z.add_0_r in Hw. unfold redisAsyncDisconnect. rewrite Hfreed. destruct (set_flag_kept false ac [] REDIS_DISCONNECTING Hb ltac:(by left)) as (H1 & [K1 K2 K3 K4 K5 K6] & H3 & H4).
    assert (calm -> quiet (set_flag ac REDIS_DISCONNECTING) w) as Hq2 by (intros Hc; destruct (Hq Hc) as [Q ?]; eapply quiet_kept; [exact Q|done|by apply K6|done]).
    change REDIS_IN_CALLBACK with (2 ^ 4). rewrite has_flag_bit, bit_set, B4 by done. cbn [orb negb andb Z.testbit].
    assert (reads n (c_reader (a_c (set_flag ac REDIS_DISCONNECTING))) w vs) as Hr2 by (by rewrite K1).
    change (Z.testbit REDIS_DISCONNECTING 4) with false. cbn [negb andb]. destruct (a_replies (set_flag ac REDIS_DISCONNECTING)) eqn:Eq.
    + eapply stepped_ended; [exact Hpre|intros Hc; by eapply answered_all; [exact H1|exact Eq|congruence|exact Hpre|exact Hc|apply Hq2]|]. apply redisAsyncDisconnect_spec; [done|by right|congruence|by rewrite K1].
    + left. split; [|done]. exists vs, n. split_and!; [done|by apply H4|done|congruence|]. intros Hc. split; [by apply Hq2|by apply Hq].
  - rewrite Z.add_0_r in Hw. unfold redisAsyncFree. rewrite Hfreed. destruct (set_flag_kept false ac [] REDIS_FREEING Hb (or_intror (conj eq_refl Hs))) as (H1 & [K1 K2 K3 K4 K5 _] & H3 & H4).
    change REDIS_IN_CALLBACK with (2 ^ 4). rewrite has_flag_bit, bit_set, B4 by done.
    change (Z.testbit REDIS_FREEING 4) with false. cbn [orb negb]. eapply stepped_ended; [exact Hpre|by intros ?%Hs|]. apply redisAsyncFree_spec; [done|done|congruence|by rewrite K1].
Qed.
(** Some event is undefined, for a reason that [bad] gives. *)
Definition fails (es : list async_event) (ac : redisAsyncContext) (w : world) (u : ub) : Prop :=
  exists es1 e es2 ac1 w1, es = es1 ++ e :: es2 /\ async_run es1 ac w = Ok (Some (ac1, w1)) /\ ac1.(a_freed) = false /\
    async_step e ac1 w1 = UB u /\ bad (length (commands ac1.(a_log))) u.

Lemma run_spec es : forall ac w, Forall ordinary_event es -> (calm -> Forall calm_event es /\ (length w.(w_in) <= readable es)%nat) ->
  going (costs (calls es)) ac w -> (readable es <= length w.(w_in))%nat -> (writable es <= length w.(w_out))%nat ->
  match async_run es ac w with
  | Ok (Some (ac', w')) => (going 0 ac' w' /\ (calm -> w'.(w_in) = [])) \/ ended ac'
  | UB u => fails es ac w u
  | _ => False
  end.
Proof using Hg Hlimit Hprogram Hstays Hwaits.
  induction es as [|e es IH]; intros ac w Hes Hcalm Hgo Hin Hout.
  { left. split; [done|]. intros Hc. destruct (Hcalm Hc) as [_ Hle]. by destruct (w_in w); [|cbn in Hle; lia]. }
  apply Forall_cons_iff in Hes as [He Hes]. assert (calm -> calm_event e) as Hce by (by intros [[? _]%Forall_cons_iff _]%Hcalm).
  cbn [async_run]. pose proof (going_freed _ _ _ Hgo) as Hfreed. rewrite Hfreed. pose proof (costs_nonneg (calls es)) as Hc.
  set (P w' := (readable es <= length w'.(w_in))%nat /\ (writable es <= length w'.(w_out))%nat /\ (calm -> (length w'.(w_in) <= readable es)%nat)).
  assert (stepped (length (commands (a_log ac))) (costs (calls es)) P (async_step e ac w)) as Hstep.
  { assert (forall o (Q : world -> Prop), (forall w', Q w' -> P w') -> stepped (length (commands (a_log ac))) (costs (calls es)) Q o -> stepped (length (commands (a_log ac))) (costs (calls es)) P o) as Hmono.
    { intros [[[ac' w']|]| |] Q HQ; cbn; try done. intros [[H1 H2]|H1]; [left; split; [done|by apply HQ] | by right]. }
    destruct e as [a|st|st]; cbn [async_step].
    - eapply Hmono; [|apply call_spec; [done|done|done|]]; [intros ? <-; split_and!; [done..|by intros [_ ?]%Hcalm]|].
      change (costs (calls (e_call a :: es))) with (cost a + costs (calls es)) in Hgo. by rewrite Z.add_comm.
    - change (readable (e_readable st :: es)) with (S (readable es)) in Hin.
      eapply Hmono; [|apply handle_read_spec; [done|done|done| |done]]; [|destruct (w_in w); [cbn in Hin; lia|done]].
      intros w' (E & Hle & Hone). split; [lia|]. split; [by rewrite E|]. intros Hc2. destruct (Hone Hc2) as [Hl _]. destruct (Hcalm Hc2) as [_ Hle2].
      change (readable (e_readable st :: es)) with (S (readable es)) in Hle2. lia.
    - change (writable (e_writable st :: es)) with (S (writable es)) in Hout.
      eapply Hmono; [|apply handle_write_spec; [done|done|done|]]; [|destruct (w_out w); [cbn in Hout; lia|done]].
      intros w' (E & Hle & _). split; [by rewrite E|]. split; [lia|]. rewrite E. by intros [_ ?]%Hcalm. }
  unfold io_bind. destruct (async_step e ac w) as [[[ac1 w1]|]| |u] eqn:E; cbn [mbind res_bind stepped] in *; try done.
  - destruct Hstep as [[Hgo1 (H1 & H2 & H3)]|Hend].
    + specialize (IH ac1 w1 Hes ltac:(intros Hc2; split; [by destruct (Hcalm Hc2) as [[_ ?]%Forall_cons_iff _]|by apply H3]) Hgo1 H1 H2). destruct (async_run es ac1 w1) as [[[ac2 w2]|]| |u]; try done.
      destruct IH as (es1 & e' & es2 & ac2 & w2 & -> & E1 & E2). exists (e :: es1), e', es2, ac2, w2. split; [done|]. split; [|done].
      cbn [async_run]. rewrite Hfreed. unfold io_bind. by rewrite E.
    + assert (async_run es ac1 w1 = Ok (Some (ac1, w1))) as ->; [|by right]. destruct es; [done|]. cbn [async_run]. destruct Hend as (vs & k & cs & _ & [-> _] & _). done.
  - exists [], e, es, ac, w. by split_and!.
Qed.

End Fifo.

(** ** The property *)

(** The commands accepted are the callbacks called and the waiting ones, in order;
    the callbacks called got replies of the stream, in order, and when the context
    was freed with commands waiting, [NULL]: each of them exactly one. *)
Definition in_order (vs : list value) (ac : redisAsyncContext) : Prop :=
  commands ac.(a_log) = callbacks ac.(a_log) ++ omap key ac.(a_replies) /\
  exists ws k, ws `prefix_of` vs /\ answers ac.(a_log) = map Some ws ++ replicate k None /\
    if ac.(a_freed) then ac.(a_replies) = [] else k = 0%nat.

Lemma going_order `{Program} limit calm total base rem ac w : going limit calm total base rem ac w -> in_order total.1 ac.
Proof.
  intros (vs & n & [B1 _ _ _ _ B6] & _ & Hr & Ha & _). split; [done|]. exists vs, 0%nat. rewrite B1. cbn. rewrite app_nil_r.
  split_and!; [by eapply reads_prefix|done|done].
Qed.

Lemma ended_order calm total base ac : ended calm total base ac -> in_order total.1 ac.
Proof.
  intros (vs & k & cs & Hp & (Hf & Hr & Hc & Hc' & Ha) & _). split; [by rewrite Hr, app_nil_r, Hc|]. exists vs, k. by rewrite Hf.
Qed.

Section Session.
Context `{HA : Allocator} `{HE : Strerror} `{HP : Program}.
Hypothesis Hg : granted.

(** A context that was just made. *)
Record fresh (ac : redisAsyncContext) : Prop := {
  f_freed : ac.(a_freed) = false; f_flags : ac.(a_c).(c_flags) = 0; f_err : ac.(a_c).(c_err) = 0; f_invalid : ac.(a_invalid) = [];
  f_sub : ac.(a_channels) = empty_dict /\ ac.(a_patterns) = empty_dict; f_replies : ac.(a_replies) = []; f_log : ac.(a_log) = [];
  f_obuf : exists s, ac.(a_c).(c_obuf) = Some s /\ repr s [];
  f_reader : exists r, ac.(a_c).(c_reader) = Some r /\ state r [] (-1) [] /\ r.(rd_len) = 0 }.

Lemma fresh_books limit ac w rem : fresh ac -> size (incoming w.(w_in)) <= 2 ^ 29 -> 0 <= rem -> rem <= limit ->
  booked false ac [] /\ writes limit ac rem /\ reads (parse_all [] (-1) (incoming w.(w_in))) 0 ac.(a_c).(c_reader) w [].
Proof using.
  intros [F1 F2 F3 F4 F5 F6 F7 (s & Es & Hs) (r & Er & Hst & Hl)] Hin Hrem Hle. split; [|split].
  - constructor; try done; [unfold bit; by rewrite F2|by rewrite F6|by rewrite F6, F7].
  - exists s, []. rewrite F7. split_and!; [done..|]. change (0 + rem <= limit + 0). lia.
  - exists r, [], (-1), []. split_and!; [done..|lia|]. unfold prefixed. cbn [app]. by destruct (parse_all _ _ _).
Qed.

(** The session begins with one. *)
Lemma session_start fd hooks oc od w :
  exists ac, (forall es, async_session fd hooks oc od es w = io_bind (async_run es ac) (fun ac => done (Some ac)) w) /\ fresh ac.
Proof using Hg.
  destruct (context_init_spec Hg w) as (s & r & E & Hs & Hst & Hl). set (c := mk_context 0 [] fd REDIS_CONNECTED (Some s) (Some r)).
  set (ac := mk_async (with_flags c (Z.ldiff REDIS_CONNECTED REDIS_CONNECTED)) 0 false false false [] [] empty_dict empty_dict [] [] false).
  assert (async_of_context (Some c) w = Ok (Some (Some ac, w))) as Ec.
  { unfold async_of_context, redisAsyncInitialize, io_bind, lift, dictCreate. rewrite !Hg. done. }
  set (ac1 := if hooks then attach ac else ac). set (ac2 := if oc then (redisAsyncSetConnectCallback ac1).2 else ac1).
  set (ac3 := if od then (redisAsyncSetDisconnectCallback ac2).2 else ac2). exists ac3. split.
  { intros es. unfold async_session. by rewrite (io_bind_done _ _ _ _ _ E), (io_bind_done _ _ _ _ _ Ec). }
  assert (fresh ac) as H0 by (constructor; try done; [by exists s|by exists r]).
  assert (forall a, fresh a -> fresh (attach a) /\ fresh (redisAsyncSetConnectCallback a).2 /\ fresh (redisAsyncSetDisconnectCallback a).2) as Hall.
  { intros a [? ? ? ? ? ? ? ? ?]. destruct a as [? ? ? [] [] ? ? ? ? ? ? ?]; split_and!; by constructor. }
  assert (fresh ac1) as H1 by (unfold ac1; destruct hooks; [by apply Hall|done]).
  assert (fresh ac2) as H2 by (unfold ac2; destruct oc; [by apply Hall|done]). unfold ac3. destruct od; [by apply Hall|done].
Qed.
End Session.

(** An event of the session is undefined: the stream is by itself, or it has more
    replies than there were commands before and the assertion of
    [redisProcessCallbacks] fails. *)
Definition session_fails `{Allocator} `{Strerror} `{Program} fd hooks on_connect on_disconnect es w u : Prop :=
  exists es1 e es2 ac1 w1, es = es1 ++ e :: es2 /\ async_session fd hooks on_connect on_disconnect es1 w = Ok (Some (Some ac1, w1)) /\
    async_step e ac1 w1 = UB u /\
    let '(vs, o) := parse_all [] (-1) (incoming w.(w_in)) in
    o = o_undefined u \/ (u = assertion_failed /\ (length (commands ac1.(a_log)) < length vs)%nat).

(** C5: For ordinary commands with callbacks, whatever the program calls and its
    callbacks call - commands, [redisAsyncDisconnect], [redisAsyncFree] - in any
    order among the socket's events, whatever the system answers and the server
    sends, the context keeps its books: every command accepted gets exactly one
    call of its callback, in the order of the commands, with the replies of the
    stream in order, or [NULL] when the context is freed first; nothing is called
    twice, and a freed context has nothing left to call.  The only other ends are
    a stream that is undefined by itself ([reader_safe]) and, when the server
    sends more replies than there are commands, the assertion of
    [redisProcessCallbacks]. *)
Theorem callbacks_in_order `{Allocator} `{Strerror} `{Program} fd hooks on_connect on_disconnect es w :
  granted -> Forall ordinary_event es -> (forall l, Forall ordinary (program l)) ->
  (forall l, costs (calls es) + spent l + 128 <= 2 ^ 29) -> size (incoming w.(w_in)) <= 2 ^ 29 ->
  (readable es <= length w.(w_in))%nat -> (writable es <= length w.(w_out))%nat ->
  match async_session fd hooks on_connect on_disconnect es w with
  | Ok (Some (Some ac, w')) => in_order (parse_all [] (-1) (incoming w.(w_in))).1 ac
  | UB u => session_fails fd hooks on_connect on_disconnect es w u
  | _ => False
  end.
Proof.
  intros Hg Hes Hprogram Hlimit Hin Hrd Hwr. destruct (session_start Hg fd hooks on_connect on_disconnect w) as (ac & E & Hf).
  pose proof (costs_nonneg (calls es)). destruct (fresh_books (costs (calls es)) ac w (costs (calls es)) Hf Hin ltac:(lia) ltac:(lia)) as (Hb & Hw & Hr).
  pose proof (run_spec Hg (costs (calls es)) Hlimit Hprogram False ltac:(done) (parse_all [] (-1) (incoming w.(w_in))) [] ltac:(done) es ac w Hes ltac:(done)) as Hrun.
  assert (going (costs (calls es)) False (parse_all [] (-1) (incoming w.(w_in))) [] (costs (calls es)) ac w) as Hgo.
  { exists [], 0%nat. split_and!; [done..|by rewrite (f_log _ Hf)|done]. }
  specialize (Hrun Hgo Hrd Hwr). rewrite E. unfold io_bind. destruct (async_run es ac w) as [[[ac' w']|]| |u]; cbn [mbind res_bind done] in *; try done.
  - destruct Hrun as [[Hrun _]|Hrun]; [by eapply going_order | by eapply ended_order].
  - destruct Hrun as (es1 & e & es2 & ac1 & w1 & -> & E1 & _ & E2 & _ & Hb2). exists es1, e, es2, ac1, w1. rewrite E. unfold io_bind. rewrite E1.
    split_and!; [done..|]. by destruct (parse_all _ _ _).
Qed.

(** A program whose first callback, at the fourth entry of the log, sends a command. *)
Definition sample_program : Program := fun l =>
  if (length l =? 4)%nat then [act_command (Some 3%nat) 30 (request_bytes [str "SET"; str "b"; str "1"])] else [].

Lemma sample_spent l : spent (H := sample_program) l <= 64.
Proof.
  unfold spent. assert (forall l pre, (4 <= length pre)%nat -> spent_from (H := sample_program) pre l = 0) as H0.
  { clear l. induction l as [|e l IH]; intros pre Hp; [done|]. cbn [spent_from]. rewrite IH by (rewrite length_app; cbn; lia).
    unfold program, sample_program. rewrite length_app. destruct (Nat.eqb_spec (length pre + length [e]) 4) as [E|]; [cbn in E; lia|by destruct e]. }
  assert (forall l pre, spent_from (H := sample_program) pre l <= 64) as Hall; [|apply Hall].
  clear l. induction l as [|e l IH]; intros pre; [done|]. cbn [spent_from]. unfold program, sample_program at 1.
  destruct (Nat.eqb_spec (length (pre ++ [e])) 4) as [E|].
  - rewrite H0 by lia. destruct e; vm_compute; congruence.
  - specialize (IH (pre ++ [e])). destruct e; cbn [costs foldr] in *; lia.
Qed.

Definition sample_events : list async_event :=
  [e_call (act_command (Some 1%nat) 10 (request_bytes [str "GET"; str "a"])); e_writable sock_ok;
   e_call (act_command (Some 2%nat) 20 (request_bytes [str "PING"])); e_readable sock_ok; e_writable sock_ok; e_readable sock_ok; e_call act_free].

Definition sample_world : world :=
  mk_world [in_data (str "$1" ++ crlf ++ str "x" ++ crlf ++ str "+PO"); in_data (str "NG" ++ crlf)] [out_taken 9; out_taken 1000] [] [].

(** Two commands are answered; the one sent from a callback gets [NULL]. *)
Lemma callbacks_in_order_witness :
  exists ac w', async_session (H := fun _ => true) (H0 := fun _ => []) (H1 := sample_program) 7 true true true sample_events sample_world = Ok (Some (Some ac, w')) /\
    callbacks ac.(a_log) = [(1%nat, 10%nat); (2%nat, 20%nat); (3%nat, 30%nat)] /\
    answers ac.(a_log) = [Some (V_string REPLY_STRING (str "x")); Some (V_string REPLY_STATUS (str "PONG")); None] /\ in_order (parse_all [] (-1) (incoming sample_world.(w_in))).1 ac.
Proof.
  assert (forall fn p name args, plain name = true -> ordinary (act_command (Some fn) p (request_bytes (name :: args)))) as Ho.
  { intros fn p name args Hp. split; [by eexists|]. by exists name, args. }
  assert (Forall ordinary_event sample_events) as Hes by (repeat (apply Forall_cons; split; [first [done | apply Ho; by vm_compute]|]); by apply Forall_nil).
  assert (forall l, Forall ordinary (sample_program l)) as Hp.
  { intros l. unfold sample_program. destruct (_ =? _)%nat; [apply Forall_cons; split; [apply Ho; by vm_compute|]|]; by apply Forall_nil. }
  assert (forall l, costs (calls sample_events) + spent (H := sample_program) l + 128 <= 2 ^ 29) as Hl.
  { intros l. pose proof (sample_spent l) as Hs. assert (costs (calls sample_events) <= 64) by (by vm_compute). lia. }
  pose proof (callbacks_in_order (H := fun _ => true) (H0 := fun _ => []) (H1 := sample_program) 7 true true true sample_events sample_world
    ltac:(done) Hes Hp Hl ltac:(by vm_compute) ltac:(vm_compute; lia) ltac:(vm_compute; lia)) as Hc.
  destruct (async_session _ _ _ _ _ _) as [[[[ac|] w']|]| |] eqn:E.
  1: { exists ac, w'. split; [done|]. split; [|split; [|exact Hc]]; vm_compute in E; injection E as <- _; by vm_compute. }
  all: vm_compute in E; discriminate E.
Defined.
