(* ===== verification/AsyncWake.v ===== *)
(** * A context that has something to write is watched for writing.

    What the hooks of an asynchronous context have asked of its event library after
    any events, for any program, any commands - those of pub/sub included - and any
    bytes; with [Adapters], what the loop watches. *)
From S2P Require Import Prelude CxxString Sds SdsText HiredisFormat HiredisReply HiredisReader HiredisProtocol HiredisReaderRefine HiredisContext Dict Async Adapters AsyncCommand AsyncSpec.

(** ** Outcomes of computations with the system *)

(** When the computation returns, its value has [P]. *)
Definition returns {A} (m : io A) (P : A -> Prop) : Prop := forall w a w', m w = Ok (Some (a, w')) -> P a.

Lemma returns_done {A} (a : A) (P : A -> Prop) : P a -> returns (done a) P.
Proof. intros Ha w a' w' [= <- _]. done. Qed.

Lemma returns_lift {A} (m : res A) (P : A -> Prop) : (forall a, m = Ok a -> P a) -> returns (lift m) P.
Proof. intros Hm w a w'. unfold lift. destruct m as [a'| |]; [|done..]. intros [= <- _]. by apply Hm. Qed.

Lemma returns_bind {A B} (m : io A) (f : A -> io B) P Q : returns m P -> (forall a, P a -> returns (f a) Q) -> returns (io_bind m f) Q.
Proof.
  intros Hm Hf w b w'. unfold io_bind. destruct (m w) as [[[a w1]|]| |] eqn:E; cbn [mbind res_bind]; [|done..]. intros Hb. eapply Hf; [by eapply Hm|done].
Qed.

Lemma returns_any {A} (m : io A) : returns m (fun _ => True).
Proof. done. Qed.

Lemma returns_weaken {A} (m : io A) (P Q : A -> Prop) : returns m P -> (forall a, P a -> Q a) -> returns m Q.
Proof. intros Hm H w a w' E. eapply H, Hm, E. Qed.

(** ** The invariant *)

(** There are bytes to write. *)
Definition pending (c : redisContext) : Prop := exists s, c.(c_obuf) = Some s /\ sdslen s <> 0.

(** What the hooks are to have asked; [read] is left out while a handler has not
    asked for reading yet. *)
Definition asked_for (read : bool) (c : redisContext) (l : list hook) : Prop :=
  cleanup ∉ l /\ (pending c -> asked false k_write l = true) /\ (read = true -> Z.testbit c.(c_flags) 1 = true -> asked false k_read l = true).

Record alive (read : bool) (ac : redisAsyncContext) : Prop := {
  al_freed : ac.(a_freed) = false;
  al_hooks : ac.(a_hooks) = true;
  al_nonblock : blocking ac.(a_c) = false;
  al_asked : asked_for read ac.(a_c) ac.(a_ev) }.

(** A freed context has called [cleanup], last and once. *)
Definition gone (ac : redisAsyncContext) : Prop :=
  ac.(a_freed) = true /\ exists l, ac.(a_ev) = l ++ [cleanup] /\ cleanup ∉ l.

Definition alive_or_gone (read : bool) (ac : redisAsyncContext) : Prop := alive read ac \/ gone ac.

(** Contexts that the invariant does not tell apart. *)
Definition alike_c (c c' : redisContext) : Prop := c'.(c_obuf) = c.(c_obuf) /\ Z.testbit c'.(c_flags) 0 = Z.testbit c.(c_flags) 0 /\ Z.testbit c'.(c_flags) 1 = Z.testbit c.(c_flags) 1.
Definition alike (ac ac' : redisAsyncContext) : Prop :=
  alike_c ac.(a_c) ac'.(a_c) /\ ac'.(a_freed) = ac.(a_freed) /\ ac'.(a_hooks) = ac.(a_hooks) /\ ac'.(a_ev) = ac.(a_ev).

Lemma alive_alike read ac ac' : alike ac ac' -> alive read ac -> alive read ac'.
Proof.
  intros ((Eo & E0 & E1) & Ef & Eh & Ee) [H1 Hh H2 H3]. constructor; [congruence|congruence|unfold blocking in *; congruence|].
  rewrite Ee. destruct H3 as (A1 & A2 & A3). split_and!; [done| |by rewrite E1]. unfold pending in *. by rewrite Eo.
Qed.

Lemma alike_c_refl c : alike_c c c.
Proof. done. Qed.

Lemma alike_set_replies ac l : alike ac (set_replies ac l).
Proof. by destruct ac. Qed.
Lemma alike_set_invalid ac l : alike ac (set_invalid ac l).
Proof. by destruct ac. Qed.
Lemma alike_set_sub ac b d : alike ac (set_sub ac b d).
Proof. by destruct ac, b. Qed.
Lemma alike_log ac l : alike ac (log ac l).
Proof. by destruct ac. Qed.
Lemma alike_copy_error ac : alike ac (redisAsyncCopyError ac).
Proof. by destruct ac. Qed.
Lemma alike_set_c ac c : alike_c ac.(a_c) c -> alike ac (set_c ac c).
Proof. by destruct ac. Qed.
Lemma alike_set_flag ac f : Z.testbit f 0 = false -> Z.testbit f 1 = false -> alike ac (set_flag ac f).
Proof. intros H0 H1. destruct ac as [c e h oc od r i ch pa ev lg fr]. unfold set_flag, set_c, with_flags, alike, alike_c. cbn [a_c a_freed a_hooks a_ev c_obuf c_flags]. by rewrite !Z.lor_spec, H0, H1, !orb_false_r. Qed.
Lemma alike_clear_flag ac f : Z.testbit f 0 = false -> Z.testbit f 1 = false -> alike ac (clear_flag ac f).
Proof. intros H0 H1. destruct ac as [c e h oc od r i ch pa ev lg fr]. unfold clear_flag, set_c, with_flags, alike, alike_c. cbn [a_c a_freed a_hooks a_ev c_obuf c_flags]. by rewrite !Z.ldiff_spec, H0, H1, !andb_true_r. Qed.

Create HintDb wake.
#[export] Hint Resolve alike_set_replies alike_set_invalid alike_set_sub alike_log alike_copy_error : wake.
#[export] Hint Extern 2 (alike _ (set_flag _ _)) => (apply alike_set_flag; reflexivity) : wake.
#[export] Hint Extern 2 (alike _ (clear_flag _ _)) => (apply alike_clear_flag; reflexivity) : wake.

(** A change that is not seen. *)
Ltac unseen H := eapply alive_alike; [|exact H]; auto with wake.

Lemma asked_snoc b k l h : asked b k (l ++ [h]) = default (asked b k l) (asks h k).
Proof. unfold asked. by rewrite foldl_app. Qed.

Lemma not_cleanup_snoc l h : cleanup ∉ l -> h <> cleanup -> cleanup ∉ l ++ [h].
Proof. intros Hl Hh. rewrite not_elem_of_app, list_elem_of_singleton. split; [done|congruence]. Qed.

Section Wake.
Context `{HA : Allocator} `{HE : Strerror} `{HP : Program}.

(** ** Flags *)

Lemma has_flag_set ac f g : Z.land f g = 0 -> has_flag (set_flag ac g) f = has_flag ac f.
Proof using.
  intros H0. unfold has_flag, set_flag. destruct ac. cbn. by rewrite Z.land_lor_distr_l, (Z.land_comm g f), H0, Z.lor_0_r.
Qed.
Lemma has_flag_set_same ac f : f <> 0 -> has_flag (set_flag ac f) f = true.
Proof using.
  intros Hf. unfold has_flag, set_flag. destruct ac. cbn. rewrite Z.land_lor_distr_l, Z.land_diag. apply negb_true_iff, Z.eqb_neq. intros E. apply Z.lor_eq_0_iff in E as [_ E]. done.
Qed.

(** ** Commands *)

Definition in_callback_flag (ac : redisAsyncContext) : bool := has_flag ac REDIS_IN_CALLBACK.

Lemma register_alike ac cb cmd ac' : register ac cb cmd = Ok (Some ac') -> alike ac ac' /\ in_callback_flag ac' = in_callback_flag ac.
Proof using.
  unfold register, in_callback_flag. destruct (nextArgument cmd 0) as [[[[cstr clen] p]|]| |]; cbn [mbind res_bind]; try done.
  destruct (char_at cmd p) as [next| |]; cbn [mbind res_bind]; try done. destruct (char_at cmd cstr) as [c0| |]; cbn [mbind res_bind]; try done.
  cbv zeta. match goal with |- context [mbind _ (if ?b then ?x else ?y)] => destruct (if b then x else y) as [[]| |] end; cbn [mbind res_bind]; try done.
  - destruct (subscribe_loop _ _ _ _ _) as [d| |]; cbn [mbind res_bind]; try done. intros [= <-].
    pose proof (alike_set_flag ac REDIS_SUBSCRIBED eq_refl eq_refl) as Hf. rewrite <- (has_flag_set ac REDIS_IN_CALLBACK REDIS_SUBSCRIBED) by done.
    destruct (set_flag ac REDIS_SUBSCRIBED), (_ =c _); (split; [exact Hf|done]).
  - match goal with |- mbind _ ?m = _ -> _ => destruct m as [[]| |] end; cbn [mbind res_bind]; try done.
    { destruct (has_flag ac REDIS_SUBSCRIBED); by intros [= <-]. }
    match goal with |- mbind _ ?m = _ -> _ => destruct m as [[]| |] end; cbn [mbind res_bind]; try done.
    + intros [= <-]. pose proof (alike_set_flag ac REDIS_MONITORING eq_refl eq_refl) as Hf. rewrite <- (has_flag_set ac REDIS_IN_CALLBACK REDIS_MONITORING) by done.
      destruct (set_flag ac REDIS_MONITORING). split; [exact Hf|done].
    + destruct (has_flag ac REDIS_SUBSCRIBED); intros [= <-]; (split; [auto with wake|by destruct ac]).
Qed.

(** A hook other than [cleanup] that does not stop reading or writing. *)
Lemma alive_add read ac h : h = addRead \/ h = addWrite -> alive read ac -> alive read (el ac h).
Proof using.
  intros Hh [H1 Hhk H2 H3]. destruct ac as [c e hk oc od r i ch pa ev lg fr]. cbn [a_c a_freed a_hooks a_ev] in *. subst hk. constructor; [done..|].
  cbn [el a_hooks a_c a_ev]. destruct H3 as (A1 & A2 & A3). split_and!.
  - apply not_cleanup_snoc; [done|]. by destruct Hh as [-> | ->].
  - intros Hp. rewrite asked_snoc. destruct Hh as [-> | ->]; [by apply A2|done].
  - intros Hr Hc. rewrite asked_snoc. destruct Hh as [-> | ->]; [done|by apply A3].
Qed.

(** Asking for writing makes up for any change of the output. *)
Lemma alive_write read ac c : alive read ac -> Z.testbit c.(c_flags) 0 = Z.testbit ac.(a_c).(c_flags) 0 -> Z.testbit c.(c_flags) 1 = Z.testbit ac.(a_c).(c_flags) 1 ->
  alive read (el (set_c ac c) addWrite).
Proof using.
  intros [H1 Hhk H2 H3] E0 E1. destruct ac as [c0 e hk oc od r i ch pa ev lg fr]. cbn [a_c a_freed a_hooks a_ev] in *. subst hk. constructor; [done|done|change (Z.testbit (c_flags c) 0 = false); unfold blocking in H2; congruence|].
  cbn [el set_c a_hooks a_c a_ev]. destruct H3 as (A1 & A2 & A3). split_and!.
  - by apply not_cleanup_snoc.
  - intros Hp. by rewrite asked_snoc.
  - intros Hr Hc. rewrite asked_snoc. apply A3; [done|]. by rewrite <- E1.
Qed.

Lemma append_flags c cmd k c' : redisAppend c cmd = Ok (k, c') -> c'.(c_flags) = c.(c_flags).
Proof using.
  unfold redisAppend. destruct (live (c_obuf c)) as [s| |]; cbn [mbind res_bind]; try done.
  destruct (sdscatlen s cmd) as [[s'|]| |]; cbn [mbind res_bind]; try done; [by intros [= _ <-]|]. unfold redisSetError. cbn [mbind res_bind]. by intros [= _ <-].
Qed.

Lemma alive_command read ac fn p cmd k ac' : alive read ac -> redisAsyncCommand_ ac fn p cmd = Ok (k, ac') ->
  alive read ac' /\ in_callback_flag ac' = in_callback_flag ac.
Proof using.
  intros Hal. unfold redisAsyncCommand_. destruct (has_flag ac (Z.lor _ _)); [by intros [= _ <-]|].
  destruct (register ac _ cmd) as [[ac1|]| |] eqn:Er; cbn [mbind res_bind]; try done; [|by intros [= _ <-]].
  destruct (redisAppend (a_c ac1) cmd) as [[k1 c1]| |] eqn:Ea; cbn [mbind res_bind]; try done. intros [= _ <-].
  destruct (register_alike _ _ _ _ Er) as [Halike Hflag]. apply append_flags in Ea. split.
  - pose proof (alive_alike _ _ _ Halike Hal) as H1. unseen (alive_write read ac1 c1 H1 ltac:(by rewrite Ea) ltac:(by rewrite Ea)).
  - rewrite <- Hflag. unfold in_callback_flag, has_flag. destruct ac1. cbn in *. by rewrite Ea.
Qed.

(** ** Callbacks *)

(** While a callback runs, its calls neither free the context nor clear the flag
    that says so. *)
Definition in_callback (read : bool) (ac : redisAsyncContext) : Prop := alive read ac /\ in_callback_flag ac = true.

Lemma api_in_callback read fuel a ac : in_callback read ac -> returns (api fuel a ac) (in_callback read).
Proof using.
  intros [Hal Hf]. destruct fuel as [|fuel]; [by intros w a' w'|]. pose proof (al_freed _ _ Hal) as Hfreed. destruct a as [fn p cmd| |]; cbn [api].
  - rewrite Hfreed. apply returns_lift. intros ac'. destruct (redisAsyncCommand_ ac fn p cmd) as [[k ac1]| |] eqn:E; cbn [mbind res_bind]; try done. intros [= <-].
    destruct (alive_command _ _ _ _ _ _ _ Hal E) as [H1 H2]. split; [done|congruence].
  - unfold redisAsyncDisconnect. rewrite Hfreed, has_flag_set by done. unfold in_callback_flag in *. rewrite Hf. cbn [negb andb]. apply returns_done. split; [unseen Hal|].
    unfold in_callback_flag. by rewrite has_flag_set.
  - unfold redisAsyncFree. rewrite Hfreed, has_flag_set by done. unfold in_callback_flag in *. rewrite Hf. cbn [negb]. apply returns_done. split; [unseen Hal|].
    unfold in_callback_flag. by rewrite has_flag_set.
Qed.

Lemma actions_in_callback read fuel l : forall ac, in_callback read ac -> returns (run_actions (api fuel) l ac) (in_callback read).
Proof using.
  induction l as [|a l IH]; intros ac H; cbn [run_actions]; [by apply returns_done|]. eapply returns_bind; [by apply api_in_callback|]. exact IH.
Qed.

Lemma callback_wakes read fuel ac cb reply : alive read ac -> returns (redisRunCallback (api fuel) ac cb reply) (alive read).
Proof using.
  intros Hal. unfold redisRunCallback. destruct (cb_fn cb) as [fn|]; [|by apply returns_done]. eapply returns_bind; [apply (actions_in_callback read)|].
  - split; [|transitivity (has_flag (set_flag ac REDIS_IN_CALLBACK) REDIS_IN_CALLBACK); [by destruct ac|by apply has_flag_set_same]].
    eapply alive_alike; [apply alike_log|]. unseen Hal.
  - intros ac' [H1 _]. apply returns_done. unseen H1.
Qed.
(** ** The end of a context *)

Lemma flush_replies_wakes read fuel n : forall ac, alive read ac -> returns (flush_replies (api fuel) n ac) (alive read).
Proof using.
  induction n as [|n IH]; intros ac Hal; [by intros w a' w'|]. cbn [flush_replies]. destruct (redisShiftCallback (a_replies ac)) as [[cb|] l]; [|by apply returns_done].
  eapply returns_bind; [apply callback_wakes; unseen Hal|exact IH].
Qed.

Lemma flush_invalid_wakes read fuel n : forall ac, alive read ac -> returns (flush_invalid (api fuel) n ac) (alive read).
Proof using.
  induction n as [|n IH]; intros ac Hal; [by intros w a' w'|]. cbn [flush_invalid]. destruct (redisShiftCallback (a_invalid ac)) as [[cb|] l]; [|by apply returns_done].
  eapply returns_bind; [apply callback_wakes; unseen Hal|exact IH].
Qed.

Lemma flush_sub_wakes read fuel pvariant n : forall it ac, alive read ac -> returns (flush_sub (api fuel) n pvariant it ac) (alive read).
Proof using.
  induction n as [|n IH]; intros it ac Hal; [by intros w a' w'|]. cbn [flush_sub]. eapply returns_bind; [apply returns_any|]. intros [o it'] _.
  destruct o as [[k cb]|]; [|by apply returns_done]. eapply returns_bind; [by apply callback_wakes|]. intros ac' H. by apply IH.
Qed.

Lemma release_sub_wakes read fuel pvariant ac : alive read ac -> returns (release_sub (api fuel) pvariant ac) (alive read).
Proof using.
  intros Hal. unfold release_sub. eapply returns_bind; [apply returns_any|]. intros it _. eapply returns_bind; [by apply flush_sub_wakes|]. intros ac1 H1.
  eapply returns_bind; [apply returns_any|]. intros d _. apply returns_done. unseen H1.
Qed.

Lemma free_gone read fuel ac : alive read ac -> returns (redisAsyncFree_ (api fuel) ac) gone.
Proof using.
  intros Hal. unfold redisAsyncFree_. rewrite (al_freed _ _ Hal).
  eapply returns_bind; [apply flush_replies_wakes, Hal|]. intros ac1 H1. eapply returns_bind; [apply flush_invalid_wakes, H1|]. intros ac2 H2.
  eapply returns_bind; [apply release_sub_wakes, H2|]. intros ac3 H3. eapply returns_bind; [apply release_sub_wakes, H3|]. intros ac4 [_ Hhk _ H4].
  set (ac5 := if _ : bool then _ else _). assert (a_hooks ac5 = a_hooks ac4 /\ a_ev ac5 = a_ev ac4 ++ [cleanup]) as [Eh Ee].
  { unfold ac5. destruct ac4 as [? ? hk ? ? ? ? ? ? ? ? ?]. cbn in Hhk. subst hk. by destruct (_ && _). }
  eapply returns_bind; [apply returns_any|]. intros h _. destruct ac5 as [c e hk oc od r i ch pa ev lg fr]. cbn [a_hooks a_ev] in *. apply returns_done.
  split; [done|]. cbn [a_ev]. subst ev. destruct H4 as (Hc & _). by exists (a_ev ac4).
Qed.

Lemma disconnect_gone read fuel ac : alive read ac -> returns (redisAsyncDisconnect_ (api fuel) ac) gone.
Proof using.
  intros Hal. unfold redisAsyncDisconnect_. assert (alive read (redisAsyncCopyError ac)) as H1 by unseen Hal. destruct (a_err _ =? 0).
  - destruct (redisShiftCallback _) as [[cb|] l]; [by intros w a' w'|]. apply (free_gone read). unseen H1.
  - apply (free_gone read). unseen H1.
Qed.

Lemma returns_gone {A} (m : io A) read (f : A -> redisAsyncContext) : returns m (fun a => gone (f a)) -> returns m (fun a => alive_or_gone read (f a)).
Proof using. intros Hm. eapply returns_weaken; [exact Hm|]. by right. Qed.

(** ** Replies *)

Lemma set_error_alike c t m e c' : redisSetError c t m e = Ok c' -> alike_c c c'.
Proof using. unfold redisSetError. destruct m; [by intros [= <-]|]. destruct (negb _); [done|]. by intros [= <-]. Qed.

Lemma alike_c_trans a b c : alike_c a b -> alike_c b c -> alike_c a c.
Proof using. intros (A1 & A2 & A3) (B1 & B2 & B3). split_and!; congruence. Qed.

Lemma get_reply_alike c : blocking c = false -> returns (redisGetReply c) (fun '(_, _, c') => alike_c c c').
Proof using.
  intros Hb w [[k o] c'] w'. unfold redisGetReply, redisGetReplyFromReader. destruct (live (c_reader c)) as [r| |]; cbn [mbind res_bind]; try done.
  destruct (redisReaderGetReply r) as [[[k1 o1] r1]| |]; cbn [mbind res_bind]; try done. destruct (k1 =? REDIS_ERR).
  - destruct (redisSetError _ _ _ _) as [c1| |] eqn:E; cbn [mbind res_bind]; try done. cbn. intros [= _ _ <- _]. apply set_error_alike in E. exact E.
  - cbn [mbind res_bind]. change (REDIS_OK =? REDIS_ERR) with false. cbv iota. change (blocking (set_reader c r1)) with (blocking c). rewrite Hb. destruct o1; by intros [= _ _ <- _].
Qed.

Lemma buffer_read_alike c : returns (redisBufferRead c) (fun '(_, c') => alike_c c c').
Proof using.
  unfold redisBufferRead. destruct (negb (c_err c =? 0)); [by apply returns_done|]. eapply returns_bind; [apply returns_any|]. intros [[|b d]|e] _.
  - eapply returns_bind; [apply returns_lift; intros c' E; exact (set_error_alike _ _ _ _ _ E)|]. intros c' H. by apply returns_done.
  - eapply returns_bind; [apply returns_any|]. intros r _. eapply returns_bind; [apply returns_any|]. intros [k r'] _. destruct (negb (k =? REDIS_OK)).
    + eapply returns_bind; [apply returns_lift; intros c' E; exact (set_error_alike _ _ _ _ _ E)|]. intros c' H. apply returns_done. eapply alike_c_trans; [|exact H]. done.
    + by apply returns_done.
  - destruct (try_again c e); [by apply returns_done|]. eapply returns_bind; [apply returns_lift; intros c' E; exact (set_error_alike _ _ _ _ _ E)|]. intros c' H. by apply returns_done.
Qed.

(** After writing, [wdone] says whether there is nothing left; a failure leaves the
    output as it was. *)
Lemma buffer_write_done c : returns (redisBufferWrite c) (fun '(k, wdone, c') =>
  c'.(c_flags) = c.(c_flags) /\ (k = REDIS_ERR -> alike_c c c') /\ (k <> REDIS_ERR -> wdone = true -> ~ pending c')).
Proof using.
  unfold redisBufferWrite. destruct (negb (c_err c =? 0)); [by apply returns_done|]. eapply returns_bind; [apply returns_any|]. intros s _.
  eapply (returns_bind _ _ (fun '(k, c') => c_flags c' = c_flags c /\ (k = REDIS_ERR -> alike_c c c'))).
  - destruct (0 <? sdslen s); [|by apply returns_done]. eapply returns_bind; [apply returns_any|]. intros d _. eapply returns_bind; [apply returns_any|]. intros [n|e] _.
    + destruct (0 <? Z.of_nat n); [|by apply returns_done]. destruct (_ =? _); (eapply returns_bind; [apply returns_any|]; intros x _; by apply returns_done).
    + destruct (try_again c e); [by apply returns_done|]. eapply returns_bind; [apply returns_lift; intros c' E; exact E|]. intros c' E. apply returns_done.
      unfold redisSetError in E. destruct (negb _); [done|]. by injection E as <-.
  - intros [k c'] [Ef Ek]. destruct (Z.eqb_spec k REDIS_ERR) as [->|Hk]; [apply returns_done; split_and!; [done|by intros _; apply Ek|done]|].
    eapply returns_bind; [apply returns_lift; intros a E; exact E|]. intros a E. apply returns_done.
    split_and!; [done|done|]. intros _ Hz (s' & Es & Hs). rewrite Es in E. injection E as <-. by apply Z.eqb_eq in Hz.
Qed.

Lemma free_reply_alike ac p ac' : free_reply ac p = Ok ac' -> alike ac ac'.
Proof using.
  unfold free_reply. destruct (live _) as [r| |]; cbn [mbind res_bind]; try done. destruct (freeReplyObject _ _ _) as [h| |]; cbn [mbind res_bind]; try done.
  intros [= <-]. by apply alike_set_c.
Qed.

Lemma subscribe_callback_alike ac reply cb cb' ac' : redisGetSubscribeCallback ac reply cb = Ok (cb', ac') -> alike ac ac'.
Proof using.
  unfold redisGetSubscribeCallback. assert (forall o : option redisCallback * list redisCallback, match o with (None, _) => Ok (cb, ac) | (Some cb, l) => Ok (cb, set_invalid ac l) end = Ok (cb', ac') -> alike ac ac') as Hinv.
  { intros [[cb1|] l] [= _ <-]; [apply alike_set_invalid|done]. }
  destruct reply as [ty x|z|n vs|]; try apply Hinv. destruct (n <? 2); [done|].
  match goal with |- mbind _ ?m = _ -> _ => destruct m as [stype| |] end; cbn [mbind res_bind]; try done.
  match goal with |- mbind _ ?m = _ -> _ => destruct m as [name| |] end; cbn [mbind res_bind]; try done.
  match goal with |- mbind _ ?m = _ -> _ => destruct m as [o| |] end; cbn [mbind res_bind]; try done.
  destruct (live o) as [x| |]; cbn [mbind res_bind]; try done. cbv zeta. set (pv := _ =c _). destruct (dictFind _ _) as [[[k cb1]|]| |]; cbn [mbind res_bind]; try done; [|by intros [= _ <-]].
  destruct (equals_nocase _ _); [|by intros [= _ <-]]. destruct (dictDelete _ _) as [[k' d]| |]; cbn [mbind res_bind]; try done.
  destruct (element vs 2) as [[]| |]; cbn [mbind res_bind]; try done. intros [= _ <-].
  destruct (_ =? 0); [|apply alike_set_sub]. pose proof (alike_clear_flag (set_sub ac pv d) REDIS_SUBSCRIBED eq_refl eq_refl) as Hc.
  destruct (alike_set_sub ac pv d) as ((A1 & A2 & A3) & A4 & A5 & A6), Hc as ((B1 & B2 & B3) & B4 & B5 & B6). repeat split; congruence.
Qed.

Lemma process_wakes read fuel n : forall cb ac, alive read ac -> returns (process_callbacks (api fuel) n cb ac) (alive_or_gone read).
Proof using.
  induction n as [|n IH]; intros cb ac Hal; [by intros w a' w'|]. cbn [process_callbacks].
  eapply returns_bind; [apply get_reply_alike, Hal|]. intros [[status o] c] Hc. assert (alive read (set_c ac c)) as H1 by (eapply alive_alike; [by apply alike_set_c|done]).
  set (ac1 := set_c ac c) in *. clearbody ac1. destruct (negb (status =? REDIS_OK)); [by apply (returns_gone _ _ (fun a => a)), (disconnect_gone read)|].
  destruct o as [[p|k]|]; [|by intros w a' w'|].
  - eapply returns_bind; [apply returns_any|]. intros r _. eapply returns_bind; [apply returns_any|]. intros reply _.
    eapply (returns_bind _ _ (fun '(_, ac2) => alive read ac2)).
    + apply returns_lift. intros [o2 ac2]. destruct (redisShiftCallback (a_replies ac1)) as [[cb1|] l]; [intros [= _ <-]; unseen H1|].
      destruct (is_error reply) as [text|].
      * cbv zeta. destruct (free_reply _ p) as [ac3| |] eqn:E; cbn [mbind res_bind]; try done. intros [= _ <-]. apply free_reply_alike in E.
        eapply alive_alike; [exact E|]. eapply alive_alike; [|exact H1]. by apply alike_set_c.
      * destruct (negb _); [done|]. destruct (has_flag ac1 REDIS_SUBSCRIBED); [|by intros [= _ <-]].
        destruct (redisGetSubscribeCallback ac1 reply cb) as [[cb1 ac3]| |] eqn:E; cbn [mbind res_bind]; try done. intros [= _ <-].
        eapply alive_alike; [by eapply subscribe_callback_alike|done].
    + intros [[cb1|] ac2] H2; [|by apply (returns_gone _ _ (fun a => a)), (disconnect_gone read)]. destruct (cb_fn cb1) as [fn|].
      * eapply returns_bind; [by apply callback_wakes|]. intros ac3 H3.
        eapply (returns_bind _ _ (alive read)); [apply returns_lift; intros ac4 E; eapply alive_alike; [by eapply free_reply_alike|done]|]. intros ac4 H4.
        destruct (has_flag ac4 REDIS_FREEING); [by apply (returns_gone _ _ (fun a => a)), (free_gone read)|by apply IH].
      * eapply (returns_bind _ _ (alive read)); [apply returns_lift; intros ac4 E; eapply alive_alike; [by eapply free_reply_alike|done]|]. intros ac4 H4. by apply IH.
  - eapply returns_bind; [apply returns_any|]. intros obuf _. destruct (_ && _); [by apply (returns_gone _ _ (fun a => a)), (disconnect_gone read)|].
    apply returns_done. left. destruct (has_flag ac1 REDIS_MONITORING); [unseen H1|done].
Qed.

(** ** Events *)

(** The flag of a connection is set before reading is asked for. *)
Lemma alive_connected ac : alive true ac -> alive false (set_flag ac REDIS_CONNECTED).
Proof using.
  intros [H1 Hhk H2 H3]. destruct ac as [c e hk oc od r i ch pa ev lg fr]. constructor; [done|done| |].
  - change (Z.testbit (Z.lor (c_flags c) REDIS_CONNECTED) 0 = false). rewrite Z.lor_spec. cbn [a_c] in H2. unfold blocking in H2. by rewrite H2.
  - destruct H3 as (A1 & A2 & _). split_and!; [done|exact A2|done].
Qed.

Lemma alive_less read ac : alive read ac -> alive false ac.
Proof using. intros [H1 Hhk H2 H3]. constructor; [done..|]. destruct H3 as (A1 & A2 & _). by split_and!. Qed.

Lemma check_wakes fuel st ac : alive true ac ->
  returns (check_connected (api fuel) st ac) (fun '(go, ac') => if go : bool then alive false ac' else alive_or_gone true ac').
Proof using.
  intros Hal. unfold check_connected. destruct (has_flag ac REDIS_CONNECTED) eqn:Ec; [apply returns_done; by eapply alive_less|].
  eapply (returns_bind _ _ (fun '(go, ac') => if go : bool then alive false ac' /\ (has_flag ac' REDIS_CONNECTED = false -> alive true ac') else alive_or_gone true ac')).
  - unfold redisAsyncHandleConnect. destruct st as [|e].
    + apply returns_done. pose proof (alive_connected ac Hal) as H1. split; [destruct (a_onConnect _); [unseen H1|done]|].
      assert (has_flag (if a_onConnect (set_flag ac REDIS_CONNECTED) then log (set_flag ac REDIS_CONNECTED) (l_connect REDIS_OK) else set_flag ac REDIS_CONNECTED) REDIS_CONNECTED = true) as ->; [|done].
      transitivity (has_flag (set_flag ac REDIS_CONNECTED) REDIS_CONNECTED); [by destruct (a_onConnect _), (set_flag ac REDIS_CONNECTED)|by apply has_flag_set_same].
    + eapply (returns_bind _ _ (alike_c ac.(a_c))); [apply returns_lift; intros c' E; by eapply set_error_alike|]. intros c Hc.
      assert (alive true (set_c ac c)) as H1 by (eapply alive_alike; [by apply alike_set_c|done]). destruct (in_progress e).
      * apply returns_done. split; [by eapply alive_less|done].
      * eapply returns_bind; [apply (disconnect_gone true); destruct (a_onConnect _); [unseen H1|done]|]. intros ac' Hg. apply returns_done. by right.
  - intros [[] ac'] H1; cbn [andb]; apply returns_done; [|done]. destruct H1 as [H1 H2]. destruct (has_flag ac' REDIS_CONNECTED); [done|]. left. by apply H2.
Qed.

Lemma read_asked ac : alive false ac -> alive true (el ac addRead).
Proof using.
  intros Hal. pose proof (alive_add false ac addRead ltac:(by left) Hal) as [H1 Hhk H2 H3]. constructor; [done..|]. destruct H3 as (A1 & A2 & _).
  split_and!; [done..|]. intros _ _. destruct ac as [c e hk oc od r i ch pa ev lg fr]. cbn [el a_hooks a_ev] in *. subst hk. by rewrite asked_snoc.
Qed.

Lemma read_wakes fuel st ac : alive true ac -> returns (redisAsyncHandleRead (api fuel) st ac) (alive_or_gone true).
Proof using.
  intros Hal. unfold redisAsyncHandleRead. eapply returns_bind; [by apply check_wakes|]. intros [[] ac1] H1; cbn [negb]; [|by apply returns_done].
  eapply returns_bind; [apply buffer_read_alike|]. intros [k c] Hc. assert (alive false (set_c ac1 c)) as H2 by (eapply alive_alike; [by apply alike_set_c|done]).
  destruct (k =? REDIS_ERR); [by apply (returns_gone _ _ (fun a => a)), (disconnect_gone false)|]. intros w. apply (process_wakes true). by apply read_asked.
Qed.

(** Once it is known whether all was written, writing is asked for or not. *)
Lemma written_asked ac c (wdone : bool) : alive false ac -> c.(c_flags) = ac.(a_c).(c_flags) -> (wdone = true -> ~ pending c) ->
  alive false (el (set_c ac c) (if wdone then delWrite else addWrite)).
Proof using.
  intros Hal Ef Hd. destruct wdone; [|apply alive_write; [done|by rewrite Ef..]]. destruct Hal as [H1 Hhk H2 H3]. destruct ac as [c0 e hk oc od r i ch pa ev lg fr]. cbn [a_c a_freed a_hooks a_ev] in *.
  subst hk. constructor; [done|done|change (Z.testbit (c_flags c) 0 = false); rewrite Ef; exact H2|]. cbn [el set_c a_hooks a_c a_ev]. destruct H3 as (A1 & A2 & A3).
  split_and!; [by apply not_cleanup_snoc| |done]. intros Hp. by destruct (Hd eq_refl).
Qed.

Lemma write_wakes fuel st ac : alive true ac -> returns (redisAsyncHandleWrite (api fuel) st ac) (alive_or_gone true).
Proof using.
  intros Hal. unfold redisAsyncHandleWrite. eapply returns_bind; [by apply check_wakes|]. intros [[] ac1] H1; cbn [negb]; [|by apply returns_done].
  eapply returns_bind; [apply buffer_write_done|]. intros [[k wdone] c] (Ef & Ek & Hd). destruct (Z.eqb_spec k REDIS_ERR) as [->|Hk].
  - apply (returns_gone _ _ (fun a => a)), (disconnect_gone false). eapply alive_alike; [by apply alike_set_c, Ek|done].
  - apply returns_done. left. apply read_asked. apply written_asked; [done..|]. by apply Hd.
Qed.

Lemma call_wakes a ac : alive true ac -> returns (api depth a ac) (alive_or_gone true).
Proof using.
  intros Hal. pose proof (al_freed _ _ Hal) as Hfr. change depth with 2%nat. destruct a as [fn p cmd| |].
  - cbn [api]. rewrite Hfr. apply returns_lift. intros ac'. destruct (redisAsyncCommand_ ac fn p cmd) as [[k ac1]| |] eqn:E; cbn [mbind res_bind]; try done. intros [= <-].
    left. by eapply alive_command.
  - change (returns (redisAsyncDisconnect (api 1) ac) (alive_or_gone true)). unfold redisAsyncDisconnect. rewrite Hfr. cbv zeta.
    assert (alive true (set_flag ac REDIS_DISCONNECTING)) as H1 by unseen Hal. destruct (_ && _); [by apply (returns_gone _ _ (fun a => a)), (disconnect_gone true)|]. apply returns_done. by left.
  - change (returns (redisAsyncFree (api 1) ac) (alive_or_gone true)). unfold redisAsyncFree. rewrite Hfr. cbv zeta.
    assert (alive true (set_flag ac REDIS_FREEING)) as H1 by unseen Hal. destruct (negb _); [by apply (returns_gone _ _ (fun a => a)), (free_gone true)|]. apply returns_done. by left.
Qed.

Lemma step_wakes e ac : alive true ac -> returns (async_step e ac) (alive_or_gone true).
Proof using. intros Hal. destruct e; [by apply call_wakes|by apply read_wakes|by apply write_wakes]. Qed.

Lemma run_wakes es : forall ac, alive_or_gone true ac -> returns (async_run es ac) (alive_or_gone true).
Proof using.
  induction es as [|e es IH]; intros ac H; cbn [async_run]; [by apply returns_done|]. destruct (a_freed ac) eqn:Ef; [by apply returns_done|].
  destruct H as [H|[Hg _]]; [|congruence]. eapply returns_bind; [by apply step_wakes|exact IH].
Qed.

(** ** From the beginning *)

(** A context that a connecting function has made. *)
Record starts (ac : redisAsyncContext) : Prop := {
  st_freed : ac.(a_freed) = false;
  st_flags : ac.(a_c).(c_flags) = 0 \/ ac.(a_c).(c_flags) = 128;
  st_obuf : ~ pending ac.(a_c);
  st_ev : ac.(a_ev) = [] }.

Lemma starts_alive ac : starts ac -> alive true (attach ac).
Proof using.
  intros [H1 H2 H3 H4]. destruct ac as [c e hk oc od r i ch pa ev lg fr]. cbn [a_c a_freed a_ev] in *. subst ev fr.
  constructor; [done|done|change (Z.testbit (c_flags c) 0 = false); by destruct H2 as [-> | ->]|]. split_and!; [apply not_elem_of_nil| |].
  - intros Hp. by destruct H3.
  - intros _. cbn [attach a_c]. by destruct H2 as [-> | ->].
Qed.

Lemma connect_callback_wakes ac : alive true ac -> alive true (redisAsyncSetConnectCallback ac).2.
Proof using.
  intros Hal. unfold redisAsyncSetConnectCallback. destruct (a_onConnect ac); [done|].
  assert (forall ac', alike ac ac' -> alive true (el ac' addWrite)) as H by (intros ac' Ha; apply alive_add; [by right|by eapply alive_alike]).
  destruct ac. by apply H.
Qed.

Lemma disconnect_callback_wakes ac : alive true ac -> alive true (redisAsyncSetDisconnectCallback ac).2.
Proof using. intros Hal. unfold redisAsyncSetDisconnectCallback. destruct (a_onDisconnect ac); [done|]. eapply alive_alike; [|exact Hal]. by destruct ac. Qed.

(** The program attaches the context to an event library and sets the callbacks of
    the connection, or not; then the events. *)
Definition async_use (ac : redisAsyncContext) (on_connect on_disconnect : bool) (es : list async_event) : io redisAsyncContext :=
  let ac := attach ac in
  let ac := if on_connect then (redisAsyncSetConnectCallback ac).2 else ac in
  let ac := if on_disconnect then (redisAsyncSetDisconnectCallback ac).2 else ac in
  async_run es ac.

Lemma use_wakes ac oc od es : starts ac -> returns (async_use ac oc od es) (alive_or_gone true).
Proof using.
  intros Hs. unfold async_use. cbv zeta. apply run_wakes. left. pose proof (starts_alive ac Hs) as H1.
  assert (alive true (if oc then (redisAsyncSetConnectCallback (attach ac)).2 else attach ac)) as H2 by (destruct oc; [by apply connect_callback_wakes|done]).
  set (ac2 := if oc then _ else _) in *. clearbody ac2. destruct od; [by apply disconnect_callback_wakes|done].
Qed.
End Wake.

(** ** On a loop *)

(** What is watched from the beginning stays, unless a hook says otherwise. *)
Lemma asked_more b k l : asked false k l = true -> asked b k l = true.
Proof.
  assert (forall l b b', (b = true -> b' = true) -> asked b k l = true -> asked b' k l = true) as H; [|by apply H].
  clear l b. induction l as [|h l IH]; intros b b' Hb; [exact Hb|]. apply IH. by destruct (asks h k).
Qed.

(** What the loop watches for a context: nothing once it is freed. *)
Definition loop_serves `{EventLoop} (fd : Z) (ac : redisAsyncContext) (l : loop) : Prop :=
  if ac.(a_freed) then forall k, watches l fd k = false
  else (pending ac.(a_c) -> watches l fd k_write = true) /\ (has_flag ac REDIS_CONNECTED = true -> watches l fd k_read = true).

(** After any events, the hooks have run without meeting data that is not there,
    and the loop serves the context. *)
Lemma use_served `{Allocator} `{Strerror} `{Program} `{EventLoopLaws} {E} `{AdapterLaws E} fd ac0 oc od es w ac w' l :
  0 <= fd -> (forall k, watches l fd k = false) -> starts ac0 -> async_use ac0 oc od es w = Ok (Some (ac, w')) ->
  exists v l', run_hooks ac.(a_ev) (attach_to fd l) = Ok (v, l') /\ loop_serves fd ac l' /\ forall fd' k, fd' <> fd -> watches l' fd' k = watches l fd' k.
Proof.
  intros Hfd Hl Hs Es. pose proof (attach_in_step fd l Hfd Hl) as Ha. unfold loop_serves. destruct (use_wakes ac0 oc od es Hs w _ w' Es) as [Hw|Hg].
  - destruct (al_asked _ _ Hw) as (Hc & Hp & Hr). destruct (hooks_in_step _ fd _ l _ Hfd Hc Ha) as ([v l'] & E1 & (e & _ & _ & Hwatch & Ho)).
    exists v, l'. rewrite (al_freed _ _ Hw). cbn [snd] in Hwatch, Ho. split_and!; [done| | |done]; intros Hx; rewrite Hwatch; apply asked_more; [by apply Hp|apply Hr; [done|]].
    change REDIS_CONNECTED with (2 ^ 1) in Hx. unfold has_flag in Hx. by rewrite land_bit in Hx.
  - destruct Hg as (Ef & hs & Ee & Hc). destruct (hooks_in_step _ fd _ l _ Hfd Hc Ha) as (s1 & E1 & Hin). destruct (cleanup_in_step fd _ l _ Hfd Hin) as (v & l' & E2 & Hw & Ho).
    exists v, l'. rewrite Ee, Ef. split_and!; [|done|done]. rewrite run_hooks_app, E1. cbn [mbind res_bind run_hooks]. by rewrite E2.
Qed.

(** libuv and glib may call both handlers for one poll: the second one gets the
    context that the first one freed. *)
Example second_handler_freed :
  match async_session (H := fun _ => true) (H0 := fun _ => []) (H1 := fun _ => []) 7 true true true [e_writable sock_ok] (mk_world [in_eof] [] [] []) with
  | Ok (Some (Some ac, w')) =>
      dispatch (H := fun _ => true) (H0 := fun _ => []) (H1 := fun _ => []) sock_ok (redisLibuvPoll 0 (Z.lor UV_READABLE UV_WRITABLE)) ac w' = UB dangling_pointer
  | _ => False
  end.
Proof. by vm_compute. Qed.
