(* ===== verification/AsyncConnect.v ===== *)
(** * [src/win/hiredis/async.c]: the functions that connect, and the whole way.

    The asynchronous contexts over the sockets of [Net]; then what the event loop of
    any adapter watches for them, from connecting to freeing. *)
From S2P Require Import Prelude CxxString Sds SdsRefine SdsText HiredisFormat HiredisReply HiredisReader HiredisProtocol HiredisReaderRefine HiredisContext HiredisPipeline Net NetSpec Dict Async Adapters AsyncWake.

Section Connect.
Context `{Kernel} `{Gai} `{Strerror} `{Allocator}.

(** What [redisAsyncConnect] and [redisAsyncConnectUnix] do with the context they
    get. *)
Definition checked_initialize (c : option net_context) : net (option redisAsyncContext) :=
  match c with
  | None => ret None
  | Some c =>
      net* o := need (redisAsyncInitialize c.(n_c)) in
      match o with
      | None => net* _ := free_context c in ret None
      | Some ac => ret (Some (redisAsyncCopyError ac))
      end
  end.

Definition redisAsyncConnect (ip : bytes) (port : Z) : net (option redisAsyncContext) :=
  net* c := redisConnectNonBlock ip port in checked_initialize c.

Definition redisAsyncConnectUnix (path : bytes) : net (option redisAsyncContext) :=
  net* c := redisConnectUnixNonBlock path in checked_initialize c.

(** The others keep the context when [realloc] fails; nobody has it then. *)
Definition redisAsyncConnectBind (ip : bytes) (port : Z) (source_addr : bytes) : net (option redisAsyncContext) :=
  net* c := redisConnectBindNonBlock ip port source_addr in
  net* c := need (live c) in
  net* o := need (redisAsyncInitialize c.(n_c)) in ret (redisAsyncCopyError <$> o).

Definition redisAsyncConnectBindWithReuse (ip : bytes) (port : Z) (source_addr : bytes) : net (option redisAsyncContext) :=
  net* c := redisConnectBindNonBlockWithReuse ip port source_addr in
  net* c := need (live c) in
  net* o := need (redisAsyncInitialize c.(n_c)) in ret (redisAsyncCopyError <$> o).

Inductive async_connector : Type :=
  | c_redisAsyncConnect (ip : bytes) (port : Z) | c_redisAsyncConnectUnix (path : bytes)
  | c_redisAsyncConnectBind (ip : bytes) (port : Z) (source_addr : bytes)
  | c_redisAsyncConnectBindWithReuse (ip : bytes) (port : Z) (source_addr : bytes).

Definition async_connect (k : async_connector) : net (option redisAsyncContext) :=
  match k with
  | c_redisAsyncConnect ip port => redisAsyncConnect ip port
  | c_redisAsyncConnectUnix path => redisAsyncConnectUnix path
  | c_redisAsyncConnectBind ip port src => redisAsyncConnectBind ip port src
  | c_redisAsyncConnectBindWithReuse ip port src => redisAsyncConnectBindWithReuse ip port src
  end.

(** The function of [hiredis.c] that each of them calls. *)
Definition connector_of (k : async_connector) : connector :=
  match k with
  | c_redisAsyncConnect ip port => c_redisConnectNonBlock ip port
  | c_redisAsyncConnectUnix path => c_redisConnectUnixNonBlock path
  | c_redisAsyncConnectBind ip port src => c_redisConnectBindNonBlock ip port src
  | c_redisAsyncConnectBindWithReuse ip port src => c_redisConnectBindNonBlockWithReuse ip port src
  end.

(** With memory, the context is the one that connects. *)
Definition async_of (c : redisContext) : redisAsyncContext :=
  mk_async (with_flags c (Z.ldiff c.(c_flags) REDIS_CONNECTED)) c.(c_err) false false false [] [] empty_dict empty_dict [] [] false.

Lemma async_connect_of k s Q : granted -> runs (connect_by (connector_of k)) s (fun o s' => exists n, o = Some n /\ Q (async_of n.(n_c)) s') ->
  runs (async_connect k) s (fun o s' => exists ac, o = Some ac /\ Q ac s').
Proof using.
  intros Hg Hruns. assert (forall c, redisAsyncInitialize c = Ok (Some (mk_async (with_flags c (Z.ldiff c.(c_flags) REDIS_CONNECTED)) 0 false false false [] [] empty_dict empty_dict [] [] false))) as Hinit.
  { intros c. unfold redisAsyncInitialize, dictCreate. by rewrite !Hg. }
  destruct k; cbn [async_connect connector_of connect_by] in *; (eapply runs_bind; [exact Hruns|]); intros o s' (n & -> & HQ); cbv beta;
    unfold checked_initialize, need, runs, net_bind; cbn [mbind res_bind live]; rewrite Hinit; by eexists.
Qed.

Lemma connected_starts block reuse n0 n1 base lost i n s : block = false -> fresh_context block reuse n0 -> n1.(n_c) = n0.(n_c) -> joined block n1 base lost i n s ->
  starts (async_of n.(n_c)) /\ n.(n_c).(c_err) = 0.
Proof using.
  intros -> (obuf & r & -> & Ho & Hs & Hl) En (E & _). rewrite E. cbn [or_flags set_fd with_c n_c]. rewrite En. cbn [of_context n_c c_err c_flags c_fd c_obuf c_reader].
  split; [|done]. constructor; [done|destruct reuse; [by right|by left]| |done]. intros (s' & [= <-] & Hne). by rewrite (repr_sdslen _ _ Ho) in Hne.
Qed.

(** What connecting leaves: a context that starts over a descriptor of its own, or
    one that is not connected. *)
Definition connected_alone (base : gset Z) (s : process) (ac : redisAsyncContext) : Prop :=
  let fd := ac.(a_c).(c_fd) in starts ac /\ ac.(a_err) = 0 /\ 0 < fd /\ fd ∈ s.(p_open) /\ fd ∈ s.(p_nonblock) /\ fd ∉ base.

Lemma async_connect_spec k base s : granted -> 0 ∈ base -> s.(p_open) = base -> s.(p_stray) = [] ->
  runs (async_connect k) s (fun o s' => exists ac, o = Some ac /\ (connected_alone base s' ac \/ (reuses (connector_of k) = false -> ac.(a_err) <> 0))).
Proof using.
  intros Hg H0base Hopen Hstray. apply async_connect_of; [done|]. eapply runs_mono; [eapply (connect_by_spec (connector_of k) base s); try done; by destruct k|].
  intros o s' (n0 & n & x & -> & Hfresh & n1 & En & lost & Hl & Hsz & Hs). exists n. split; [done|]. destruct Hs as [(Hx & Hj)|(Hx & Hf)].
  - left. destruct (connected_starts (blocks (connector_of k)) _ _ _ _ _ _ n _ ltac:(by destruct k) Hfresh En Hj) as [Hst He]. destruct Hj as (_ & Hfd & Ho & Hb). cbn in Hfd, Ho, Hb.
    unfold connected_alone. change (c_fd (a_c (async_of (n_c n)))) with (fd_of n). split_and!; [done|done|done| | |].
    + rewrite (o_open _ _ _ _ _ Ho), mine_pos by done. set_solver.
    + apply Hb. by destruct k.
    + pose proof (o_fresh _ _ _ _ _ Ho Hfd). set_solver.
  - right. intros Hre. destruct Hf as (j & _ & _ & Hre'). by apply Hre'.
Qed.
End Connect.

(** ** The whole way *)


(** Ten bytes of a command are taken at first: the loop of libuv goes on writing. *)
Definition stall_events : list async_event := [e_call (act_command (Some 1%nat) 10 (request_bytes [str "GET"; str "a"])); e_writable sock_ok].

#[local] Instance plain_gai : Gai := fun _ => [].
#[local] Instance plain_strerror : Strerror := fun _ => [].
#[local] Instance no_limit : Allocator := fun _ => true.


(** Without memory for the larger context, [redisAsyncConnectBind] returns nothing
    and the descriptor stays open. *)
Example bind_loses_context :
  match async_connect (H := kernel_but []) (H2 := fun n => negb (n =? async_size)) (c_redisAsyncConnectBind (str "db") 6379 (str "10.0.0.1")) shell with
  | Ok (None, s') => s'.(p_open) = {[ 3 ]} ∪ std_fds
  | _ => False
  end.
Proof. by vm_compute. Qed.
