(* ===== verification/AsyncAnswered.v ===== *)
(** * A calm run answers its commands.

    What AsyncSpec says of any run leaves open that the replies are delivered at all.
    Here the server answers, the system does not fail, and the loop reads as often as
    it was told that there is something to read. *)
From S2P Require Import Prelude CxxString Sds SdsRefine SdsText HiredisFormat HiredisReply HiredisReader HiredisReaderInput HiredisReplyTree HiredisReaderSpec HiredisProtocol HiredisReaderRefine HiredisStream HiredisContext HiredisPipeline Dict Async AsyncCommand AsyncSpec.

Definition is_command (a : action) : Prop := match a with act_command _ _ _ => True | _ => False end.

(** The callbacks of commands, in their order. *)
Definition keys (cmds : list action) : list (nat * nat) :=
  omap (fun a => match a with act_command fn p _ => key (mk_callback fn p) | _ => None end) cmds.

Lemma async_run_app `{Allocator} `{Strerror} `{Program} es1 es2 : forall ac w,
  async_run (es1 ++ es2) ac w = io_bind (async_run es1 ac) (async_run es2) w.
Proof.
  induction es1 as [|e es1 IH]; intros ac w; [done|]. cbn [app async_run]. destruct (a_freed ac) eqn:Ef.
  - unfold io_bind, done. cbn [mbind res_bind]. destruct es2; [done|]. cbn [async_run]. by rewrite Ef.
  - unfold io_bind. destruct (async_step e ac w) as [[[ac1 w1]|]| |]; [|done..]. apply IH.
Qed.

Section Answered.
Context `{HA : Allocator} `{HE : Strerror} `{HP : Program}.
Hypothesis Hg : granted.
Variable limit : Z.
Hypothesis Hlimit : forall l, limit + spent l + 128 <= 2 ^ 29.

(** The program's commands, one after the other. *)
Lemma commands_run cmds : forall ac w rem, Forall ordinary cmds -> Forall is_command cmds -> booked false ac [] -> closing ac = false -> 0 <= rem ->
  writes limit ac (rem + costs cmds) ->
  exists ac', async_run (map e_call cmds) ac w = Ok (Some (ac', w)) /\ booked false ac' [] /\ writes limit ac' rem /\
    ac'.(a_c).(c_reader) = ac.(a_c).(c_reader) /\ ac'.(a_c).(c_err) = ac.(a_c).(c_err) /\ (forall i, bit ac' i = bit ac i) /\
    answers ac'.(a_log) = answers ac.(a_log) /\ commands ac'.(a_log) = commands ac.(a_log) ++ keys cmds.
Proof using Hg Hlimit.
  induction cmds as [|a cmds IH]; intros ac w rem Ho Hcmd Hb Hcl Hrem Hw.
  { exists ac. cbn in Hw. rewrite Z.add_0_r in Hw. cbn. by rewrite app_nil_r. }
  apply Forall_cons_iff in Ho as [Ha Ho]. apply Forall_cons_iff in Hcmd as [Hc Hcmd]. destruct a as [fn p cmd| |]; [|done..].
  change (costs (act_command fn p cmd :: cmds)) with (size cmd + costs cmds) in Hw. pose proof (costs_nonneg cmds).
  replace (rem + (size cmd + costs cmds)) with (rem + costs cmds + size cmd) in Hw by lia.
  destruct (command_spec Hg limit Hlimit False false ac fn p cmd (rem + costs cmds) Ha Hb ltac:(lia) (or_intror Hw)) as (k & ac1 & E & Hb1 & [K1 K2 K3 _ _ _] & W & Hbit & Hcs).
  destruct (IH ac1 w rem Ho Hcmd Hb1) as (ac2 & E2 & Hb2 & W2 & R1 & R2 & R3 & R4 & R5); [unfold closing in *; by rewrite !Hbit|done|by apply W|].
  exists ac2. split; [|split_and!; [done|done|congruence|congruence|intros i; by rewrite R3, Hbit|congruence|]].
  - cbn [map async_run]. rewrite (b_freed _ _ _ Hb), (io_bind_done _ _ ac1 w w); [exact E2|].
    cbn [async_step depth api]. rewrite (b_freed _ _ _ Hb). unfold lift. by rewrite E.
  - destruct Ha as [[f ->] _]. by rewrite R5, (Hcs Hcl), <- app_assoc.
Qed.

Lemma keys_length cmds : Forall ordinary cmds -> Forall is_command cmds -> length (keys cmds) = length cmds.
Proof using.
  induction 1 as [|a cmds Ha Ho IH]; [done|]. intros [Hc Hcmd]%Forall_cons_iff. destruct a as [fn p cmd| |]; [|done..].
  destruct Ha as [[f ->] _]. change (S (length (keys cmds)) = S (length cmds)). by rewrite IH.
Qed.

(** The callbacks of a queue that was answered up to [vs]. *)
Lemma answered_first base l (vs : list value) more : base `prefix_of` callbacks l ++ more -> answers l = map Some vs -> (length vs <= length base)%nat ->
  callbacks l = take (length vs) base.
Proof using.
  intros [rest E] Ha Hle. pose proof (length_callbacks l) as Hlen. rewrite Ha, length_map in Hlen.
  apply (f_equal (take (length vs))) in E. rewrite !take_app_le in E by lia. rewrite <- E, <- Hlen. by rewrite take_ge.
Qed.
End Answered.

(** C6: Every reply reaches its command.  The program gives its commands, then the
    event library its events, among which the program and the callbacks may give more
    commands and disconnect, but not free.  If the server answers with complete replies, no more
    of them than there were commands at first, the system fails at nothing - it may
    still interrupt, take writes in parts and cut the replies anywhere - and the
    loop calls the read handler once for each thing that arrives, then the run
    returns, and the replies were given to the callbacks of the first commands, one
    each, in order; a context that was freed in the meantime had no command left. *)
Theorem async_answered `{Allocator} `{Strerror} `{Program} fd hooks on_connect on_disconnect cmds es vs w :
  granted -> Forall ordinary cmds -> Forall is_command cmds -> Forall ordinary_event es -> Forall calm_event es ->
  (forall l, Forall ordinary (program l)) -> (forall l, Forall stays (program l)) ->
  (forall l, costs cmds + costs (calls es) + spent l + 128 <= 2 ^ 29) ->
  Forall calm_in w.(w_in) -> Forall calm_out w.(w_out) -> readable es = length w.(w_in) -> (writable es <= length w.(w_out))%nat ->
  incoming w.(w_in) = encodes vs -> Forall (fun v => sendable 0 v = true) vs -> size (encodes vs) <= 2 ^ 29 -> (length vs <= length cmds)%nat ->
  exists ac w', async_session fd hooks on_connect on_disconnect (map e_call cmds ++ es) w = Ok (Some (Some ac, w')) /\
    answers ac.(a_log) = map Some vs /\ callbacks ac.(a_log) = take (length vs) (keys cmds) /\
    commands ac.(a_log) = callbacks ac.(a_log) ++ omap key ac.(a_replies) /\ (ac.(a_freed) = true -> ac.(a_replies) = []).
Proof.
  intros Hg Ho Hcmd Hes Hcalm Hprogram Hstays Hlimit Hin Hout Hrd Hwr Hinc Hvs Hsz Hle.
  set (limit := costs cmds + costs (calls es)) in *. set (total := parse_all [] (-1) (incoming w.(w_in))).
  assert (total = (vs, o_wait [] (-1) [])) as Etotal by (unfold total; rewrite Hinc; by apply parse_all_encodes).
  pose proof (costs_nonneg cmds). pose proof (costs_nonneg (calls es)). pose proof (keys_length cmds Ho Hcmd) as Hkeys.
  destruct (session_start Hg fd hooks on_connect on_disconnect w) as (ac & E & Hf).
  destruct (fresh_books limit ac w (costs (calls es) + costs cmds) Hf ltac:(by rewrite Hinc) ltac:(lia) ltac:(lia)) as (Hb & Hw & Hr).
  assert (forall k, bit ac k = false) as Hbits by (intros k; unfold bit; by rewrite (f_flags _ Hf), Z.bits_0).
  destruct (commands_run Hg limit Hlimit cmds ac w (costs (calls es)) Ho Hcmd Hb) as (ac1 & E1 & Hb1 & W1 & R1 & R2 & R3 & R4 & R5);
    [unfold closing; by rewrite !Hbits|lia|done|].
  rewrite (f_log _ Hf) in R4, R5. cbn in R4, R5.
  assert (going limit True total (keys cmds) (costs (calls es)) ac1 w) as Hgo.
  { exists [], 0%nat. split_and!; [done|done|by rewrite R1|done|]. intros _. split.
    - constructor; [rewrite R2; apply Hf|by rewrite R3|done|done|by rewrite R5].
    - intros Hnil. unfold total. by rewrite Hnil. }
  assert (steady total (keys cmds)) as Hsteady by (rewrite Etotal; split; [by eexists _, _, _|cbn; lia]).
  pose proof (run_spec Hg limit Hlimit Hprogram True (fun l _ => Hstays l) total (keys cmds) (fun _ => Hsteady) es ac1 w Hes
    ltac:(intros _; split; [done|lia]) Hgo ltac:(lia) Hwr) as Hrun.
  rewrite E. unfold io_bind. rewrite async_run_app, (io_bind_done _ _ _ _ _ E1).
  destruct (async_run es ac1 w) as [[[ac2 w2]|]| |u]; [|done|done|by destruct Hrun as (? & ? & ? & ? & ? & _ & _ & _ & _ & [] & _)].
  exists ac2, w2. split; [done|]. destruct Hrun as [[(vs2 & n & Hb2 & _ & _ & Ha & Hq) Hdone]|(vs2 & k & cs & _ & (Hfr & Hrep & Hcs & Hcb & Ha) & Hq)].
  - destruct (Hq I) as [Q Hall]. rewrite (Hdone I), Etotal in Hall. specialize (Hall eq_refl). cbn in Hall. subst vs2. pose proof (b_queue _ _ _ Hb2) as Hqueue.
    split_and!; [done| |done|by rewrite (b_freed _ _ _ Hb2)]. eapply answered_first; [rewrite <- Hqueue; apply Q|done|lia].
  - destruct (Hq I) as (-> & Evs & Hp). rewrite Etotal in Evs. cbn in Evs. subst vs2. cbn in Ha. rewrite app_nil_r in Ha.
    split_and!; [done| |by rewrite Hcs, Hcb, Hrep, app_nil_r|done]. eapply (answered_first _ _ _ []); [by rewrite Hcb, app_nil_r|done|lia].
Qed.

(** Two commands, whose callbacks disconnect; the second reply comes in two pieces, and
    reading and writing are interrupted. *)
Definition two_cmds : list action :=
  [act_command (Some 1%nat) 10 (request_bytes [str "SET"; str "key"; str "1234"]); act_command (Some 1%nat) 20 (request_bytes [str "GET"; str "key"])].
Definition leaving : Program := fun l => match last l with Some (l_reply _ _ _) => [act_disconnect] | _ => [] end.
Definition two_replies : list value := [V_string REPLY_STATUS (str "OK"); V_string REPLY_STRING (str "1234")].
Definition calm_loop : list async_event :=
  [e_writable sock_ok; e_writable sock_ok; e_readable sock_ok; e_writable sock_ok; e_readable sock_ok; e_readable sock_ok; e_readable sock_ok].
Definition calm_world : world :=
  mk_world [in_data (encode (V_string REPLY_STATUS (str "OK"))); in_errno EINTR; in_data (str "$4" ++ crlf ++ str "12"); in_data (str "34" ++ crlf)]
    [out_errno EAGAIN; out_taken 10; out_taken 1000] [] [].

Lemma leaving_spent l : spent (H := leaving) l = 0.
Proof.
  unfold spent. generalize (@nil logged). induction l as [|e l IH]; intros pre; [done|]. cbn [spent_from]. rewrite IH.
  unfold program, leaving. rewrite last_snoc. by destruct e.
Qed.

Lemma async_answered_witness :
  exists ac w', async_session (H := fun _ => true) (H0 := fun _ => []) (H1 := leaving) 7 true true true (map e_call two_cmds ++ calm_loop) calm_world = Ok (Some (Some ac, w')) /\
    callbacks ac.(a_log) = [(1%nat, 10%nat); (1%nat, 20%nat)] /\ answers ac.(a_log) = map Some two_replies /\ ac.(a_freed) = true.
Proof.
  assert (forall fn p name args, plain name = true -> ordinary (act_command (Some fn) p (request_bytes (name :: args)))) as Ho.
  { intros fn p name args Hp. split; [by eexists|]. by exists name, args. }
  assert (forall l, leaving l = [] \/ leaving l = [act_disconnect]) as Hl by (intros l; unfold leaving; destruct (last l) as [[]|]; auto).
  destruct (async_answered (H := fun _ => true) (H0 := fun _ => []) (H1 := leaving) 7 true true true two_cmds calm_loop two_replies calm_world)
    as (ac & w' & E & Ha & Hc & _).
  - done.
  - by repeat (apply Forall_cons; split; [apply Ho; by vm_compute|]).
  - by repeat constructor.
  - by repeat constructor.
  - by repeat constructor.
  - intros l. unfold program. destruct (Hl l) as [-> | ->]; by repeat constructor.
  - intros l. unfold program. destruct (Hl l) as [-> | ->]; by repeat constructor.
  - intros l. rewrite leaving_spent. by vm_compute.
  - by repeat (apply Forall_cons; split; [first [done|split; apply Nat.leb_le; by vm_compute]|]).
  - by repeat constructor.
  - done.
  - by vm_compute; lia.
  - by vm_compute.
  - by repeat constructor.
  - by vm_compute.
  - done.
  - exists ac, w'. split; [exact E|]. split; [rewrite Hc; by vm_compute|]. split; [exact Ha|]. vm_compute in E. injection E as <- _. done.
Defined.
