(* ===== verification/AsyncExamples.v ===== *)
(** * [src/win/hiredis/examples/example-*.c], [example-qt.h], [example-qt.cpp].

    Eight programs, one for each adapter: connect, attach, set callbacks, SET, GET, and
    run the event library's loop until the callback of GET has disconnected.  The
    loop's events are given; the record that the adapter keeps and what its loop
    watches follow from the hooks of the context ([run_hooks] of Adapters). *)
From S2P Require Import Prelude CxxString Sds SdsRefine SdsText HiredisFormat HiredisReply HiredisReader HiredisReaderInput HiredisReplyTree HiredisReaderSpec HiredisProtocol HiredisReaderRefine HiredisStream HiredisContext HiredisPipeline Net NetSpec HiredisProgram Dict Async Adapters AsyncCommand AsyncSpec AsyncWake AsyncConnect.

(** A command: its callback, its data, the format and the arguments. *)
Record example_command : Type := mk_command { x_fn : option nat; x_data : nat; x_format : bytes; x_args : list va }.

(** What the programs differ in: the host; what they print before the error of
    connecting; whether they set the callbacks of the connection; the commands, given
    the last argument of the command line; what the callbacks call; the lines that they
    print, given [errstr]; which of them stops the loop, and whether the loop needs
    that to end. *)
Record example : Type := mk_example {
  x_host : bytes; x_error : bytes; x_connection : bool; x_commands : bytes -> list example_command; x_callbacks : Program;
  x_says : bytes -> logged -> res (list bytes); x_stops : logged -> bool; x_needs_stop : bool }.

(** [getCallback] and its data ["end-1"]. *)
Definition get_callback : nat := 1.
Definition end_1 : nat := 1.

(** [SET key %b], [GET key] *)
Definition two_commands (value : bytes) : list example_command :=
  [mk_command None 0 (str "SET key %b") [va_bin value (size value)]; mk_command (Some get_callback) end_1 (str "GET key") []].

(** [redisAsyncDisconnect(c)] when there is a reply. *)
Definition getCallback : Program := fun log => match last log with Some (l_reply _ _ (Some _)) => [act_disconnect] | _ => [] end.

(** [reply->str] *)
Definition reply_text (v : value) : res bytes := match v with V_string _ s => Ok (c_str s) | _ => UB null_pointer end.
Definition say_reply (label : bytes) (reply : option value) : res (list bytes) :=
  match reply with None => Ok [] | Some v => let* s := reply_text v in Ok [label ++ s] end.

Definition plain_says (errstr : bytes) (l : logged) : res (list bytes) :=
  let error := [str "Error: " ++ c_str errstr] in
  match l with
  | l_command _ => Ok []
  | l_reply _ _ reply => say_reply (str "argv[end-1]: ") reply
  | l_connect status => Ok (if negb (status =? REDIS_OK) then error else [str "Connected..."])
  | l_disconnect status => Ok (if negb (status =? REDIS_OK) then error else [str "Disconnected..."])
  end.

(** [example-libev.c], [example-libevent.c], [example-libuv.c], [example-ivykis.c]: the
    loops end when nothing is watched, and the programs differ in nothing else. *)
Definition plain_example : example := mk_example (str "127.0.0.1") (str "Error: ") true two_commands getCallback plain_says (fun _ => false) false.
Definition libev_example : example := plain_example.
Definition libevent_example : example := plain_example.
Definition libuv_example : example := plain_example.
Definition ivykis_example : example := plain_example.

(** [example-ae.c]: [aeStop] after an error and after the end. *)
Definition ae_stops (l : logged) : bool :=
  match l with l_connect status => negb (status =? REDIS_OK) | l_disconnect _ => true | _ => false end.
Definition ae_example : example := mk_example (str "127.0.0.1") (str "Error: ") true two_commands getCallback plain_says ae_stops true.

(** [example-macosx.c]: [CFRunLoopStop] after the end. *)
Definition macosx_stops (l : logged) : bool := match l with l_disconnect status => status =? REDIS_OK | _ => false end.
Definition macosx_example : example := mk_example (str "127.0.0.1") (str "Error: ") true two_commands getCallback plain_says macosx_stops false.

(** [example-glib.c]: [command_cb] of both commands disconnects, with a reply or
    without; [g_error] aborts. *)
Definition command_cb : Program := fun log => match last log with Some (l_reply _ _ _) => [act_disconnect] | _ => [] end.
Definition glib_says (errstr : bytes) (l : logged) : res (list bytes) :=
  match l with
  | l_command _ => Ok []
  | l_reply _ _ reply => say_reply (str "REPLY: ") reply
  | l_connect status => Ok (if negb (status =? REDIS_OK) then [str "Failed to connect: " ++ c_str errstr] else [str "Connected..."])
  | l_disconnect status => if negb (status =? REDIS_OK) then UB assertion_failed else Ok [str "Disconnected..."]
  end.
Definition glib_commands (_ : bytes) : list example_command :=
  [mk_command (Some get_callback) 0 (str "SET key 1234") []; mk_command (Some get_callback) 0 (str "GET key") []].
Definition glib_stops (l : logged) : bool :=
  match l with l_connect status => negb (status =? REDIS_OK) | l_disconnect status => status =? REDIS_OK | _ => false end.
Definition glib_example : example := mk_example (str "127.0.0.1") [] true glib_commands command_cb glib_says glib_stops true.

(** [example-qt.cpp]: [getCallback] prints and emits [finished], which quits; there are
    no callbacks of the connection. *)
Definition qt_says (_ : bytes) (l : logged) : res (list bytes) := match l with l_reply _ _ reply => say_reply (str "key: ") reply | _ => Ok [] end.
Definition qt_commands (value : bytes) : list example_command :=
  [mk_command None 0 (str "SET key %s") [va_str value]; mk_command (Some get_callback) 0 (str "GET key") []].
Definition qt_stops (l : logged) : bool := match l with l_reply _ _ (Some _) => true | _ => false end.
Definition qt_example : example := mk_example (str "localhost") (str "Error: ") false qt_commands (fun _ => []) qt_says qt_stops true.

Section Main.
Context `{Kernel} `{Gai} `{Strerror} `{Allocator} `{Printf} `{Peers}.

Section Loop.
Variable x : example.
#[local] Instance callbacks_ : Program := x.(x_callbacks).

Fixpoint send_commands (l : list example_command) (ac : redisAsyncContext) : res redisAsyncContext :=
  match l with
  | [] => Ok ac
  | c :: l => let* (_, ac) := redisAsyncCommand ac c.(x_fn) c.(x_data) c.(x_format) c.(x_args) in send_commands l ac
  end.

(** The loop returns when it is stopped, or when nothing is watched and that is
    enough; without events it waits. *)
Definition loop_ends (ac : redisAsyncContext) : bool :=
  existsb x.(x_stops) ac.(a_log) || (ac.(a_freed) && negb x.(x_needs_stop)).

(** The lines of the callbacks, in their order. *)
Fixpoint say_all (errstr : bytes) (l : list logged) : res (list bytes) :=
  match l with
  | [] => Ok []
  | e :: l => let* lines := x.(x_says) errstr e in let* more := say_all errstr l in Ok (lines ++ more)
  end.
Definition said (ac : redisAsyncContext) : res (list bytes) := say_all ac.(a_c).(c_errstr) ac.(a_log).

Definition dispatch (e : kind * sock_status) : redisAsyncContext -> io redisAsyncContext :=
  async_step (match e.1 with k_read => e_readable e.2 | k_write => e_writable e.2 end).

Fixpoint run_loop (es : list (kind * sock_status)) (ac : redisAsyncContext) : io redisAsyncContext :=
  if loop_ends ac then done ac
  else
    match es with
    | [] => fun _ => Ok None
    | e :: es => if ac.(a_freed) then fun _ => Ok None else io* ac := dispatch e ac in io* _ := lift (said ac) in run_loop es ac
    end.

(** Attaching, the callbacks, the commands, the loop. *)
Definition use_context (ac : redisAsyncContext) (value : bytes) (es : list (kind * sock_status)) : io redisAsyncContext :=
  let ac := attach ac in
  let ac := if x.(x_connection) then (redisAsyncSetDisconnectCallback (redisAsyncSetConnectCallback ac).2).2 else ac in
  io* ac := lift (send_commands (x.(x_commands) value) ac) in
  run_loop es ac.

Fixpoint print_lines (l : list bytes) : prog unit :=
  match l with [] => p_ret tt | line :: l => p* _ := print_line line in print_lines l end.

(** [main], with [argv[argc-1]] and the events of the loop; what is left of the
    context. *)
Definition async_main (value : bytes) (es : list (kind * sock_status)) : prog (Z * option redisAsyncContext) :=
  p* o := on_net (redisAsyncConnect x.(x_host) 6379) in
  p* ac := p_need (live o) in
  if negb (ac.(a_err) =? 0) then
    p* _ := print_line (x.(x_error) ++ c_str ac.(a_c).(c_errstr)) in p_ret (1, Some ac)
  else
    p* _ := accepted (of_context ac.(a_c)) in
    p* ac := on_socket ac.(a_c).(c_fd) (use_context ac value es) in
    p* lines := p_need (said ac) in
    p* _ := print_lines lines in p_ret (0, Some ac).
End Loop.

Definition free_qt : redisAsyncContext -> io redisAsyncContext :=
  let callbacks : Program := qt_example.(x_callbacks) in fun ac => redisAsyncFree (api depth) ac.

(** [ExampleQt::run] frees the context after an error and goes on: [setContext] reads
    the context that is gone. *)
Definition qt_main (value : bytes) (es : list (kind * sock_status)) : prog (Z * option redisAsyncContext) :=
  p* o := on_net (redisAsyncConnect qt_example.(x_host) 6379) in
  p* ac := p_need (live o) in
  if negb (ac.(a_err) =? 0) then
    p* _ := print_line (str "Error: " ++ c_str ac.(a_c).(c_errstr)) in
    p* ac := on_socket ac.(a_c).(c_fd) (free_qt ac) in
    p_need (if ac.(a_freed) then UB dangling_pointer else Ok (1, Some ac))
  else
    p* _ := accepted (of_context ac.(a_c)) in
    p* ac := on_socket ac.(a_c).(c_fd) (use_context qt_example ac value es) in
    p* lines := p_need (said qt_example ac) in
    p* _ := print_lines lines in p_ret (0, Some ac).
End Main.

(** ** Runs *)

#[local] Instance plain_gai : Gai := fun _ => [].
#[local] Instance plain_strerror : Strerror := fun _ => str "Connection refused".
#[local] Instance no_limit : Allocator := fun _ => true.
#[local] Instance no_printf : Printf := fun _ _ => [].
#[local] Instance table : EventLoop := {|
  loop := Z -> kind -> bool; do_call c l := fun fd k => if decide (fd = call_fd c) then default (l fd k) (meaning c k) else l fd k; watches l := l |}.

(** A server that answers both commands; its second reply comes in two pieces. *)
Definition both_answered (get : value) : Peers := fun _ =>
  mk_world [in_data (encode (V_string REPLY_STATUS (str "OK"))); in_data (take 4 (encode get)); in_data (drop 4 (encode get))]
    [out_taken 10; out_taken 100; out_taken 100] [] [].
Definition hello : value := V_string REPLY_STRING (str "hello").
Definition loop_run : list (kind * sock_status) :=
  [(k_write, sock_ok); (k_write, sock_ok); (k_read, sock_ok); (k_read, sock_ok); (k_read, sock_ok); (k_write, sock_ok)].

Definition outcome : Type := res (option ((Z + (Z * option redisAsyncContext)) * HiredisProgram.program)).

Definition run_example (x : example) (k : Kernel) (p : Peers) (es : list (kind * sock_status)) : outcome :=
  async_main (H := k) (H4 := p) x (str "hello") es (mk_program shell ∅ 0 0 [] []).

(** The program ends with [code], the lines it prints and its context freed; the loop
    of the adapter then watches nothing. *)
Definition ends_well (E : Type) `{Adapter E} (code : Z) (lines : list bytes) (m : outcome) : bool :=
  match m with
  | Ok (Some (inr (z, Some ac), g)) =>
      (z =? code) && bool_decide (g.(g_out) = lines) && ac.(a_freed) &&
      match run_hooks ac.(a_ev) (attach_to ac.(a_c).(c_fd) (fun _ _ => false)) with
      | Ok (_, l) => negb (watches l ac.(a_c).(c_fd) k_read) && negb (watches l ac.(a_c).(c_fd) k_write)
      | _ => false
      end
  | _ => false
  end.

Definition said_lines : list bytes := [str "Connected..."; str "argv[end-1]: hello"; str "Disconnected..."].

Example examples_end :
  ends_well redisLibevEvents 0 said_lines (run_example libev_example (kernel_but []) (both_answered hello) loop_run) &&
  ends_well redisLibeventEvents 0 said_lines (run_example libevent_example (kernel_but []) (both_answered hello) loop_run) &&
  ends_well redisLibuvEvents 0 said_lines (run_example libuv_example (kernel_but []) (both_answered hello) loop_run) &&
  ends_well redisIvykisEvents 0 said_lines (run_example ivykis_example (kernel_but []) (both_answered hello) loop_run) &&
  ends_well redisAeEvents 0 said_lines (run_example ae_example (kernel_but []) (both_answered hello) loop_run) &&
  ends_well RedisRunLoop 0 said_lines (run_example macosx_example (kernel_but []) (both_answered hello) loop_run) &&
  ends_well RedisSource 0 [str "Connected..."; str "REPLY: OK"; str "REPLY: hello"; str "Disconnected..."]
    (run_example glib_example (kernel_but []) (both_answered hello) loop_run) = true.
Proof. by vm_compute. Qed.

(** [qt_main] quits with the reply; its context is still there. *)
Definition run_qt (k : Kernel) (p : Peers) (es : list (kind * sock_status)) : outcome :=
  qt_main (H := k) (H4 := p) (str "hello") es (mk_program shell ∅ 0 0 [] []).
Example qt_quits :
  match run_qt (kernel_but []) (both_answered hello) loop_run with
  | Ok (Some (inr (0, Some ac), g)) => bool_decide (g.(g_out) = [str "key: hello"]) && negb ac.(a_freed)
  | _ => false
  end = true.
Proof. by vm_compute. Qed.

(** The connection is refused, at once or when the loop learns of it.  The context that
    fails at once is left. *)
Definition refused_kernel : Kernel := kernel_but [(4%nat, fails_with (errno_other 111))].
Definition refused_later : list (kind * sock_status) := [(k_write, sock_error (errno_other 111))].
Definition leaves (code : Z) (lines : list bytes) (m : outcome) : bool :=
  match m with Ok (Some (inr (z, Some ac), g)) => (z =? code) && bool_decide (g.(g_out) = lines) && negb ac.(a_freed) | _ => false end.
Example examples_refused :
  forallb (fun x => leaves 1 [x.(x_error) ++ str "Connection refused"] (run_example x refused_kernel (both_answered hello) []))
    [libuv_example; ae_example; macosx_example; glib_example] &&
  ends_well redisLibevEvents 0 [str "Error: Connection refused"] (run_example libev_example (kernel_but []) (both_answered hello) refused_later) &&
  ends_well redisAeEvents 0 [str "Error: Connection refused"] (run_example ae_example (kernel_but []) (both_answered hello) refused_later) &&
  ends_well RedisRunLoop 0 [str "Error: Connection refused"] (run_example macosx_example (kernel_but []) (both_answered hello) refused_later) &&
  ends_well RedisSource 0 [str "Failed to connect: Connection refused"] (run_example glib_example (kernel_but []) (both_answered hello) refused_later) = true.
Proof. by vm_compute. Qed.

(** [ExampleQt::run] uses the context that it has freed; without a reply, nothing
    quits. *)
Example qt_uses_freed : run_qt refused_kernel (both_answered hello) [] = UB dangling_pointer.
Proof. by vm_compute. Qed.
Example qt_waits : run_qt (kernel_but []) (both_answered hello) refused_later = Ok None.
Proof. by vm_compute. Qed.

(** [reply->str] of a reply that has none. *)
Example nil_reply_printed : run_example libuv_example (kernel_but []) (both_answered V_nil) loop_run = UB null_pointer.
Proof. by vm_compute. Qed.
